(** * zstd-purego: stream adapters over a step-driven native engine

    A shallow embedding of the Go package [zstd]: the one-shot
    [Zstd.Compress] / [Zstd.Decompress] pair (zstd.go) and the streaming
    [Reader] and [Writer] adapters (the corrected stream file).  The native
    library is reached through function pointers stored in the [Zstd]
    struct; here it is a record of functions over an abstract engine state,
    so that every statement below holds for the real library and for any
    fake engine a test may plug in. *)

From Stdlib Require Import ZArith List Lia Bool String.
From Stdlib.Strings Require Import Byte.
Import ListNotations.
Open Scope Z_scope.

Set Implicit Arguments.

(** ** Machine integers and slices *)

(** [uint64(x)]: the value kept modulo 2^64. *)
Definition u64 (x : Z) : Z := x mod 2 ^ 64.

(** [int(x)] for a [uint64] x on a 64-bit platform: two's complement. *)
Definition to_int (x : Z) : Z :=
  let y := x mod 2 ^ 64 in if y <? 2 ^ 63 then y else y - 2 ^ 64.

(** [int] arithmetic wraps around in Go. *)
Definition wrap_int (x : Z) : Z := to_int x.

Definition len (A : Type) (l : list A) : Z := Z.of_nat (List.length l).

(** [maxAlloc] of the Go runtime on the platforms the package supports,
    linux/amd64 and darwin/arm64: the largest size [make] accepts. *)
Definition maxAlloc : Z := 2 ^ 48.

(** [make([]byte, n)] panics with "makeslice: len out of range" unless
    the length is in range. *)
Definition makeslice_ok (n : Z) : bool := (0 <=? n) && (n <=? maxAlloc).

(** The slice that [make([]byte, n)] returns for a length in range: [n]
    zero bytes.  A call whose length is not a constant of the package is
    preceded by the test [makeslice_ok]; an allocation in range is taken
    to succeed. *)
Definition make (n : Z) : list byte := repeat x00 (Z.to_nat n).

(** Bytes [src] written from the start of the region [dst]; a write never
    extends the region. *)
Definition overwrite (dst src : list byte) : list byte :=
  firstn (List.length dst) (src ++ skipn (List.length src) dst).

(** [copy(dst, src)]: number of bytes copied and the new [dst]. *)
Definition copy (dst src : list byte) : Z * list byte :=
  (Z.min (len dst) (len src), overwrite dst src).

(** [s[lo:hi]] on a slice whose capacity is its length. *)
Definition slice (s : list byte) (lo hi : Z) : option (list byte) :=
  if (0 <=? lo) && (lo <=? hi) && (hi <=? len s)
  then Some (firstn (Z.to_nat (hi - lo)) (skipn (Z.to_nat lo) s))
  else None.

(** A byte slice that may be [nil]. *)
Inductive bytes : Type :=
| nil_bytes
| some_bytes (l : list byte).

(** ** Errors and outcomes *)

(** Go [error] values; a [nil] error is [None]. *)
Inductive error : Type :=
| io_EOF
| Errorf (msg : string)
| io_error (code : Z).

(** A call returns, panics (index or slice bounds out of range), or is
    still running when the fuel of the model runs out. *)
Inductive outcome (A : Type) : Type :=
| Done (a : A)
| Panic (msg : string)
| OutOfFuel.
Arguments Panic {A} msg.
Arguments OutOfFuel {A}.

(** ** Buffer cursors *)

(** An [unsafe.Pointer] into Go memory, with the region it designates. *)
Inductive pointer : Type :=
| nil_pointer
| address_of (mem : list byte).

Definition region (p : pointer) : list byte :=
  match p with nil_pointer => [] | address_of mem => mem end.

Record ZstdOutBuffer : Type := mkOut { Dst : pointer; oSize : Z; oPos : Z }.
Record ZstdInBuffer : Type := mkIn { Src : pointer; iSize : Z; iPos : Z }.

(** What one streaming step leaves behind: the returned hint (or error
    code), the two cursor positions after the call, and the bytes written
    from the start of the destination region. *)
Record StepResult : Type :=
  mkStep { hint : Z; out_pos : Z; in_pos : Z; written : list byte }.

(** Constants of the package. *)
Definition EndContinue : Z := 0.
Definition EndFlush : Z := 1.
Definition EndEnd : Z := 2.
Definition defaultReadBufferSize : Z := 16 * 1024.
Definition defaultWriteBufferSize : Z := 32 * 1024.
Definition BestSpeed : Z := 1.
Definition DefaultCompression : Z := 3.
Definition BestCompression : Z := 19.
Definition UltraCompression : Z := 22.

(** ** The engine *)

(** Native handles are addresses; [nil] is 0. *)
Definition handle := Z.

(** The function table of the [Zstd] struct.  [E] is the state of the
    native library. *)
Record Zstd (E : Type) : Type := mkZstd {
  compressBound : Z -> Z;
  isError : Z -> Z;
  getErrorName : Z -> string;
  compress : Z -> list byte -> Z -> Z -> E -> (Z * list byte) * E;
  decompress : Z -> list byte -> Z -> E -> (Z * list byte) * E;
  createCCtx : E -> handle * E;
  freeCCtx : handle -> E -> E;
  createDCtx : E -> handle * E;
  freeDCtx : handle -> E -> E;
  createCStream : E -> handle * E;
  freeCStream : handle -> E -> E;
  compressStream2 :
    handle -> ZstdOutBuffer -> ZstdInBuffer -> Z -> E -> StepResult * E;
  createDStream : E -> handle * E;
  freeDStream : handle -> E -> E;
  decompressStream :
    handle -> ZstdOutBuffer -> ZstdInBuffer -> E -> StepResult * E
}.

(** ** Traces *)

(** Every call that leaves the package: native calls with their arguments
    and results, and the calls on the underlying [io.Writer] and
    [io.Reader]. *)
Inductive Call : Type :=
| call_compressBound (n r : Z)
| call_isError (code r : Z)
| call_getErrorName (code : Z)
| call_compress (cap : Z) (src : list byte) (level r : Z)
| call_decompress (cap : Z) (src : list byte) (r : Z)
| call_createCCtx (h : handle)
| call_freeCCtx (h : handle)
| call_createDCtx (h : handle)
| call_freeDCtx (h : handle)
| call_createCStream (h : handle)
| call_freeCStream (h : handle)
| call_compressStream2
    (h : handle) (o : ZstdOutBuffer) (i : ZstdInBuffer) (endOp : Z)
    (r : StepResult)
| call_createDStream (h : handle)
| call_freeDStream (h : handle)
| call_decompressStream
    (h : handle) (o : ZstdOutBuffer) (i : ZstdInBuffer) (r : StepResult)
| sink_Write (p : list byte) (n : Z) (err : option error)
| source_Read (cap n : Z) (err : option error).

Definition is_native (c : Call) : bool :=
  match c with
  | sink_Write _ _ _ | source_Read _ _ _ => false
  | _ => true
  end.

(** The world an adapter runs in: the library, the underlying stream and
    the calls made so far, most recent first. *)
Record World (E S : Type) : Type :=
  mkWorld { engine : E; stream_io : S; calls : list Call }.

(** An [io.Writer]: bytes accepted and error. *)
Definition Sink (S : Type) : Type := list byte -> S -> (Z * option error) * S.

(** An [io.Reader] called with a buffer of the given length: count, the
    bytes stored from the start of the buffer, and error. *)
Definition Source (S : Type) : Type :=
  Z -> S -> (Z * list byte * option error) * S.

(** ** Native calls, recorded *)

Section Native.
Context {E S : Type}.
Variable z : Zstd E.

Definition log (c : Call) (st : World E S) : World E S :=
  mkWorld (engine st) (stream_io st) (c :: calls st).

Definition with_engine (e : E) (st : World E S) : World E S :=
  mkWorld e (stream_io st) (calls st).

Definition with_io (s : S) (st : World E S) : World E S :=
  mkWorld (engine st) s (calls st).

Definition do_compressBound (n : Z) (st : World E S) : Z * World E S :=
  let r := u64 (compressBound z n) in (r, log (call_compressBound n r) st).

Definition do_isError (code : Z) (st : World E S) : Z * World E S :=
  let r := isError z code in (r, log (call_isError code r) st).

Definition do_getErrorName (code : Z) (st : World E S)
  : string * World E S :=
  (getErrorName z code, log (call_getErrorName code) st).

Definition do_compress (cap : Z) (src : list byte) (level : Z)
    (st : World E S) : (Z * list byte) * World E S :=
  let '((r, out), e) := compress z cap src (u64 (len src)) level (engine st) in
  ((u64 r, out), log (call_compress cap src level (u64 r)) (with_engine e st)).

Definition do_decompress (cap : Z) (src : list byte) (st : World E S)
  : (Z * list byte) * World E S :=
  let '((r, out), e) := decompress z cap src (u64 (len src)) (engine st) in
  ((u64 r, out), log (call_decompress cap src (u64 r)) (with_engine e st)).

Definition do_create (create : E -> handle * E) (ev : handle -> Call)
    (st : World E S) : handle * World E S :=
  let '(h, e) := create (engine st) in (h, log (ev h) (with_engine e st)).

Definition do_free (free : handle -> E -> E) (ev : handle -> Call)
    (h : handle) (st : World E S) : World E S :=
  log (ev h) (with_engine (free h (engine st)) st).

(** The engine reports positions and hints as [uint64]. *)
Definition as_uint64 (r : StepResult) : StepResult :=
  mkStep (u64 (hint r)) (u64 (out_pos r)) (u64 (in_pos r)) (written r).

Definition do_compressStream2 (h : handle) (o : ZstdOutBuffer)
    (i : ZstdInBuffer) (endOp : Z) (st : World E S)
  : StepResult * World E S :=
  let '(r, e) := compressStream2 z h o i endOp (engine st) in
  (as_uint64 r,
   log (call_compressStream2 h o i endOp (as_uint64 r)) (with_engine e st)).

Definition do_decompressStream (h : handle) (o : ZstdOutBuffer)
    (i : ZstdInBuffer) (st : World E S) : StepResult * World E S :=
  let '(r, e) := decompressStream z h o i (engine st) in
  (as_uint64 r,
   log (call_decompressStream h o i (as_uint64 r)) (with_engine e st)).

Definition do_sink_Write (sink : Sink S) (p : list byte) (st : World E S)
  : (Z * option error) * World E S :=
  let '((n, err), s) := sink p (stream_io st) in
  ((n, err), log (sink_Write p n err) (with_io s st)).

Definition do_source_Read (source : Source S) (cap : Z) (st : World E S)
  : (Z * list byte * option error) * World E S :=
  let '((n, data, err), s) := source cap (stream_io st) in
  ((n, data, err), log (source_Read cap n err) (with_io s st)).
End Native.

(** ** Writer *)

Record Writer : Type := mkWriter {
  w_ctx : handle;
  w_level : Z;
  w_buffer : list byte;
  w_inBuffer : ZstdInBuffer;
  w_outBuffer : ZstdOutBuffer;
  w_stream : handle
}.

Definition set_w_ctx (h : handle) (w : Writer) : Writer :=
  mkWriter h (w_level w) (w_buffer w) (w_inBuffer w) (w_outBuffer w)
    (w_stream w).
Definition set_w_buffer (b : list byte) (w : Writer) : Writer :=
  mkWriter (w_ctx w) (w_level w) b (w_inBuffer w) (w_outBuffer w) (w_stream w).
Definition set_w_inBuffer (i : ZstdInBuffer) (w : Writer) : Writer :=
  mkWriter (w_ctx w) (w_level w) (w_buffer w) i (w_outBuffer w) (w_stream w).
Definition set_w_outBuffer (o : ZstdOutBuffer) (w : Writer) : Writer :=
  mkWriter (w_ctx w) (w_level w) (w_buffer w) (w_inBuffer w) o (w_stream w).
Definition set_w_stream (h : handle) (w : Writer) : Writer :=
  mkWriter (w_ctx w) (w_level w) (w_buffer w) (w_inBuffer w) (w_outBuffer w) h.

(** The engine's writes through the two cursor pointers and into the
    staging buffer. *)
Definition w_after_step (r : StepResult) (w : Writer) : Writer :=
  mkWriter (w_ctx w) (w_level w)
    (overwrite (w_buffer w) (written r))
    (mkIn (Src (w_inBuffer w)) (iSize (w_inBuffer w)) (in_pos r))
    (mkOut (Dst (w_outBuffer w)) (oSize (w_outBuffer w)) (out_pos r))
    (w_stream w).

Section WriterMethods.
Context {E S : Type}.
Variable z : Zstd E.
Variable sink : Sink S.

(** [w.outBuffer] set up on the staging buffer; [&w.buffer[0]] panics
    on an empty buffer. *)
Definition w_setup_out (w : Writer) : option Writer :=
  match w_buffer w with
  | [] => None
  | _ =>
      Some (set_w_outBuffer
              (mkOut (address_of (w_buffer w)) (u64 (len (w_buffer w))) 0) w)
  end.

(** [w.writer.Write(w.buffer[:w.outBuffer.Pos])] when [Pos > 0]. *)
Definition w_drain (w : Writer) (st : World E S)
  : outcome (option error * World E S) :=
  if 0 <? oPos (w_outBuffer w) then
    match slice (w_buffer w) 0 (oPos (w_outBuffer w)) with
    | None => Panic "slice bounds out of range"%string
    | Some out =>
        let '((_, err), st1) := do_sink_Write sink out st in
        Done (err, st1)
    end
  else Done (None, st).

(** The loop of [Write]: [for w.inBuffer.Pos < w.inBuffer.Size]. *)
Fixpoint Write_loop (fuel : nat) (lenp : Z) (w : Writer) (st : World E S)
  : outcome (Writer * World E S * (Z * option error)) :=
  if iPos (w_inBuffer w) <? iSize (w_inBuffer w) then
    match fuel with
    | O => OutOfFuel
    | Datatypes.S fuel' =>
        match w_setup_out w with
        | None => Panic "index out of range"%string
        | Some w1 =>
            let '(r, st1) :=
              do_compressStream2 z (w_stream w1) (w_outBuffer w1)
                (w_inBuffer w1) EndContinue st in
            let w2 := w_after_step r w1 in
            let '(e, st2) := do_isError z (hint r) st1 in
            if negb (e =? 0) then
              let '(name, st3) := do_getErrorName z (hint r) st2 in
              Done (w2, st3,
                    (to_int (iPos (w_inBuffer w2)),
                     Some (Errorf ("compression error: "%string ++ name)%string)))
            else
              match w_drain w2 st2 with
              | Done (Some err, st3) =>
                  Done (w2, st3, (to_int (iPos (w_inBuffer w2)), Some err))
              | Done (None, st3) => Write_loop fuel' lenp w2 st3
              | Panic m => Panic m
              | OutOfFuel => OutOfFuel
              end
        end
    end
  else Done (w, st, (lenp, None)).

Definition Writer_Write (fuel : nat) (p : list byte) (w : Writer)
    (st : World E S) : outcome (Writer * World E S * (Z * option error)) :=
  if len p =? 0 then Done (w, st, (0, None))
  else
    let '(w1, st1) :=
      if w_stream w =? 0 then
        let '(h, st1) :=
          do_create (createCStream z) call_createCStream st in
        (set_w_stream h w, st1)
      else (w, st) in
    if w_stream w1 =? 0 then
      Done (w1, st1,
            (0, Some (Errorf "failed to create compression stream"%string)))
    else
      let w2 := set_w_inBuffer (mkIn (address_of p) (u64 (len p)) 0) w1 in
      Write_loop fuel (len p) w2 st1.

(** The loop of [Flush]: step with an empty input in mode [EndFlush]
    until the engine returns 0. *)
Fixpoint Flush_loop (fuel : nat) (w : Writer) (st : World E S)
  : outcome (Writer * World E S * option error) :=
  match fuel with
  | O => OutOfFuel
  | Datatypes.S fuel' =>
      match w_setup_out w with
      | None => Panic "index out of range"%string
      | Some w1 =>
          let '(r, st1) :=
            do_compressStream2 z (w_stream w1) (w_outBuffer w1)
              (w_inBuffer w1) EndFlush st in
          let w2 := w_after_step r w1 in
          let '(e, st2) := do_isError z (hint r) st1 in
          if negb (e =? 0) then
            let '(name, st3) := do_getErrorName z (hint r) st2 in
            Done (w2, st3, Some (Errorf ("flush error: " ++ name)%string))
          else
            match w_drain w2 st2 with
            | Done (Some err, st3) => Done (w2, st3, Some err)
            | Done (None, st3) =>
                if hint r =? 0 then Done (w2, st3, None)
                else Flush_loop fuel' w2 st3
            | Panic m => Panic m
            | OutOfFuel => OutOfFuel
            end
      end
  end.

Definition Writer_Flush (fuel : nat) (w : Writer) (st : World E S)
  : outcome (Writer * World E S * option error) :=
  if w_stream w =? 0 then Done (w, st, None)
  else
    let w1 := set_w_inBuffer (mkIn nil_pointer 0 0) w in
    Flush_loop fuel w1 st.

(** [w.zstd.freeCStream(w.stream); w.stream = nil]. *)
Definition w_free_stream (w : Writer) (st : World E S)
  : Writer * World E S :=
  (set_w_stream 0 w,
   do_free (freeCStream z) call_freeCStream (w_stream w) st).

(** The loop of [Close], in mode [EndEnd], followed by the release of
    the stream; the two faulting exits release it themselves. *)
Fixpoint Close_loop (fuel : nat) (w : Writer) (st : World E S)
  : outcome (Writer * World E S * option error) :=
  match fuel with
  | O => OutOfFuel
  | Datatypes.S fuel' =>
      match w_setup_out w with
      | None => Panic "index out of range"%string
      | Some w1 =>
          let '(r, st1) :=
            do_compressStream2 z (w_stream w1) (w_outBuffer w1)
              (w_inBuffer w1) EndEnd st in
          let w2 := w_after_step r w1 in
          let '(e, st2) := do_isError z (hint r) st1 in
          if negb (e =? 0) then
            let '(w3, st3) := w_free_stream w2 st2 in
            let '(name, st4) := do_getErrorName z (hint r) st3 in
            Done (w3, st4, Some (Errorf ("close error: " ++ name)%string))
          else
            match w_drain w2 st2 with
            | Done (Some err, st3) =>
                let '(w4, st4) := w_free_stream w2 st3 in
                Done (w4, st4, Some err)
            | Done (None, st3) =>
                if hint r =? 0 then
                  let '(w4, st4) := w_free_stream w2 st3 in
                  Done (w4, st4, None)
                else Close_loop fuel' w2 st3
            | Panic m => Panic m
            | OutOfFuel => OutOfFuel
            end
      end
  end.

(** The deferred function of [Close]. *)
Definition Close_deferred (w : Writer) (st : World E S)
  : Writer * World E S :=
  if negb (w_ctx w =? 0) then
    (set_w_ctx 0 w, do_free (freeCCtx z) call_freeCCtx (w_ctx w) st)
  else (w, st).

Definition Close_body (fuel : nat) (w : Writer) (st : World E S)
  : outcome (Writer * World E S * option error) :=
  if w_stream w =? 0 then Done (w, st, None)
  else
    let w1 := set_w_inBuffer (mkIn nil_pointer 0 0) w in
    Close_loop fuel w1 st.

Definition Writer_Close (fuel : nat) (w : Writer) (st : World E S)
  : outcome (Writer * World E S * option error) :=
  match Close_body fuel w st with
  | Done (w1, st1, err) =>
      let '(w2, st2) := Close_deferred w1 st1 in Done (w2, st2, err)
  | Panic m => Panic m
  | OutOfFuel => OutOfFuel
  end.

(** [Zstd.NewWriter]. *)
Definition NewWriter (level : Z) (st : World E S) : Writer * World E S :=
  let '(ctx, st1) := do_create (createCCtx z) call_createCCtx st in
  (mkWriter ctx level (make defaultWriteBufferSize) (mkIn nil_pointer 0 0)
     (mkOut nil_pointer 0 0) 0, st1).
End WriterMethods.

(** ** Reader *)

Record Reader : Type := mkReader {
  r_ctx : handle;
  r_buffer : list byte;
  r_inBuffer : ZstdInBuffer;
  r_outBuffer : ZstdOutBuffer;
  r_readBuffer : bytes;
  r_pos : Z;
  r_end : Z;
  r_streamEnded : bool;
  r_stream : handle
}.

Definition set_r_ctx (h : handle) (r : Reader) : Reader :=
  mkReader h (r_buffer r) (r_inBuffer r) (r_outBuffer r) (r_readBuffer r)
    (r_pos r) (r_end r) (r_streamEnded r) (r_stream r).
Definition set_r_buffer (b : list byte) (r : Reader) : Reader :=
  mkReader (r_ctx r) b (r_inBuffer r) (r_outBuffer r) (r_readBuffer r)
    (r_pos r) (r_end r) (r_streamEnded r) (r_stream r).
Definition set_r_inBuffer (i : ZstdInBuffer) (r : Reader) : Reader :=
  mkReader (r_ctx r) (r_buffer r) i (r_outBuffer r) (r_readBuffer r)
    (r_pos r) (r_end r) (r_streamEnded r) (r_stream r).
Definition set_r_outBuffer (o : ZstdOutBuffer) (r : Reader) : Reader :=
  mkReader (r_ctx r) (r_buffer r) (r_inBuffer r) o (r_readBuffer r)
    (r_pos r) (r_end r) (r_streamEnded r) (r_stream r).
Definition set_r_readBuffer (b : bytes) (r : Reader) : Reader :=
  mkReader (r_ctx r) (r_buffer r) (r_inBuffer r) (r_outBuffer r) b
    (r_pos r) (r_end r) (r_streamEnded r) (r_stream r).
Definition set_r_pos (n : Z) (r : Reader) : Reader :=
  mkReader (r_ctx r) (r_buffer r) (r_inBuffer r) (r_outBuffer r)
    (r_readBuffer r) n (r_end r) (r_streamEnded r) (r_stream r).
Definition set_r_end (n : Z) (r : Reader) : Reader :=
  mkReader (r_ctx r) (r_buffer r) (r_inBuffer r) (r_outBuffer r)
    (r_readBuffer r) (r_pos r) n (r_streamEnded r) (r_stream r).
Definition set_r_streamEnded (b : bool) (r : Reader) : Reader :=
  mkReader (r_ctx r) (r_buffer r) (r_inBuffer r) (r_outBuffer r)
    (r_readBuffer r) (r_pos r) (r_end r) b (r_stream r).
Definition set_r_stream (h : handle) (r : Reader) : Reader :=
  mkReader (r_ctx r) (r_buffer r) (r_inBuffer r) (r_outBuffer r)
    (r_readBuffer r) (r_pos r) (r_end r) (r_streamEnded r) h.

(** The contents of [r.readBuffer]; a [nil] slice has none. *)
Definition readBuffer_mem (r : Reader) : list byte :=
  match r_readBuffer r with nil_bytes => [] | some_bytes l => l end.

(** The engine's writes through the two cursor pointers and into
    [r.readBuffer]. *)
Definition r_after_step (res : StepResult) (r : Reader) : Reader :=
  mkReader (r_ctx r) (r_buffer r)
    (mkIn (Src (r_inBuffer r)) (iSize (r_inBuffer r)) (in_pos res))
    (mkOut (Dst (r_outBuffer r)) (oSize (r_outBuffer r)) (out_pos res))
    (some_bytes (overwrite (readBuffer_mem r) (written res)))
    (r_pos r) (r_end r) (r_streamEnded r) (r_stream r).

Section ReaderMethods.
Context {E S : Type}.
Variable z : Zstd E.
Variable source : Source S.

(** [n := copy(p, r.readBuffer[r.pos:r.end]); r.pos += n; return n, nil] *)
Definition r_serve (p : list byte) (r : Reader) (st : World E S)
  : outcome (Reader * World E S * (Z * list byte * option error)) :=
  match slice (readBuffer_mem r) (r_pos r) (r_end r) with
  | None => Panic "slice bounds out of range"%string
  | Some staged =>
      let '(n, p') := copy p staged in
      Done (set_r_pos (r_pos r + n) r, st, (n, p', None))
  end.

(** Lazy creation of the decompression stream, at the head of the loop
    body.  [None]: creation failed. *)
Definition r_init_stream (r : Reader) (st : World E S)
  : option Reader * World E S :=
  if r_stream r =? 0 then
    let '(h, st1) := do_create (createDStream z) call_createDStream st in
    let r1 := set_r_stream h r in
    if h =? 0 then (None, st1)
    else
      match r_readBuffer r1 with
      | nil_bytes =>
          (Some (set_r_readBuffer
                   (some_bytes (make defaultReadBufferSize)) r1), st1)
      | some_bytes _ => (Some r1, st1)
      end
  else (Some r, st).

(** How the refill step leaves the loop body. *)
Inductive refill : Type :=
| refill_go (r : Reader)
| refill_break (r : Reader)
| refill_return (r : Reader) (err : error)
| refill_panic.

(** [if r.inBuffer.Pos >= r.inBuffer.Size { ... }]. *)
Definition r_refill (r : Reader) (st : World E S) : refill * World E S :=
  if iSize (r_inBuffer r) <=? iPos (r_inBuffer r) then
    let '((n, data, err), st1) :=
      do_source_Read source (len (r_buffer r)) st in
    let r1 := set_r_buffer (overwrite (r_buffer r) data) r in
    if 0 <? n then
      match r_buffer r1 with
      | [] => (refill_panic, st1)
      | _ =>
          let r2 :=
            set_r_inBuffer (mkIn (address_of (r_buffer r1)) (u64 n) 0) r1 in
          match err with
          | None | Some io_EOF => (refill_go r2, st1)
          | Some e => (refill_return r2 e, st1)
          end
      end
    else
      let r2 := set_r_inBuffer (mkIn nil_pointer 0 0) r1 in
      match err with
      | Some io_EOF => (refill_go r2, st1)
      | Some e => (refill_return r2 e, st1)
      | None => if n =? 0 then (refill_break r2, st1) else (refill_go r2, st1)
      end
  else (refill_go r, st).

(** The loop of [Read]: [for r.end == 0 && !r.streamEnded].  The third
    component is [Some] when the body returned from [Read] and [None]
    when the loop was left by its condition or by [break]. *)
Fixpoint Read_loop (fuel : nat) (r : Reader) (st : World E S)
  : outcome (Reader * World E S * option (Z * option error)) :=
  if (r_end r =? 0) && negb (r_streamEnded r) then
    match fuel with
    | O => OutOfFuel
    | Datatypes.S fuel' =>
        match r_init_stream r st with
        | (None, st1) =>
            Done (set_r_stream 0 r, st1,
                  Some (0, Some (Errorf
                    "failed to create decompression stream"%string)))
        | (Some r1, st1) =>
            match r_refill r1 st1 with
            | (refill_panic, _) => Panic "index out of range"%string
            | (refill_return r2 e, st2) => Done (r2, st2, Some (0, Some e))
            | (refill_break r2, st2) => Done (r2, st2, None)
            | (refill_go r2, st2) =>
                match readBuffer_mem r2 with
                | [] => Panic "index out of range"%string
                | mem =>
                    let r3 :=
                      set_r_outBuffer
                        (mkOut (address_of mem) (u64 (len mem)) 0) r2 in
                    let '(res, st3) :=
                      do_decompressStream z (r_stream r3) (r_outBuffer r3)
                        (r_inBuffer r3) st2 in
                    let r4 := r_after_step res r3 in
                    let '(e, st4) := do_isError z (hint res) st3 in
                    if negb (e =? 0) then
                      let '(name, st5) :=
                        do_getErrorName z (hint res) st4 in
                      Done (set_r_streamEnded true r4, st5,
                            Some (0, Some (Errorf
                              ("zstd decompression error: " ++ name)%string)))
                    else
                      let r5 := set_r_end (to_int (oPos (r_outBuffer r4))) r4 in
                      if hint res =? 0 then
                        Done (set_r_streamEnded true r5, st4, None)
                      else if 0 <? r_end r5 then Done (r5, st4, None)
                      else Read_loop fuel' r5 st4
                end
            end
        end
    end
  else Done (r, st, None).

Definition Reader_Read (fuel : nat) (p : list byte) (r : Reader)
    (st : World E S)
  : outcome (Reader * World E S * (Z * list byte * option error)) :=
  if r_pos r <? r_end r then r_serve p r st
  else if r_streamEnded r then Done (r, st, (0, p, Some io_EOF))
  else
    let r0 := set_r_end 0 (set_r_pos 0 r) in
    match Read_loop fuel r0 st with
    | Done (r1, st1, Some (n, err)) => Done (r1, st1, (n, p, err))
    | Done (r1, st1, None) =>
        if r_end r1 =? 0 then
          if r_streamEnded r1 then Done (r1, st1, (0, p, Some io_EOF))
          else Done (r1, st1, (0, p, None))
        else r_serve p r1 st1
    | Panic m => Panic m
    | OutOfFuel => OutOfFuel
    end.

Definition Reader_Close (r : Reader) (st : World E S)
  : Reader * World E S * option error :=
  let '(r1, st1) :=
    if negb (r_stream r =? 0) then
      (set_r_stream 0 r,
       do_free (freeDStream z) call_freeDStream (r_stream r) st)
    else (r, st) in
  let '(r2, st2) :=
    if negb (r_ctx r1 =? 0) then
      (set_r_ctx 0 r1,
       do_free (freeDCtx z) call_freeDCtx (r_ctx r1) st1)
    else (r1, st1) in
  (r2, st2, None).

(** [Zstd.NewReader]. *)
Definition NewReader (st : World E S) : Reader * World E S :=
  let '(ctx, st1) := do_create (createDCtx z) call_createDCtx st in
  (mkReader ctx (make defaultReadBufferSize) (mkIn nil_pointer 0 0)
     (mkOut nil_pointer 0 0) nil_bytes 0 0 false 0, st1).
End ReaderMethods.

(** ** One-shot operations (zstd.go) *)

Section OneShot.
Context {E S : Type}.
Variable z : Zstd E.

(** [Zstd.CompressBound]. *)
Definition Zstd_CompressBound (srcSize : Z) (st : World E S)
  : Z * World E S :=
  let '(r, st1) := do_compressBound z (u64 srcSize) st in (to_int r, st1).

(** [Zstd.Compress]. *)
Definition Zstd_Compress (src : list byte) (level : Z) (st : World E S)
  : outcome (bytes * option error * World E S) :=
  if len src =? 0 then Done (some_bytes [], None, st)
  else
    let '(dstCapacity, st1) := Zstd_CompressBound (len src) st in
    if negb (makeslice_ok dstCapacity)
    then Panic "makeslice: len out of range"%string
    else
      let dst := make dstCapacity in
      match dst with
      | [] => Panic "index out of range"%string
      | _ =>
          let '((result, out), st2) :=
            do_compress z (u64 dstCapacity) src level st1 in
          let dst1 := overwrite dst out in
          let '(e, st3) := do_isError z result st2 in
          if negb (e =? 0) then
            let '(name, st4) := do_getErrorName z result st3 in
            Done (nil_bytes,
                  Some (Errorf ("zstd compression error: " ++ name)%string),
                  st4)
          else
            match slice dst1 0 result with
            | None => Panic "slice bounds out of range"%string
            | Some d => Done (some_bytes d, None, st3)
            end
      end.

(** [maxSize] as [Decompress] settles it before allocating. *)
Definition effective_maxSize (srcLen maxSize : Z) : Z :=
  if maxSize <=? 0 then
    let m := wrap_int (srcLen * 5) in
    if m <? 1024 then 1024 else m
  else maxSize.

(** [Zstd.Decompress]. *)
Definition Zstd_Decompress (src : list byte) (maxSize : Z) (st : World E S)
  : outcome (bytes * option error * World E S) :=
  if len src =? 0 then Done (some_bytes [], None, st)
  else
    let maxSize1 := effective_maxSize (len src) maxSize in
    if negb (makeslice_ok maxSize1)
    then Panic "makeslice: len out of range"%string
    else
      let dst := make maxSize1 in
      match dst with
      | [] => Panic "index out of range"%string
      | _ =>
          let '((result, out), st1) :=
            do_decompress z (u64 maxSize1) src st in
          let dst1 := overwrite dst out in
          let '(e, st2) := do_isError z result st1 in
          if negb (e =? 0) then
            let '(name, st3) := do_getErrorName z result st2 in
            Done (nil_bytes,
                  Some (Errorf ("zstd decompression error: " ++ name)%string),
                  st3)
          else
            match slice dst1 0 result with
            | None => Panic "slice bounds out of range"%string
            | Some d => Done (some_bytes d, None, st2)
            end
      end.
End OneShot.

(** ** Concrete streams and fake engines *)

(** [bytes.Buffer] as an [io.Writer]: everything is accepted. *)
Definition buffer_sink : Sink (list byte) :=
  fun p s => ((len p, None), s ++ p).

(** [errorWriter] of the package: accepts nothing, always fails. *)
Definition errorWriter (err : error) : Sink unit :=
  fun _ s => ((0, Some err), s).

(** [bytes.Buffer] as an [io.Reader]. *)
Definition buffer_source : Source (list byte) :=
  fun cap s =>
    match s with
    | [] => if cap =? 0 then ((0, [], None), s) else ((0, [], Some io_EOF), s)
    | _ =>
        let n := Z.to_nat (Z.min cap (len s)) in
        ((Z.of_nat n, firstn n s, None), skipn n s)
    end.

(** [errorReader] of the package: delivers nothing, always fails. *)
Definition errorReader (err : error) : Source unit :=
  fun _ s => ((0, [], Some err), s).

(** A non-blocking source with nothing to deliver yet. *)
Definition idle_source : Source unit :=
  fun _ s => ((0, [], None), s).

(** The largest [uint64], which the fake engines below use as their only
    error code. *)
Definition fake_error_code : Z := 2 ^ 64 - 1.

(** A scripted fake engine: each streaming step answers with the next
    result of the script, and with [dflt] once the script is exhausted.
    Contexts get the handle 1 and streams the handle 2. *)
Definition scripted (dflt : StepResult) : Zstd (list StepResult) :=
  let step (e : list StepResult) :=
    match e with
    | [] => (dflt, [])
    | r :: e' => (r, e')
    end in
  mkZstd
    (fun n => n + 64)
    (fun code => if code =? fake_error_code then 1 else 0)
    (fun _ => "fake"%string)
    (fun _ _ _ _ e => ((fake_error_code, []), e))
    (fun _ _ _ e => ((fake_error_code, []), e))
    (fun e => (1, e)) (fun _ e => e)
    (fun e => (1, e)) (fun _ e => e)
    (fun e => (2, e)) (fun _ e => e)
    (fun _ _ _ _ e => step e)
    (fun e => (2, e)) (fun _ e => e)
    (fun _ _ _ e => step e).

(** An empty world. *)
Definition world0 (E S : Type) (e : E) (s : S) : World E S := mkWorld e s [].


(** ** Session lifecycle, read off a trace *)

(** A handle as a session: [nil] is no session. *)
Definition session_of (h : handle) : option handle :=
  if h =? 0 then None else Some h.

(** One call against the compression session that is live: creating a
    second session while one is live, stepping or freeing a session that is
    not the live one (use after free, double free) are refused. *)
Definition cstream_step (live : option handle) (c : Call)
  : option (option handle) :=
  match c with
  | call_createCStream h =>
      match live with None => Some (session_of h) | Some _ => None end
  | call_compressStream2 h _ _ _ _ =>
      match live with
      | Some h' => if h =? h' then Some live else None
      | None => None
      end
  | call_freeCStream h =>
      match live with
      | Some h' => if h =? h' then Some None else None
      | None => None
      end
  | _ => Some live
  end.

(** The live compression session after a trace (most recent call first),
    or [None] if the trace breaks the discipline. *)
Fixpoint cstream_live (tr : list Call) : option (option handle) :=
  match tr with
  | [] => Some None
  | c :: older =>
      match cstream_live older with
      | Some live => cstream_step live c
      | None => None
      end
  end.

Definition dstream_step (live : option handle) (c : Call)
  : option (option handle) :=
  match c with
  | call_createDStream h =>
      match live with None => Some (session_of h) | Some _ => None end
  | call_decompressStream h _ _ _ =>
      match live with
      | Some h' => if h =? h' then Some live else None
      | None => None
      end
  | call_freeDStream h =>
      match live with
      | Some h' => if h =? h' then Some None else None
      | None => None
      end
  | _ => Some live
  end.

Fixpoint dstream_live (tr : list Call) : option (option handle) :=
  match tr with
  | [] => Some None
  | c :: older =>
      match dstream_live older with
      | Some live => dstream_step live c
      | None => None
      end
  end.

(** The trace agrees with the adapter on which session it holds. *)
Definition writer_owns (w : Writer) (tr : list Call) : Prop :=
  cstream_live tr = Some (session_of (w_stream w)).

Definition reader_owns (r : Reader) (tr : list Call) : Prop :=
  dstream_live tr = Some (session_of (r_stream r)).

(** ** The shape of the calls made by the loops *)

Section LoopCalls.
Context {E : Type}.
Variable z : Zstd E.

(** A call made by a Writer loop running on session [h] over a staging
    buffer of [cap] bytes in mode [op]: a step whose output cursor starts
    at 0 with the whole buffer as capacity, an error test or name lookup,
    or a write to the sink. *)
Definition writer_loop_call (h : handle) (cap op : Z) (c : Call) : Prop :=
  match c with
  | call_compressStream2 h' o i op' r =>
      h' = h /\ oPos o = 0 /\ oSize o = cap /\ op' = op /\
      exists e, r = as_uint64 (fst (compressStream2 z h' o i op' e))
  | call_isError _ _ | call_getErrorName _ | sink_Write _ _ _ => True
  | _ => False
  end.

(** The same for the loop of [Reader.Read], which also pulls from the
    source. *)
Definition reader_loop_call (h : handle) (cap : Z) (c : Call) : Prop :=
  match c with
  | call_decompressStream h' o i r =>
      h' = h /\ oPos o = 0 /\ oSize o = cap /\
      exists e, r = as_uint64 (fst (decompressStream z h' o i e))
  | call_isError _ _ | call_getErrorName _ | source_Read _ _ _ => True
  | _ => False
  end.

(** The engine keeps its output cursor inside the region it was given:
    called with a position inside the region, it leaves one. *)
Definition respects_capacity : Prop :=
  (forall h o i op e,
     0 <= oPos o <= oSize o -> oSize o < 2 ^ 64 ->
     0 <= out_pos (fst (compressStream2 z h o i op e)) <= oSize o) /\
  (forall h o i e,
     0 <= oPos o <= oSize o -> oSize o < 2 ^ 64 ->
     0 <= out_pos (fst (decompressStream z h o i e)) <= oSize o).
End LoopCalls.

(** The output cursor of a step call, before and after: position at the
    start, capacity, position at the end. *)
Definition output_cursor (c : Call) : option (Z * Z * Z) :=
  match c with
  | call_compressStream2 _ o _ _ r => Some (oPos o, oSize o, out_pos r)
  | call_decompressStream _ o _ r => Some (oPos o, oSize o, out_pos r)
  | _ => None
  end.

(** The most recent compression step of a trace. *)
Fixpoint last_cstep (tr : list Call) : option StepResult :=
  match tr with
  | [] => None
  | call_compressStream2 _ _ _ _ r :: _ => Some r
  | _ :: older => last_cstep older
  end.

(** [tr] is [old] followed by further calls, each of which satisfies [P]. *)
Definition extends (P : Call -> Prop) (old tr : list Call) : Prop :=
  exists new, tr = new ++ old /\ Forall P new.

(** The trace holds a decompression step that reported the end of the
    frame (hint 0) or a fault. *)
Definition frame_ended (E : Type) (z : Zstd E) (tr : list Call) : Prop :=
  exists h o i res,
    In (call_decompressStream h o i res) tr /\
    (hint res = 0 \/ isError z (hint res) <> 0).

(** [r.streamEnded] is set only for a reason the trace shows. *)
Definition ended_for_cause (E : Type) (z : Zstd E) (r : Reader)
    (tr : list Call) : Prop :=
  r_streamEnded r = true -> frame_ended z tr.

(** What a loop of the Writer leaves unchanged. *)
Definition w_same_session (w w' : Writer) : Prop :=
  w_stream w' = w_stream w /\ w_ctx w' = w_ctx w /\
  len (w_buffer w') = len (w_buffer w).

(** What the loop of [Read] leaves unchanged once the session exists. *)
Definition r_same_session (r r' : Reader) : Prop :=
  r_stream r' = r_stream r /\ r_ctx r' = r_ctx r /\ r_pos r' = r_pos r /\
  len (readBuffer_mem r') = len (readBuffer_mem r).

(** The output cursor handed to a step starts at 0 and spans a buffer of
    [cap] bytes. *)
Definition cursor_reset (cap : Z) (c : Call) : Prop :=
  match output_cursor c with
  | Some (p0, size, _) => p0 = 0 /\ size = u64 cap
  | None => True
  end.

(** The output cursor a step leaves behind is inside a buffer of [cap]
    bytes. *)
Definition cursor_within (cap : Z) (c : Call) : Prop :=
  match output_cursor c with
  | Some (_, _, p1) => 0 <= p1 <= cap
  | None => True
  end.

(** The session the loop of [Read] may have created on its way from [r]
    to [r']. *)
Definition created_session (r r' : Reader) (created : list Call) : Prop :=
  (created = [] /\ r_stream r' = r_stream r) \/
  (r_stream r = 0 /\ created = [call_createDStream (r_stream r')]).

(** ** A small reference engine

    A complete fake library used to exercise the adapters: its one-shot
    codec is run-length encoding, its streaming codec writes every payload
    byte [b] as the pair [01 b] and closes the frame with a single [00].
    Like the real library, its compressor buffers what does not fit the
    output region and its decompressor reports hint 0 only once the whole
    frame has been consumed and delivered. *)

Definition byte_succ (c : byte) : byte :=
  match Byte.of_N (Byte.to_N c + 1) with Some c' => c' | None => c end.

Fixpoint rle_encode (l : list byte) : list byte :=
  match l with
  | [] => []
  | x :: l' =>
      match rle_encode l' with
      | c :: y :: rest =>
          if Byte.eqb x y && (Byte.to_N c <? 255)%N
          then byte_succ c :: y :: rest
          else x01 :: x :: c :: y :: rest
      | _ => [x01; x]
      end
  end.

Fixpoint rle_decode (l : list byte) : list byte :=
  match l with
  | c :: l1 =>
      match l1 with
      | y :: rest => repeat y (N.to_nat (Byte.to_N c)) ++ rle_decode rest
      | [] => []
      end
  | [] => []
  end.

(** The payload bytes of a stream frame, tagged. *)
Fixpoint tag_encode (l : list byte) : list byte :=
  match l with
  | [] => []
  | b :: l' => x01 :: b :: tag_encode l'
  end.

Definition toy_frame (b : list byte) : list byte := tag_encode b ++ [x00].

(** Where the stream decoder stands: before a tag, before the payload byte
    that follows a tag, after the end of the frame, or on corrupt input. *)
Inductive toy_mode : Type := at_tag | at_data | at_end | at_error.

Record Toy : Type := mkToy {
  c_pending : list byte;   (* compressed bytes not yet written out *)
  c_ended : bool;          (* the end of the frame has been queued *)
  d_pending : list byte;   (* decoded bytes not yet written out *)
  d_mode : toy_mode
}.

Definition toy0 : Toy := mkToy [] false [] at_tag.

(** The input still to be consumed: [Src[Pos:Size]]. *)
Definition unread (i : ZstdInBuffer) : list byte :=
  firstn (Z.to_nat (iSize i - iPos i)) (skipn (Z.to_nat (iPos i)) (region (Src i))).

(** Decoding of the available input, up to the end of the frame: bytes
    consumed, bytes decoded, mode reached. *)
Fixpoint toy_decode (m : toy_mode) (input : list byte)
  : nat * list byte * toy_mode :=
  match input with
  | [] => (O, [], m)
  | x :: rest =>
      match m with
      | at_tag =>
          if Byte.eqb x x00 then (1%nat, [], at_end)
          else if Byte.eqb x x01 then
            let '(n, out, m') := toy_decode at_data rest in
            (Datatypes.S n, out, m')
          else (O, [], at_error)
      | at_data =>
          let '(n, out, m') := toy_decode at_tag rest in
          (Datatypes.S n, x :: out, m')
      | at_end => (O, [], at_end)
      | at_error => (O, [], at_error)
      end
  end.

Definition toy_compressStream2 (h : handle) (o : ZstdOutBuffer)
    (i : ZstdInBuffer) (endOp : Z) (e : Toy) : StepResult * Toy :=
  let ending := (endOp =? EndEnd) && negb (c_ended e) in
  let queue :=
    c_pending e ++ tag_encode (unread i) ++ (if ending then [x00] else []) in
  let k := Z.to_nat (Z.min (oSize o - oPos o) (len queue)) in
  let rest := skipn k queue in
  (mkStep (if len rest =? 0 then 0 else 1) (oPos o + Z.of_nat k) (iSize i)
     (firstn k queue),
   mkToy rest (c_ended e || (endOp =? EndEnd)) (d_pending e) (d_mode e)).

Definition toy_decompressStream (h : handle) (o : ZstdOutBuffer)
    (i : ZstdInBuffer) (e : Toy) : StepResult * Toy :=
  let '(n, out, m) := toy_decode (d_mode e) (unread i) in
  match m with
  | at_error =>
      (mkStep fake_error_code (oPos o) (iPos i) [], e)
  | _ =>
      let queue := d_pending e ++ out in
      let k := Z.to_nat (Z.min (oSize o - oPos o) (len queue)) in
      let rest := skipn k queue in
      (mkStep
         (match m with
          | at_end => if len rest =? 0 then 0 else 1
          | _ => 1
          end)
         (oPos o + Z.of_nat k) (iPos i + Z.of_nat n) (firstn k queue),
       mkToy (c_pending e) (c_ended e) rest m)
  end.

Definition toy : Zstd Toy :=
  mkZstd
    (fun n => 2 * n)
    (fun code => if code =? fake_error_code then 1 else 0)
    (fun _ => "fake"%string)
    (fun cap src _ _ e =>
       let c := rle_encode src in
       if len c <=? cap then ((len c, c), e) else ((fake_error_code, []), e))
    (fun cap src _ e =>
       let b := rle_decode src in
       if len b <=? cap then ((len b, b), e) else ((fake_error_code, []), e))
    (fun e => (1, e)) (fun _ e => e)
    (fun e => (1, e)) (fun _ e => e)
    (fun e => (2, mkToy [] false (d_pending e) (d_mode e)))
    (fun _ e => e)
    toy_compressStream2
    (fun e => (2, mkToy (c_pending e) (c_ended e) [] at_tag))
    (fun _ e => e)
    toy_decompressStream.

(** Step results for scripted engines. *)
Definition fault_step : StepResult := mkStep fake_error_code 0 0 [].
Definition stall_step : StepResult := mkStep 1 0 0 [].

(** A Writer and a Reader over four-byte staging buffers, otherwise as
    [NewWriter] and [NewReader] build them; the Reader has its buffer for
    decompressed bytes already. *)
Definition small_writer : Writer :=
  mkWriter 1 DefaultCompression (make 4) (mkIn nil_pointer 0 0)
    (mkOut nil_pointer 0 0) 0.

Definition small_reader : Reader :=
  mkReader 1 (make 4) (mkIn nil_pointer 0 0) (mkOut nil_pointer 0 0)
    (some_bytes (make 4)) 0 0 false 0.

(** ** Executions *)

Inductive writer_op : Type :=
| op_Write (p : list byte)
| op_Flush
| op_Close.

Inductive reader_op : Type :=
| op_Read (p : list byte)
| op_rClose.

Section Executions.
Context {E S : Type}.
Variable z : Zstd E.

(** One call of a caller that goes on whatever the call returns. *)
Definition writer_step (sink : Sink S) (fuel : nat) (op : writer_op)
    (w : Writer) (st : World E S) : outcome (Writer * World E S) :=
  let drop_result (o : outcome (Writer * World E S * option error)) :=
    match o with
    | Done (w1, st1, _) => Done (w1, st1)
    | Panic m => Panic m
    | OutOfFuel => OutOfFuel
    end in
  match op with
  | op_Write p =>
      match Writer_Write z sink fuel p w st with
      | Done (w1, st1, _) => Done (w1, st1)
      | Panic m => Panic m
      | OutOfFuel => OutOfFuel
      end
  | op_Flush => drop_result (Writer_Flush z sink fuel w st)
  | op_Close => drop_result (Writer_Close z sink fuel w st)
  end.

(** A caller driving a Writer through a sequence of calls. *)
Fixpoint run_writer (sink : Sink S) (fuel : nat) (ops : list writer_op)
    (w : Writer) (st : World E S) : outcome (Writer * World E S) :=
  match ops with
  | [] => Done (w, st)
  | op :: ops' =>
      match writer_step sink fuel op w st with
      | Done (w1, st1) => run_writer sink fuel ops' w1 st1
      | Panic m => Panic m
      | OutOfFuel => OutOfFuel
      end
  end.

Fixpoint run_reader (source : Source S) (fuel : nat) (ops : list reader_op)
    (r : Reader) (st : World E S) : outcome (Reader * World E S) :=
  match ops with
  | [] => Done (r, st)
  | op_Read p :: ops' =>
      match Reader_Read z source fuel p r st with
      | Done (r1, st1, _) => run_reader source fuel ops' r1 st1
      | Panic m => Panic m
      | OutOfFuel => OutOfFuel
      end
  | op_rClose :: ops' =>
      let '(r1, st1, _) := Reader_Close z r st in
      run_reader source fuel ops' r1 st1
  end.
End Executions.

(** The last call of an execution is [Close]. *)
Fixpoint ends_with_Close (ops : list writer_op) : bool :=
  match ops with
  | [] => false
  | op :: ops' =>
      match ops' with
      | [] => match op with op_Close => true | _ => false end
      | _ => ends_with_Close ops'
      end
  end.

Fixpoint ends_with_rClose (ops : list reader_op) : bool :=
  match ops with
  | [] => false
  | op :: ops' =>
      match ops' with
      | [] => match op with op_rClose => true | _ => false end
      | _ => ends_with_rClose ops'
      end
  end.

(** The reference engine in its initial state, next to a byte buffer that
    serves as sink or source. *)
Definition toy_world (s : list byte) : World Toy (list byte) :=
  world0 toy0 s.

(** The discipline of the output cursor on a staging buffer of [cap]
    bytes. *)
Definition cursor_ok (cap : Z) (c : Call) : Prop :=
  cursor_reset cap c /\ cursor_within cap c.

(** What the adapters themselves see of the position a step leaves
    behind.  They never compare it with the capacity; a step that reports
    no fault has its output sliced out of the staging buffer, and the
    slice expression panics on a position past the buffer.  So, once a
    method has returned, a step that reported no fault left a position
    inside the buffer; the position of a faulting step is taken as it
    is. *)
Definition position_checked (E : Type) (z : Zstd E) (cap : Z) (c : Call)
  : Prop :=
  match c with
  | call_compressStream2 _ _ _ _ r | call_decompressStream _ _ _ r =>
      isError z (hint r) = 0 -> 0 <= out_pos r <= cap
  | _ => True
  end.

Definition cursor_checked (E : Type) (z : Zstd E) (cap : Z) (c : Call)
  : Prop :=
  cursor_reset cap c /\ position_checked z cap c.

(** The loop of [Read] goes round again only after a step that left the
    position 0; the position of the step it stops on, as an [int], is
    [r.end].  The loop makes no compression step. *)
Definition read_position (E : Type) (z : Zstd E) (e : Z) (c : Call) : Prop :=
  match c with
  | call_decompressStream _ _ _ r =>
      isError z (hint r) = 0 ->
      0 <= out_pos r < 2 ^ 64 /\
      (to_int (out_pos r) = 0 \/ to_int (out_pos r) = e)
  | call_compressStream2 _ _ _ _ _ => False
  | _ => True
  end.

(** A call that releases no session. *)
Definition keeps_sessions (c : Call) : Prop :=
  match c with
  | call_freeCStream _ | call_freeDStream _ => False
  | _ => True
  end.

(** A step that reports a fault and leaves the output position 5: past
    the end of a staging buffer of four bytes. *)
Definition overrun_step : StepResult := mkStep fake_error_code 5 0 [].

(** A step that takes three input bytes and writes one output byte. *)
Definition greedy_step : StepResult := mkStep 1 1 3 [x2a].

(** An engine that, from every state in [I], answers a decompression step
    with a hint that is neither 0 nor a fault, consumes no input, writes
    no output, and stays in [I]: it stalls for ever. *)
Definition stalls (E : Type) (z : Zstd E) (I : E -> Prop) : Prop :=
  forall h o i e,
    I e -> oPos o = 0 -> 0 <= iPos i < 2 ^ 64 ->
    let r := fst (decompressStream z h o i e) in
    I (snd (decompressStream z h o i e)) /\
    isError z (u64 (hint r)) = 0 /\
    u64 (hint r) <> 0 /\
    u64 (out_pos r) = 0 /\
    u64 (in_pos r) = iPos i.

(** A fake engine whose steps leave both cursors where they are and ask
    for more. *)
Definition stalling : Zstd unit :=
  mkZstd
    (fun n => n + 64)
    (fun code => if code =? fake_error_code then 1 else 0)
    (fun _ => "fake"%string)
    (fun _ _ _ _ e => ((fake_error_code, []), e))
    (fun _ _ _ e => ((fake_error_code, []), e))
    (fun e => (1, e)) (fun _ e => e)
    (fun e => (1, e)) (fun _ e => e)
    (fun e => (2, e)) (fun _ e => e)
    (fun _ o i _ e => (mkStep 1 (oPos o) (iPos i) [], e))
    (fun e => (2, e)) (fun _ e => e)
    (fun _ o i e => (mkStep 1 (oPos o) (iPos i) [], e)).

(** A Reader in the middle of a stream, as one iteration of [Read] on
    [small_reader] against the stalling engine leaves it: it holds session
    2 and one byte of compressed input that the engine has not taken. *)
Definition waiting_reader : Reader :=
  mkReader 1 (x61 :: make 3) (mkIn (address_of (x61 :: make 3)) 1 0)
    (mkOut (address_of (make 4)) 4 0) (some_bytes (make 4)) 0 0 false 2.

(** The world after that iteration: the source is drained, the trace
    holds the four calls made. *)
Definition waiting_world : World unit (list byte) :=
  mkWorld tt []
    [call_isError 1 0;
     call_decompressStream 2 (mkOut (address_of (make 4)) 4 0)
       (mkIn (address_of (x61 :: make 3)) 1 0) (mkStep 1 0 0 []);
     source_Read 4 1 None;
     call_createDStream 2].

(** No decompression step of the trace returned the hint 0. *)
Definition no_frame_completion (tr : list Call) : bool :=
  forallb
    (fun c =>
       match c with
       | call_decompressStream _ _ _ res => negb (hint res =? 0)
       | _ => true
       end) tr.

(** No read from the source returned zero bytes. *)
Definition no_empty_source_read (tr : list Call) : bool :=
  forallb
    (fun c =>
       match c with
       | source_Read _ n _ => negb (n =? 0)
       | _ => true
       end) tr.

(** A call that is still running whatever the fuel: it does not return. *)
Definition never_returns (A : Type) (run : nat -> outcome A) : Prop :=
  forall fuel, run fuel = OutOfFuel.

(** ** What a codec owes its callers

    The native library is not part of the package.  Round trips are
    proved for every engine that keeps the contracts below, which say what
    the documentation of the library promises: what was compressed
    decompresses to itself, a step consumes and produces within its
    cursors, and an engine that is asked to flush or to end, or that is fed
    a valid frame, makes progress. *)

(** Compression levels the package names: 1 to 22. *)
Definition level_in_range (level : Z) : Prop :=
  BestSpeed <= level <= UltraCompression.

(** The bytes a step has consumed when it leaves the input cursor at
    [pos']. *)
Definition taken_by (i : ZstdInBuffer) (pos' : Z) : list byte :=
  firstn (Z.to_nat (pos' - iPos i))
    (skipn (Z.to_nat (iPos i)) (region (Src i))).

(** An input cursor inside its region. *)
Definition in_cursor_ok (i : ZstdInBuffer) : Prop :=
  0 <= iPos i <= iSize i /\ iSize i <= len (region (Src i)) /\
  iSize i < 2 ^ 63.

(** An output cursor at the start of a non-empty region. *)
Definition out_cursor_ok (o : ZstdOutBuffer) : Prop :=
  oPos o = 0 /\ 0 < oSize o < 2 ^ 63.

(** The vocabulary in which a streaming codec is described.  [frame b f]:
    [f] is a complete frame that carries [b].  [cs e h ending taken sent]:
    in state [e] the compression session [h] has taken the payload [taken]
    and has written out [sent]; [ending] says that the end of the frame has
    been requested.  [ds e h todo owed]: the decompression session [h]
    still has to be fed the frame bytes [todo] and still has to deliver the
    payload [owed].  [backlog] bounds the steps a session needs to write
    out what it holds.  The laws follow a session up to the step that
    reports the end of its frame, with the hint 0; what a session answers
    after that step is left open. *)
Record StreamModel (E : Type) : Type := mkStreamModel {
  frame : list byte -> list byte -> Prop;
  cs : E -> handle -> bool -> list byte -> list byte -> Prop;
  backlog : E -> handle -> nat;
  ds : E -> handle -> list byte -> list byte -> Prop
}.

Section Contracts.
Context {E : Type}.
Variable z : Zstd E.

(** [c] decompresses to [b] in one shot, in any state of the library,
    when the destination has room for [b], and is refused otherwise. *)
Definition decompresses_to (c b : list byte) : Prop :=
  forall cap e,
    0 < cap < 2 ^ 63 ->
    exists r out e',
      decompress z cap c (len c) e = ((r, out), e') /\
      0 <= r < 2 ^ 64 /\
      if len b <=? cap
      then r = len b /\ out = b /\ isError z r = 0
      else isError z r <> 0.

(** The one-shot codec. *)
Record OneShotCodec : Prop := mkOneShotCodec {
  bound_positive :
    forall n, 0 < n < 2 ^ 62 -> 0 < compressBound z n < 2 ^ 63;
  compress_ok :
    forall cap b level e,
      0 < len b < 2 ^ 62 -> level_in_range level ->
      compressBound z (len b) <= cap < 2 ^ 63 ->
      exists c e',
        compress z cap b (len b) level e = ((len c, c), e') /\
        0 < len c <= cap /\ isError z (len c) = 0 /\
        decompresses_to c b
}.

(** The streaming codec keeps the laws below on the relations of its
    [StreamModel]. *)
Record StreamCodec (M : StreamModel E) : Prop := mkStreamCodec {
  cs_create :
    forall e,
      fst (createCStream z e) <> 0 /\
      cs M (snd (createCStream z e)) (fst (createCStream z e)) false [] [];

  cs_step :
    forall e h ending taken sent o i op,
      cs M e h ending taken sent ->
      out_cursor_ok o -> in_cursor_ok i ->
      (op = EndContinue /\ ending = false) \/
      (op = EndFlush /\ ending = false /\ iPos i = iSize i) \/
      (op = EndEnd /\ iPos i = iSize i) ->
      let r := fst (compressStream2 z h o i op e) in
      let e' := snd (compressStream2 z h o i op e) in
      0 <= hint r < 2 ^ 64 /\ isError z (hint r) = 0 /\
      iPos i <= in_pos r <= iSize i /\
      out_pos r = len (written r) /\ len (written r) <= oSize o /\
      (if (op =? EndEnd) && (hint r =? 0)
       then frame M (taken ++ taken_by i (in_pos r)) (sent ++ written r)
       else cs M e' h (op =? EndEnd) (taken ++ taken_by i (in_pos r))
              (sent ++ written r)) /\
      (op = EndContinue -> iPos i < iSize i ->
       iPos i < in_pos r \/ (backlog M e' h < backlog M e h)%nat) /\
      (op <> EndContinue -> hint r <> 0 ->
       (backlog M e' h < backlog M e h)%nat);

  frame_not_empty : forall b f, frame M b f -> f <> [];

  ds_create :
    forall e,
      fst (createDStream z e) <> 0 /\
      forall b f,
        frame M b f ->
        ds M (snd (createDStream z e)) (fst (createDStream z e)) f b;

  ds_step :
    forall e h todo owed o i rest,
      ds M e h todo owed ->
      todo <> [] \/ owed <> [] ->
      out_cursor_ok o -> in_cursor_ok i ->
      todo = taken_by i (iSize i) ++ rest ->
      (iPos i = iSize i -> todo = []) ->
      let r := fst (decompressStream z h o i e) in
      let e' := snd (decompressStream z h o i e) in
      let todo' := skipn (Z.to_nat (in_pos r - iPos i)) todo in
      0 <= hint r < 2 ^ 64 /\ isError z (hint r) = 0 /\
      iPos i <= in_pos r <= iSize i /\
      out_pos r = len (written r) /\ len (written r) <= oSize o /\
      exists owed',
        owed = written r ++ owed' /\
        if hint r =? 0 then owed' = []
        else
          ds M e' h todo' owed' /\
          (todo' <> [] \/ owed' <> []) /\
          (written r = [] -> iPos i < in_pos r)
}.
End Contracts.

(** ** Reading a stream to its end *)

Section ReadAll.
Context {E S : Type}.
Variable z : Zstd E.
Variable source : Source S.

(** A caller in the manner of [io.ReadAll]: it reads into a buffer of [k]
    bytes, keeps what each [Read] delivers, and stops at the first error;
    end-of-stream is not reported as an error.  [rounds] bounds the number
    of calls and [fuel] the iterations of each. *)
Fixpoint read_all (rounds fuel : nat) (k : Z) (acc : list byte) (r : Reader)
    (st : World E S)
  : outcome (Reader * World E S * (list byte * option error)) :=
  match rounds with
  | O => OutOfFuel
  | Datatypes.S rounds' =>
      match Reader_Read z source fuel (make k) r st with
      | Done (r1, st1, (n, p', err)) =>
          let acc1 := acc ++ firstn (Z.to_nat n) p' in
          match err with
          | Some io_EOF => Done (r1, st1, (acc1, None))
          | Some e => Done (r1, st1, (acc1, Some e))
          | None => read_all rounds' fuel k acc1 r1 st1
          end
      | Panic m => Panic m
      | OutOfFuel => OutOfFuel
      end
  end.
End ReadAll.

(** A Writer ready to step its session: the staging buffer is not empty
    and the Writer holds a session. *)
Definition w_ready (w : Writer) : Prop :=
  0 < len (w_buffer w) < 2 ^ 63 /\ (w_stream w =? 0) = false.

(** ** The state of a Reader along a frame *)

(** The decompressed bytes a Reader holds for the next calls. *)
Definition staged (r : Reader) (g : list byte) : Prop :=
  0 <= r_pos r /\
  if r_pos r <? r_end r
  then slice (readBuffer_mem r) (r_pos r) (r_end r) = Some g
  else g = [].

Section ReaderStates.
Context {E : Type}.
Variable M : StreamModel E.

(** A Reader in the middle of a frame: it holds a session that still has
    to be fed [todo], the compressed bytes the Reader has pulled and not
    yet handed over followed by what is left in the source, and that still
    has to deliver [owed]; the frame is not finished. *)
Definition r_live (r : Reader) (st : World E (list byte))
    (todo owed : list byte) : Prop :=
  (r_stream r =? 0) = false /\
  0 < len (r_buffer r) < 2 ^ 63 /\
  0 < len (readBuffer_mem r) < 2 ^ 63 /\
  in_cursor_ok (r_inBuffer r) /\
  todo = taken_by (r_inBuffer r) (iSize (r_inBuffer r)) ++ stream_io st /\
  ds M (engine st) (r_stream r) todo owed /\
  (todo <> [] \/ owed <> []).

(** A Reader as [NewReader] builds it, up to the sizes of its buffers,
    in front of a source that holds a frame. *)
Definition r_fresh (r : Reader) (st : World E (list byte)) (b : list byte)
  : Prop :=
  r_stream r = 0 /\ r_pos r = 0 /\ r_end r = 0 /\
  r_streamEnded r = false /\
  r_inBuffer r = mkIn nil_pointer 0 0 /\
  0 < len (r_buffer r) < 2 ^ 63 /\
  (r_readBuffer r = nil_bytes \/ 0 < len (readBuffer_mem r) < 2 ^ 63) /\
  frame M b (stream_io st).

(** A Reader that has delivered [d] of the payload [b], with at most [F]
    compressed bytes still to be fed to the engine. *)
Definition r_reading (F : nat) (r : Reader) (st : World E (list byte))
    (b d : list byte) : Prop :=
  (r_fresh r st b /\ d = [] /\ (List.length (stream_io st) <= F)%nat) \/
  (exists g,
     staged r g /\
     ((r_streamEnded r = true /\ b = d ++ g) \/
      (r_streamEnded r = false /\
       exists todo owed,
         b = d ++ g ++ owed /\ r_live r st todo owed /\
         (List.length todo <= F)%nat))).
End ReaderStates.

(** What the refill step keeps. *)
Definition r_same_output (r r2 : Reader) : Prop :=
  r_stream r2 = r_stream r /\ r_ctx r2 = r_ctx r /\
  r_readBuffer r2 = r_readBuffer r /\ r_pos r2 = r_pos r /\
  r_end r2 = r_end r /\ r_streamEnded r2 = r_streamEnded r.

(** ** The reference engine as a streaming codec *)

(** The compressor of the reference engine: what it has written out and
    what it still holds make up the tagged payload, closed once the end of
    the frame has been queued. *)
Definition toy_cs (e : Toy) (h : handle) (ending : bool)
    (taken sent : list byte) : Prop :=
  c_ended e = ending /\
  sent ++ c_pending e = tag_encode taken ++ (if ending then [x00] else []).

Definition toy_backlog (e : Toy) (h : handle) : nat :=
  List.length (c_pending e) + (if c_ended e then 0 else 1).

(** What is left of a frame in front of a decoder in mode [m], and the
    payload [out] it carries. *)
Definition toy_rest (m : toy_mode) (todo out : list byte) : Prop :=
  match m with
  | at_tag => todo = toy_frame out
  | at_data => exists x out', out = x :: out' /\ todo = x :: toy_frame out'
  | at_end => todo = [] /\ out = []
  | at_error => False
  end.

Definition toy_ds (e : Toy) (h : handle) (todo owed : list byte) : Prop :=
  exists out, owed = d_pending e ++ out /\ toy_rest (d_mode e) todo out.

Definition toy_model : StreamModel Toy :=
  mkStreamModel (fun b f => f = toy_frame b) toy_cs toy_backlog toy_ds.

(** The reference engine with the habit of the real library once a frame
    has ended: a decompression step on a session whose frame is decoded
    and delivered answers with a positive hint, the size of the header of
    a frame that might follow, and touches nothing. *)
Definition toy_expecting_decompressStream (h : handle) (o : ZstdOutBuffer)
    (i : ZstdInBuffer) (e : Toy) : StepResult * Toy :=
  match d_mode e, d_pending e with
  | at_end, [] => (mkStep 1 (oPos o) (iPos i) [], e)
  | _, _ => toy_decompressStream h o i e
  end.

Definition toy_expecting : Zstd Toy :=
  mkZstd (compressBound toy) (isError toy) (getErrorName toy)
    (compress toy) (decompress toy)
    (createCCtx toy) (freeCCtx toy) (createDCtx toy) (freeDCtx toy)
    (createCStream toy) (freeCStream toy) (compressStream2 toy)
    (createDStream toy) (freeDStream toy)
    toy_expecting_decompressStream.

(** ** Writers and Readers at the ends of a round trip *)

(** A Writer that has accepted the payload [taken] and has not been
    closed, over a byte buffer that holds what its session has sent:
    either it has accepted nothing and holds no session, or its session has
    taken [taken]. *)
Definition w_writing (E : Type) (M : StreamModel E) (w : Writer)
    (st : World E (list byte)) (taken : list byte) : Prop :=
  0 < len (w_buffer w) < 2 ^ 63 /\
  ((w_stream w = 0 /\ taken = [] /\ stream_io st = []) \/
   ((w_stream w =? 0) = false /\
    cs M (engine st) (w_stream w) false taken (stream_io st))).

(** A Reader that has not been used, as [NewReader] builds it, up to the
    sizes of its buffers. *)
Definition r_unused (r : Reader) : Prop :=
  r_stream r = 0 /\ r_pos r = 0 /\ r_end r = 0 /\
  r_streamEnded r = false /\
  r_inBuffer r = mkIn nil_pointer 0 0 /\
  0 < len (r_buffer r) < 2 ^ 63 /\
  (r_readBuffer r = nil_bytes \/ 0 < len (readBuffer_mem r) < 2 ^ 63).

(** * Further definitions *)

(** ** The level of a Writer *)

(** [w.level] replaced. *)
Definition set_w_level (l : Z) (w : Writer) : Writer :=
  mkWriter (w_ctx w) l (w_buffer w) (w_inBuffer w) (w_outBuffer w)
    (w_stream w).

(** The outcome of a method of the Writer, with the level of the Writer it
    leaves replaced. *)
Definition with_level (A E S : Type) (l : Z)
    (o : outcome (Writer * World E S * A))
  : outcome (Writer * World E S * A) :=
  match o with
  | Done (w, st, a) => Done (set_w_level l w, st, a)
  | Panic m => Panic m
  | OutOfFuel => OutOfFuel
  end.

(** ** What reaches the sink *)

(** The bytes that the compression steps of a trace have written without
    a fault, oldest first. *)
Fixpoint emitted (E : Type) (z : Zstd E) (tr : list Call) : list byte :=
  match tr with
  | [] => []
  | call_compressStream2 _ _ _ _ r :: older =>
      emitted z older ++ (if isError z (hint r) =? 0 then written r else [])
  | _ :: older => emitted z older
  end.

(** A compressor that counts its output: a step that starts at position 0
    and reports no fault leaves the output cursor at the number of bytes
    it has written, within the region. *)
Definition counts_its_output (E : Type) (z : Zstd E) : Prop :=
  forall h o i op e,
    oPos o = 0 -> 0 <= oSize o ->
    let r := fst (compressStream2 z h o i op e) in
    isError z (u64 (hint r)) = 0 ->
    out_pos r = len (written r) /\ len (written r) <= oSize o.

(** The sink holds [base] followed by what the steps of the trace have
    written. *)
Definition sink_is_output (E : Type) (z : Zstd E) (base : list byte)
    (st : World E (list byte)) : Prop :=
  stream_io st = base ++ emitted z (calls st).

(** ** Dictionaries *)

(** The dictionary functions of the [Zstd] struct.  They are [nil] until
    [registerDictionaryFunctions] has run on the instance. *)
Record ZstdDict (E : Type) : Type := mkZstdDict {
  createCDict : list byte -> Z -> Z -> E -> handle * E;
  freeCDict : handle -> E -> E;
  createDDict : list byte -> Z -> E -> handle * E;
  freeDDict : handle -> E -> E;
  compressUsingCDict :
    handle -> Z -> list byte -> Z -> handle -> E -> (Z * list byte) * E;
  decompressUsingDDict :
    handle -> Z -> list byte -> Z -> handle -> E -> (Z * list byte) * E;
  getDictID : list byte -> Z -> Z
}.

(** [Dictionary]: the data it was loaded from and the ID the library
    reported.  Its [zstd] field is read by no function. *)
Record Dictionary : Type := mkDictionary { dictData : list byte; dictID : Z }.

(** The calls of the dictionary functions, next to those of the other
    functions of the package. *)
Inductive DictCall : Type :=
| base_call (c : Call)
| call_getDictID (dict : list byte) (id : Z)
| call_createCDict (dict : list byte) (level : Z) (h : handle)
| call_freeCDict (h : handle)
| call_createDDict (dict : list byte) (h : handle)
| call_freeDDict (h : handle)
| call_compressUsingCDict
    (ctx : handle) (cap : Z) (src : list byte) (cdict : handle) (r : Z)
| call_decompressUsingDDict
    (ctx : handle) (cap : Z) (src : list byte) (ddict : handle) (r : Z).

(** A [Zstd] instance with its library: the state of the library, whether
    the dictionary functions have been registered, and the calls made so
    far, most recent first. *)
Record DWorld (E : Type) : Type :=
  mkDWorld { d_engine : E; d_registered : bool; d_calls : list DictCall }.

(** [uint32(x)]. *)
Definition u32 (x : Z) : Z := x mod 2 ^ 32.

Section DictionaryMethods.
Context {E : Type}.
Variable z : Zstd E.
Variable zd : ZstdDict E.

Definition dlog (c : DictCall) (st : DWorld E) : DWorld E :=
  mkDWorld (d_engine st) (d_registered st) (c :: d_calls st).

Definition d_with_engine (e : E) (st : DWorld E) : DWorld E :=
  mkDWorld e (d_registered st) (d_calls st).

(** [registerDictionaryFunctions]: nothing to do when the functions are
    there; its result is always [nil]. *)
Definition registerDictionaryFunctions (st : DWorld E) : DWorld E :=
  if d_registered st then st
  else mkDWorld (d_engine st) true (d_calls st).

(** [Zstd.LoadDictionary]. *)
Definition Zstd_LoadDictionary (data : list byte) (st : DWorld E)
  : option Dictionary * option error * DWorld E :=
  if len data =? 0 then
    (None, Some (Errorf "empty dictionary data"%string), st)
  else
    let st1 := registerDictionaryFunctions st in
    let id := u32 (getDictID zd data (u64 (len data))) in
    (Some (mkDictionary data id), None, dlog (call_getDictID data id) st1).

(** [Dictionary.ID]. *)
Definition Dictionary_ID (d : Dictionary) : Z := dictID d.

(** [dict == nil || len(dict.dictData) == 0]. *)
Definition no_dictionary (dict : option Dictionary) : bool :=
  match dict with
  | None => true
  | Some d => len (dictData d) =? 0
  end.

Definition dictionary_data (dict : option Dictionary) : list byte :=
  match dict with None => [] | Some d => dictData d end.

(** A one-shot function of the package run on this instance: its calls
    are added to the trace. *)
Definition run_base (A : Type)
    (f : World E unit -> outcome (A * World E unit)) (st : DWorld E)
  : outcome (A * DWorld E) :=
  match f (mkWorld (d_engine st) tt []) with
  | Done (a, w) =>
      Done (a, mkDWorld (engine w) (d_registered st)
                 (map base_call (calls w) ++ d_calls st))
  | Panic m => Panic m
  | OutOfFuel => OutOfFuel
  end.

Definition d_create (create : E -> handle * E) (ev : handle -> DictCall)
    (st : DWorld E) : handle * DWorld E :=
  let '(h, e) := create (d_engine st) in (h, dlog (ev h) (d_with_engine e st)).

Definition d_free (free : handle -> E -> E) (ev : handle -> DictCall)
    (h : handle) (st : DWorld E) : DWorld E :=
  dlog (ev h) (d_with_engine (free h (d_engine st)) st).

Definition d_isError (code : Z) (st : DWorld E) : Z * DWorld E :=
  let r := isError z code in (r, dlog (base_call (call_isError code r)) st).

Definition d_getErrorName (code : Z) (st : DWorld E) : string * DWorld E :=
  (getErrorName z code, dlog (base_call (call_getErrorName code)) st).

(** [Zstd.CompressUsingDict].  The two deferred calls run when the
    function returns, the dictionary first. *)
Definition Zstd_CompressUsingDict (src : list byte)
    (dict : option Dictionary) (level : Z) (st : DWorld E)
  : outcome (bytes * option error * DWorld E) :=
  if len src =? 0 then Done (some_bytes [], None, st)
  else if no_dictionary dict then
    run_base (Zstd_Compress z src level) st
  else
    let data := dictionary_data dict in
    let '(cctx, st1) :=
      d_create (createCCtx z) (fun h => base_call (call_createCCtx h)) st in
    if cctx =? 0 then
      Done (nil_bytes,
            Some (Errorf "failed to create compression context"%string), st1)
    else
      let free_ctx :=
        d_free (freeCCtx z) (fun h => base_call (call_freeCCtx h)) cctx in
      if negb (d_registered st1) then
        Panic "invalid memory address or nil pointer dereference"%string
      else
        let '(cdict, st2) :=
          d_create (createCDict zd data (u64 (len data)) level)
            (call_createCDict data level) st1 in
        if cdict =? 0 then
          Done (nil_bytes,
                Some (Errorf
                  "failed to create compression dictionary"%string),
                free_ctx st2)
        else
          let release st' :=
            free_ctx (d_free (freeCDict zd) call_freeCDict cdict st') in
          let dstCapacity := u64 (compressBound z (u64 (len src))) in
          let st3 :=
            dlog (base_call
                    (call_compressBound (u64 (len src)) dstCapacity)) st2 in
          if negb (makeslice_ok dstCapacity) then
            Panic "makeslice: len out of range"%string
          else
            match make dstCapacity with
            | [] => Panic "index out of range"%string
            | dst =>
                let '((r, out), e) :=
                  compressUsingCDict zd cctx dstCapacity src
                    (u64 (len src)) cdict (d_engine st3) in
                let result := u64 r in
                let st4 :=
                  dlog (call_compressUsingCDict cctx dstCapacity src cdict
                          result) (d_with_engine e st3) in
                let dst1 := overwrite dst out in
                let '(err, st5) := d_isError result st4 in
                if negb (err =? 0) then
                  let '(name, st6) := d_getErrorName result st5 in
                  Done (nil_bytes,
                        Some (Errorf
                          ("dictionary compression error: " ++ name)%string),
                        release st6)
                else
                  match slice dst1 0 result with
                  | None => Panic "slice bounds out of range"%string
                  | Some d => Done (some_bytes d, None, release st5)
                  end
            end.

(** [Zstd.DecompressUsingDict]. *)
Definition Zstd_DecompressUsingDict (src : list byte)
    (dict : option Dictionary) (maxSize : Z) (st : DWorld E)
  : outcome (bytes * option error * DWorld E) :=
  if len src =? 0 then Done (some_bytes [], None, st)
  else if no_dictionary dict then
    run_base (Zstd_Decompress z src maxSize) st
  else
    let data := dictionary_data dict in
    let maxSize1 := effective_maxSize (len src) maxSize in
    let '(dctx, st1) :=
      d_create (createDCtx z) (fun h => base_call (call_createDCtx h)) st in
    if dctx =? 0 then
      Done (nil_bytes,
            Some (Errorf "failed to create decompression context"%string),
            st1)
    else
      let free_ctx :=
        d_free (freeDCtx z) (fun h => base_call (call_freeDCtx h)) dctx in
      if negb (d_registered st1) then
        Panic "invalid memory address or nil pointer dereference"%string
      else
        let '(ddict, st2) :=
          d_create (createDDict zd data (u64 (len data)))
            (call_createDDict data) st1 in
        if ddict =? 0 then
          Done (nil_bytes,
                Some (Errorf
                  "failed to create decompression dictionary"%string),
                free_ctx st2)
        else
          let release st' :=
            free_ctx (d_free (freeDDict zd) call_freeDDict ddict st') in
          if negb (makeslice_ok maxSize1) then
            Panic "makeslice: len out of range"%string
          else
          match make maxSize1 with
          | [] => Panic "index out of range"%string
          | dst =>
              let '((r, out), e) :=
                decompressUsingDDict zd dctx (u64 maxSize1) src
                  (u64 (len src)) ddict (d_engine st2) in
              let result := u64 r in
              let st3 :=
                dlog (call_decompressUsingDDict dctx (u64 maxSize1) src ddict
                        result) (d_with_engine e st2) in
              let dst1 := overwrite dst out in
              let '(err, st4) := d_isError result st3 in
              if negb (err =? 0) then
                let '(name, st5) := d_getErrorName result st4 in
                Done (nil_bytes,
                      Some (Errorf
                        ("dictionary decompression error: " ++ name)%string),
                      release st5)
              else
                match slice dst1 0 result with
                | None => Panic "slice bounds out of range"%string
                | Some d => Done (some_bytes d, None, release st4)
                end
          end.
End DictionaryMethods.

(** *** Native objects alive along a trace *)

Inductive object_kind : Type := a_cctx | a_dctx | a_cdict | a_ddict.

Definition object_kind_eqb (k1 k2 : object_kind) : bool :=
  match k1, k2 with
  | a_cctx, a_cctx | a_dctx, a_dctx | a_cdict, a_cdict | a_ddict, a_ddict =>
      true
  | _, _ => false
  end.

(** What a call does to the native objects: it creates one, frees one, or
    leaves them alone.  A creation that returns [nil] creates nothing. *)
Inductive object_event : Type :=
| creates (k : object_kind) (h : handle)
| frees (k : object_kind) (h : handle)
| no_object.

Definition object_event_of (c : DictCall) : object_event :=
  match c with
  | base_call (call_createCCtx h) =>
      if h =? 0 then no_object else creates a_cctx h
  | base_call (call_createDCtx h) =>
      if h =? 0 then no_object else creates a_dctx h
  | call_createCDict _ _ h => if h =? 0 then no_object else creates a_cdict h
  | call_createDDict _ h => if h =? 0 then no_object else creates a_ddict h
  | base_call (call_freeCCtx h) => frees a_cctx h
  | base_call (call_freeDCtx h) => frees a_dctx h
  | call_freeCDict h => frees a_cdict h
  | call_freeDDict h => frees a_ddict h
  | _ => no_object
  end.

(** The contexts and dictionaries a trace leaves alive, the most recent
    first; [None] when the trace frees anything but the most recent object
    alive. *)
Fixpoint held (tr : list DictCall) : option (list (object_kind * handle)) :=
  match tr with
  | [] => Some []
  | c :: older =>
      match held older with
      | None => None
      | Some live =>
          match object_event_of c with
          | creates k h => Some ((k, h) :: live)
          | frees k h =>
              match live with
              | (k', h') :: rest =>
                  if object_kind_eqb k k' && (h =? h') then Some rest
                  else None
              | [] => None
              end
          | no_object => Some live
          end
      end
  end.

(** A call of one of the two dictionary functions. *)
Inductive dict_op : Type :=
| op_CompressUsingDict (src : list byte) (dict : option Dictionary)
    (level : Z)
| op_DecompressUsingDict (src : list byte) (dict : option Dictionary)
    (maxSize : Z).

Definition run_dict_op (E : Type) (z : Zstd E) (zd : ZstdDict E)
    (op : dict_op) (st : DWorld E)
  : outcome (bytes * option error * DWorld E) :=
  match op with
  | op_CompressUsingDict src dict level =>
      Zstd_CompressUsingDict z zd src dict level st
  | op_DecompressUsingDict src dict maxSize =>
      Zstd_DecompressUsingDict z zd src dict maxSize st
  end.

(** *** What a codec with dictionaries owes its callers *)

(** The vocabulary: [cdict_for e h data] says that in state [e] the
    handle [h] is a compression dictionary made from [data];
    [ddict_for] the same for decompression. *)
Record DictModel (E : Type) : Type := mkDictModel {
  cdict_for : E -> handle -> list byte -> Prop;
  ddict_for : E -> handle -> list byte -> Prop
}.

Section DictContracts.
Context {E : Type}.
Variable z : Zstd E.
Variable zd : ZstdDict E.
Variable DM : DictModel E.

(** [c] decompresses to [b] with a dictionary made from [data], when the
    destination has room for [b], and is refused otherwise. *)
Definition dict_decompresses_to (data c b : list byte) : Prop :=
  forall ctx cap h e,
    ddict_for DM e h data -> ctx <> 0 -> 0 < cap < 2 ^ 63 ->
    exists r out e',
      decompressUsingDDict zd ctx cap c (len c) h e = ((r, out), e') /\
      0 <= r < 2 ^ 64 /\
      if len b <=? cap
      then r = len b /\ out = b /\ isError z r = 0
      else isError z r <> 0.

Record DictCodec : Prop := mkDictCodec {
  dc_bound : forall n, 0 < n < 2 ^ 62 -> 0 < compressBound z n < 2 ^ 63;
  dc_cctx : forall e, fst (createCCtx z e) <> 0;
  dc_dctx : forall e, fst (createDCtx z e) <> 0;
  dc_cdict :
    forall data level e,
      0 < len data < 2 ^ 63 -> level_in_range level ->
      fst (createCDict zd data (len data) level e) <> 0 /\
      cdict_for DM (snd (createCDict zd data (len data) level e))
        (fst (createCDict zd data (len data) level e)) data;
  dc_ddict :
    forall data e,
      0 < len data < 2 ^ 63 ->
      fst (createDDict zd data (len data) e) <> 0 /\
      ddict_for DM (snd (createDDict zd data (len data) e))
        (fst (createDDict zd data (len data) e)) data;
  dc_compress :
    forall ctx cap b h data e,
      cdict_for DM e h data -> ctx <> 0 ->
      0 < len b < 2 ^ 62 -> compressBound z (len b) <= cap < 2 ^ 63 ->
      exists c e',
        compressUsingCDict zd ctx cap b (len b) h e = ((len c, c), e') /\
        0 < len c <= cap /\ isError z (len c) = 0 /\
        dict_decompresses_to data c b
}.
End DictContracts.

(** *** A small engine with dictionaries *)

(** The first byte of a dictionary. *)
Definition dict_head (data : list byte) : byte :=
  match data with [] => x00 | b :: _ => b end.

(** A fake library whose state is the dictionary made most recently.  Its
    one-shot codec is the identity; with a dictionary it puts the first
    byte of the dictionary in front of the payload and checks that byte
    when decompressing. *)
Definition tagging : Zstd (list byte) :=
  mkZstd
    (fun n => n + 1)
    (fun code => if code =? fake_error_code then 1 else 0)
    (fun _ => "fake"%string)
    (fun cap src _ _ e =>
       if len src <=? cap then ((len src, src), e)
       else ((fake_error_code, []), e))
    (fun cap src _ e =>
       if len src <=? cap then ((len src, src), e)
       else ((fake_error_code, []), e))
    (fun e => (1, e)) (fun _ e => e)
    (fun e => (1, e)) (fun _ e => e)
    (fun e => (2, e)) (fun _ e => e)
    (fun _ o i _ e => (mkStep 1 (oPos o) (iPos i) [], e))
    (fun e => (2, e)) (fun _ e => e)
    (fun _ o i e => (mkStep 1 (oPos o) (iPos i) [], e)).

Definition tagging_dict : ZstdDict (list byte) :=
  mkZstdDict
    (fun data _ _ _ => (3, data))
    (fun _ e => e)
    (fun data _ _ => (4, data))
    (fun _ e => e)
    (fun _ cap src _ _ e =>
       let c := dict_head e :: src in
       if len c <=? cap then ((len c, c), e) else ((fake_error_code, []), e))
    (fun _ cap src _ _ e =>
       match src with
       | t :: b =>
           if Byte.eqb t (dict_head e) && (len b <=? cap)
           then ((len b, b), e)
           else ((fake_error_code, []), e)
       | [] => ((fake_error_code, []), e)
       end)
    (fun data _ => Z.of_N (Byte.to_N (dict_head data))).

Definition tagging_model : DictModel (list byte) :=
  mkDictModel (fun e _ data => e = data) (fun e _ data => e = data).

(** An instance on which a dictionary has been loaded. *)
Definition dworld0 (E : Type) (e : E) : DWorld E := mkDWorld e true [].

(** ** The library behind an instance *)

(** [z.handle] and [z.tempLibPath]. *)
Record Library : Type := mkLibrary { lib_handle : Z; tempLibPath : string }.

(** A file the loader holds open: one of the embedded libraries, or the
    copy written to the temporary directory. *)
Inductive OsFile : Type :=
| embedded_file (path : string)
| temp_file (path : string).

(** Calls to the operating system, to the embedded files and to
    [purego], each with what it returned. *)
Inductive OsCall : Type :=
| os_Dlclose (h : Z) (err : option error)
| os_RemoveAll (path : string)
| os_MkdirTemp (dir pattern : string) (res : string + error)
| os_Open (path : string) (err : option error)
| os_Create (path : string) (err : option error)
| os_Copy (dst src : string) (err : option error)
| os_Close (f : OsFile)
| os_Chmod (path : string) (mode : Z) (err : option error)
| os_Dlopen (path : string) (mode : Z) (res : Z + error).

Section LibraryMethods.
(** What [purego.Dlclose] answers. *)
Variable Dlclose : Z -> option error.

(** [closeLibrary]. *)
Definition closeLibrary (lib : Library) (os : list OsCall)
  : option error * list OsCall :=
  let '(err, os1) :=
    if negb (lib_handle lib =? 0) then
      (Dlclose (lib_handle lib),
       os_Dlclose (lib_handle lib) (Dlclose (lib_handle lib)) :: os)
    else (None, os) in
  let os2 :=
    if negb (tempLibPath lib =? "")%string
    then os_RemoveAll (tempLibPath lib) :: os1
    else os1 in
  (err, os2).

(** [Zstd.Close]. *)
Definition Zstd_Close (lib : Library) (os : list OsCall)
  : Library * list OsCall * option error :=
  if lib_handle lib =? 0 then (lib, os, None)
  else
    let '(err, os1) := closeLibrary lib os in
    (mkLibrary 0 (tempLibPath lib), os1, err).

(** [if err1 != nil { return err1 }; return err2]. *)
Definition first_error (err1 err2 : option error) : option error :=
  match err1 with Some e => Some e | None => err2 end.

Section Wrappers.
Context {E S : Type}.
Variable z : Zstd E.

(** [writeCloserWrapper.Close]. *)
Definition writeCloserWrapper_Close (sink : Sink S) (fuel : nat)
    (w : Writer) (st : World E S) (lib : Library) (os : list OsCall)
  : outcome (Writer * World E S * Library * list OsCall * option error) :=
  match Writer_Close z sink fuel w st with
  | Done (w1, st1, err1) =>
      let '(lib1, os1, err2) := Zstd_Close lib os in
      Done (w1, st1, lib1, os1, first_error err1 err2)
  | Panic m => Panic m
  | OutOfFuel => OutOfFuel
  end.

(** [readCloserWrapper.Close]. *)
Definition readCloserWrapper_Close (r : Reader) (st : World E S)
    (lib : Library) (os : list OsCall)
  : Reader * World E S * Library * list OsCall * option error :=
  let '(r1, st1, err1) := Reader_Close z r st in
  let '(lib1, os1, err2) := Zstd_Close lib os in
  (r1, st1, lib1, os1, first_error err1 err2).

(** What [New] returns: an instance with its library and the initial
    state of that library, or an error. *)
Inductive loaded : Type :=
| load_ok (lib : Library) (e0 : E)
| load_error (err : error).

(** A package-level one-shot function: [z, err := New()], then
    [defer z.Close()] around the method [run] of the instance. *)
Definition with_instance (new : loaded)
    (run : World E unit -> outcome (bytes * option error * World E unit))
    (os : list OsCall)
  : outcome (bytes * option error * list Call * list OsCall) :=
  match new with
  | load_error err => Done (nil_bytes, Some err, [], os)
  | load_ok lib e0 =>
      match run (mkWorld e0 tt []) with
      | Done (out, err, st) =>
          let '(_, os1, _) := Zstd_Close lib os in
          Done (out, err, calls st, os1)
      | Panic m => Panic m
      | OutOfFuel => OutOfFuel
      end
  end.

(** [CompressLevel], [Compress], [CompressFast], [CompressBest] and
    [Decompress] of the package. *)
Definition CompressLevel (new : loaded) (src : list byte) (level : Z) :=
  with_instance new (Zstd_Compress z src level).
Definition Compress (new : loaded) (src : list byte) :=
  CompressLevel new src DefaultCompression.
Definition CompressFast (new : loaded) (src : list byte) :=
  CompressLevel new src BestSpeed.
Definition CompressBest (new : loaded) (src : list byte) :=
  CompressLevel new src BestCompression.
Definition Decompress (new : loaded) (src : list byte) (maxSize : Z) :=
  with_instance new (Zstd_Decompress z src maxSize).
End Wrappers.
End LibraryMethods.

(** ** Adapters that do not panic *)

(** The buffer for decompressed bytes is still to be allocated, by the
    [Read] that creates the session, or it is not empty. *)
Definition read_buffer_ok (r : Reader) : Prop :=
  (r_readBuffer r = nil_bytes /\ r_stream r = 0) \/ readBuffer_mem r <> [].

(** A Reader whose buffers are in order: the buffer for compressed bytes
    is not empty, the one for decompressed bytes is in order, and the
    staged bytes lie inside it. *)
Definition r_sound (r : Reader) : Prop :=
  r_buffer r <> [] /\ read_buffer_ok r /\
  len (readBuffer_mem r) < 2 ^ 63 /\
  0 <= r_pos r /\
  (r_pos r < r_end r -> r_end r <= len (readBuffer_mem r)).

(** The call did not panic. *)
Definition no_panic (A : Type) (o : outcome A) : Prop :=
  match o with Panic _ => False | _ => True end.

(** The outcome of a method of the Writer is not a panic, and the Writer
    it leaves has its staging buffer. *)
Definition w_safe (A E S : Type) (o : outcome (Writer * World E S * A))
  : Prop :=
  match o with
  | Done (w', _, _) => w_buffer w' <> []
  | Panic _ => False
  | OutOfFuel => True
  end.

(** The outcome of the loop of [Read] is not a panic, and the Reader it
    leaves has its buffers in order, with what the loop has staged inside
    the read buffer. *)
Definition r_loop_safe (A E S : Type) (pos : Z)
    (o : outcome (Reader * World E S * A)) : Prop :=
  match o with
  | Done (r', _, _) =>
      r_buffer r' <> [] /\ read_buffer_ok r' /\
      len (readBuffer_mem r') < 2 ^ 63 /\
      0 <= r_end r' <= len (readBuffer_mem r') /\ r_pos r' = pos
  | Panic _ => False
  | OutOfFuel => True
  end.

(** The outcome of [Read] is not a panic and leaves a sound Reader. *)
Definition r_safe (A E S : Type) (o : outcome (Reader * World E S * A))
  : Prop :=
  match o with
  | Done (r', _, _) => r_sound r'
  | Panic _ => False
  | OutOfFuel => True
  end.

(** ** Loading the library (dictionary.go) *)

(** What the platform answers to [extractAndLoadLibrary]: the constants
    of [runtime] and of [purego], the functions of [path/filepath], the
    text of an error, and the results of the calls to the file system, to
    the embedded files and to [purego.Dlopen].  A [nil] error is
    [None]. *)
Record Platform : Type := mkPlatform {
  GOOS : string;
  GOARCH : string;
  MkdirTemp : string -> string -> string + error;
  embeddedLibs_Open : string -> option error;
  filepath_Split : string -> string * string;
  filepath_Join : string -> string -> string;
  Create : string -> option error;
  Copy : string -> string -> option error;
  Chmod : string -> Z -> option error;
  RTLD_NOW : Z;
  RTLD_GLOBAL : Z;
  Dlopen : string -> Z -> Z + error;
  Error_text : error -> string
}.

Section Loading.
Variable P : Platform.

(** [fmt.Errorf(msg + ": %w", err)]: the text of the error made. *)
Definition Errorf_w (msg : string) (err : error) : error :=
  Errorf (msg ++ ": " ++ Error_text P err)%string.

(** The [switch] on [runtime.GOOS]: the embedded library of the platform,
    or the error returned for a platform without one. *)
Definition platform_libPath : string + error :=
  if (GOOS P =? "linux")%string then
    if (GOARCH P =? "amd64")%string
    then inl "libs/linux_amd64_glibc2.17/libzstd.so.1"%string
    else inr (Errorf ("unsupported Linux architecture: " ++ GOARCH P)%string)
  else if (GOOS P =? "darwin")%string then
    if (GOARCH P =? "arm64")%string
    then inl "libs/darwin_arm64/libzstd.dylib"%string
    else inr (Errorf ("unsupported macOS architecture: " ++ GOARCH P)%string)
  else
    inr (Errorf ("unsupported platform: " ++ GOOS P ++ "/" ++ GOARCH P)%string).

(** The body of [extractAndLoadLibrary] after [defer libFile.Close()]. *)
Definition extract_opened (libPath tempDir : string) (os : list OsCall)
  : string * Z * option error * list OsCall :=
  let '(_, libFilename) := filepath_Split P libPath in
  let tempLibFile := filepath_Join P tempDir libFilename in
  let created := Create P tempLibFile in
  let os1 := os_Create tempLibFile created :: os in
  match created with
  | Some err =>
      (""%string, 0, Some (Errorf_w "failed to create temp file" err),
       os_RemoveAll tempDir :: os1)
  | None =>
      let copied := Copy P tempLibFile libPath in
      let os2 :=
        os_Close (temp_file tempLibFile) ::
        os_Copy tempLibFile libPath copied :: os1 in
      match copied with
      | Some err =>
          (""%string, 0,
           Some (Errorf_w "failed to write temp library file" err),
           os_RemoveAll tempDir :: os2)
      | None =>
          let '(changed, os3) :=
            if negb (GOOS P =? "windows")%string then
              (Chmod P tempLibFile 493,
               os_Chmod tempLibFile 493 (Chmod P tempLibFile 493) :: os2)
            else (None, os2) in
          match changed with
          | Some err =>
              (""%string, 0,
               Some (Errorf_w "failed to set library permissions" err),
               os_RemoveAll tempDir :: os3)
          | None =>
              let mode := Z.lor (RTLD_NOW P) (RTLD_GLOBAL P) in
              let opened := Dlopen P tempLibFile mode in
              let os4 := os_Dlopen tempLibFile mode opened :: os3 in
              match opened with
              | inr err =>
                  (""%string, 0, Some (Errorf_w "failed to load library" err),
                   os_RemoveAll tempDir :: os4)
              | inl handle => (tempDir, handle, None, os4)
              end
          end
      end
  end.

(** [extractAndLoadLibrary]: the temporary directory, the handle of the
    library and the error, with the calls made, the most recent first. *)
Definition extractAndLoadLibrary (os : list OsCall)
  : string * Z * option error * list OsCall :=
  match platform_libPath with
  | inr err => (""%string, 0, Some err, os)
  | inl libPath =>
      let made := MkdirTemp P "" "zstd-lib" in
      let os1 := os_MkdirTemp "" "zstd-lib" made :: os in
      match made with
      | inr err =>
          (""%string, 0,
           Some (Errorf_w "failed to create temp directory" err), os1)
      | inl tempDir =>
          let found := embeddedLibs_Open P libPath in
          let os2 := os_Open libPath found :: os1 in
          match found with
          | Some err =>
              (""%string, 0,
               Some (Errorf_w "failed to open embedded library" err),
               os_RemoveAll tempDir :: os2)
          | None =>
              let '(dir, handle, err, os3) :=
                extract_opened libPath tempDir os2 in
              (dir, handle, err, os_Close (embedded_file libPath) :: os3)
          end
      end
  end.

(** [loadLibrary]: the instance holds the handle and the temporary
    directory.  The registrations that follow the loading bind the
    functions of the record [Zstd] and are taken to find their symbols;
    [e0] is the state of the library just loaded. *)
Definition loadLibrary (E : Type) (e0 : E) (os : list OsCall)
  : @loaded E * list OsCall :=
  match extractAndLoadLibrary os with
  | (_, _, Some err, os1) => (load_error err, os1)
  | (tempDir, handle, None, os1) =>
      (load_ok (mkLibrary handle tempDir) e0, os1)
  end.

(** [New] of the package. *)
Definition New (E : Type) (e0 : E) (os : list OsCall)
  : @loaded E * list OsCall :=
  loadLibrary e0 os.
End Loading.

(** *** What a trace of the operating system leaves behind *)

Inductive os_resource : Type :=
| a_directory (path : string)
| an_open_file (f : OsFile)
| a_library (h : Z).

Definition OsFile_eqb (f1 f2 : OsFile) : bool :=
  match f1, f2 with
  | embedded_file p1, embedded_file p2 => (p1 =? p2)%string
  | temp_file p1, temp_file p2 => (p1 =? p2)%string
  | _, _ => false
  end.

Definition os_resource_eqb (r1 r2 : os_resource) : bool :=
  match r1, r2 with
  | a_directory p1, a_directory p2 => (p1 =? p2)%string
  | an_open_file f1, an_open_file f2 => OsFile_eqb f1 f2
  | a_library h1, a_library h2 => h1 =? h2
  | _, _ => false
  end.

(** What a call does to the resources of the process: a directory made,
    a file opened or a library loaded is acquired when the call succeeds;
    [RemoveAll], [Close] and a [Dlclose] that succeeds release. *)
Inductive os_event : Type :=
| acquires (r : os_resource)
| releases (r : os_resource)
| no_resource.

Definition os_event_of (c : OsCall) : os_event :=
  match c with
  | os_MkdirTemp _ _ (inl dir) => acquires (a_directory dir)
  | os_Open path None => acquires (an_open_file (embedded_file path))
  | os_Create path None => acquires (an_open_file (temp_file path))
  | os_Dlopen _ _ (inl h) => acquires (a_library h)
  | os_RemoveAll path => releases (a_directory path)
  | os_Close f => releases (an_open_file f)
  | os_Dlclose h None => releases (a_library h)
  | _ => no_resource
  end.

(** One resource less; [None] when it is not among them. *)
Fixpoint release (r : os_resource) (live : list os_resource)
  : option (list os_resource) :=
  match live with
  | [] => None
  | r' :: rest =>
      if os_resource_eqb r r' then Some rest
      else
        match release r rest with
        | Some rest' => Some (r' :: rest')
        | None => None
        end
  end.

(** The directories, open files and libraries a trace leaves behind, the
    most recent first; [None] when the trace releases what it does not
    hold. *)
Fixpoint os_held (tr : list OsCall) : option (list os_resource) :=
  match tr with
  | [] => Some []
  | c :: older =>
      match os_held older with
      | None => None
      | Some live =>
          match os_event_of c with
          | acquires r => Some (r :: live)
          | releases r => release r live
          | no_resource => Some live
          end
      end
  end.

(** A platform on which every call succeeds. *)
Definition linux_amd64 : Platform :=
  mkPlatform "linux" "amd64"
    (fun _ _ => inl "/tmp/zstd-lib1"%string)
    (fun _ => None)
    (fun _ => ("libs/linux_amd64_glibc2.17/", "libzstd.so.1")%string)
    (fun dir name => (dir ++ "/" ++ name)%string)
    (fun _ => None) (fun _ _ => None) (fun _ _ => None)
    2 256 (fun _ _ => inl 7) (fun _ => "error"%string).

(** The same platform with a copy that fails. *)
Definition linux_amd64_full_disk : Platform :=
  mkPlatform "linux" "amd64"
    (fun _ _ => inl "/tmp/zstd-lib1"%string)
    (fun _ => None)
    (fun _ => ("libs/linux_amd64_glibc2.17/", "libzstd.so.1")%string)
    (fun dir name => (dir ++ "/" ++ name)%string)
    (fun _ => None) (fun _ _ => Some (io_error 28)) (fun _ _ => None)
    2 256 (fun _ _ => inl 7) (fun _ => "no space left on device"%string).

(** ** The input of the decompression steps *)

(** The bytes that the decompression steps of a trace have taken from
    their input, the oldest first. *)
Fixpoint consumed (tr : list Call) : list byte :=
  match tr with
  | [] => []
  | c :: older =>
      consumed older ++
      match c with
      | call_decompressStream _ _ i r => taken_by i (in_pos r)
      | _ => []
      end
  end.

(** The engine moves its input cursor forwards and inside the input it
    is given. *)
Definition keeps_input_cursor (E : Type) (z : Zstd E) : Prop :=
  forall h o i e,
    0 <= iPos i <= iSize i ->
    iPos i <= in_pos (fst (decompressStream z h o i e)) <= iSize i.

(** The compressed bytes that the Reader has pulled from its source and
    that no step has taken yet. *)
Definition pending (r : Reader) : list byte :=
  taken_by (r_inBuffer r) (iSize (r_inBuffer r)).

(** [s0] is what the steps have taken, followed by what the Reader holds,
    followed by what the source still has. *)
Definition source_is_input (E : Type) (s0 : list byte) (r : Reader)
    (st : World E (list byte)) : Prop :=
  in_cursor_ok (r_inBuffer r) /\ len (r_buffer r) < 2 ^ 63 /\
  consumed (calls st) ++ pending r ++ stream_io st = s0.

(** ** The streaming constructors of the package *)

Section PackageStreams.
Context {E S : Type}.
Variable z : Zstd E.
Variable P : Platform.

(** [NewWriterLevel] of the package: [nil] and the error of the loading,
    or a wrapper that holds the Writer of a new instance and that
    instance.  [io] is the state of the writer given, and the instance
    starts with an empty trace. *)
Definition package_NewWriterLevel (e0 : E) (io : S) (level : Z)
    (os : list OsCall)
  : option (Writer * World E S * Library) * option error * list OsCall :=
  match New P e0 os with
  | (load_error err, os1) => (None, Some err, os1)
  | (load_ok lib e, os1) =>
      let '(w, st) := NewWriter z level (mkWorld e io []) in
      (Some (w, st, lib), None, os1)
  end.

(** [NewWriter] of the package. *)
Definition package_NewWriter (e0 : E) (io : S) (os : list OsCall)
  : option (Writer * World E S * Library) * option error * list OsCall :=
  package_NewWriterLevel e0 io DefaultCompression os.

(** [NewReader] of the package. *)
Definition package_NewReader (e0 : E) (io : S) (os : list OsCall)
  : option (Reader * World E S * Library) * option error * list OsCall :=
  match New P e0 os with
  | (load_error err, os1) => (None, Some err, os1)
  | (load_ok lib e, os1) =>
      let '(r, st) := NewReader z (mkWorld e io []) in
      (Some (r, st, lib), None, os1)
  end.
End PackageStreams.

(** ** What reaches the caller of [Read] *)

(** The bytes that the decompression steps of a trace have written without
    a fault, oldest first. *)
Fixpoint decoded (E : Type) (z : Zstd E) (tr : list Call) : list byte :=
  match tr with
  | [] => []
  | call_decompressStream _ _ _ r :: older =>
      decoded z older ++ (if isError z (hint r) =? 0 then written r else [])
  | _ :: older => decoded z older
  end.

(** A decompressor that counts its output: a step that starts at position
    0 and reports no fault leaves the output cursor at the number of bytes
    it has written, within the region. *)
Definition counts_its_decoded_output (E : Type) (z : Zstd E) : Prop :=
  forall h o i e,
    oPos o = 0 -> 0 <= oSize o ->
    let r := fst (decompressStream z h o i e) in
    isError z (u64 (hint r)) = 0 ->
    out_pos r = len (written r) /\ len (written r) <= oSize o.

(** The bytes delivered so far, [acc], followed by those the Reader holds
    staged, are [base] followed by what the steps of the trace have
    written. *)
Definition delivered_is_decoded (E S : Type) (z : Zstd E) (base acc : list byte)
    (r : Reader) (st : World E S) : Prop :=
  len (readBuffer_mem r) < 2 ^ 63 /\
  exists g, staged r g /\ acc ++ g = base ++ decoded z (calls st).
(** * Properties *)

Unset Implicit Arguments.

(** ** Small facts on slices *)

Lemma overwrite_length (dst src : list byte) :
  List.length (overwrite dst src) = List.length dst.
Proof.
  unfold overwrite. rewrite firstn_length_le; [reflexivity|].
  rewrite length_app, length_skipn. lia.
Qed.

Lemma len_overwrite (dst src : list byte) : len (overwrite dst src) = len dst.
Proof. unfold len. now rewrite overwrite_length. Qed.

Lemma len_nonneg (A : Type) (l : list A) : 0 <= len l.
Proof. unfold len. lia. Qed.

Lemma len_zero_nil (A : Type) (l : list A) : len l = 0 -> l = [].
Proof. unfold len. destruct l; simpl; [reflexivity|lia]. Qed.

Lemma u64_small (x : Z) : 0 <= x < 2 ^ 64 -> u64 x = x.
Proof. intros H. unfold u64. now apply Z.mod_small. Qed.

Lemma u64_range (x : Z) : 0 <= u64 x < 2 ^ 64.
Proof. unfold u64. apply Z.mod_pos_bound. lia. Qed.

Lemma to_int_small (x : Z) : 0 <= x < 2 ^ 63 -> to_int x = x.
Proof.
  intros H. unfold to_int. rewrite Z.mod_small by lia.
  destruct (Z.ltb_spec x (2 ^ 63)); lia.
Qed.

(** ** Proof automation for the method bodies *)

Ltac unfold_native :=
  unfold do_compressStream2, do_decompressStream, do_isError,
    do_getErrorName, do_sink_Write, do_source_Read, do_create, do_free,
    do_compress, do_decompress, do_compressBound, log, with_engine, with_io
    in *.

(** Case analysis on the first scrutinee found in hypothesis [H]. *)
Ltac break_in H :=
  match type of H with
  | context [match ?x with _ => _ end] =>
      let Hx := fresh "Hx" in destruct x eqn:Hx
  | context [if ?b then _ else _] =>
      let Hb := fresh "Hb" in destruct b eqn:Hb
  end.

Ltac done_inv H := injection H as <- <- <-.

(** Runs the first conjunct of the goal, an execution on concrete data,
    and keeps its equation as [H]. *)
Ltac run_and_keep H :=
  match goal with
  | |- ?lhs = _ /\ _ =>
      assert (H : lhs = Done _) by (vm_compute; reflexivity);
      split; [exact H|]
  end.

(** The same for a call that returns at once. *)
Ltac eval_and_keep H :=
  match goal with
  | |- ?lhs = _ /\ _ =>
      assert (H : lhs = _) by (vm_compute; reflexivity);
      split; [exact H|]
  end.

(** ** Traces that only grow *)

Lemma extends_refl (P : Call -> Prop) (tr : list Call) : extends P tr tr.
Proof. exists []. split; [reflexivity|constructor]. Qed.

Lemma extends_cons (P : Call -> Prop) (old tr : list Call) (c : Call) :
  P c -> extends P old tr -> extends P old (c :: tr).
Proof.
  intros Hc (new & -> & Hnew). exists (c :: new). split; [reflexivity|].
  now constructor.
Qed.

Lemma extends_trans (P : Call -> Prop) (tr1 tr2 tr3 : list Call) :
  extends P tr1 tr2 -> extends P tr2 tr3 -> extends P tr1 tr3.
Proof.
  intros (n1 & -> & H1) (n2 & -> & H2). exists (n2 ++ n1).
  split; [now rewrite app_assoc|]. apply Forall_app. now split.
Qed.

Lemma extends_weaken (P Q : Call -> Prop) (old tr : list Call) :
  (forall c, P c -> Q c) -> extends P old tr -> extends Q old tr.
Proof.
  intros HPQ (new & -> & Hnew). exists new. split; [reflexivity|].
  eapply Forall_impl; eassumption.
Qed.

(** ** The Writer holds the session the trace says it holds *)

Section WriterLifecycle.
Context {E S : Type}.
Variable z : Zstd E.
Variable sink : Sink S.

Lemma session_of_nonzero (h : handle) :
  (h =? 0) = false -> session_of h = Some h.
Proof. intros H. unfold session_of. now rewrite H. Qed.

Lemma w_setup_out_stream (w w1 : Writer) :
  w_setup_out w = Some w1 ->
  w_stream w1 = w_stream w /\ w_inBuffer w1 = w_inBuffer w /\
  w_buffer w1 = w_buffer w /\ w_ctx w1 = w_ctx w /\
  w_outBuffer w1 = mkOut (address_of (w_buffer w)) (u64 (len (w_buffer w))) 0.
Proof.
  unfold w_setup_out. destruct (w_buffer w) eqn:Hb; [discriminate|].
  intros H. injection H as <-. simpl. rewrite Hb. auto.
Qed.

Lemma w_drain_calls (w : Writer) (st st' : World E S) (err : option error) :
  w_drain sink w st = Done (err, st') ->
  engine st' = engine st /\
  (calls st' = calls st \/
   exists p n, calls st' = sink_Write p n err :: calls st).
Proof.
  unfold w_drain. intros H.
  destruct (0 <? oPos (w_outBuffer w)).
  - destruct (slice _ _ _); [|discriminate].
    unfold_native. destruct (sink l (stream_io st)) as [[n e] s].
    injection H as <- <-. simpl. split; [reflexivity|]. right. eauto.
  - injection H as <- <-. auto.
Qed.

Lemma writer_loop_calls_own (w : Writer) (cap op : Z) (new old : list Call) :
  (w_stream w =? 0) = false ->
  Forall (writer_loop_call z (w_stream w) cap op) new ->
  writer_owns w old -> writer_owns w (new ++ old).
Proof.
  intros Hs Hnew Hown. induction Hnew as [|c new Hc _ IH]; [assumption|].
  unfold writer_owns in *. simpl. rewrite IH.
  destruct c; simpl in Hc; try tauto; try reflexivity.
  destruct Hc as (-> & _). rewrite (session_of_nonzero _ Hs). simpl.
  now rewrite Z.eqb_refl.
Qed.

Lemma step_shape (w w1 : Writer) (op : Z) (e : E) :
  w_setup_out w = Some w1 ->
  writer_loop_call z (w_stream w) (u64 (len (w_buffer w))) op
    (call_compressStream2 (w_stream w1) (w_outBuffer w1) (w_inBuffer w1) op
       (as_uint64
          (fst (compressStream2 z (w_stream w1) (w_outBuffer w1)
                  (w_inBuffer w1) op e)))).
Proof.
  intros H. apply w_setup_out_stream in H as (Hs & Hi & Hb & Hc & Ho).
  simpl. rewrite Ho. simpl. repeat split; eauto.
Qed.

Lemma w_same_session_refl (w : Writer) : w_same_session w w.
Proof. unfold w_same_session. auto. Qed.

Lemma w_same_session_step (w w1 : Writer) (r : StepResult) :
  w_setup_out w = Some w1 -> w_same_session w (w_after_step r w1).
Proof.
  intros H. apply w_setup_out_stream in H as (Hs & Hi & Hb & Hc & Ho).
  unfold w_same_session. simpl. rewrite len_overwrite. repeat split; congruence.
Qed.

Lemma w_same_session_trans (w1 w2 w3 : Writer) :
  w_same_session w1 w2 -> w_same_session w2 w3 -> w_same_session w1 w3.
Proof. unfold w_same_session. intuition congruence. Qed.

(** One iteration of a Writer loop, opened up to the error test. *)
Ltac writer_iteration H op :=
  match type of H with
  | context [w_setup_out ?w] =>
      let w1 := fresh "w1" in
      let r := fresh "r" in
      let e := fresh "e" in
      let Hsetup := fresh "Hsetup" in
      let Hshape := fresh "Hshape" in
      let Hstep := fresh "Hstep" in
      let Hsame := fresh "Hsame" in
      let Hiserr := fresh "Hiserr" in
      let w2 := fresh "w2" in
      destruct (w_setup_out w) as [w1|] eqn:Hsetup; [|discriminate];
      match type of H with
      | context [do_compressStream2 _ _ _ _ _ ?st] =>
          pose proof (step_shape w w1 op (engine st) Hsetup) as Hshape
      end;
      unfold do_compressStream2, do_isError, do_getErrorName in H;
      destruct (compressStream2 _ _ _ _ _ _) as [r e] eqn:Hstep;
      cbn [fst] in Hshape;
      pose proof (w_same_session_step w w1 (as_uint64 r) Hsetup) as Hsame;
      match type of H with
      | context [w_after_step ?r ?w] => set (w2 := w_after_step r w) in *
      end;
      match type of H with
      | context [negb ?b] => destruct b eqn:Hiserr
      end;
      cbn [negb] in H
  end.

Ltac grow_trace Hshape :=
  repeat (apply extends_cons; [exact I || exact Hshape|]);
  apply extends_refl.

Lemma Write_loop_calls (fuel : nat) :
  forall lenp w st w' st' res,
    Write_loop z sink fuel lenp w st = Done (w', st', res) ->
    w_same_session w w' /\
    extends (writer_loop_call z (w_stream w) (u64 (len (w_buffer w)))
               EndContinue) (calls st) (calls st').
Proof.
  induction fuel as [|fuel IH]; intros lenp w st w' st' res H;
    cbn [Write_loop] in H.
  - destruct (iPos (w_inBuffer w) <? iSize (w_inBuffer w)); [discriminate|].
    injection H as <- <- <-. split; [apply w_same_session_refl|].
    apply extends_refl.
  - destruct (iPos (w_inBuffer w) <? iSize (w_inBuffer w));
      [|injection H as <- <- <-; split;
        [apply w_same_session_refl|apply extends_refl]].
    writer_iteration H EndContinue.
    + destruct (w_drain sink w2 _) as [[[err|] st3]| |] eqn:Hdrain;
        try discriminate;
        apply w_drain_calls in Hdrain as [_ Hcalls]; cbn [calls log] in Hcalls.
      * injection H as <- <- <-. split; [assumption|].
        destruct Hcalls as [-> | (p & n & ->)]; grow_trace Hshape.
      * apply IH in H as [Hsame3 Hext].
        split; [eapply w_same_session_trans; eassumption|].
        destruct Hsame as (Hs2 & _ & Hl2). rewrite Hs2, Hl2 in Hext.
        eapply extends_trans; [|exact Hext].
        destruct Hcalls as [-> | (p & n & ->)]; grow_trace Hshape.
    + injection H as <- <- <-. split; [assumption|]. cbn [calls log].
      grow_trace Hshape.
Qed.

Lemma Flush_loop_calls (fuel : nat) :
  forall w st w' st' res,
    Flush_loop z sink fuel w st = Done (w', st', res) ->
    w_same_session w w' /\
    extends (writer_loop_call z (w_stream w) (u64 (len (w_buffer w)))
               EndFlush) (calls st) (calls st').
Proof.
  induction fuel as [|fuel IH]; intros w st w' st' res H;
    cbn [Flush_loop] in H; [discriminate|].
  writer_iteration H EndFlush.
  - destruct (w_drain sink w2 _) as [[[err|] st3]| |] eqn:Hdrain;
      try discriminate;
      apply w_drain_calls in Hdrain as [_ Hcalls]; cbn [calls log] in Hcalls.
    + injection H as <- <- <-. split; [assumption|].
      destruct Hcalls as [-> | (p & n & ->)]; grow_trace Hshape.
    + match type of H with context [if ?b then _ else _] =>
        destruct b eqn:Hzero end.
      * injection H as <- <- <-. split; [assumption|].
        destruct Hcalls as [-> | (p & n & ->)]; grow_trace Hshape.
      * apply IH in H as [Hsame3 Hext].
        split; [eapply w_same_session_trans; eassumption|].
        destruct Hsame as (Hs2 & _ & Hl2). rewrite Hs2, Hl2 in Hext.
        eapply extends_trans; [|exact Hext].
        destruct Hcalls as [-> | (p & n & ->)]; grow_trace Hshape.
  - injection H as <- <- <-. split; [assumption|]. cbn [calls log].
    grow_trace Hshape.
Qed.

(** [Close]'s loop ends, on each of its three exits, with the release of
    the stream; only the name lookup of the fault message comes later. *)
Lemma Close_loop_calls (fuel : nat) :
  forall w st w' st' res,
    Close_loop z sink fuel w st = Done (w', st', res) ->
    w_stream w' = 0 /\ w_ctx w' = w_ctx w /\
    exists mid tail,
      calls st' = tail ++ call_freeCStream (w_stream w) :: mid /\
      extends (writer_loop_call z (w_stream w) (u64 (len (w_buffer w)))
                 EndEnd) (calls st) mid /\
      (tail = [] \/ exists code, tail = [call_getErrorName code]).
Proof.
  induction fuel as [|fuel IH]; intros w st w' st' res H;
    cbn [Close_loop] in H; [discriminate|].
  writer_iteration H EndEnd.
  - destruct (w_drain sink w2 _) as [[[err|] st3]| |] eqn:Hdrain;
      try discriminate;
      apply w_drain_calls in Hdrain as [_ Hcalls]; cbn [calls log] in Hcalls.
    + unfold w_free_stream, do_free in H. injection H as <- <- <-.
      destruct Hsame as (Hs2 & Hc2 & Hl2).
      split; [reflexivity|]. split; [exact Hc2|].
      cbn [calls log with_engine].
      rewrite (Hs2 : w_stream w1 = w_stream w) in *.
      eexists; exists []. split; [reflexivity|]. split; [|now left].
      destruct Hcalls as [-> | (p & n & ->)]; grow_trace Hshape.
    + match type of H with context [if ?b then _ else _] =>
        destruct b eqn:Hzero end.
      * unfold w_free_stream, do_free in H. injection H as <- <- <-.
        destruct Hsame as (Hs2 & Hc2 & Hl2).
        split; [reflexivity|]. split; [exact Hc2|].
        cbn [calls log with_engine].
      rewrite (Hs2 : w_stream w1 = w_stream w) in *.
        eexists; exists []. split; [reflexivity|]. split; [|now left].
        destruct Hcalls as [-> | (p & n & ->)]; grow_trace Hshape.
      * apply IH in H as (Hs3 & Hc3 & mid & tail & Hcalls3 & Hext & Htail).
        destruct Hsame as (Hs2 & Hc2 & Hl2). rewrite Hs2, Hl2 in *.
        split; [assumption|]. split; [congruence|].
        exists mid, tail. split; [assumption|]. split; [|assumption].
        eapply extends_trans; [|exact Hext].
        destruct Hcalls as [-> | (p & n & ->)]; grow_trace Hshape.
  - unfold w_free_stream, do_free in H. injection H as <- <- <-.
    destruct Hsame as (Hs2 & Hc2 & Hl2).
    split; [reflexivity|]. split; [exact Hc2|].
    cbn [calls log with_engine].
      rewrite (Hs2 : w_stream w1 = w_stream w) in *.
    eexists; eexists [_]. split; [reflexivity|]. split; [|right; eauto].
    grow_trace Hshape.
Qed.
Lemma extends_own (w : Writer) (cap op : Z) (old tr : list Call) :
  (w_stream w =? 0) = false ->
  extends (writer_loop_call z (w_stream w) cap op) old tr ->
  writer_owns w old -> writer_owns w tr.
Proof.
  intros Hs (new & -> & Hnew) Hown. eapply writer_loop_calls_own; eassumption.
Qed.

Lemma owns_same_session (w w' : Writer) (tr : list Call) :
  w_same_session w w' -> writer_owns w tr -> writer_owns w' tr.
Proof. intros (Hs & _). unfold writer_owns. now rewrite Hs. Qed.

(** [Write] either leaves the Writer without a session (creation failed)
    or runs its loop on the session the Writer holds. *)
Lemma Writer_Write_owns (fuel : nat) (p : list byte) (w w' : Writer)
    (st st' : World E S) (res : Z * option error) :
  writer_owns w (calls st) ->
  Writer_Write z sink fuel p w st = Done (w', st', res) ->
  writer_owns w' (calls st').
Proof.
  intros Hown H. unfold Writer_Write in H.
  destruct (len p =? 0); [injection H as <- <- <-; assumption|].
  destruct (w_stream w =? 0) eqn:Hs.
  - unfold do_create in H.
    destruct (createCStream z (engine st)) as [h e] eqn:Hcreate.
    cbn [w_stream set_w_stream] in H.
    assert (Hown1 : writer_owns (set_w_stream h w)
                      (call_createCStream h :: calls st)).
    { unfold writer_owns in *. cbn [cstream_live]. rewrite Hown.
      apply Z.eqb_eq in Hs. rewrite Hs. reflexivity. }
    destruct (h =? 0) eqn:Hh.
    + injection H as <- <- <-. exact Hown1.
    + apply Write_loop_calls in H as [Hsame Hext].
      eapply owns_same_session; [exact Hsame|].
      eapply extends_own; [|exact Hext|]; [exact Hh|exact Hown1].
  - rewrite Hs in H.
    apply Write_loop_calls in H as [Hsame Hext].
    eapply owns_same_session; [exact Hsame|].
    eapply extends_own; [|exact Hext|]; [exact Hs|exact Hown].
Qed.

Lemma Writer_Flush_owns (fuel : nat) (w w' : Writer) (st st' : World E S)
    (res : option error) :
  writer_owns w (calls st) ->
  Writer_Flush z sink fuel w st = Done (w', st', res) ->
  w_stream w' = w_stream w /\ writer_owns w' (calls st').
Proof.
  intros Hown H. unfold Writer_Flush in H.
  destruct (w_stream w =? 0) eqn:Hs; [injection H as <- <- <-; auto|].
  apply Flush_loop_calls in H as [Hsame Hext].
  split; [apply Hsame|].
  eapply owns_same_session; [exact Hsame|].
  eapply extends_own; [|exact Hext|]; [exact Hs|exact Hown].
Qed.

Lemma Close_deferred_spec (w w' : Writer) (st st' : World E S) :
  Close_deferred z w st = (w', st') ->
  w_ctx w' = 0 /\ w_stream w' = w_stream w /\
  (calls st' = calls st \/ calls st' = call_freeCCtx (w_ctx w) :: calls st).
Proof.
  unfold Close_deferred, do_free. destruct (w_ctx w =? 0) eqn:Hc;
    cbn [negb]; intros H; injection H as <- <-.
  - apply Z.eqb_eq in Hc. auto.
  - cbn. auto.
Qed.

(** Every exit of [Close] leaves the Writer without session and without
    context, and the trace agrees. *)
Lemma Writer_Close_owns (fuel : nat) (w w' : Writer) (st st' : World E S)
    (res : option error) :
  writer_owns w (calls st) ->
  Writer_Close z sink fuel w st = Done (w', st', res) ->
  w_stream w' = 0 /\ w_ctx w' = 0 /\ writer_owns w' (calls st').
Proof.
  intros Hown H. unfold Writer_Close, Close_body in H.
  destruct (w_stream w =? 0) eqn:Hs.
  - destruct (Close_deferred z w st) as [w2 st2] eqn:Hdef.
    injection H as <- <- <-.
    apply Close_deferred_spec in Hdef as (Hc & Hs2 & Hcalls).
    apply Z.eqb_eq in Hs. split; [congruence|]. split; [assumption|].
    unfold writer_owns in *. rewrite Hs2.
    destruct Hcalls as [-> | ->]; cbn [cstream_live]; now rewrite ?Hown.
  - destruct (Close_loop z sink fuel _ st) as [[[w1 st1] err]| |] eqn:Hloop;
      try discriminate.
    destruct (Close_deferred z w1 st1) as [w2 st2] eqn:Hdef.
    injection H as <- <- <-.
    apply Close_loop_calls in Hloop
      as (Hs1 & Hc1 & mid & tail & Hcalls1 & Hext & Htail).
    cbn [w_stream set_w_inBuffer w_buffer] in *.
    apply Close_deferred_spec in Hdef as (Hc & Hs2 & Hcalls).
    split; [congruence|]. split; [assumption|].
    assert (Hmid : cstream_live mid = Some (Some (w_stream w))).
    { pose proof (extends_own w _ _ _ _ Hs Hext Hown) as Hm.
      unfold writer_owns in Hm. now rewrite (session_of_nonzero _ Hs) in Hm. }
    assert (H1 : cstream_live (calls st1) = Some None).
    { rewrite Hcalls1.
      destruct Htail as [-> | (code & ->)]; cbn [app cstream_live];
        rewrite Hmid; cbn [cstream_step]; now rewrite Z.eqb_refl. }
    unfold writer_owns. rewrite Hs2, Hs1.
    destruct Hcalls as [-> | ->]; cbn [cstream_live]; now rewrite H1.
Qed.
(** What the loop of [Write] returns: the length of the slice once the
    input cursor has reached its end, or else the input cursor as the last
    step left it. *)
Lemma Write_loop_result (fuel : nat) :
  forall lenp w st w' st' n err,
    Write_loop z sink fuel lenp w st = Done (w', st', (n, err)) ->
    Src (w_inBuffer w') = Src (w_inBuffer w) /\
    iSize (w_inBuffer w') = iSize (w_inBuffer w) /\
    (err = None ->
     n = lenp /\ iSize (w_inBuffer w') <= iPos (w_inBuffer w')) /\
    (err <> None ->
     exists r,
       last_cstep (calls st') = Some r /\
       n = to_int (in_pos r) /\ iPos (w_inBuffer w') = in_pos r).
Proof.
  induction fuel as [|fuel IH]; intros lenp w st w' st' n err H;
    cbn [Write_loop] in H.
  - destruct (iPos (w_inBuffer w) <? iSize (w_inBuffer w)) eqn:Hlt;
      [discriminate|]. injection H as <- <- <- <-.
    apply Z.ltb_ge in Hlt. repeat split; auto. congruence.
  - destruct (iPos (w_inBuffer w) <? iSize (w_inBuffer w)) eqn:Hlt.
    2:{ injection H as <- <- <- <-. apply Z.ltb_ge in Hlt.
        repeat split; auto. congruence. }
    writer_iteration H EndContinue.
    + destruct (w_drain sink w2 _) as [[[e1|] st3]| |] eqn:Hdrain;
        try discriminate;
        apply w_drain_calls in Hdrain as [_ Hcalls]; cbn [calls log] in Hcalls.
      * injection H as <- <- <- <-.
        apply w_setup_out_stream in Hsetup as (_ & Hi & _).
        subst w2. cbn [w_inBuffer w_after_step Src iSize iPos]. rewrite Hi.
        split; [reflexivity|]. split; [reflexivity|].
        split; [discriminate|]. intros _. exists (as_uint64 r).
        destruct Hcalls as [-> | (p & k & ->)]; cbn; auto.
      * apply IH in H as (Hsrc & Hsz & Hok & Hko).
        apply w_setup_out_stream in Hsetup as (_ & Hi & _).
        subst w2. cbn [w_inBuffer w_after_step Src iSize] in Hsrc, Hsz.
        rewrite Hi in Hsrc, Hsz. auto.
    + injection H as <- <- <- <-.
      apply w_setup_out_stream in Hsetup as (_ & Hi & _).
      subst w2. cbn [w_inBuffer w_after_step Src iSize iPos]. rewrite Hi.
      split; [reflexivity|]. split; [reflexivity|].
      split; [discriminate|]. intros _. exists (as_uint64 r). cbn. auto.
Qed.
End WriterLifecycle.

(** ** The loop of the Reader *)

Section ReaderLoop.
Context {E S : Type}.
Variable z : Zstd E.
Variable source : Source S.

Lemma r_same_session_refl (r : Reader) : r_same_session r r.
Proof. unfold r_same_session. auto. Qed.

Lemma r_same_session_trans (r1 r2 r3 : Reader) :
  r_same_session r1 r2 -> r_same_session r2 r3 -> r_same_session r1 r3.
Proof. unfold r_same_session. intuition congruence. Qed.

Lemma r_init_stream_live (r : Reader) (st : World E S) :
  (r_stream r =? 0) = false -> r_init_stream z r st = (Some r, st).
Proof. intros H. unfold r_init_stream. now rewrite H. Qed.

(** Creation of the session on first use. *)
Lemma r_init_stream_fresh (r : Reader) (st st1 : World E S)
    (o : option Reader) :
  (r_stream r =? 0) = true ->
  r_init_stream z r st = (o, st1) ->
  exists h,
    calls st1 = call_createDStream h :: calls st /\
    stream_io st1 = stream_io st /\
    match o with
    | None => h = 0
    | Some r1 =>
        (h =? 0) = false /\ r_stream r1 = h /\ r_ctx r1 = r_ctx r /\
        r_pos r1 = r_pos r /\ r_end r1 = r_end r /\
        r_streamEnded r1 = r_streamEnded r /\
        r_inBuffer r1 = r_inBuffer r /\ r_buffer r1 = r_buffer r /\
        readBuffer_mem r1 =
          match r_readBuffer r with
          | nil_bytes => make defaultReadBufferSize
          | some_bytes l => l
          end
    end.
Proof.
  intros Hs H. unfold r_init_stream, do_create in H. rewrite Hs in H.
  destruct (createDStream z (engine st)) as [h e].
  cbn [r_readBuffer set_r_stream] in H. exists h.
  destruct (h =? 0) eqn:Hh.
  - injection H as <- <-. apply Z.eqb_eq in Hh. auto.
  - destruct (r_readBuffer r) eqn:Hrb; injection H as <- <-;
      unfold readBuffer_mem; cbn; rewrite ?Hrb; auto 12.
Qed.

(** The refill step touches the input side only. *)
Lemma r_refill_spec (r : Reader) (st st1 : World E S) (o : refill) :
  r_refill source r st = (o, st1) ->
  engine st1 = engine st /\
  (calls st1 = calls st \/
   exists cap n err, calls st1 = source_Read cap n err :: calls st) /\
  match o with
  | refill_go r1 =>
      r_same_session r r1 /\ r_end r1 = r_end r /\
      r_streamEnded r1 = r_streamEnded r /\ r_readBuffer r1 = r_readBuffer r
  | refill_break r1 =>
      r_same_session r r1 /\ r_end r1 = r_end r /\
      r_streamEnded r1 = r_streamEnded r /\
      exists cap, calls st1 = source_Read cap 0 None :: calls st
  | refill_return r1 err =>
      r_same_session r r1 /\ r_end r1 = r_end r /\
      r_streamEnded r1 = r_streamEnded r /\ err <> io_EOF
  | refill_panic => True
  end.
Proof.
  unfold r_refill, do_source_Read. intros H.
  destruct (iSize (r_inBuffer r) <=? iPos (r_inBuffer r)).
  2:{ injection H as <- <-. repeat split; auto. }
  destruct (source (len (r_buffer r)) (stream_io st)) as [[[n data] err] s].
  cbn [r_buffer set_r_buffer] in H.
  assert (Hsame : forall i b,
             r_same_session r (set_r_inBuffer i (set_r_buffer b r)))
    by (intros; unfold r_same_session, readBuffer_mem; cbn; auto).
  destruct (0 <? n) eqn:Hn.
  - destruct (overwrite (r_buffer r) data) eqn:Hov.
    + injection H as <- <-. cbn. repeat split; eauto.
    + destruct err as [[| |]|]; injection H as <- <-; cbn;
        repeat split; eauto; try discriminate; apply Hsame.
  - destruct err as [[| |]|]; [| | |destruct (n =? 0) eqn:Hn0];
      injection H as <- <-; cbn;
      repeat split; eauto; try discriminate; try apply Hsame.
    apply Z.eqb_eq in Hn0. subst n. eauto.
Qed.
End ReaderLoop.

Section ReaderLoopCalls.
Context {E S : Type}.
Variable z : Zstd E.
Variable source : Source S.

Lemma frame_ended_extends (P : Call -> Prop) (old tr : list Call) :
  extends P old tr -> frame_ended z old -> frame_ended z tr.
Proof.
  intros (new & -> & _) (h & o & i & res & Hin & Hres).
  exists h, o, i, res. split; [|assumption]. apply in_or_app. now right.
Qed.

Lemma frame_ended_cons (c : Call) (tr : list Call) :
  frame_ended z tr -> frame_ended z (c :: tr).
Proof.
  intros (h & o & i & res & Hin & Hres). exists h, o, i, res.
  split; [now right|assumption].
Qed.

Ltac grow_trace Hshape :=
  repeat (apply extends_cons; [exact I || exact Hshape|]);
  apply extends_refl.

(** The loop of [Read] on a Reader that holds a session. *)
Lemma Read_loop_live (fuel : nat) :
  forall r st r' st' res,
    (r_stream r =? 0) = false ->
    Read_loop z source fuel r st = Done (r', st', res) ->
    r_same_session r r' /\
    extends (reader_loop_call z (r_stream r) (u64 (len (readBuffer_mem r))))
      (calls st) (calls st') /\
    (res = None -> r_end r' = 0 -> r_streamEnded r' = false ->
     exists cap older, calls st' = source_Read cap 0 None :: older) /\
    (forall n err, res = Some (n, err) ->
       n = 0 /\ err <> None /\ err <> Some io_EOF) /\
    (ended_for_cause z r (calls st) -> ended_for_cause z r' (calls st')).
Proof.
  induction fuel as [|fuel IH]; intros r st r' st' res Hs H;
    cbn [Read_loop] in H.
  - destruct ((r_end r =? 0) && negb (r_streamEnded r)) eqn:Hcond;
      [discriminate|]. injection H as <- <- <-.
    split; [apply r_same_session_refl|]. split; [apply extends_refl|].
    split; [|split; [discriminate|auto]].
    intros _ He Hended. rewrite He, Hended in Hcond. discriminate.
  - destruct ((r_end r =? 0) && negb (r_streamEnded r)) eqn:Hcond.
    2:{ injection H as <- <- <-.
        split; [apply r_same_session_refl|]. split; [apply extends_refl|].
        split; [|split; [discriminate|auto]].
        intros _ He Hended. rewrite He, Hended in Hcond. discriminate. }
    rewrite (r_init_stream_live z r st Hs) in H.
    destruct (r_refill source r st) as [o st2] eqn:Hrefill.
    apply r_refill_spec in Hrefill as (Heng & Hcalls2 & Ho).
    assert (Hext2 : forall h cap,
               extends (reader_loop_call z h cap) (calls st) (calls st2)).
    { intros h cap. destruct Hcalls2 as [-> | (c & n & e & ->)];
        grow_trace I. }
    destruct o as [r2|r2|r2 err|]; [| | |discriminate].
    + (* the engine is stepped *)
      destruct Ho as (Hsame2 & He2 & Hended2 & Hrb2).
      destruct (readBuffer_mem r2) as [|b0 mem0] eqn:Hmem; [discriminate|].
      rewrite <- Hmem in H.
      unfold do_decompressStream, do_isError, do_getErrorName in H.
      destruct (decompressStream _ _ _ _ _) as [sr e] eqn:Hstep.
      match type of H with context [r_after_step ?a ?b] =>
        set (r4 := r_after_step a b) in * end.
      assert (Hsame4 : r_same_session r r4).
      { eapply r_same_session_trans; [exact Hsame2|].
        unfold r_same_session, r4, readBuffer_mem. cbn.
        rewrite len_overwrite. fold (readBuffer_mem r2). auto. }
      assert (Hshape :
        reader_loop_call z (r_stream r) (u64 (len (readBuffer_mem r)))
          (call_decompressStream (r_stream r2)
             (mkOut (address_of (readBuffer_mem r2))
                (u64 (len (readBuffer_mem r2))) 0)
             (r_inBuffer r2) (as_uint64 sr))).
      { destruct Hsame2 as (Hs2 & _ & _ & Hl2). cbn.
        repeat split; try congruence.
        exists (engine st2). cbn in Hstep. now rewrite Hstep. }
      assert (Hin : forall tr,
        In (call_decompressStream (r_stream r2)
             (mkOut (address_of (readBuffer_mem r2))
                (u64 (len (readBuffer_mem r2))) 0)
             (r_inBuffer r2) (as_uint64 sr))
           (tr ++ call_decompressStream (r_stream r2)
             (mkOut (address_of (readBuffer_mem r2))
                (u64 (len (readBuffer_mem r2))) 0)
             (r_inBuffer r2) (as_uint64 sr) :: calls st2))
        by (intros tr; apply in_or_app; right; now left).
      match type of H with context [negb ?b] => destruct b eqn:Hiserr end;
        cbn [negb] in H.
      * match type of H with context [if ?b then _ else _] =>
          destruct b eqn:Hzero end.
        { (* frame complete *)
          injection H as <- <- <-. cbn [calls log with_engine].
          split; [exact Hsame4|].
          split; [eapply extends_trans; [apply Hext2|]; grow_trace Hshape|].
          split; [cbn; discriminate|]. split; [discriminate|].
          intros _ _. do 4 eexists.
          split; [apply (Hin [_])|]. left. now apply Z.eqb_eq. }
        match type of H with context [if ?b then _ else _] =>
          destruct b eqn:Hpos end.
        { (* output produced *)
          injection H as <- <- <-. cbn [calls log with_engine].
          split; [exact Hsame4|].
          split; [eapply extends_trans; [apply Hext2|]; grow_trace Hshape|].
          split.
          { intros _ He. apply Z.ltb_lt in Hpos.
            assert (Heq : r_end (set_r_end (to_int (oPos (r_outBuffer r4)))
                                   r4) = 0) by exact He.
            cbn [r_end set_r_end] in Heq, Hpos. lia. }
          split; [discriminate|].
          unfold ended_for_cause. cbn. intros Hc Hended.
          rewrite Hended2 in Hended.
          apply frame_ended_cons, frame_ended_cons.
          eapply frame_ended_extends; [apply (Hext2 0 0)|]. now apply Hc. }
        (* another round *)
        apply IH in H as (Hsame' & Hext' & Hbreak' & Hret' & Hcause');
          [|cbn; destruct Hsame2 as (-> & _); exact Hs].
        assert (Hsame5 : r_same_session r
                  (set_r_end (to_int (oPos (r_outBuffer r4))) r4))
          by exact Hsame4.
        split; [eapply r_same_session_trans; eassumption|].
        destruct Hsame5 as (Hs5 & _ & _ & Hl5).
        cbn [calls log with_engine] in *. rewrite Hs5, Hl5 in Hext'.
        split; [eapply extends_trans; [|exact Hext'];
                eapply extends_trans; [apply Hext2|]; grow_trace Hshape|].
        split; [assumption|]. split; [assumption|].
        intros Hc. apply Hcause'. unfold ended_for_cause in *. cbn.
        intros Hended. rewrite Hended2 in Hended.
        apply frame_ended_cons, frame_ended_cons.
        eapply frame_ended_extends; [apply (Hext2 0 0)|]. now apply Hc.
      * (* codec fault *)
        injection H as <- <- <-. cbn [calls log with_engine].
        split; [exact Hsame4|].
        split; [eapply extends_trans; [apply Hext2|]; grow_trace Hshape|].
        split; [discriminate|].
        split; [intros n err Hres; injection Hres as <- <-;
                repeat split; discriminate|].
        intros _ _. do 4 eexists.
        split; [apply (Hin [_; _])|]. right.
        intros Hz. rewrite Hz in Hiserr. discriminate.
    + (* the source has nothing yet *)
      destruct Ho as (Hsame2 & He2 & Hended2 & cap & Hcap).
      injection H as <- <- <-.
      split; [exact Hsame2|]. split; [apply Hext2|].
      split; [intros _ _ _; eauto|]. split; [discriminate|].
      unfold ended_for_cause. intros Hc Hended. rewrite Hended2 in Hended.
      eapply frame_ended_extends; [apply (Hext2 0 0)|]. now apply Hc.
    + (* the source failed *)
      destruct Ho as (Hsame2 & He2 & Hended2 & Herr).
      injection H as <- <- <-.
      split; [exact Hsame2|]. split; [apply Hext2|].
      split; [discriminate|].
      split; [intros n e Hres; injection Hres as <- <-;
              repeat split; congruence|].
      unfold ended_for_cause. intros Hc Hended. rewrite Hended2 in Hended.
      eapply frame_ended_extends; [apply (Hext2 0 0)|]. now apply Hc.
Qed.
(** With the session created by the first iteration, the loop goes on as
    if the Reader had held it from the start. *)
Lemma Read_loop_init (fuel : nat) (r r1 : Reader) (st st1 : World E S) :
  (r_end r =? 0) && negb (r_streamEnded r) = true ->
  r_init_stream z r st = (Some r1, st1) ->
  (r_stream r1 =? 0) = false ->
  r_end r1 = r_end r -> r_streamEnded r1 = r_streamEnded r ->
  Read_loop z source (Datatypes.S fuel) r st =
  Read_loop z source (Datatypes.S fuel) r1 st1.
Proof.
  intros Hcond Hinit Hs He Hended. cbn [Read_loop].
  rewrite He, Hended, Hcond, Hinit, (r_init_stream_live z r1 st1 Hs).
  reflexivity.
Qed.

(** The loop of [Read] from any Reader. *)
Lemma Read_loop_any (fuel : nat) (r r' : Reader) (st st' : World E S)
    (res : option (Z * option error)) :
  Read_loop z source fuel r st = Done (r', st', res) ->
  r_ctx r' = r_ctx r /\ r_pos r' = r_pos r /\
  (exists created,
     created_session r r' created /\
     extends (reader_loop_call z (r_stream r')
                (u64 (len (readBuffer_mem r'))))
       (created ++ calls st) (calls st') /\
     (r_stream r' = 0 -> calls st' = created ++ calls st)) /\
  (res = None -> r_end r' = 0 -> r_streamEnded r' = false ->
   exists cap older, calls st' = source_Read cap 0 None :: older) /\
  (forall n err, res = Some (n, err) ->
     n = 0 /\ err <> None /\ err <> Some io_EOF) /\
  (ended_for_cause z r (calls st) -> ended_for_cause z r' (calls st')).
Proof.
  intros H. destruct (r_stream r =? 0) eqn:Hs.
  2:{ apply Read_loop_live in H as (Hsame & Hext & Hb & Hr & Hc);
        [|exact Hs].
      destruct Hsame as (Hs' & Hctx & Hpos & Hlen).
      split; [assumption|]. split; [assumption|].
      split; [|split; [exact Hb|split; [exact Hr|exact Hc]]].
      exists []. split; [left; auto|]. split; [now rewrite Hs', Hlen|].
      intros Hz. rewrite Hs' in Hz. rewrite Hz in Hs. discriminate. }
  destruct fuel as [|fuel].
  { cbn [Read_loop] in H.
    destruct ((r_end r =? 0) && negb (r_streamEnded r)) eqn:Hcond;
      [discriminate|]. injection H as <- <- <-.
    split; [reflexivity|]. split; [reflexivity|].
    split; [exists []; split; [left; auto|split; [apply extends_refl|auto]]|].
    split; [|split; [discriminate|auto]].
    intros _ He Hended. rewrite He, Hended in Hcond. discriminate. }
  destruct ((r_end r =? 0) && negb (r_streamEnded r)) eqn:Hcond.
  2:{ cbn [Read_loop] in H. rewrite Hcond in H. injection H as <- <- <-.
      split; [reflexivity|]. split; [reflexivity|].
      split; [exists []; split; [left; auto|split; [apply extends_refl|auto]]|].
      split; [|split; [discriminate|auto]].
      intros _ He Hended. rewrite He, Hended in Hcond. discriminate. }
  destruct (r_init_stream z r st) as [[r1|] st1] eqn:Hinit.
  - pose proof (r_init_stream_fresh z r st st1 (Some r1) Hs Hinit)
      as (h & Hcalls & _ & Hh & Hs1 & Hctx1 & Hpos1 & He1 & Hended1 & _).
    assert (Hlive : (r_stream r1 =? 0) = false) by congruence.
    rewrite (Read_loop_init fuel r r1 st st1 Hcond Hinit Hlive He1 Hended1)
      in H.
    apply Read_loop_live in H as (Hsame & Hext & Hb & Hr & Hc); [|exact Hlive].
    destruct Hsame as (Hs' & Hctx & Hpos & Hlen).
    split; [congruence|]. split; [congruence|].
    split.
    { exists [call_createDStream (r_stream r')]. split.
      - right. split; [now apply Z.eqb_eq|reflexivity].
      - split.
        + rewrite Hs', Hlen. cbn [app]. rewrite <- Hs1 in Hcalls.
          rewrite <- Hcalls. exact Hext.
        + intros Hz. rewrite Hs' in Hz. rewrite Hz in Hlive. discriminate. }
    split; [assumption|]. split; [assumption|].
    intros Hcause. apply Hc. unfold ended_for_cause in *.
    rewrite Hended1, Hcalls. intros Hended.
    apply frame_ended_cons. now apply Hcause.
  - pose proof (r_init_stream_fresh z r st st1 None Hs Hinit)
      as (h & Hcalls & _ & Hh).
    cbn [Read_loop] in H. rewrite Hcond, Hinit in H.
    injection H as <- <- <-. subst h. cbn.
    split; [reflexivity|]. split; [reflexivity|].
    split.
    { exists [call_createDStream 0]. split.
      - right. split; [now apply Z.eqb_eq|reflexivity].
      - cbn [app]. rewrite Hcalls. split; [apply extends_refl|auto]. }
    split; [discriminate|].
    split; [intros n err Hres; injection Hres as <- <-;
            repeat split; discriminate|].
    unfold ended_for_cause. cbn. rewrite Hcalls. intros Hcause Hended.
    apply frame_ended_cons. now apply Hcause.
Qed.
End ReaderLoopCalls.

(** ** The methods of the Reader *)

Lemma slice_len (s l : list byte) (lo hi : Z) :
  slice s lo hi = Some l -> len l = hi - lo /\ 0 <= lo <= hi.
Proof.
  unfold slice. intros H.
  destruct (0 <=? lo) eqn:H0; [|discriminate].
  destruct (lo <=? hi) eqn:H1; [|discriminate].
  destruct (hi <=? len s) eqn:H2; [|discriminate].
  cbn in H. injection H as <-.
  apply Z.leb_le in H0, H1, H2. unfold len in *.
  rewrite length_firstn, length_skipn. lia.
Qed.

Section ReaderMethodFacts.
Context {E S : Type}.
Variable z : Zstd E.
Variable source : Source S.

Lemma reader_loop_calls_own (r : Reader) (cap : Z) (new old : list Call) :
  (r_stream r =? 0) = false ->
  Forall (reader_loop_call z (r_stream r) cap) new ->
  reader_owns r old -> reader_owns r (new ++ old).
Proof.
  intros Hs Hnew Hown. induction Hnew as [|c new Hc _ IH]; [assumption|].
  unfold reader_owns in *. cbn [app dstream_live]. rewrite IH.
  destruct c; cbn in Hc; try tauto; try reflexivity.
  destruct Hc as (-> & _). unfold session_of. rewrite Hs. cbn.
  now rewrite Z.eqb_refl.
Qed.

Lemma Read_loop_owns (fuel : nat) (r r' : Reader) (st st' : World E S)
    (res : option (Z * option error)) :
  reader_owns r (calls st) ->
  Read_loop z source fuel r st = Done (r', st', res) ->
  reader_owns r' (calls st').
Proof.
  intros Hown H.
  apply Read_loop_any in H as (_ & _ & (created & Hcr & Hext & Hnil) & _).
  assert (Hown1 : reader_owns r' (created ++ calls st)).
  { destruct Hcr as [[-> Hs] | [Hs ->]]; unfold reader_owns in *.
    - now rewrite Hs.
    - cbn [app dstream_live]. rewrite Hown, Hs. reflexivity. }
  destruct (r_stream r' =? 0) eqn:Hs'.
  - apply Z.eqb_eq in Hs'. now rewrite (Hnil Hs').
  - destruct Hext as (new & -> & Hnew).
    eapply reader_loop_calls_own; eassumption.
Qed.
Lemma r_serve_spec (p : list byte) (r r' : Reader) (st st' : World E S)
    (n : Z) (p' : list byte) (err : option error) :
  r_serve p r st = Done (r', st', (n, p', err)) ->
  st' = st /\ err = None /\ r_stream r' = r_stream r /\
  r_ctx r' = r_ctx r /\ r_streamEnded r' = r_streamEnded r /\
  r_readBuffer r' = r_readBuffer r /\ r_end r' = r_end r /\
  r_pos r' = r_pos r + n /\
  n = Z.min (len p) (r_end r - r_pos r) /\ 0 <= r_pos r <= r_end r.
Proof.
  unfold r_serve. destruct (slice _ _ _) as [staged|] eqn:Hslice;
    [|discriminate].
  apply slice_len in Hslice as [Hlen Hrange]. unfold copy.
  intros H. injection H as <- <- <- <- <-. rewrite Hlen. cbn. auto 12.
Qed.

(** What one call of [Read] does to the Reader and to the trace. *)
Lemma Reader_Read_spec (fuel : nat) (p : list byte) (r r' : Reader)
    (st st' : World E S) (n : Z) (p' : list byte) (err : option error) :
  Reader_Read z source fuel p r st = Done (r', st', (n, p', err)) ->
  r_ctx r' = r_ctx r /\
  (reader_owns r (calls st) -> reader_owns r' (calls st')) /\
  (ended_for_cause z r (calls st) -> ended_for_cause z r' (calls st')) /\
  (0 < len p -> n = 0 -> err = None ->
   exists cap older, calls st' = source_Read cap 0 None :: older) /\
  (err = Some io_EOF -> n = 0 /\ r_streamEnded r' = true) /\
  (exists created,
     created_session r r' created /\
     extends (reader_loop_call z (r_stream r')
                (u64 (len (readBuffer_mem r'))))
       (created ++ calls st) (calls st')).
Proof.
  unfold Reader_Read. intros H.
  destruct (r_pos r <? r_end r) eqn:Hlt.
  { (* staged bytes are served *)
    apply r_serve_spec in H
      as (-> & -> & Hs & Hc & Hended & Hrb & He & Hp & Hn & Hrange).
    apply Z.ltb_lt in Hlt.
    split; [assumption|].
    split; [unfold reader_owns; now rewrite Hs|].
    split; [unfold ended_for_cause; now rewrite Hended|].
    split; [intros Hp0 Hn0 _; lia|]. split; [discriminate|].
    exists []. split; [left; auto|]. apply extends_refl. }
  destruct (r_streamEnded r) eqn:Hended.
  { injection H as <- <- <- <- <-.
    split; [reflexivity|]. split; [auto|]. split; [auto|].
    split; [discriminate|]. split; [auto|].
    exists []. split; [left; auto|]. apply extends_refl. }
  destruct (Read_loop z source fuel _ st) as [[[r1 st1] res]| |] eqn:Hloop;
    try discriminate.
  pose proof Hloop as Hloop'.
  apply Read_loop_any in Hloop
    as (Hctx & Hpos & (created & Hcr & Hext & _) & Hbreak & Hret & Hcause).
  cbn [r_ctx r_pos r_stream set_r_end set_r_pos] in *.
  assert (Hown1 : reader_owns r (calls st) -> reader_owns r1 (calls st1)).
  { intros Ho. eapply Read_loop_owns; [|exact Hloop']. exact Ho. }
  assert (Hcause1 : ended_for_cause z r (calls st) ->
                    ended_for_cause z r1 (calls st1)).
  { intros Hc. apply Hcause. unfold ended_for_cause. cbn.
    rewrite Hended. discriminate. }
  assert (Hcr1 : created_session r r1 created) by exact Hcr.
  destruct res as [[n0 err0]|].
  { injection H as <- <- <- <- <-.
    destruct (Hret _ _ eq_refl) as (-> & Hne & Hneof).
    split; [assumption|]. split; [assumption|]. split; [assumption|].
    split; [intros _ _ Hnone; congruence|].
    split; [intros Heof; congruence|]. eauto. }
  destruct (r_end r1 =? 0) eqn:He1.
  { apply Z.eqb_eq in He1. destruct (r_streamEnded r1) eqn:Hended1;
      injection H as <- <- <- <- <-.
    - split; [assumption|]. split; [assumption|]. split; [assumption|].
      split; [discriminate|]. split; [auto|]. eauto.
    - split; [assumption|]. split; [assumption|]. split; [assumption|].
      split; [intros _ _ _; now apply Hbreak|].
      split; [discriminate|]. eauto. }
  apply r_serve_spec in H
    as (-> & -> & Hs & Hc & Hended2 & Hrb & He & Hp & Hn & Hrange).
  apply Z.eqb_neq in He1.
  split; [congruence|].
  split; [intros Ho; unfold reader_owns; rewrite Hs; now apply Hown1|].
  split; [intros Hca; unfold ended_for_cause; rewrite Hended2;
          now apply Hcause1|].
  split; [intros Hp0 Hn0 _; lia|]. split; [discriminate|].
  exists created. split.
  - destruct Hcr1 as [[-> Hs1] | [Hs1 ->]]; [left|right]; split;
      congruence.
  - unfold readBuffer_mem in *. rewrite Hs, Hrb. exact Hext.
Qed.

Lemma Reader_Close_spec (r r' : Reader) (st st' : World E S)
    (err : option error) :
  Reader_Close z r st = (r', st', err) ->
  err = None /\ r_stream r' = 0 /\ r_ctx r' = 0 /\
  r_streamEnded r' = r_streamEnded r /\
  (reader_owns r (calls st) -> reader_owns r' (calls st')) /\
  calls st' =
    (if r_ctx r =? 0 then [] else [call_freeDCtx (r_ctx r)]) ++
    (if r_stream r =? 0 then [] else [call_freeDStream (r_stream r)]) ++
    calls st.
Proof.
  unfold Reader_Close, do_free, reader_owns. intros H.
  destruct (r_stream r =? 0) eqn:Hs; destruct (r_ctx r =? 0) eqn:Hc;
    cbn [negb r_ctx set_r_stream] in H; rewrite ?Hc in H;
    cbn [negb] in H; injection H as <- <- <-;
    cbn [r_stream r_ctx r_streamEnded set_r_stream set_r_ctx calls log
         with_engine app dstream_live];
    try (apply Z.eqb_eq in Hs); try (apply Z.eqb_eq in Hc);
    repeat (split; [assumption || reflexivity|]);
    (split; [|reflexivity]); intros ->; cbn [dstream_step].
  - now rewrite Hs.
  - now rewrite Hs.
  - unfold session_of. rewrite Hs. cbn. now rewrite Z.eqb_refl.
  - unfold session_of. rewrite Hs. cbn. now rewrite Z.eqb_refl.
Qed.
End ReaderMethodFacts.

(** ** Where the errors of the loops come from *)

Section WriterErrorFacts.
Context {E S : Type}.
Variable z : Zstd E.
Variable sink : Sink S.

Lemma w_drain_error (w : Writer) (st st' : World E S) (e : error) :
  w_drain sink w st = Done (Some e, st') ->
  exists out k,
    out <> [] /\ calls st' = sink_Write out k (Some e) :: calls st.
Proof.
  unfold w_drain. intros H.
  destruct (Z.ltb_spec 0 (oPos (w_outBuffer w))) as [Hpos|_];
    [|discriminate].
  destruct (slice (w_buffer w) 0 (oPos (w_outBuffer w))) as [out|] eqn:Hs;
    [|discriminate].
  apply slice_len in Hs as (Hlen & _).
  unfold do_sink_Write in H.
  destruct (sink out (stream_io st)) as [[k err] s].
  injection H as -> <-. exists out, k. split; [|reflexivity].
  intros ->. cbn in Hlen. lia.
Qed.

Lemma Write_loop_error_origin (fuel : nat) :
  forall (lenp : Z) (w w' : Writer) (st st' : World E S) (n : Z)
         (e : error),
  Write_loop z sink fuel lenp w st = Done (w', st', (n, Some e)) ->
  w_stream w' = w_stream w /\
  ((exists code c older,
      e = Errorf ("compression error: " ++ getErrorName z code) /\
      c <> 0 /\
      calls st' = call_getErrorName code :: call_isError code c :: older) \/
   (exists out k older,
      out <> [] /\ calls st' = sink_Write out k (Some e) :: older)).
Proof.
  induction fuel as [|fuel IH]; intros lenp w w' st st' n e H;
    cbn [Write_loop] in H;
    destruct (iPos (w_inBuffer w) <? iSize (w_inBuffer w));
    try discriminate.
  destruct (w_setup_out w) as [w1|] eqn:Hset; [|discriminate].
  apply w_setup_out_stream in Hset as (Hs1 & _).
  unfold do_compressStream2, do_isError in H.
  destruct (compressStream2 z (w_stream w1) (w_outBuffer w1) (w_inBuffer w1)
              EndContinue (engine st)) as [res e1].
  destruct (Z.eqb_spec (isError z (hint (as_uint64 res))) 0) as [Hz|Hnz];
    cbn [negb] in H.
  - destruct (w_drain sink _ _) as [[[err|] st3]| |] eqn:Hdrain;
      try discriminate.
    + injection H as <- <- <- <-. split; [exact Hs1|]. right.
      destruct (w_drain_error _ _ _ _ Hdrain) as (out & k & Hne & Hc).
      exists out, k. eexists. split; [exact Hne|exact Hc].
    + apply IH in H as (Hs & Horigin). split; [|exact Horigin].
      rewrite Hs. exact Hs1.
  - unfold do_getErrorName in H. injection H as <- <- <- <-.
    split; [exact Hs1|]. left.
    exists (hint (as_uint64 res)), (isError z (hint (as_uint64 res))).
    eexists. split; [reflexivity|]. split; [exact Hnz|reflexivity].
Qed.

Lemma Flush_loop_error_origin (fuel : nat) :
  forall (w w' : Writer) (st st' : World E S) (e : error),
  Flush_loop z sink fuel w st = Done (w', st', Some e) ->
  (exists code c older,
     e = Errorf ("flush error: " ++ getErrorName z code) /\
     c <> 0 /\
     calls st' = call_getErrorName code :: call_isError code c :: older) \/
  (exists out k older,
     out <> [] /\ calls st' = sink_Write out k (Some e) :: older).
Proof.
  induction fuel as [|fuel IH]; intros w w' st st' e H;
    cbn [Flush_loop] in H; [discriminate|].
  destruct (w_setup_out w) as [w1|]; [|discriminate].
  unfold do_compressStream2, do_isError in H.
  destruct (compressStream2 z (w_stream w1) (w_outBuffer w1) (w_inBuffer w1)
              EndFlush (engine st)) as [res e1].
  destruct (Z.eqb_spec (isError z (hint (as_uint64 res))) 0) as [Hz|Hnz];
    cbn [negb] in H.
  - destruct (w_drain sink _ _) as [[[err|] st3]| |] eqn:Hdrain;
      try discriminate.
    + injection H as <- <- <-. right.
      destruct (w_drain_error _ _ _ _ Hdrain) as (out & k & Hne & Hc).
      exists out, k. eexists. split; [exact Hne|exact Hc].
    + destruct (hint (as_uint64 res) =? 0); [discriminate|].
      apply IH in H. exact H.
  - unfold do_getErrorName in H. injection H as <- <- <-. left.
    exists (hint (as_uint64 res)), (isError z (hint (as_uint64 res))).
    eexists. split; [reflexivity|]. split; [exact Hnz|reflexivity].
Qed.

Lemma Close_loop_error_origin (fuel : nat) :
  forall (w w' : Writer) (st st' : World E S) (e : error),
  Close_loop z sink fuel w st = Done (w', st', Some e) ->
  w_stream w' = 0 /\ w_ctx w' = w_ctx w /\
  ((exists code c older,
      e = Errorf ("close error: " ++ getErrorName z code) /\
      c <> 0 /\
      calls st' = call_getErrorName code :: call_freeCStream (w_stream w) ::
                  call_isError code c :: older) \/
   (exists out k older,
      out <> [] /\
      calls st' = call_freeCStream (w_stream w) ::
                  sink_Write out k (Some e) :: older)).
Proof.
  induction fuel as [|fuel IH]; intros w w' st st' e H;
    cbn [Close_loop] in H; [discriminate|].
  destruct (w_setup_out w) as [w1|] eqn:Hset; [|discriminate].
  apply w_setup_out_stream in Hset as (Hs1 & _ & _ & Hc1 & _).
  unfold do_compressStream2, do_isError, w_free_stream, do_free in H.
  destruct (compressStream2 z (w_stream w1) (w_outBuffer w1) (w_inBuffer w1)
              EndEnd (engine st)) as [res e1].
  destruct (Z.eqb_spec (isError z (hint (as_uint64 res))) 0) as [Hz|Hnz];
    cbn [negb] in H.
  - destruct (w_drain sink _ _) as [[[err|] st3]| |] eqn:Hdrain;
      try discriminate.
    + injection H as <- <- <-. split; [reflexivity|].
      split; [exact Hc1|]. right.
      destruct (w_drain_error _ _ _ _ Hdrain) as (out & k & Hne & Hc).
      exists out, k. eexists. split; [exact Hne|].
      cbn [calls log with_engine w_stream w_after_step]. rewrite Hc, Hs1.
      reflexivity.
    + destruct (hint (as_uint64 res) =? 0); [discriminate|].
      apply IH in H as (Hs & Hc & Horigin).
      cbn [w_stream w_ctx w_after_step] in *. rewrite Hs1 in Horigin.
      split; [exact Hs|]. split; [congruence|exact Horigin].
  - unfold do_getErrorName in H. injection H as <- <- <-.
    split; [reflexivity|]. split; [exact Hc1|]. left.
    exists (hint (as_uint64 res)), (isError z (hint (as_uint64 res))).
    eexists. split; [reflexivity|]. split; [exact Hnz|].
    cbn [calls log with_engine w_stream w_after_step]. rewrite Hs1.
    reflexivity.
Qed.
End WriterErrorFacts.

Section ReaderErrorFacts.
Context {E S : Type}.
Variable z : Zstd E.
Variable source : Source S.

(** A refill that makes [Read] return: the source failed. *)
Lemma r_refill_return (r r2 : Reader) (st st2 : World E S) (e : error) :
  r_refill source r st = (refill_return r2 e, st2) ->
  e <> io_EOF /\ r_streamEnded r2 = r_streamEnded r /\
  exists cap k,
    calls st2 = source_Read cap k (Some e) :: calls st /\
    (0 < k -> r_inBuffer r2 = mkIn (address_of (r_buffer r2)) (u64 k) 0).
Proof.
  unfold r_refill, do_source_Read. intros H.
  destruct (iSize (r_inBuffer r) <=? iPos (r_inBuffer r)); [|discriminate].
  destruct (source (len (r_buffer r)) (stream_io st)) as [[[k data] serr] s1].
  cbn [r_buffer set_r_buffer] in H.
  destruct (Z.ltb_spec 0 k) as [Hk|Hk].
  - destruct (overwrite (r_buffer r) data) as [|b0 buf] eqn:Hov;
      [discriminate|].
    destruct serr as [[| |]|]; try discriminate;
      injection H as <- <- <-;
      (split; [discriminate|]); (split; [reflexivity|]);
      exists (len (r_buffer r)), k; (split; [reflexivity|]);
      intros _; reflexivity.
  - destruct serr as [[| |]|]; try discriminate;
      try (destruct (k =? 0); discriminate);
      injection H as <- <- <-;
      (split; [discriminate|]); (split; [reflexivity|]);
      exists (len (r_buffer r)), k; (split; [reflexivity|]); intros Hk'; lia.
Qed.

(** Where an error of the loop of [Read] comes from. *)
Lemma Read_loop_error (fuel : nat) :
  forall (r r' : Reader) (st st' : World E S) (n : Z) (e : error),
  Read_loop z source fuel r st = Done (r', st', Some (n, Some e)) ->
  (e = Errorf "failed to create decompression stream" /\
   r_stream r' = 0 /\
   exists older, calls st' = call_createDStream 0 :: older) \/
  (exists code c older,
     e = Errorf ("zstd decompression error: " ++ getErrorName z code) /\
     c <> 0 /\ r_streamEnded r' = true /\
     calls st' = call_getErrorName code :: call_isError code c :: older) \/
  (exists cap k older,
     e <> io_EOF /\ r_streamEnded r' = false /\
     calls st' = source_Read cap k (Some e) :: older /\
     (0 < k -> r_inBuffer r' = mkIn (address_of (r_buffer r')) (u64 k) 0)).
Proof.
  induction fuel as [|fuel IH]; intros r r' st st' n e H;
    cbn [Read_loop] in H;
    destruct ((r_end r =? 0) && negb (r_streamEnded r)) eqn:Hcond;
    try discriminate.
  apply andb_prop in Hcond as [_ Hended].
  apply negb_true_iff in Hended.
  destruct (r_init_stream z r st) as [[r1|] st1] eqn:Hinit.
  2:{ injection H as <- <- <- <-. left.
      unfold r_init_stream in Hinit.
      destruct (r_stream r =? 0); [|discriminate].
      unfold do_create in Hinit.
      destruct (createDStream z (engine st)) as [h e1].
      cbn [r_stream set_r_stream] in Hinit.
      destruct (Z.eqb_spec h 0) as [->|Hh].
      - injection Hinit as <-. split; [reflexivity|].
        split; [reflexivity|]. eexists. reflexivity.
      - destruct (r_readBuffer (set_r_stream h r)); discriminate. }
  assert (Hended1 : r_streamEnded r1 = false).
  { rewrite <- Hended. unfold r_init_stream in Hinit.
    destruct (r_stream r =? 0); [|now injection Hinit as <- <-].
    unfold do_create in Hinit.
    destruct (createDStream z (engine st)) as [h e1].
    destruct (h =? 0); [discriminate|].
    destruct (r_readBuffer (set_r_stream h r));
      injection Hinit as <- <-; reflexivity. }
  destruct (r_refill source r1 st1) as [[r2|r2|r2 e2|] st2] eqn:Hrefill;
    try discriminate.
  - (* the engine is stepped *)
    pose proof (r_refill_spec source r1 st1 st2 _ Hrefill)
      as (_ & _ & _ & _ & Hended2 & _).
    destruct (readBuffer_mem r2) as [|m0 mem] eqn:Hm; [discriminate|].
    rewrite <- Hm in H. unfold do_decompressStream, do_isError in H.
    destruct (decompressStream z _ _ _ (engine st2)) as [res e'].
    destruct (Z.eqb_spec (isError z (hint (as_uint64 res))) 0) as [Hok|Herr];
      cbn [negb] in H.
    + destruct (hint (as_uint64 res) =? 0); [discriminate|].
      match type of H with
      | (if ?c then _ else _) = _ => destruct c; [discriminate|]
      end.
      apply IH in H. exact H.
    + unfold do_getErrorName in H. injection H as <- <- <- <-.
      right. left. do 3 eexists. split; [reflexivity|].
      split; [exact Herr|]. split; [reflexivity|]. reflexivity.
  - injection H as <- <- <- <-. right. right.
    destruct (r_refill_return r1 r2 st1 st2 e2 Hrefill)
      as (Hne & Hse & cap & k & Hcalls & Hin).
    exists cap, k, (calls st1). split; [exact Hne|].
    split; [congruence|]. split; [exact Hcalls|exact Hin].
Qed.
End ReaderErrorFacts.

(** * The claims *)

(** ** C10: empty input to the one-shot operations *)

(** C10.  On an empty input slice [Zstd.Compress] and [Zstd.Decompress]
    return an empty, non-nil slice and a nil error, and the world is the
    one they were called in: no native function has been invoked. *)
Theorem oneshot_empty_input (E S : Type) (z : Zstd E) (level maxSize : Z)
    (st : World E S) :
  Zstd_Compress z [] level st = Done (some_bytes [], None, st) /\
  Zstd_Decompress z [] maxSize st = Done (some_bytes [], None, st).
Proof. split; reflexivity. Qed.

(** ** C5: closing twice, closing what was never opened *)

(** A Writer that holds neither session nor context is left alone by
    [Close]. *)
Lemma Writer_Close_released (E S : Type) (z : Zstd E) (sink : Sink S)
    (fuel : nat) (w : Writer) (st : World E S) :
  w_stream w = 0 -> w_ctx w = 0 ->
  Writer_Close z sink fuel w st = Done (w, st, None).
Proof.
  intros Hs Hc. unfold Writer_Close, Close_body. rewrite Hs.
  change (0 =? 0) with true. cbv iota. unfold Close_deferred.
  now rewrite Hc.
Qed.

Lemma Writer_Close_releases (E S : Type) (z : Zstd E) (sink : Sink S)
    (fuel : nat) (w w' : Writer) (st st' : World E S) (err : option error) :
  Writer_Close z sink fuel w st = Done (w', st', err) ->
  w_stream w' = 0 /\ w_ctx w' = 0.
Proof.
  unfold Writer_Close, Close_body. intros H.
  destruct (w_stream w =? 0) eqn:Hs.
  - destruct (Close_deferred z w st) as [w2 st2] eqn:Hdef.
    injection H as <- <- <-.
    apply Close_deferred_spec in Hdef as (Hc & Hs2 & _).
    apply Z.eqb_eq in Hs. split; congruence.
  - destruct (Close_loop z sink fuel _ st) as [[[w1 st1] e]| |] eqn:Hloop;
      try discriminate.
    destruct (Close_deferred z w1 st1) as [w2 st2] eqn:Hdef.
    injection H as <- <- <-.
    apply Close_loop_calls in Hloop as (Hs1 & _).
    apply Close_deferred_spec in Hdef as (Hc & Hs2 & _).
    split; congruence.
Qed.

(** C5, as the code has it.  A second [Close] on a Writer or a Reader
    returns success and leaves adapter and world untouched: no call is
    made.  A first [Close] on an adapter that was never written to or read
    from returns success and makes no call on any session, but it does
    release the context that the constructor created, when there is one. *)
Theorem close_twice_and_unopened (E S : Type) (z : Zstd E) (sink : Sink S)
    (fuel fuel' : nat) (w w' : Writer) (st st' : World E S)
    (err : option error) (r r' : Reader) (rst rst' : World E S)
    (rerr : option error) (level : Z) :
  Writer_Close z sink fuel w st = Done (w', st', err) ->
  Reader_Close z r rst = (r', rst', rerr) ->
  Writer_Close z sink fuel' w' st' = Done (w', st', None) /\
  Reader_Close z r' rst' = (r', rst', None) /\
  (let '(w0, st0) := NewWriter z level st in
   exists w1 st1,
     Writer_Close z sink fuel' w0 st0 = Done (w1, st1, None) /\
     calls st1 =
       (if w_ctx w0 =? 0 then [] else [call_freeCCtx (w_ctx w0)]) ++
       calls st0) /\
  (let '(r0, st0) := NewReader z rst in
   exists r1 st1,
     Reader_Close z r0 st0 = (r1, st1, None) /\
     calls st1 =
       (if r_ctx r0 =? 0 then [] else [call_freeDCtx (r_ctx r0)]) ++
       calls st0).
Proof.
  intros Hw Hr.
  apply Writer_Close_releases in Hw as [Hs Hc].
  apply Reader_Close_spec in Hr as (_ & Hrs & Hrc & _).
  split; [now apply Writer_Close_released|].
  split.
  { unfold Reader_Close. rewrite Hrs. change (0 =? 0) with true.
    cbv iota. cbn [negb]. rewrite Hrc. reflexivity. }
  split.
  - unfold NewWriter, do_create.
    destruct (createCCtx z (engine st)) as [ctx e].
    unfold Writer_Close, Close_body, Close_deferred, do_free.
    cbn -[make].
    destruct (ctx =? 0); cbn -[make]; do 2 eexists; split; reflexivity.
  - unfold NewReader, do_create.
    destruct (createDCtx z (engine rst)) as [ctx e].
    unfold Reader_Close, do_free. cbn -[make].
    destruct (ctx =? 0); cbn -[make]; do 2 eexists; split; reflexivity.
Qed.

(** A first and a second [Close] on the reference engine. *)
Lemma close_twice_and_unopened_witness :
  exists w' st' r' rst',
    Writer_Close toy buffer_sink 3 small_writer (toy_world []) =
      Done (w', st', None) /\
    Reader_Close toy small_reader (toy_world []) = (r', rst', None) /\
    Writer_Close toy buffer_sink 0 w' st' = Done (w', st', None) /\
    Reader_Close toy r' rst' = (r', rst', None).
Proof.
  do 4 eexists. split; [vm_compute; reflexivity|].
  split; [vm_compute; reflexivity|].
  pose proof (@close_twice_and_unopened Toy (list byte) toy buffer_sink
                3%nat 0%nat small_writer _ (toy_world []) _ None
                small_reader _ (toy_world []) _ None 3
                eq_refl eq_refl) as (H1 & H2 & _).
  split; [exact H1|exact H2].
Defined.

(** C5 as stated fails: [Close] on a Writer that [NewWriter] has just
    built, and that was never written to, calls the native
    [ZSTD_freeCCtx]. *)
Lemma close_unopened_calls_engine :
  let '(w0, st0) := NewWriter toy DefaultCompression (toy_world []) in
  match Writer_Close toy buffer_sink 0 w0 st0 with
  | Done (_, st1, err) =>
      err = None /\ w_stream w0 = 0 /\
      calls st1 = call_freeCCtx 1 :: calls st0 /\
      is_native (call_freeCCtx 1) = true
  | _ => False
  end.
Proof. vm_compute. repeat split. Qed.

(** ** C7: the life of a session *)

Section Lifecycle.
Context {E S : Type}.
Variable z : Zstd E.

Lemma writer_step_owns (sink : Sink S) (fuel : nat) (op : writer_op)
    (w w' : Writer) (st st' : World E S) :
  writer_owns w (calls st) ->
  writer_step z sink fuel op w st = Done (w', st') ->
  writer_owns w' (calls st') /\
  (op = op_Close -> w_stream w' = 0).
Proof.
  intros Hown H. destruct op as [p| |]; cbn [writer_step] in H.
  - destruct (Writer_Write z sink fuel p w st) as [[[w1 st1] res]| |] eqn:Hw;
      try discriminate. injection H as <- <-.
    split; [|discriminate]. eapply Writer_Write_owns; eassumption.
  - destruct (Writer_Flush z sink fuel w st) as [[[w1 st1] res]| |] eqn:Hw;
      try discriminate. injection H as <- <-.
    split; [|discriminate]. eapply Writer_Flush_owns; eassumption.
  - destruct (Writer_Close z sink fuel w st) as [[[w1 st1] res]| |] eqn:Hw;
      try discriminate. injection H as <- <-.
    eapply Writer_Close_owns in Hw as (Hs & _ & Hown1); [|exact Hown].
    auto.
Qed.

Lemma run_writer_owns (sink : Sink S) (fuel : nat) (ops : list writer_op) :
  forall w w' st st',
    writer_owns w (calls st) ->
    run_writer z sink fuel ops w st = Done (w', st') ->
    writer_owns w' (calls st') /\
    (ends_with_Close ops = true -> w_stream w' = 0).
Proof.
  induction ops as [|op ops IH]; intros w w' st st' Hown H;
    cbn [run_writer] in H.
  - injection H as <- <-. split; [assumption|discriminate].
  - destruct (writer_step z sink fuel op w st) as [[w1 st1]| |] eqn:Hstep;
      try discriminate.
    apply writer_step_owns in Hstep as [Hown1 Hclose]; [|exact Hown].
    destruct ops as [|op2 ops].
    + cbn [run_writer] in H. injection H as <- <-.
      split; [assumption|]. cbn [ends_with_Close].
      destruct op; try discriminate. auto.
    + apply IH in H as [Hown2 Hends]; [|exact Hown1].
      split; [assumption|]. exact Hends.
Qed.

Lemma run_reader_owns (source : Source S) (fuel : nat)
    (ops : list reader_op) :
  forall r r' st st',
    reader_owns r (calls st) ->
    run_reader z source fuel ops r st = Done (r', st') ->
    reader_owns r' (calls st') /\
    (ends_with_rClose ops = true -> r_stream r' = 0).
Proof.
  induction ops as [|op ops IH]; intros r r' st st' Hown H;
    cbn [run_reader] in H.
  - injection H as <- <-. split; [assumption|discriminate].
  - assert (Hstep : exists r1 st1,
               reader_owns r1 (calls st1) /\
               (op = op_rClose -> r_stream r1 = 0) /\
               run_reader z source fuel ops r1 st1 = Done (r', st')).
    { destruct op as [p|].
      - destruct (Reader_Read z source fuel p r st)
          as [[[r1 st1] [[n p'] err]]| |] eqn:Hr; try discriminate.
        exists r1, st1. apply Reader_Read_spec in Hr as (_ & Ho & _).
        split; [auto|]. split; [discriminate|assumption].
      - destruct (Reader_Close z r st) as [[r1 st1] err] eqn:Hc.
        exists r1, st1. apply Reader_Close_spec in Hc as (_ & Hs & _ & _ & Ho & _).
        split; [auto|]. split; [auto|assumption]. }
    destruct Hstep as (r1 & st1 & Hown1 & Hclose & Hrun).
    destruct ops as [|op2 ops].
    + cbn [run_reader] in Hrun. injection Hrun as <- <-.
      split; [assumption|]. cbn [ends_with_rClose].
      destruct op; try discriminate. auto.
    + apply IH in Hrun as [Hown2 Hends]; [|exact Hown1].
      split; [assumption|]. exact Hends.
Qed.
End Lifecycle.

Lemma owns_nothing (w : Writer) (tr : list Call) :
  writer_owns w tr -> w_stream w = 0 -> cstream_live tr = Some None.
Proof. unfold writer_owns. intros -> ->. reflexivity. Qed.

Lemma r_owns_nothing (r : Reader) (tr : list Call) :
  reader_owns r tr -> r_stream r = 0 -> dstream_live tr = Some None.
Proof. unfold reader_owns. intros -> ->. reflexivity. Qed.

(** The calls a loop makes release no session. *)
Lemma writer_loop_call_keeps (E : Type) (z : Zstd E) (h : handle)
    (cap op : Z) (c : Call) :
  writer_loop_call z h cap op c -> keeps_sessions c.
Proof. destruct c; cbn; tauto. Qed.

Lemma reader_loop_call_keeps (E : Type) (z : Zstd E) (h : handle) (cap : Z)
    (c : Call) :
  reader_loop_call z h cap c -> keeps_sessions c.
Proof. destruct c; cbn; tauto. Qed.

(** [Write] releases nothing, and returns with the session it found or
    with the one it has created. *)
Lemma Writer_Write_session (E S : Type) (z : Zstd E) (sink : Sink S)
    (fuel : nat) (p : list byte) (w w' : Writer) (st st' : World E S)
    (res : Z * option error) :
  Writer_Write z sink fuel p w st = Done (w', st', res) ->
  extends keeps_sessions (calls st) (calls st') /\
  (w_stream w' = w_stream w \/
   w_stream w = 0 /\
   extends keeps_sessions (call_createCStream (w_stream w') :: calls st)
     (calls st')).
Proof.
  intros H. unfold Writer_Write in H.
  destruct (len p =? 0).
  { injection H as <- <- <-. split; [apply extends_refl|now left]. }
  destruct (Z.eqb_spec (w_stream w) 0) as [Hs|Hs].
  - unfold do_create in H. destruct (createCStream z (engine st)) as [h e].
    cbn [w_stream set_w_stream] in H.
    destruct (h =? 0) eqn:Hh.
    + injection H as <- <- <-. cbn [w_stream set_w_stream calls log].
      split; [apply extends_cons; [exact I|apply extends_refl]|].
      right. split; [exact Hs|apply extends_refl].
    + apply Write_loop_calls in H as [(Hs' & _) Hext].
      cbn [w_stream set_w_inBuffer set_w_stream calls log with_engine]
        in Hs', Hext.
      assert (Hnew : extends keeps_sessions (call_createCStream h :: calls st)
                       (calls st')).
      { eapply extends_weaken; [|exact Hext].
        intros c. apply writer_loop_call_keeps. }
      split.
      * eapply extends_trans; [|exact Hnew].
        apply extends_cons; [exact I|apply extends_refl].
      * right. rewrite Hs'. split; [exact Hs|exact Hnew].
  - destruct (Z.eqb_spec (w_stream w) 0) as [|_]; [contradiction|].
    apply Write_loop_calls in H as [(Hs' & _) Hext].
    cbn [w_stream set_w_inBuffer] in Hs'.
    split; [|left; exact Hs'].
    eapply extends_weaken; [|exact Hext].
    intros c. apply writer_loop_call_keeps.
Qed.

Lemma Writer_Flush_session (E S : Type) (z : Zstd E) (sink : Sink S)
    (fuel : nat) (w w' : Writer) (st st' : World E S)
    (res : option error) :
  Writer_Flush z sink fuel w st = Done (w', st', res) ->
  extends keeps_sessions (calls st) (calls st') /\
  w_stream w' = w_stream w.
Proof.
  intros H. unfold Writer_Flush in H.
  destruct (w_stream w =? 0).
  { injection H as <- <- <-. split; [apply extends_refl|reflexivity]. }
  apply Flush_loop_calls in H as [(Hs' & _) Hext].
  cbn [w_stream set_w_inBuffer] in Hs'. split; [|exact Hs'].
  eapply extends_weaken; [|exact Hext].
  intros c. apply writer_loop_call_keeps.
Qed.

Lemma Reader_Read_session (E S : Type) (z : Zstd E) (source : Source S)
    (fuel : nat) (p : list byte) (r r' : Reader) (st st' : World E S)
    (res : Z * list byte * option error) :
  Reader_Read z source fuel p r st = Done (r', st', res) ->
  extends keeps_sessions (calls st) (calls st') /\
  (r_stream r' = r_stream r \/
   r_stream r = 0 /\
   extends keeps_sessions (call_createDStream (r_stream r') :: calls st)
     (calls st')).
Proof.
  destruct res as [[n p'] err]. intros H.
  apply Reader_Read_spec in H as (_ & _ & _ & _ & _ & created & Hcr & Hext).
  assert (Hnew : extends keeps_sessions (created ++ calls st) (calls st')).
  { eapply extends_weaken; [|exact Hext].
    intros c. apply reader_loop_call_keeps. }
  destruct Hcr as [[-> Hs] | [Hs ->]]; cbn [app] in Hnew.
  - split; [exact Hnew|left; exact Hs].
  - split; [|right; split; [exact Hs|exact Hnew]].
    eapply extends_trans; [|exact Hnew].
    apply extends_cons; [exact I|apply extends_refl].
Qed.

(** C7, as the code has it.  Along every execution of a Writer or a Reader
    the trace keeps the session discipline: a session is stepped and
    released only while it is the live one, so it is never released twice
    and never used after its release.  The release happens in [Close] and
    nowhere else: an execution that ends with [Close] holds no session,
    whichever exit [Close] took.  [Write], [Flush] and [Read] release
    nothing, whatever they return: none of the calls they make is a
    release, the adapter comes back with the session it had or, when it
    had none, with the one the call has created, and that session is the
    live one of the trace, also when the call reports a fault. *)
Theorem session_released_by_close_only (E S1 S2 : Type) (z : Zstd E)
    (sink : Sink S1) (source : Source S2) (fuel : nat)
    (ops : list writer_op) (w w' : Writer) (st st' : World E S1)
    (rops : list reader_op) (r r' : Reader) (rst rst' : World E S2) :
  writer_owns w (calls st) ->
  run_writer z sink fuel ops w st = Done (w', st') ->
  reader_owns r (calls rst) ->
  run_reader z source fuel rops r rst = Done (r', rst') ->
  writer_owns w' (calls st') /\
  reader_owns r' (calls rst') /\
  (ends_with_Close ops = true ->
   w_stream w' = 0 /\ cstream_live (calls st') = Some None) /\
  (ends_with_rClose rops = true ->
   r_stream r' = 0 /\ dstream_live (calls rst') = Some None) /\
  (forall p w1 st1 res,
     Writer_Write z sink fuel p w st = Done (w1, st1, res) ->
     extends keeps_sessions (calls st) (calls st1) /\
     cstream_live (calls st1) = Some (session_of (w_stream w1)) /\
     (w_stream w1 = w_stream w \/
      w_stream w = 0 /\
      extends keeps_sessions (call_createCStream (w_stream w1) :: calls st)
        (calls st1))) /\
  (forall w1 st1 res,
     Writer_Flush z sink fuel w st = Done (w1, st1, res) ->
     extends keeps_sessions (calls st) (calls st1) /\
     cstream_live (calls st1) = Some (session_of (w_stream w1)) /\
     w_stream w1 = w_stream w) /\
  (forall p r1 st1 res,
     Reader_Read z source fuel p r rst = Done (r1, st1, res) ->
     extends keeps_sessions (calls rst) (calls st1) /\
     dstream_live (calls st1) = Some (session_of (r_stream r1)) /\
     (r_stream r1 = r_stream r \/
      r_stream r = 0 /\
      extends keeps_sessions (call_createDStream (r_stream r1) :: calls rst)
        (calls st1))).
Proof.
  intros Hown Hrun Hrown Hrrun.
  apply run_writer_owns in Hrun as [Hown' Hends]; [|exact Hown].
  apply run_reader_owns in Hrrun as [Hrown' Hrends]; [|exact Hrown].
  split; [assumption|]. split; [assumption|].
  split; [intros Hc; split; [auto|eapply owns_nothing; eauto]|].
  split; [intros Hc; split; [auto|eapply r_owns_nothing; eauto]|].
  split; [|split].
  - intros p w1 st1 res Hw.
    destruct (Writer_Write_session _ _ z sink fuel p w w1 st st1 res Hw)
      as [Hkeep Hsession].
    split; [exact Hkeep|]. split; [|exact Hsession].
    eapply Writer_Write_owns; [exact Hown|exact Hw].
  - intros w1 st1 res Hw.
    destruct (Writer_Flush_session _ _ z sink fuel w w1 st st1 res Hw)
      as [Hkeep Hsession].
    split; [exact Hkeep|]. split; [|exact Hsession].
    eapply Writer_Flush_owns in Hw as [_ Ho]; [exact Ho|exact Hown].
  - intros p r1 st1 res Hr.
    destruct (Reader_Read_session _ _ z source fuel p r r1 rst st1 res Hr)
      as [Hkeep Hsession].
    split; [exact Hkeep|]. split; [|exact Hsession].
    destruct res as [[n p'] err].
    apply Reader_Read_spec in Hr as (_ & Ho & _). exact (Ho Hrown).
Qed.

(** A Writer and a Reader on an engine whose every step faults: the call
    that creates the session reports the fault and returns with the
    session held, and the [Close] that follows releases it. *)
Lemma session_released_by_close_only_witness :
  exists w1 st1 w' st' r1 rst1 r' rst',
    Writer_Write (scripted fault_step) (errorWriter (io_error 5)) 3 [x61]
      small_writer (world0 [] tt) =
      Done (w1, st1, (0, Some (Errorf "compression error: fake"))) /\
    run_writer (scripted fault_step) (errorWriter (io_error 5)) 3
      [op_Write [x61]; op_Close] small_writer (world0 [] tt) =
      Done (w', st') /\
    Reader_Read (scripted fault_step) buffer_source 3 (make 2) small_reader
      (world0 [] [x61]) =
      Done (r1, rst1,
            (0, make 2, Some (Errorf "zstd decompression error: fake"))) /\
    run_reader (scripted fault_step) buffer_source 3
      [op_Read (make 2); op_rClose] small_reader (world0 [] [x61]) =
      Done (r', rst') /\
    (w_stream w1 = 2 /\ cstream_live (calls st1) = Some (Some 2) /\
     extends keeps_sessions [call_createCStream 2] (calls st1)) /\
    (r_stream r1 = 2 /\ dstream_live (calls rst1) = Some (Some 2) /\
     extends keeps_sessions [call_createDStream 2] (calls rst1)) /\
    cstream_live (calls st') = Some None /\
    dstream_live (calls rst') = Some None.
Proof.
  do 8 eexists.
  run_and_keep Hw1. run_and_keep Hw. run_and_keep Hr1. run_and_keep Hr.
  pose proof (session_released_by_close_only _ _ _ (scripted fault_step)
                (errorWriter (io_error 5)) buffer_source 3
                [op_Write [x61]; op_Close] small_writer _ (world0 [] tt) _
                [op_Read (make 2); op_rClose] small_reader _
                (world0 [] [x61]) _ eq_refl Hw eq_refl Hr)
    as (_ & _ & Hc & Hrc & Hwrite & _ & Hread).
  destruct (Hwrite _ _ _ _ Hw1) as (_ & Hlive & Hsession).
  destruct (Hread _ _ _ _ Hr1) as (_ & Hrlive & Hrsession).
  split.
  { split; [reflexivity|]. split; [exact Hlive|].
    destruct Hsession as [Hsame | [_ Hnew]]; [discriminate Hsame|].
    exact Hnew. }
  split.
  { split; [reflexivity|]. split; [exact Hrlive|].
    destruct Hrsession as [Hsame | [_ Hnew]]; [discriminate Hsame|].
    exact Hnew. }
  split; [apply Hc; reflexivity|apply Hrc; reflexivity].
Defined.

(** C7 as stated fails: a codec fault in [Write] is a fatal error, yet the
    Writer returns with its session still held and no release in the
    trace. *)
Lemma write_fault_keeps_session :
  match
    Writer_Write (scripted fault_step) (errorWriter (io_error 5)) 3 [x61]
      small_writer (world0 [] tt)
  with
  | Done (w1, st1, (n, err)) =>
      err = Some (Errorf "compression error: fake") /\
      w_stream w1 = 2 /\
      calls st1 =
        [call_getErrorName fake_error_code;
         call_isError fake_error_code 1;
         call_compressStream2 2 (mkOut (address_of (make 4)) 4 0)
           (mkIn (address_of [x61]) 1 0) EndContinue fault_step;
         call_createCStream 2] /\
      cstream_live (calls st1) = Some (Some 2)
  | _ => False
  end.
Proof. vm_compute. repeat split. Qed.

(** ** C2: calls after Close *)

(** A [Write] that finds no session starts by creating one, and every
    later call of its loop is on that new session. *)
Lemma Writer_Write_fresh (E S : Type) (z : Zstd E) (sink : Sink S)
    (fuel : nat) (p : list byte) (w w' : Writer) (st st' : World E S)
    (res : Z * option error) :
  w_stream w = 0 -> len p <> 0 ->
  Writer_Write z sink fuel p w st = Done (w', st', res) ->
  extends (writer_loop_call z (w_stream w') (u64 (len (w_buffer w)))
             EndContinue)
    (call_createCStream (w_stream w') :: calls st) (calls st').
Proof.
  intros Hs Hp H. unfold Writer_Write in H.
  apply Z.eqb_neq in Hp. rewrite Hp in H. rewrite Hs in H.
  change (0 =? 0) with true in H. cbv iota in H. unfold do_create in H.
  destruct (createCStream z (engine st)) as [h e].
  cbn [w_stream set_w_stream] in H.
  destruct (h =? 0).
  - injection H as <- <- <-. apply extends_refl.
  - apply Write_loop_calls in H as [(Hs' & _) Hext].
    cbn [w_stream set_w_inBuffer set_w_stream] in Hs'.
    rewrite Hs'. exact Hext.
Qed.

(** The same for a [Read] that finds no session, nothing staged and no
    end of stream. *)
Lemma Reader_Read_fresh (E S : Type) (z : Zstd E) (source : Source S)
    (fuel : nat) (p : list byte) (r r' : Reader) (st st' : World E S)
    (res : Z * list byte * option error) :
  r_stream r = 0 -> r_end r <= r_pos r -> r_streamEnded r = false ->
  Reader_Read z source fuel p r st = Done (r', st', res) ->
  extends (reader_loop_call z (r_stream r')
             (u64 (len (readBuffer_mem r'))))
    (call_createDStream (r_stream r') :: calls st) (calls st').
Proof.
  intros Hs Hpos Hended H. unfold Reader_Read in H.
  destruct (Z.ltb_spec (r_pos r) (r_end r)) as [Hlt|_]; [lia|].
  rewrite Hended in H.
  set (r0 := set_r_end 0 (set_r_pos 0 r)) in *.
  destruct (Read_loop z source fuel r0 st) as [[[r1 st1] res1]| |] eqn:Hloop;
    try discriminate.
  assert (Hcond : (r_end r0 =? 0) && negb (r_streamEnded r0) = true)
    by (cbn; now rewrite Hended).
  assert (Hfresh :
    extends (reader_loop_call z (r_stream r1)
               (u64 (len (readBuffer_mem r1))))
      (call_createDStream (r_stream r1) :: calls st) (calls st1)).
  { destruct fuel as [|fuel].
    { cbn [Read_loop] in Hloop. rewrite Hcond in Hloop. discriminate. }
    destruct (r_init_stream z r0 st) as [o st0] eqn:Hinit.
    pose proof Hinit as Hinit'.
    apply r_init_stream_fresh in Hinit'
      as (h & Hcalls & _ & Ho); [|cbn; now rewrite Hs].
    destruct o as [r0'|].
    - destruct Ho as (Hh & Hs0 & _ & _ & He0 & Hended0 & _).
      rewrite (Read_loop_init z source fuel r0 r0' st st0 Hcond Hinit)
        in Hloop; [|now rewrite Hs0|exact He0|exact Hended0].
      apply Read_loop_any in Hloop as (_ & _ & (created & Hcr & Hext & _) & _).
      destruct Hcr as [[-> Hs1] | [Hz _]].
      + cbn [app] in Hext. rewrite Hcalls in Hext.
        rewrite Hs1, Hs0. rewrite Hs1 in Hext. rewrite Hs0 in Hext.
        exact Hext.
      + rewrite Hs0 in Hz. subst h. discriminate.
    - subst h. cbn [Read_loop] in Hloop. rewrite Hcond, Hinit in Hloop.
      injection Hloop as <- <- <-. cbn [r_stream set_r_stream].
      rewrite Hcalls. apply extends_refl. }
  destruct res1 as [[n err]|].
  - injection H as <- <- <-. exact Hfresh.
  - destruct (r_end r1 =? 0).
    + destruct (r_streamEnded r1); injection H as <- <- <-; exact Hfresh.
    + destruct res as [[n p'] err].
      apply r_serve_spec in H as (-> & _ & Hs1 & _ & _ & Hrb & _).
      unfold readBuffer_mem. rewrite Hrb, Hs1. exact Hfresh.
Qed.

(** C2, as the code has it.  The adapters have no closed state and no
    "stream closed" error.  Once [Close] has returned, the adapter holds
    neither session nor context and the trace shows no live session; what
    a Reader has staged, and its mark of the end of the stream, are as
    they were.  A later [Flush], or a [Write] of an empty slice, returns
    success without any call.  A later [Write] of a non-empty slice first
    creates a fresh session and runs on it; when it returns an error, the
    creation has failed, or the engine has reported a fault on the new
    session, or the sink has failed.  A later [Read] serves the bytes
    still staged, without error and without any call; with nothing staged
    it reports the end of the stream if the Reader is marked as ended,
    without any call; otherwise it first creates a fresh session and runs
    on it, and an error it returns is the end of the stream, a failed
    creation, a fault of the engine on the new session, or a failure of
    the source.  In every case the trace keeps the session discipline: no
    call is made on the released session. *)
Theorem calls_after_close (E S1 S2 : Type) (z : Zstd E) (sink : Sink S1)
    (source : Source S2) (fuel : nat) (w w' : Writer) (st st' : World E S1)
    (err : option error) (r r' : Reader) (rst rst' : World E S2)
    (rerr : option error) :
  writer_owns w (calls st) ->
  Writer_Close z sink fuel w st = Done (w', st', err) ->
  reader_owns r (calls rst) ->
  Reader_Close z r rst = (r', rst', rerr) ->
  (w_stream w' = 0 /\ w_ctx w' = 0 /\ cstream_live (calls st') = Some None) /\
  (r_stream r' = 0 /\ r_ctx r' = 0 /\
   dstream_live (calls rst') = Some None /\
   r_pos r' = r_pos r /\ r_end r' = r_end r /\
   r_streamEnded r' = r_streamEnded r /\
   r_readBuffer r' = r_readBuffer r) /\
  (forall fuel2, Writer_Flush z sink fuel2 w' st' = Done (w', st', None)) /\
  (forall fuel2,
     Writer_Write z sink fuel2 [] w' st' = Done (w', st', (0, None))) /\
  (forall fuel2 p w2 st2 n werr,
     Writer_Write z sink fuel2 p w' st' = Done (w2, st2, (n, werr)) ->
     writer_owns w2 (calls st2) /\
     (len p <> 0 ->
      extends (writer_loop_call z (w_stream w2) (u64 (len (w_buffer w')))
                 EndContinue)
        (call_createCStream (w_stream w2) :: calls st') (calls st2) /\
      forall e, werr = Some e ->
        (e = Errorf "failed to create compression stream" /\ n = 0 /\
         w_stream w2 = 0 /\ calls st2 = call_createCStream 0 :: calls st') \/
        (w_stream w2 <> 0 /\
         ((exists code c older,
             e = Errorf ("compression error: " ++ getErrorName z code) /\
             c <> 0 /\
             calls st2 =
               call_getErrorName code :: call_isError code c :: older) \/
          (exists out k older,
             out <> [] /\
             calls st2 = sink_Write out k (Some e) :: older))))) /\
  (forall fuel2 p,
     r_pos r' < r_end r' ->
     Reader_Read z source fuel2 p r' rst' = r_serve p r' rst' /\
     forall r2 st2 n p2 e,
       r_serve p r' rst' = Done (r2, st2, (n, p2, e)) ->
       e = None /\ st2 = rst' /\ r_stream r2 = 0 /\
       n = Z.min (len p) (r_end r' - r_pos r')) /\
  (forall fuel2 p,
     r_end r' <= r_pos r' -> r_streamEnded r' = true ->
     Reader_Read z source fuel2 p r' rst' =
       Done (r', rst', (0, p, Some io_EOF))) /\
  (forall fuel2 p r2 st2 n p2 e,
     r_end r' <= r_pos r' -> r_streamEnded r' = false ->
     Reader_Read z source fuel2 p r' rst' = Done (r2, st2, (n, p2, e)) ->
     reader_owns r2 (calls st2) /\
     extends (reader_loop_call z (r_stream r2)
                (u64 (len (readBuffer_mem r2))))
       (call_createDStream (r_stream r2) :: calls rst') (calls st2) /\
     forall e', e = Some e' -> e' <> io_EOF ->
       (e' = Errorf "failed to create decompression stream" /\
        r_stream r2 = 0 /\
        calls st2 = call_createDStream 0 :: calls rst') \/
       (exists code c older,
          e' = Errorf ("zstd decompression error: " ++ getErrorName z code) /\
          c <> 0 /\ r_streamEnded r2 = true /\
          calls st2 =
            call_getErrorName code :: call_isError code c :: older) \/
       (exists cap k older,
          r_streamEnded r2 = false /\
          calls st2 = source_Read cap k (Some e') :: older)).
Proof.
  intros Hown Hclose Hrown Hrclose.
  apply Writer_Close_owns in Hclose as (Hs & Hc & Hown'); [|exact Hown].
  assert (Hkept : r_pos r' = r_pos r /\ r_end r' = r_end r /\
                  r_readBuffer r' = r_readBuffer r).
  { unfold Reader_Close in Hrclose.
    destruct (negb (r_stream r =? 0)); cbn [r_ctx set_r_stream] in Hrclose;
      destruct (negb (r_ctx r =? 0)); injection Hrclose as <- _ _;
      repeat split. }
  destruct Hkept as (Hpos & Hend & Hrb).
  apply Reader_Close_spec in Hrclose as (_ & Hrs & Hrc & Hre & Hrown' & _).
  specialize (Hrown' Hrown).
  split; [repeat split; try assumption; eapply owns_nothing; eauto|].
  split; [repeat split; try assumption; eapply r_owns_nothing; eauto|].
  split; [intros fuel2; unfold Writer_Flush; now rewrite Hs|].
  split; [reflexivity|].
  split; [|split; [|split]].
  - intros fuel2 p w2 st2 n werr H.
    split; [eapply Writer_Write_owns; [exact Hown'|exact H]|].
    intros Hp.
    split; [eapply Writer_Write_fresh; eassumption|].
    intros e ->. unfold Writer_Write in H.
    apply Z.eqb_neq in Hp. rewrite Hp, Hs in H.
    change (0 =? 0) with true in H. cbv iota in H. unfold do_create in H.
    destruct (createCStream z (engine st')) as [h e1].
    cbn [w_stream set_w_stream] in H.
    destruct (Z.eqb_spec h 0) as [->|Hh].
    + injection H as <- <- <- <-. left. auto.
    + apply Write_loop_error_origin in H as (Hs' & Horigin). right.
      cbn [w_stream set_w_inBuffer set_w_stream] in Hs'.
      split; [congruence|exact Horigin].
  - intros fuel2 p Hlt. split.
    + unfold Reader_Read.
      destruct (Z.ltb_spec (r_pos r') (r_end r')); [reflexivity|lia].
    + intros r2 st2 n p2 e H.
      apply r_serve_spec in H as (-> & -> & Hs2 & _ & _ & _ & _ & _ & Hn & _).
      repeat split; congruence.
  - intros fuel2 p Hle Hended. unfold Reader_Read.
    destruct (Z.ltb_spec (r_pos r') (r_end r')); [lia|].
    now rewrite Hended.
  - intros fuel2 p r2 st2 n p2 e Hle Hended H.
    split.
    { pose proof H as H'.
      apply Reader_Read_spec in H' as (_ & Ho & _). now apply Ho. }
    split; [eapply Reader_Read_fresh; eassumption|].
    intros e' -> Hne.
    pose proof (Reader_Read_fresh _ _ z source fuel2 p r' r2 rst' st2 _
                  Hrs Hle Hended H) as Hfresh.
    unfold Reader_Read in H.
    destruct (Z.ltb_spec (r_pos r') (r_end r')); [lia|].
    rewrite Hended in H.
    destruct (Read_loop z source fuel2 _ rst')
      as [[[r1 st1] res]| |] eqn:Hloop; try discriminate.
    destruct res as [[n0 [e0|]]|].
    + injection H as <- <- <- <- <-.
      apply Read_loop_error in Hloop
        as [(He & Hz & older & Hcalls)|
            [Hb|(cap & k & older & _ & Hse & Hcalls & _)]].
      * left. split; [exact He|]. split; [exact Hz|].
        destruct Hfresh as (new & Hnew & Hall). rewrite Hz in Hnew.
        destruct new as [|c new]; [exact Hnew|].
        exfalso. rewrite Hcalls in Hnew. cbn [app] in Hnew.
        injection Hnew as <- _. inversion Hall as [|c0 l0 Hc0 _].
        exact Hc0.
      * right. left. exact Hb.
      * right. right. exists cap, k, older. auto.
    + discriminate.
    + destruct (r_end r1 =? 0).
      * destruct (r_streamEnded r1);
          [injection H as <- <- <- <- <-; contradiction|discriminate].
      * apply r_serve_spec in H as (_ & Herr & _). discriminate.
Qed.

(** A Writer and two Readers of the reference engine, each opened by a
    call that creates its session, closed, and then used again.  The
    Writer takes a further byte on a fresh session.  The first Reader
    still has a byte staged and serves it; the second has served all it
    had and goes on reading the frame on a fresh session. *)
Lemma calls_after_close_witness :
  exists w1 st1 w' st' r1 rst1 r' rst' q1 qst1 q' qst' w2 st2 r2 q2 qst2,
    Writer_Write toy buffer_sink 5 [x61] small_writer (toy_world []) =
      Done (w1, st1, (1, None)) /\
    Writer_Close toy buffer_sink 5 w1 st1 = Done (w', st', None) /\
    Reader_Read toy buffer_source 5 (make 1) small_reader
      (toy_world (toy_frame [x61; x62])) =
      Done (r1, rst1, (1, [x61], None)) /\
    Reader_Close toy r1 rst1 = (r', rst', None) /\
    Reader_Read toy buffer_source 5 (make 2) small_reader
      (toy_world (toy_frame [x61; x62])) =
      Done (q1, qst1, (2, [x61; x62], None)) /\
    Reader_Close toy q1 qst1 = (q', qst', None) /\
    Writer_Write toy buffer_sink 5 [x62] w' st' = Done (w2, st2, (1, None)) /\
    Reader_Read toy buffer_source 5 (make 1) r' rst' =
      Done (r2, rst', (1, [x62], None)) /\
    Reader_Read toy buffer_source 5 (make 1) q' qst' =
      Done (q2, qst2, (0, make 1, Some io_EOF)) /\
    cstream_live (calls st') = Some None /\
    dstream_live (calls rst') = Some None /\
    Writer_Flush toy buffer_sink 5 w' st' = Done (w', st', None) /\
    extends (writer_loop_call toy (w_stream w2) 4 EndContinue)
      (call_createCStream (w_stream w2) :: calls st') (calls st2) /\
    extends (reader_loop_call toy (r_stream q2) 4)
      (call_createDStream (r_stream q2) :: calls qst') (calls qst2).
Proof.
  do 17 eexists.
  run_and_keep Hw1. run_and_keep Hclose.
  run_and_keep Hr1. eval_and_keep Hrclose.
  run_and_keep Hq1. eval_and_keep Hqclose.
  run_and_keep Hw2. run_and_keep Hr2. run_and_keep Hq2.
  pose proof (fun Ho Hro =>
                calls_after_close _ _ _ toy buffer_sink buffer_source 5
                  _ _ _ _ _ _ _ _ _ _ Ho Hclose Hro Hrclose) as Hr.
  destruct (Hr eq_refl eq_refl)
    as ((_ & _ & Hlive) & (_ & _ & Hrlive & _) & Hflush & _ & Hwrite & _).
  pose proof (fun Ho Hro =>
                calls_after_close _ _ _ toy buffer_sink buffer_source 5
                  _ _ _ _ _ _ _ _ _ _ Ho Hclose Hro Hqclose) as Hq.
  destruct (Hq eq_refl eq_refl) as (_ & _ & _ & _ & _ & _ & _ & Hread).
  split; [exact Hlive|]. split; [exact Hrlive|].
  split; [exact (Hflush 5%nat)|].
  split.
  - refine (proj1 (proj2 (Hwrite _ _ _ _ _ _ Hw2) _)). discriminate.
  - refine (proj1 (proj2 (Hread _ _ _ _ _ _ _ _ _ Hq2))).
    + vm_compute. discriminate.
    + reflexivity.
Defined.

(** C2 as stated fails: after [Close], [Flush] and [Write] succeed, and
    so does [Read]; no "stream closed" error is raised.  [Write] runs on a
    session it creates, and [Read] serves a byte that was staged before
    the Reader was closed. *)
Lemma no_stream_closed_error :
  match Writer_Write toy buffer_sink 5 [x61] small_writer (toy_world []) with
  | Done (w0, st0, _) =>
      match Writer_Close toy buffer_sink 5 w0 st0 with
      | Done (w1, st1, _) =>
          Writer_Flush toy buffer_sink 3 w1 st1 = Done (w1, st1, None) /\
          match Writer_Write toy buffer_sink 3 [x62] w1 st1 with
          | Done (w2, st2, (n, err)) =>
              n = 1 /\ err = None /\ w_stream w2 = 2 /\
              In (call_createCStream 2) (firstn 4 (calls st2))
          | _ => False
          end
      | _ => False
      end
  | _ => False
  end /\
  match
    Reader_Read toy buffer_source 5 (make 1) small_reader
      (toy_world (toy_frame [x61; x62]))
  with
  | Done (r0, rst0, _) =>
      match Reader_Close toy r0 rst0 with
      | (r1, rst1, _) =>
          match Reader_Read toy buffer_source 5 (make 1) r1 rst1 with
          | Done (r2, rst2, (n, p', err)) =>
              n = 1 /\ p' = [x62] /\ err = None /\ r_stream r2 = 0
          | _ => False
          end
      end
  | _ => False
  end.
Proof. vm_compute. repeat split. auto 10. Qed.

(** ** C9: the output cursor *)

Lemma u64_le (x : Z) : 0 <= x -> u64 x <= x.
Proof. intros H. unfold u64. apply Z.mod_le; lia. Qed.

Lemma slice_bounds (s l : list byte) (lo hi : Z) :
  slice s lo hi = Some l -> 0 <= lo <= hi /\ hi <= len s.
Proof.
  unfold slice. intros H.
  destruct (0 <=? lo) eqn:H0; [|discriminate].
  destruct (lo <=? hi) eqn:H1; [|discriminate].
  destruct (hi <=? len s) eqn:H2; [|discriminate].
  apply Z.leb_le in H0, H1, H2. lia.
Qed.

(** A [uint64] that is not negative as an [int] is that [int]. *)
Lemma to_int_nonneg (x : Z) :
  0 <= x < 2 ^ 64 -> 0 <= to_int x -> to_int x = x.
Proof.
  intros Hx. unfold to_int. rewrite Z.mod_small by lia.
  destruct (Z.ltb_spec x (2 ^ 63)); lia.
Qed.

Lemma extends_both (P Q : Call -> Prop) (old tr : list Call) :
  extends P old tr -> extends Q old tr ->
  extends (fun c => P c /\ Q c) old tr.
Proof.
  intros (new & -> & HP) (new' & Heq & HQ).
  apply app_inv_tail in Heq. subst new'.
  exists new. split; [reflexivity|].
  rewrite Forall_forall in *. auto.
Qed.

Section OutputCursor.
Context {E S : Type}.
Variable z : Zstd E.

(** *** The cursor a step is handed *)

Lemma cursor_reset_other (cap : Z) (c : Call) :
  output_cursor c = None -> cursor_reset cap c.
Proof. unfold cursor_reset. now intros ->. Qed.

Lemma writer_call_reset (h : handle) (cap op : Z) (c : Call) :
  0 <= cap -> writer_loop_call z h (u64 cap) op c -> cursor_reset cap c.
Proof.
  intros _ Hc. destruct c; cbn in Hc; try tauto;
    try (apply cursor_reset_other; reflexivity).
  destruct Hc as (_ & Hp & Hsz & _). unfold cursor_reset. cbn. auto.
Qed.

Lemma reader_call_reset (h : handle) (cap : Z) (c : Call) :
  0 <= cap -> reader_loop_call z h (u64 cap) c -> cursor_reset cap c.
Proof.
  intros _ Hc. destruct c; cbn in Hc; try tauto;
    try (apply cursor_reset_other; reflexivity).
  destruct Hc as (_ & Hp & Hsz & _). unfold cursor_reset. cbn. auto.
Qed.

(** With an engine that keeps its position inside the region it is
    given, the position a step leaves is inside the buffer too. *)
Lemma cursor_ok_other (cap : Z) (c : Call) :
  output_cursor c = None -> cursor_ok cap c.
Proof. unfold cursor_ok, cursor_reset, cursor_within. now intros ->. Qed.

Lemma writer_call_cursor (h : handle) (cap op : Z) (c : Call) :
  respects_capacity z -> 0 <= cap ->
  writer_loop_call z h (u64 cap) op c -> cursor_ok cap c.
Proof.
  intros Hcap H0 Hc. destruct c; cbn in Hc; try tauto;
    try (apply cursor_ok_other; reflexivity).
  destruct Hc as (_ & Hp & Hsz & _ & e & ->).
  unfold cursor_ok, cursor_reset, cursor_within. cbn.
  split; [auto|].
  destruct Hcap as [Hc _].
  pose proof (u64_range cap). pose proof (u64_le cap H0).
  specialize (Hc h0 o i endOp e). rewrite Hsz, Hp in Hc.
  specialize (Hc ltac:(lia) ltac:(lia)).
  rewrite u64_small by lia. lia.
Qed.

Lemma reader_call_cursor (h : handle) (cap : Z) (c : Call) :
  respects_capacity z -> 0 <= cap ->
  reader_loop_call z h (u64 cap) c -> cursor_ok cap c.
Proof.
  intros Hcap H0 Hc. destruct c; cbn in Hc; try tauto;
    try (apply cursor_ok_other; reflexivity).
  destruct Hc as (_ & Hp & Hsz & e & ->).
  unfold cursor_ok, cursor_reset, cursor_within. cbn.
  split; [auto|].
  destruct Hcap as [_ Hc].
  pose proof (u64_range cap). pose proof (u64_le cap H0).
  specialize (Hc h0 o i e). rewrite Hsz, Hp in Hc.
  specialize (Hc ltac:(lia) ltac:(lia)).
  rewrite u64_small by lia. lia.
Qed.

(** What holds of every call a loop may make, and of every call that is
    no step, holds of every call a method adds to the trace. *)
Section Shapes.
Variable P : Z -> Call -> Prop.
Hypothesis P_other : forall cap c, output_cursor c = None -> P cap c.
Hypothesis P_writer :
  forall h cap op c,
    0 <= cap -> writer_loop_call z h (u64 cap) op c -> P cap c.
Hypothesis P_reader :
  forall h cap c, 0 <= cap -> reader_loop_call z h (u64 cap) c -> P cap c.

Lemma Writer_Write_shape (sink : Sink S) (fuel : nat) (p : list byte)
    (w w' : Writer) (st st' : World E S) (res : Z * option error) :
  Writer_Write z sink fuel p w st = Done (w', st', res) ->
  extends (P (len (w_buffer w))) (calls st) (calls st').
Proof.
  intros H. unfold Writer_Write in H.
  destruct (len p =? 0); [injection H as <- <- <-; apply extends_refl|].
  assert (Hloop : forall w1 st1,
    len (w_buffer w1) = len (w_buffer w) ->
    extends (P (len (w_buffer w))) (calls st) (calls st1) ->
    Write_loop z sink fuel (len p)
      (set_w_inBuffer (mkIn (address_of p) (u64 (len p)) 0) w1) st1 =
      Done (w', st', res) ->
    extends (P (len (w_buffer w))) (calls st) (calls st')).
  { intros w1 st1 Hl Hext Hw. apply Write_loop_calls in Hw as [_ Hext1].
    eapply extends_trans; [exact Hext|].
    eapply extends_weaken; [|exact Hext1].
    intros c. cbn [w_buffer set_w_inBuffer]. rewrite Hl.
    apply P_writer, len_nonneg. }
  destruct (w_stream w =? 0) eqn:Hs.
  - unfold do_create in H. destruct (createCStream z (engine st)) as [h e].
    cbn [w_stream set_w_stream] in H.
    assert (Hext : extends (P (len (w_buffer w))) (calls st)
                     (call_createCStream h :: calls st))
      by (apply extends_cons;
          [apply P_other; reflexivity|apply extends_refl]).
    destruct (h =? 0).
    + injection H as <- <- <-. exact Hext.
    + apply (Hloop (set_w_stream h w)
               (log (call_createCStream h) (with_engine e st)) eq_refl
               Hext H).
  - rewrite Hs in H. apply (Hloop w st eq_refl (extends_refl _ _) H).
Qed.

Lemma Writer_Flush_shape (sink : Sink S) (fuel : nat) (w w' : Writer)
    (st st' : World E S) (res : option error) :
  Writer_Flush z sink fuel w st = Done (w', st', res) ->
  extends (P (len (w_buffer w))) (calls st) (calls st').
Proof.
  intros H. unfold Writer_Flush in H.
  destruct (w_stream w =? 0); [injection H as <- <- <-; apply extends_refl|].
  apply Flush_loop_calls in H as [_ Hext].
  eapply extends_weaken; [|exact Hext].
  intros c. apply P_writer, len_nonneg.
Qed.

Lemma Writer_Close_shape (sink : Sink S) (fuel : nat) (w w' : Writer)
    (st st' : World E S) (res : option error) :
  Writer_Close z sink fuel w st = Done (w', st', res) ->
  extends (P (len (w_buffer w))) (calls st) (calls st').
Proof.
  intros H. unfold Writer_Close, Close_body in H.
  assert (Hdef : forall w1 (st1 : World E S) w2 st2,
    Close_deferred z w1 st1 = (w2, st2) ->
    extends (P (len (w_buffer w))) (calls st) (calls st1) ->
    extends (P (len (w_buffer w))) (calls st) (calls st2)).
  { intros w1 st1 w2 st2 Hd Hext.
    apply Close_deferred_spec in Hd as (_ & _ & [-> | ->]); [assumption|].
    apply extends_cons; [apply P_other; reflexivity|assumption]. }
  destruct (w_stream w =? 0).
  - destruct (Close_deferred z w st) as [w2 st2] eqn:Hd.
    injection H as <- <- <-. eapply Hdef; [exact Hd|apply extends_refl].
  - destruct (Close_loop z sink fuel _ st) as [[[w1 st1] e]| |] eqn:Hloop;
      try discriminate.
    destruct (Close_deferred z w1 st1) as [w2 st2] eqn:Hd.
    injection H as <- <- <-. eapply Hdef; [exact Hd|].
    apply Close_loop_calls in Hloop as (_ & _ & mid & tail & -> & Hext & Ht).
    assert (Hmid : extends (P (len (w_buffer w))) (calls st) mid).
    { eapply extends_weaken; [|exact Hext].
      intros c. apply P_writer, len_nonneg. }
    destruct Ht as [-> | (code & ->)]; cbn [app];
      repeat (apply extends_cons; [apply P_other; reflexivity|]);
      exact Hmid.
Qed.

Lemma Reader_Read_shape (source : Source S) (fuel : nat) (p : list byte)
    (r r' : Reader) (st st' : World E S)
    (res : Z * list byte * option error) :
  Reader_Read z source fuel p r st = Done (r', st', res) ->
  extends (P (len (readBuffer_mem r'))) (calls st) (calls st').
Proof.
  destruct res as [[n p'] err]. intros H.
  apply Reader_Read_spec in H as (_ & _ & _ & _ & _ & created & Hcr & Hext).
  apply extends_trans with (tr2 := created ++ calls st).
  - destruct Hcr as [[-> _] | [_ ->]]; cbn [app];
      [apply extends_refl|].
    apply extends_cons; [apply P_other; reflexivity|].
    apply extends_refl.
  - eapply extends_weaken; [|exact Hext].
    intros c. apply P_reader, len_nonneg.
Qed.
End Shapes.

(** *** The position a step leaves behind *)

(** A drain that returns has found its slice inside the staging
    buffer. *)
Lemma w_drain_within (sink : Sink S) (w : Writer) (st : World E S)
    (x : option error * World E S) :
  w_drain sink w st = Done x ->
  0 <= oPos (w_outBuffer w) ->
  oPos (w_outBuffer w) <= len (w_buffer w).
Proof.
  unfold w_drain. intros H H0. pose proof (len_nonneg _ (w_buffer w)).
  destruct (Z.ltb_spec 0 (oPos (w_outBuffer w))) as [Hpos|Hpos]; [|lia].
  destruct (slice (w_buffer w) 0 (oPos (w_outBuffer w))) eqn:Hs;
    [|discriminate].
  apply slice_bounds in Hs. lia.
Qed.

(** The step of one iteration of a Writer loop: when it reports no fault
    and the drain returns, its position is inside the buffer. *)
Lemma w_step_position (sink : Sink S) (w w1 : Writer) (op : Z)
    (res : StepResult) (st2 : World E S) (x : option error * World E S) :
  w_setup_out w = Some w1 ->
  w_drain sink (w_after_step (as_uint64 res) w1) st2 = Done x ->
  position_checked z (len (w_buffer w))
    (call_compressStream2 (w_stream w1) (w_outBuffer w1) (w_inBuffer w1) op
       (as_uint64 res)).
Proof.
  intros Hset Hdrain _. cbn [out_pos as_uint64].
  apply w_setup_out_stream in Hset as (_ & _ & Hb & _).
  apply w_drain_within in Hdrain;
    cbn [w_outBuffer w_buffer w_after_step oPos out_pos as_uint64] in *.
  - rewrite len_overwrite, Hb in Hdrain.
    pose proof (u64_range (out_pos res)). lia.
  - pose proof (u64_range (out_pos res)). lia.
Qed.

Lemma position_faulting (cap : Z) (h : handle) (o : ZstdOutBuffer)
    (i : ZstdInBuffer) (op : Z) (res : StepResult) :
  isError z (hint res) <> 0 ->
  position_checked z cap (call_compressStream2 h o i op res).
Proof. intros Hf Hok. contradiction. Qed.

Ltac grow_checked :=
  repeat (apply extends_cons; [exact I || eassumption|]);
  try apply extends_refl.

Lemma Write_loop_position (sink : Sink S) (fuel : nat) :
  forall lenp w st w' st' res,
    Write_loop z sink fuel lenp w st = Done (w', st', res) ->
    extends (position_checked z (len (w_buffer w))) (calls st) (calls st').
Proof.
  induction fuel as [|fuel IH]; intros lenp w st w' st' res H;
    cbn [Write_loop] in H;
    destruct (iPos (w_inBuffer w) <? iSize (w_inBuffer w));
    try discriminate;
    try (injection H as <- <- <-; apply extends_refl).
  destruct (w_setup_out w) as [w1|] eqn:Hset; [|discriminate].
  unfold do_compressStream2, do_isError in H.
  destruct (compressStream2 z (w_stream w1) (w_outBuffer w1) (w_inBuffer w1)
              EndContinue (engine st)) as [res0 e1].
  destruct (Z.eqb_spec (isError z (hint (as_uint64 res0))) 0) as [Hz|Hnz];
    cbn [negb] in H.
  - destruct (w_drain sink _ _) as [[err st3]| |] eqn:Hdrain;
      try discriminate.
    pose proof (w_step_position sink w w1 EndContinue res0 _ _ Hset Hdrain)
      as Hstep.
    apply w_drain_calls in Hdrain as [_ Hcalls]. cbn [calls log] in Hcalls.
    destruct err as [err|].
    + injection H as <- <- <-.
      destruct Hcalls as [-> | (q & k & ->)]; grow_checked.
    + apply IH in H.
      cbn [w_buffer w_after_step] in H. rewrite len_overwrite in H.
      apply w_setup_out_stream in Hset as (_ & _ & Hb & _).
      rewrite Hb in H.
      eapply extends_trans; [|exact H].
      destruct Hcalls as [-> | (q & k & ->)]; grow_checked.
  - unfold do_getErrorName in H. injection H as <- <- <-.
    cbn [calls log with_engine].
    pose proof (position_faulting (len (w_buffer w)) (w_stream w1)
                  (w_outBuffer w1) (w_inBuffer w1) EndContinue _ Hnz).
    grow_checked.
Qed.

Lemma Flush_loop_position (sink : Sink S) (fuel : nat) :
  forall w st w' st' res,
    Flush_loop z sink fuel w st = Done (w', st', res) ->
    extends (position_checked z (len (w_buffer w))) (calls st) (calls st').
Proof.
  induction fuel as [|fuel IH]; intros w st w' st' res H;
    cbn [Flush_loop] in H; [discriminate|].
  destruct (w_setup_out w) as [w1|] eqn:Hset; [|discriminate].
  unfold do_compressStream2, do_isError in H.
  destruct (compressStream2 z (w_stream w1) (w_outBuffer w1) (w_inBuffer w1)
              EndFlush (engine st)) as [res0 e1].
  destruct (Z.eqb_spec (isError z (hint (as_uint64 res0))) 0) as [Hz|Hnz];
    cbn [negb] in H.
  - destruct (w_drain sink _ _) as [[err st3]| |] eqn:Hdrain;
      try discriminate.
    pose proof (w_step_position sink w w1 EndFlush res0 _ _ Hset Hdrain)
      as Hstep.
    apply w_drain_calls in Hdrain as [_ Hcalls]. cbn [calls log] in Hcalls.
    destruct err as [err|].
    + injection H as <- <- <-.
      destruct Hcalls as [-> | (q & k & ->)]; grow_checked.
    + destruct (hint (as_uint64 res0) =? 0).
      * injection H as <- <- <-.
        destruct Hcalls as [-> | (q & k & ->)]; grow_checked.
      * apply IH in H.
        cbn [w_buffer w_after_step] in H. rewrite len_overwrite in H.
        apply w_setup_out_stream in Hset as (_ & _ & Hb & _).
        rewrite Hb in H.
        eapply extends_trans; [|exact H].
        destruct Hcalls as [-> | (q & k & ->)]; grow_checked.
  - unfold do_getErrorName in H. injection H as <- <- <-.
    cbn [calls log with_engine].
    pose proof (position_faulting (len (w_buffer w)) (w_stream w1)
                  (w_outBuffer w1) (w_inBuffer w1) EndFlush _ Hnz).
    grow_checked.
Qed.

Lemma Close_loop_position (sink : Sink S) (fuel : nat) :
  forall w st w' st' res,
    Close_loop z sink fuel w st = Done (w', st', res) ->
    extends (position_checked z (len (w_buffer w))) (calls st) (calls st').
Proof.
  induction fuel as [|fuel IH]; intros w st w' st' res H;
    cbn [Close_loop] in H; [discriminate|].
  destruct (w_setup_out w) as [w1|] eqn:Hset; [|discriminate].
  unfold do_compressStream2, do_isError, w_free_stream, do_free in H.
  destruct (compressStream2 z (w_stream w1) (w_outBuffer w1) (w_inBuffer w1)
              EndEnd (engine st)) as [res0 e1].
  destruct (Z.eqb_spec (isError z (hint (as_uint64 res0))) 0) as [Hz|Hnz];
    cbn [negb] in H.
  - destruct (w_drain sink _ _) as [[err st3]| |] eqn:Hdrain;
      try discriminate.
    pose proof (w_step_position sink w w1 EndEnd res0 _ _ Hset Hdrain)
      as Hstep.
    apply w_drain_calls in Hdrain as [_ Hcalls]. cbn [calls log] in Hcalls.
    destruct err as [err|].
    + injection H as <- <- <-. cbn [calls log with_engine].
      destruct Hcalls as [-> | (q & k & ->)]; grow_checked.
    + destruct (hint (as_uint64 res0) =? 0).
      * injection H as <- <- <-. cbn [calls log with_engine].
        destruct Hcalls as [-> | (q & k & ->)]; grow_checked.
      * apply IH in H.
        cbn [w_buffer w_after_step] in H. rewrite len_overwrite in H.
        apply w_setup_out_stream in Hset as (_ & _ & Hb & _).
        rewrite Hb in H.
        eapply extends_trans; [|exact H].
        destruct Hcalls as [-> | (q & k & ->)]; grow_checked.
  - unfold do_getErrorName in H. injection H as <- <- <-.
    cbn [calls log with_engine].
    pose proof (position_faulting (len (w_buffer w)) (w_stream w1)
                  (w_outBuffer w1) (w_inBuffer w1) EndEnd _ Hnz).
    grow_checked.
Qed.

Lemma Writer_Write_position (sink : Sink S) (fuel : nat) (p : list byte)
    (w w' : Writer) (st st' : World E S) (res : Z * option error) :
  Writer_Write z sink fuel p w st = Done (w', st', res) ->
  extends (position_checked z (len (w_buffer w))) (calls st) (calls st').
Proof.
  intros H. unfold Writer_Write in H.
  destruct (len p =? 0); [injection H as <- <- <-; apply extends_refl|].
  destruct (w_stream w =? 0) eqn:Hs.
  - unfold do_create in H. destruct (createCStream z (engine st)) as [h e].
    cbn [w_stream set_w_stream] in H.
    destruct (h =? 0).
    + injection H as <- <- <-. cbn [calls log with_engine].
      apply extends_cons; [exact I|apply extends_refl].
    + apply Write_loop_position in H.
      cbn [w_buffer set_w_inBuffer set_w_stream calls log with_engine] in H.
      eapply extends_trans; [|exact H].
      apply extends_cons; [exact I|apply extends_refl].
  - rewrite Hs in H. apply Write_loop_position in H. exact H.
Qed.

Lemma Writer_Flush_position (sink : Sink S) (fuel : nat) (w w' : Writer)
    (st st' : World E S) (res : option error) :
  Writer_Flush z sink fuel w st = Done (w', st', res) ->
  extends (position_checked z (len (w_buffer w))) (calls st) (calls st').
Proof.
  intros H. unfold Writer_Flush in H.
  destruct (w_stream w =? 0); [injection H as <- <- <-; apply extends_refl|].
  apply Flush_loop_position in H. exact H.
Qed.

Lemma Writer_Close_position (sink : Sink S) (fuel : nat) (w w' : Writer)
    (st st' : World E S) (res : option error) :
  Writer_Close z sink fuel w st = Done (w', st', res) ->
  extends (position_checked z (len (w_buffer w))) (calls st) (calls st').
Proof.
  intros H. unfold Writer_Close, Close_body in H.
  assert (Hdef : forall w1 (st1 : World E S) w2 st2,
    Close_deferred z w1 st1 = (w2, st2) ->
    extends (position_checked z (len (w_buffer w))) (calls st) (calls st1) ->
    extends (position_checked z (len (w_buffer w))) (calls st) (calls st2)).
  { intros w1 st1 w2 st2 Hd Hext.
    apply Close_deferred_spec in Hd as (_ & _ & [-> | ->]); [assumption|].
    apply extends_cons; [exact I|assumption]. }
  destruct (w_stream w =? 0).
  - destruct (Close_deferred z w st) as [w2 st2] eqn:Hd.
    injection H as <- <- <-. eapply Hdef; [exact Hd|apply extends_refl].
  - destruct (Close_loop z sink fuel _ st) as [[[w1 st1] e]| |] eqn:Hloop;
      try discriminate.
    destruct (Close_deferred z w1 st1) as [w2 st2] eqn:Hd.
    injection H as <- <- <-. eapply Hdef; [exact Hd|].
    apply Close_loop_position in Hloop. exact Hloop.
Qed.

(** The same for the loop of [Read], whose slice expression comes after
    the loop. *)
Lemma r_init_stream_calls (r : Reader) (st st1 : World E S)
    (o : option Reader) :
  r_init_stream z r st = (o, st1) ->
  (calls st1 = calls st \/
   exists h, calls st1 = call_createDStream h :: calls st) /\
  match o with
  | Some r1 => r_end r1 = r_end r /\ r_pos r1 = r_pos r
  | None => True
  end.
Proof.
  unfold r_init_stream, do_create. intros H.
  destruct (r_stream r =? 0).
  - destruct (createDStream z (engine st)) as [h e].
    cbn [r_readBuffer set_r_stream] in H.
    destruct (h =? 0).
    + injection H as <- <-. split; [right; eexists; reflexivity|exact I].
    + destruct (r_readBuffer r); injection H as <- <-;
        (split; [right; eexists; reflexivity|split; reflexivity]).
  - injection H as <- <-. split; [left; reflexivity|split; reflexivity].
Qed.

Lemma Read_loop_position (source : Source S) (fuel : nat) :
  forall r st r' st' res,
    Read_loop z source fuel r st = Done (r', st', res) ->
    extends
      (read_position z
         (match res with None => r_end r' | Some _ => 0 end))
      (calls st) (calls st') /\
    (res <> None -> r_end r' = 0).
Proof.
  induction fuel as [|fuel IH]; intros r st r' st' res H;
    cbn [Read_loop] in H;
    destruct ((r_end r =? 0) && negb (r_streamEnded r)) eqn:Hcond;
    try discriminate;
    try (injection H as <- <- <-;
         split; [apply extends_refl|intros Hn; now contradiction Hn]).
  apply andb_prop in Hcond as [Hend _]. apply Z.eqb_eq in Hend.
  destruct (r_init_stream z r st) as [[r1|] st1] eqn:Hinit;
    apply r_init_stream_calls in Hinit as [Hc1 Hr1].
  2:{ injection H as <- <- <-. cbn [r_end set_r_stream].
      split; [|intros _; exact Hend].
      destruct Hc1 as [-> | (h & ->)];
        [apply extends_refl|].
      apply extends_cons; [exact I|apply extends_refl]. }
  destruct Hr1 as [Hend1 _].
  assert (Hext1 : forall e, extends (read_position z e) (calls st) (calls st1)).
  { intros e. destruct Hc1 as [-> | (h & ->)]; [apply extends_refl|].
    apply extends_cons; [exact I|apply extends_refl]. }
  destruct (r_refill source r1 st1) as [[r2|r2|r2 e2|] st2] eqn:Hrefill;
    try discriminate;
    pose proof (r_refill_spec source r1 st1 st2 _ Hrefill)
      as (_ & Hc2 & Hr2);
    assert (Hext2 : forall e,
              extends (read_position z e) (calls st) (calls st2))
      by (intros e; eapply extends_trans; [apply Hext1|];
          destruct Hc2 as [-> | (cap & k & err & ->)];
          [apply extends_refl|];
          apply extends_cons; [exact I|apply extends_refl]).
  - (* the engine is stepped *)
    destruct Hr2 as (_ & Hend2 & _).
    destruct (readBuffer_mem r2) as [|m0 mem] eqn:Hm; [discriminate|].
    rewrite <- Hm in H. unfold do_decompressStream, do_isError in H.
    destruct (decompressStream z _ _ _ (engine st2)) as [res0 e'].
    pose proof (u64_range (out_pos res0)) as Hrange.
    destruct (Z.eqb_spec (isError z (hint (as_uint64 res0))) 0) as [Hok|Herr];
      cbn [negb] in H.
    + cbn [r_outBuffer r_after_step oPos out_pos as_uint64 set_r_outBuffer]
        in H.
      destruct (hint (as_uint64 res0) =? 0).
      { injection H as <- <- <-.
        cbn [r_end set_r_streamEnded set_r_end calls log with_engine].
        split; [|intros Hn; now contradiction Hn].
        apply extends_cons; [exact I|].
        apply extends_cons; [|apply Hext2].
        intros _. cbn [out_pos as_uint64]. auto. }
      match type of H with
      | (if ?c then _ else _) = _ => destruct c eqn:Hpos
      end.
      { injection H as <- <- <-.
        cbn [r_end set_r_end calls log with_engine].
        split; [|intros Hn; now contradiction Hn].
        apply extends_cons; [exact I|].
        apply extends_cons; [|apply Hext2].
        intros _. cbn [out_pos as_uint64]. auto. }
      match type of H with
      | Read_loop _ _ _ ?r5 ?st4 = _ =>
          assert (Hstep : read_position z
                    (match res with None => r_end r' | Some _ => 0 end)
                    (call_decompressStream (r_stream r2)
                       (mkOut (address_of (readBuffer_mem r2))
                          (u64 (len (readBuffer_mem r2))) 0)
                       (r_inBuffer r2) (as_uint64 res0)))
      end.
      { intros _. cbn [out_pos as_uint64]. split; [exact Hrange|].
        destruct (Z.eqb_spec (to_int (u64 (out_pos res0))) 0) as [H0|Hn0];
          [left; exact H0|right].
        destruct fuel as [|fuel']; cbn [Read_loop] in H;
          cbn [r_end set_r_end] in H;
          (destruct (Z.eqb_spec (to_int (u64 (out_pos res0))) 0);
           [contradiction|]);
          cbn [andb] in H; injection H as <- <- <-;
          reflexivity. }
      apply IH in H as [Hext Hnone]. split; [|exact Hnone].
      eapply extends_trans; [|exact Hext].
      cbn [calls log with_engine].
      apply extends_cons; [exact I|].
      apply extends_cons; [|apply Hext2].
      cbn [r_stream r_outBuffer r_inBuffer set_r_outBuffer] in *.
      exact Hstep.
    + unfold do_getErrorName in H. injection H as <- <- <-.
      cbn [r_end set_r_streamEnded r_after_step set_r_outBuffer calls log
           with_engine].
      split; [|intros _; congruence].
      apply extends_cons; [exact I|]. apply extends_cons; [exact I|].
      apply extends_cons; [|apply Hext2].
      intros Hno. contradiction.
  - injection H as <- <- <-. destruct Hr2 as (_ & Hend2 & _).
    split; [apply Hext2|intros Hn; now contradiction Hn].
  - injection H as <- <- <-. destruct Hr2 as (_ & Hend2 & _).
    split; [apply Hext2|intros _; congruence].
Qed.

Lemma Reader_Read_position (source : Source S) (fuel : nat) (p : list byte)
    (r r' : Reader) (st st' : World E S)
    (res : Z * list byte * option error) :
  Reader_Read z source fuel p r st = Done (r', st', res) ->
  extends (position_checked z (len (readBuffer_mem r'))) (calls st)
    (calls st').
Proof.
  unfold Reader_Read. intros H.
  assert (Hzero : forall cap c,
            0 <= cap -> read_position z 0 c -> position_checked z cap c).
  { intros cap c Hcap Hc. destruct c; try exact I; [contradiction|].
    intros Hok. destruct (Hc Hok) as [Hrange Hpos].
    assert (H0 : to_int (out_pos r0) = 0) by (destruct Hpos; assumption).
    rewrite to_int_nonneg in H0 by lia. lia. }
  destruct (r_pos r <? r_end r).
  { destruct res as [[n p'] err].
    apply r_serve_spec in H as (-> & _). apply extends_refl. }
  destruct (r_streamEnded r).
  { injection H as <- <- <-. apply extends_refl. }
  destruct (Read_loop z source fuel _ st) as [[[r1 st1] res1]| |] eqn:Hloop;
    try discriminate.
  apply Read_loop_position in Hloop as [Hext Hnone].
  destruct res1 as [[n err]|].
  - injection H as <- <- <-.
    eapply extends_weaken; [|exact Hext].
    intros c. apply Hzero, len_nonneg.
  - destruct (Z.eqb_spec (r_end r1) 0) as [He|He].
    + assert (Hst : r' = r1 /\ st' = st1)
        by (destruct (r_streamEnded r1); injection H as <- <- <-; auto).
      destruct Hst as [-> ->]. rewrite He in Hext.
      eapply extends_weaken; [|exact Hext].
      intros c. apply Hzero, len_nonneg.
    + unfold r_serve in H.
      destruct (slice (readBuffer_mem r1) (r_pos r1) (r_end r1))
        as [staged|] eqn:Hslice; [|discriminate].
      apply slice_bounds in Hslice.
      destruct (copy p staged) as [k q]. injection H as <- <- <-.
      change (readBuffer_mem (set_r_pos (r_pos r1 + k) r1))
        with (readBuffer_mem r1).
      eapply extends_weaken; [|exact Hext].
      intros c Hc. destruct c; try exact I; [contradiction|].
      intros Hok. destruct (Hc Hok) as [Hrange Hpos].
      assert (H0 : 0 <= to_int (out_pos r0) <= len (readBuffer_mem r1))
        by (destruct Hpos as [-> | ->]; lia).
      rewrite to_int_nonneg in H0 by lia. lia.
Qed.
End OutputCursor.

(** C9, as the code has it.  Every native step made by [Write], [Flush],
    [Close] and [Read] is handed an output cursor whose position is 0 and
    whose capacity is the whole staging buffer.  The adapters never
    compare the position the step leaves with that capacity.  When the
    step reports no fault, its output is sliced out of the staging buffer
    and the slice expression panics on a position past the buffer: so,
    whenever the method returns, every step that reported no fault has
    left a position inside the buffer.  The position of a step that
    reports a fault is stored as it is.  Only with an engine that keeps
    its position inside the region it is given does every step leave a
    position inside the buffer. *)
Theorem output_cursor_reset_and_bounded (E S1 S2 : Type) (z : Zstd E)
    (sink : Sink S1) (source : Source S2) :
  (forall fuel p w w' st st' res,
     Writer_Write z sink fuel p w st = Done (w', st', res) ->
     extends (cursor_checked z (len (w_buffer w))) (calls st) (calls st') /\
     (respects_capacity z ->
      extends (cursor_ok (len (w_buffer w))) (calls st) (calls st'))) /\
  (forall fuel w w' st st' res,
     Writer_Flush z sink fuel w st = Done (w', st', res) ->
     extends (cursor_checked z (len (w_buffer w))) (calls st) (calls st') /\
     (respects_capacity z ->
      extends (cursor_ok (len (w_buffer w))) (calls st) (calls st'))) /\
  (forall fuel w w' st st' res,
     Writer_Close z sink fuel w st = Done (w', st', res) ->
     extends (cursor_checked z (len (w_buffer w))) (calls st) (calls st') /\
     (respects_capacity z ->
      extends (cursor_ok (len (w_buffer w))) (calls st) (calls st'))) /\
  (forall fuel p r r' st st' res,
     Reader_Read z source fuel p r st = Done (r', st', res) ->
     extends (cursor_checked z (len (readBuffer_mem r'))) (calls st)
       (calls st') /\
     (respects_capacity z ->
      extends (cursor_ok (len (readBuffer_mem r'))) (calls st)
        (calls st'))).
Proof.
  split; [|split; [|split]].
  - intros fuel p w w' st st' res H. split.
    + apply extends_both.
      * eapply (Writer_Write_shape z cursor_reset);
          eauto using cursor_reset_other, writer_call_reset,
            reader_call_reset.
      * eapply Writer_Write_position; exact H.
    + intros Hcap.
      eapply (Writer_Write_shape z cursor_ok);
        eauto using cursor_ok_other, writer_call_cursor,
          reader_call_cursor.
  - intros fuel w w' st st' res H. split.
    + apply extends_both.
      * eapply (Writer_Flush_shape z cursor_reset);
          eauto using cursor_reset_other, writer_call_reset,
            reader_call_reset.
      * eapply Writer_Flush_position; exact H.
    + intros Hcap.
      eapply (Writer_Flush_shape z cursor_ok);
        eauto using cursor_ok_other, writer_call_cursor,
          reader_call_cursor.
  - intros fuel w w' st st' res H. split.
    + apply extends_both.
      * eapply (Writer_Close_shape z cursor_reset);
          eauto using cursor_reset_other, writer_call_reset,
            reader_call_reset.
      * eapply Writer_Close_position; exact H.
    + intros Hcap.
      eapply (Writer_Close_shape z cursor_ok);
        eauto using cursor_ok_other, writer_call_cursor,
          reader_call_cursor.
  - intros fuel p r r' st st' res H. split.
    + apply extends_both.
      * eapply (Reader_Read_shape z cursor_reset);
          eauto using cursor_reset_other, writer_call_reset,
            reader_call_reset.
      * eapply Reader_Read_position; exact H.
    + intros Hcap.
      eapply (Reader_Read_shape z cursor_ok);
        eauto using cursor_ok_other, writer_call_cursor,
          reader_call_cursor.
Qed.

(** The reference engine never writes past the region it is given. *)
Lemma toy_respects_capacity : respects_capacity toy.
Proof.
  split.
  - intros h o i op e Hpos Hsz. cbn [toy compressStream2].
    unfold toy_compressStream2. cbn [fst out_pos].
    match goal with |- context [Z.min _ (len ?q)] =>
      pose proof (len_nonneg _ q)
    end. lia.
  - intros h o i e Hpos Hsz. cbn [toy decompressStream].
    unfold toy_decompressStream.
    destruct (toy_decode (d_mode e) (unread i)) as [[n out] m].
    destruct m; cbn [fst out_pos]; try lia;
      match goal with |- context [Z.min _ (len ?q)] =>
        pose proof (len_nonneg _ q)
      end; lia.
Qed.

(** The four operations on the reference engine, and a [Write] on an
    engine whose one step faults with a position past the buffer. *)
Lemma output_cursor_reset_and_bounded_witness :
  exists w1 st1 w2 st2 w3 st3 r4 st4 res w5 st5,
    Writer_Write toy buffer_sink 5 [x61; x62; x63] small_writer
      (toy_world []) = Done (w1, st1, (3, None)) /\
    Writer_Flush toy buffer_sink 5 w1 st1 = Done (w2, st2, None) /\
    Writer_Close toy buffer_sink 5 w2 st2 = Done (w3, st3, None) /\
    Reader_Read toy buffer_source 5 (make 2) small_reader
      (toy_world (stream_io st3)) = Done (r4, st4, res) /\
    Writer_Write (scripted overrun_step) (errorWriter (io_error 5)) 3 [x61]
      small_writer (world0 [] tt) =
      Done (w5, st5, (0, Some (Errorf "compression error: fake"))) /\
    extends (cursor_ok 4) (calls (toy_world [])) (calls st1) /\
    extends (cursor_ok 4) (calls st1) (calls st2) /\
    extends (cursor_ok 4) (calls st2) (calls st3) /\
    extends (cursor_ok 4) (calls (toy_world (stream_io st3))) (calls st4) /\
    extends (cursor_checked (scripted overrun_step) 4) [] (calls st5).
Proof.
  do 11 eexists.
  run_and_keep Hw1. run_and_keep Hw2. run_and_keep Hw3. run_and_keep Hr4.
  run_and_keep Hw5.
  pose proof (output_cursor_reset_and_bounded _ _ _ toy buffer_sink
                buffer_source) as (H1 & H2 & H3 & H4).
  pose proof (output_cursor_reset_and_bounded _ _ unit
                (scripted overrun_step) (errorWriter (io_error 5))
                (errorReader (io_error 5))) as (H5 & _).
  split; [exact (proj2 (H1 _ _ _ _ _ _ _ Hw1) toy_respects_capacity)|].
  split; [exact (proj2 (H2 _ _ _ _ _ _ Hw2) toy_respects_capacity)|].
  split; [exact (proj2 (H3 _ _ _ _ _ _ Hw3) toy_respects_capacity)|].
  split; [exact (proj2 (H4 _ _ _ _ _ _ _ Hr4) toy_respects_capacity)|].
  exact (proj1 (H5 _ _ _ _ _ _ _ Hw5)).
Defined.

(** C9 as stated fails: a step that reports a fault may leave any
    position, and the adapters store it unchecked.  Here the staging
    buffers hold four bytes and the faulting step leaves the position 5:
    [Write] and [Read] return their error with that position in the
    output cursor. *)
Lemma position_past_capacity_after_fault :
  match
    Writer_Write (scripted overrun_step) (errorWriter (io_error 5)) 3 [x61]
      small_writer (world0 [] tt)
  with
  | Done (w1, st1, (n, err)) =>
      err = Some (Errorf "compression error: fake") /\
      len (w_buffer w1) = 4 /\ oSize (w_outBuffer w1) = 4 /\
      oPos (w_outBuffer w1) = 5 /\
      last_cstep (calls st1) = Some overrun_step
  | _ => False
  end /\
  match
    Reader_Read (scripted overrun_step) buffer_source 3 (make 2) small_reader
      (world0 [] [x61])
  with
  | Done (r1, st1, (n, _, err)) =>
      err = Some (Errorf "zstd decompression error: fake") /\
      len (readBuffer_mem r1) = 4 /\ oSize (r_outBuffer r1) = 4 /\
      oPos (r_outBuffer r1) = 5 /\
      In (call_decompressStream 2 (mkOut (address_of (make 4)) 4 0)
            (mkIn (address_of (x61 :: make 3)) 1 0) overrun_step)
         (calls st1)
  | _ => False
  end.
Proof. vm_compute. repeat split. auto 10. Qed.

(** ** C3: the count returned by Write *)

(** C3, as the code has it.  For a non-empty slice, a [Write] that reports
    no error returns the length of the slice, the input cursor of the
    engine having reached the end of that slice.  A [Write] that reports an
    error returns 0 when the session could not be created, and otherwise
    the input cursor as the last step left it: the number of input bytes
    the engine has taken so far, the step whose output the sink refused
    included.  What the sink accepted plays no part in the count. *)
Theorem write_returns_input_cursor (E S : Type) (z : Zstd E) (sink : Sink S)
    (fuel : nat) (p : list byte) (w w' : Writer) (st st' : World E S)
    (n : Z) (err : option error) :
  len p <> 0 ->
  Writer_Write z sink fuel p w st = Done (w', st', (n, err)) ->
  (err = None ->
   n = len p /\
   Src (w_inBuffer w') = address_of p /\
   iSize (w_inBuffer w') = u64 (len p) /\
   iSize (w_inBuffer w') <= iPos (w_inBuffer w')) /\
  (err <> None ->
   (w_stream w' = 0 /\ n = 0 /\
    err = Some (Errorf "failed to create compression stream")) \/
   (exists r,
      last_cstep (calls st') = Some r /\
      n = to_int (in_pos r) /\ iPos (w_inBuffer w') = in_pos r)).
Proof.
  intros Hp H. unfold Writer_Write in H.
  apply Z.eqb_neq in Hp. rewrite Hp in H.
  assert (Hloop : forall w1 (st1 : World E S),
    Write_loop z sink fuel (len p)
      (set_w_inBuffer (mkIn (address_of p) (u64 (len p)) 0) w1) st1 =
      Done (w', st', (n, err)) ->
    (err = None ->
     n = len p /\ Src (w_inBuffer w') = address_of p /\
     iSize (w_inBuffer w') = u64 (len p) /\
     iSize (w_inBuffer w') <= iPos (w_inBuffer w')) /\
    (err <> None ->
     exists r,
       last_cstep (calls st') = Some r /\
       n = to_int (in_pos r) /\ iPos (w_inBuffer w') = in_pos r)).
  { intros w1 st1 Hw.
    apply Write_loop_result in Hw as (Hsrc & Hsz & Hok & Hko).
    cbn in Hsrc, Hsz. split; [|exact Hko].
    intros He. destruct (Hok He) as [Hn Hpos]. auto. }
  destruct (w_stream w =? 0) eqn:Hs.
  - unfold do_create in H. destruct (createCStream z (engine st)) as [h e].
    cbn [w_stream set_w_stream] in H. destruct (h =? 0) eqn:Hh.
    + injection H as <- <- <- <-. split; [discriminate|].
      intros _. left. apply Z.eqb_eq in Hh. auto.
    + apply Hloop in H as [Hok Hko]. split; [exact Hok|]. auto.
  - rewrite Hs in H. apply Hloop in H as [Hok Hko]. split; [exact Hok|]. auto.
Qed.

(** A successful and a failing [Write] on the reference engine. *)
Lemma write_returns_input_cursor_witness :
  exists w1 st1 w2 st2 n err,
    Writer_Write toy buffer_sink 5 [x61; x62; x63] small_writer
      (toy_world []) = Done (w1, st1, (3, None)) /\
    iPos (w_inBuffer w1) = 3 /\
    Writer_Write toy (errorWriter (io_error 5)) 5 [x61; x62; x63]
      small_writer (world0 toy0 tt) = Done (w2, st2, (n, err)) /\
    err = Some (io_error 5) /\
    exists r, last_cstep (calls st2) = Some r /\ n = to_int (in_pos r).
Proof.
  assert (Hp : len [x61; x62; x63] <> 0) by discriminate.
  do 6 eexists.
  run_and_keep Hw1.
  split; [reflexivity|].
  run_and_keep Hw2.
  split; [reflexivity|].
  pose proof (write_returns_input_cursor _ _ toy (errorWriter (io_error 5))
                _ _ _ _ _ _ _ _ Hp Hw2) as [_ Hko].
  destruct (Hko ltac:(discriminate)) as [(Hs & _) | (r & Hl & Hn & _)].
  - discriminate Hs.
  - exists r. auto.
Defined.

(** C3 as stated fails: the engine takes the three input bytes and emits
    one output byte, the sink accepts nothing and fails; [Write] returns
    3, the length of the input, although no byte was forwarded. *)
Lemma write_count_ignores_sink :
  match
    Writer_Write (scripted greedy_step) (errorWriter (io_error 5)) 3
      [x61; x62; x63] small_writer (world0 [] tt)
  with
  | Done (_, st1, (n, err)) =>
      n = 3 /\ err = Some (io_error 5) /\
      calls st1 =
        [sink_Write [x2a] 0 (Some (io_error 5));
         call_isError 1 0;
         call_compressStream2 2 (mkOut (address_of (make 4)) 4 0)
           (mkIn (address_of [x61; x62; x63]) 3 0) EndContinue greedy_step;
         call_createCStream 2]
  | _ => False
  end.
Proof. vm_compute. repeat split. Qed.

(** ** C4: an engine that makes no progress *)

Lemma stepped_mem_nonempty (res : StepResult) (o : ZstdOutBuffer) (n : Z)
    (r : Reader) :
  readBuffer_mem r <> [] ->
  readBuffer_mem (set_r_end n (r_after_step res (set_r_outBuffer o r))) <> [].
Proof.
  intros H Hnil. apply H. apply (f_equal (@List.length byte)) in Hnil.
  unfold readBuffer_mem in Hnil at 1. cbn in Hnil.
  rewrite overwrite_length in Hnil.
  change (List.length (readBuffer_mem r) = 0%nat) in Hnil.
  destruct (readBuffer_mem r); [reflexivity|discriminate].
Qed.

Section Stall.
Context {E S : Type}.
Variable z : Zstd E.
Variable source : Source S.
Variable I : E -> Prop.
Hypothesis Hstall : stalls z I.

(** With input that the engine does not take, the loop of [Read] steps the
    engine again and again: whatever the fuel, it is still running. *)
Lemma Read_loop_stalls (fuel : nat) :
  forall r st,
    I (engine st) ->
    r_stream r <> 0 -> readBuffer_mem r <> [] ->
    0 <= iPos (r_inBuffer r) < iSize (r_inBuffer r) ->
    iSize (r_inBuffer r) <= 2 ^ 64 ->
    r_end r = 0 -> r_streamEnded r = false ->
    Read_loop z source fuel r st = OutOfFuel.
Proof.
  induction fuel as [|fuel IH]; intros r st HI Hs Hmem Hin Hsz He Hended;
    cbn [Read_loop]; rewrite He, Hended; cbn [Z.eqb negb andb];
    [reflexivity|].
  apply Z.eqb_neq in Hs. rewrite (r_init_stream_live z r st Hs).
  unfold r_refill.
  assert (Hle : (iSize (r_inBuffer r) <=? iPos (r_inBuffer r)) = false)
    by (apply Z.leb_nle; lia).
  rewrite Hle. destruct (readBuffer_mem r) as [|b0 mem0] eqn:Hm;
    [congruence|]. rewrite <- Hm.
  unfold do_decompressStream, do_isError.
  destruct (decompressStream z _ _ _ (engine st)) as [sr e] eqn:Hstep.
  match type of Hstep with decompressStream z ?h ?o ?i _ = _ =>
    pose proof (Hstall h o i (engine st) HI eq_refl) as Hst end.
  cbn [r_inBuffer set_r_outBuffer] in Hst.
  specialize (Hst ltac:(lia)). cbv zeta in Hst.
  cbn [r_stream r_outBuffer r_inBuffer set_r_outBuffer] in Hstep, Hst.
  rewrite Hstep in Hst. cbn [fst snd] in Hst.
  destruct Hst as (HI' & Herr & Hhint & Hout & Hpos).
  cbn [hint as_uint64]. rewrite Herr. cbn [Z.eqb negb].
  apply Z.eqb_neq in Hhint. rewrite Hhint.
  cbn [r_end set_r_end r_after_step r_outBuffer oPos out_pos as_uint64].
  rewrite Hout. change (0 <? to_int 0) with false. cbv iota.
  apply IH.
  - exact HI'.
  - cbn. now apply Z.eqb_neq.
  - apply stepped_mem_nonempty. congruence.
  - cbn. rewrite Hpos. lia.
  - cbn. exact Hsz.
  - reflexivity.
  - cbn. exact Hended.
Qed.
End Stall.

(** C4, as the code has it.  [Read] has no progress-stall fault.  Against
    an engine that stalls for ever, a Reader that holds a session and input
    the engine has not taken, with nothing staged, does not return: its
    loop steps the engine without bound. *)
Theorem read_does_not_detect_stall (E S : Type) (z : Zstd E)
    (source : Source S) (I : E -> Prop) (fuel : nat) (p : list byte)
    (r : Reader) (st : World E S) :
  stalls z I -> I (engine st) ->
  r_stream r <> 0 -> readBuffer_mem r <> [] ->
  0 <= iPos (r_inBuffer r) < iSize (r_inBuffer r) ->
  iSize (r_inBuffer r) <= 2 ^ 64 ->
  r_end r <= r_pos r -> r_streamEnded r = false ->
  Reader_Read z source fuel p r st = OutOfFuel.
Proof.
  intros Hstall HI Hs Hmem Hin Hsz Hpos Hended. unfold Reader_Read.
  apply Z.ltb_ge in Hpos. rewrite Hpos, Hended.
  rewrite (Read_loop_stalls z source I Hstall); auto.
Qed.

Lemma stalling_stalls : stalls stalling (fun _ => True).
Proof.
  intros h o i e _ Ho Hi. cbn. rewrite Ho.
  repeat split; try discriminate. now apply u64_small.
Qed.

(** A Reader of the stalling engine, in the middle of a stream. *)
Lemma read_does_not_detect_stall_witness :
  Reader_Read stalling buffer_source 1000 (make 2) waiting_reader
    waiting_world = OutOfFuel.
Proof.
  apply (read_does_not_detect_stall _ _ stalling buffer_source
           (fun _ => True) 1000 (make 2) waiting_reader waiting_world
           stalling_stalls I).
  - discriminate.
  - discriminate.
  - cbn. lia.
  - cbn. lia.
  - cbn. lia.
  - reflexivity.
Defined.

(** C4 as stated fails: a fresh Reader whose source delivers one byte,
    against the stalling engine, is still in its loop whatever the number
    of iterations allowed; no fault is raised. *)
Lemma stalled_read_never_returns :
  never_returns
    (fun fuel =>
       Reader_Read stalling buffer_source fuel (make 2) small_reader
         (world0 tt [x61])).
Proof.
  intros [|fuel]; [reflexivity|].
  assert (Hloop : Read_loop stalling buffer_source (Datatypes.S fuel)
                    (set_r_end 0 (set_r_pos 0 small_reader))
                    (world0 tt [x61]) =
                  Read_loop stalling buffer_source fuel waiting_reader
                    waiting_world) by reflexivity.
  unfold Reader_Read.
  change (r_pos small_reader <? r_end small_reader) with false.
  change (r_streamEnded small_reader) with false. cbv iota.
  rewrite Hloop.
  rewrite (Read_loop_stalls stalling buffer_source (fun _ => True)
             stalling_stalls); try reflexivity; try exact I;
    try discriminate; cbn; lia.
Qed.

(** ** C6: zero bytes, and the end of the stream *)

(** C6, as the code has it.  With a non-empty destination, [Read] returns
    zero bytes with neither error nor end-of-stream only when its most
    recent call is a read from the source that delivered zero bytes without
    error.  With an empty destination [Read] always returns zero bytes,
    and it does so without error exactly when bytes are staged as it
    returns, whether they were staged before or have just been
    decompressed, or else only when the source has just delivered zero
    bytes without error.  End-of-stream comes with zero bytes and a Reader
    marked as ended, and a Reader is marked as ended only when a
    decompression step has returned the hint 0 or a fault.  A [Read] that
    reports a fault of the engine leaves the Reader marked as ended with
    nothing staged: every [Read] that follows reports end-of-stream,
    without any call. *)
Theorem read_zero_bytes_and_eof (E S : Type) (z : Zstd E)
    (source : Source S) (fuel : nat) (p : list byte) (r r' : Reader)
    (st st' : World E S) (n : Z) (p' : list byte) (err : option error) :
  ended_for_cause z r (calls st) ->
  Reader_Read z source fuel p r st = Done (r', st', (n, p', err)) ->
  (0 < len p -> n = 0 -> err = None ->
   exists cap older, calls st' = source_Read cap 0 None :: older) /\
  (len p = 0 ->
   n = 0 /\
   (err = None ->
    r_pos r' < r_end r' \/
    exists cap older, calls st' = source_Read cap 0 None :: older)) /\
  (r_pos r' < r_end r' -> err = None) /\
  (err = Some io_EOF ->
   n = 0 /\ r_streamEnded r' = true /\ frame_ended z (calls st')) /\
  ended_for_cause z r' (calls st') /\
  (forall code c older,
     err <> None -> err <> Some io_EOF ->
     calls st' = call_getErrorName code :: call_isError code c :: older ->
     c <> 0 /\
     err = Some (Errorf ("zstd decompression error: " ++
                         getErrorName z code)) /\
     r_streamEnded r' = true /\
     forall fuel2 p2,
       Reader_Read z source fuel2 p2 r' st' =
         Done (r', st', (0, p2, Some io_EOF))).
Proof.
  intros Hcause H.
  pose proof H as Hspec.
  apply Reader_Read_spec in Hspec as (_ & _ & Hc & Hzero & Heof & _).
  specialize (Hc Hcause).
  split; [exact Hzero|].
  assert (Hrest :
    (len p = 0 ->
     n = 0 /\
     (err = None ->
      r_pos r' < r_end r' \/
      exists cap older, calls st' = source_Read cap 0 None :: older)) /\
    (r_pos r' < r_end r' -> err = None) /\
    (forall code c older,
       err <> None -> err <> Some io_EOF ->
       calls st' = call_getErrorName code :: call_isError code c :: older ->
       c <> 0 /\
       err = Some (Errorf ("zstd decompression error: " ++
                           getErrorName z code)) /\
       r_streamEnded r' = true /\
       forall fuel2 p2,
         Reader_Read z source fuel2 p2 r' st' =
           Done (r', st', (0, p2, Some io_EOF)))).
  { unfold Reader_Read in H.
    destruct (Z.ltb_spec (r_pos r) (r_end r)) as [Hlt|Hge].
    { (* staged bytes are served *)
      apply r_serve_spec in H
        as (-> & -> & _ & _ & _ & _ & He & Hp & Hn & Hrange).
      split; [|split].
      - intros Hp0. assert (Hn0 : n = 0) by lia.
        split; [exact Hn0|]. intros _. left. lia.
      - reflexivity.
      - intros code c older Hne. now contradiction Hne. }
    destruct (r_streamEnded r) eqn:Hended.
    { injection H as <- <- <- <- <-.
      split; [|split].
      - intros _. split; [reflexivity|discriminate].
      - intros Hlt. lia.
      - intros code c older _ Hne. now contradiction Hne. }
    destruct (Read_loop z source fuel _ st) as [[[r1 st1] res]| |] eqn:Hloop;
      try discriminate.
    pose proof (Read_loop_position z source fuel _ _ _ _ _ Hloop)
      as [_ Hend1].
    pose proof (Read_loop_any z source fuel _ _ _ _ _ Hloop)
      as (_ & Hpos1 & _ & Hbreak & Hret & _).
    cbn [r_pos set_r_end set_r_pos] in Hpos1.
    destruct res as [[n0 err0]|].
    - (* the loop returned an error *)
      injection H as <- <- <- <- <-.
      specialize (Hend1 ltac:(discriminate)).
      destruct (Hret n0 err0 eq_refl) as (-> & Hsome & Hneof).
      split; [|split].
      + intros _. split; [reflexivity|]. intros ->. contradiction.
      + intros Hlt. lia.
      + intros code c older _ _ Hcalls.
        destruct err0 as [e0|]; [|contradiction].
        apply Read_loop_error in Hloop
          as [(_ & _ & older' & Hcalls')|
              [(code' & c' & older' & He & Hc' & Hended' & Hcalls')|
               (cap & k & older' & _ & _ & Hcalls' & _)]];
          [exfalso; congruence| |exfalso; congruence].
        assert (Heq : code' = code /\ c' = c) by (split; congruence).
        destruct Heq as [-> ->].
        split; [exact Hc'|]. split; [now rewrite He|].
        split; [exact Hended'|].
        intros fuel2 p2. unfold Reader_Read.
        destruct (Z.ltb_spec (r_pos r1) (r_end r1)); [lia|].
        now rewrite Hended'.
    - destruct (Z.eqb_spec (r_end r1) 0) as [He|He].
      + destruct (r_streamEnded r1) eqn:Hended1;
          injection H as <- <- <- <- <-.
        * split; [|split].
          -- intros _. split; [reflexivity|discriminate].
          -- intros Hlt. lia.
          -- intros code c older _ Hne. now contradiction Hne.
        * split; [|split].
          -- intros _. split; [reflexivity|]. intros _. right.
             exact (Hbreak eq_refl He eq_refl).
          -- intros Hlt. lia.
          -- intros code c older Hne. now contradiction Hne.
      + apply r_serve_spec in H
          as (-> & -> & _ & _ & _ & _ & He' & Hp & Hn & Hrange).
        split; [|split].
        * intros Hp0. assert (Hn0 : n = 0) by lia.
          split; [exact Hn0|]. intros _. left. lia.
        * reflexivity.
        * intros code c older Hne. now contradiction Hne. }
  destruct Hrest as (Hempty & Hstaged & Hfault).
  split; [exact Hempty|]. split; [exact Hstaged|].
  split; [|split; [exact Hc|exact Hfault]].
  intros He. destruct (Heof He) as [Hn Hended]. auto.
Qed.

(** A source with nothing to deliver yet; an empty destination in front
    of a frame; a frame read to its end; and an engine that faults, read
    once more after the fault. *)
Lemma read_zero_bytes_and_eof_witness :
  (exists r' st' p',
     Reader_Read toy idle_source 3 (make 2) small_reader (world0 toy0 tt) =
       Done (r', st', (0, p', None)) /\
     exists cap older, calls st' = source_Read cap 0 None :: older) /\
  (exists r' st' n p' err,
     Reader_Read toy buffer_source 3 [] small_reader
       (toy_world (toy_frame [x61])) = Done (r', st', (n, p', err)) /\
     n = 0 /\ err = None /\ r_pos r' < r_end r') /\
  (exists r1 st1 res1 r2 st2 p2,
     Reader_Read toy buffer_source 3 (make 2) small_reader
       (toy_world (toy_frame [x61])) = Done (r1, st1, res1) /\
     Reader_Read toy buffer_source 3 (make 2) r1 st1 =
       Done (r2, st2, (0, p2, Some io_EOF)) /\
     frame_ended toy (calls st2)) /\
  (exists r1 st1,
     Reader_Read (scripted fault_step) buffer_source 3 (make 2) small_reader
       (world0 [] [x61]) =
       Done (r1, st1,
             (0, make 2, Some (Errorf "zstd decompression error: fake"))) /\
     r_streamEnded r1 = true /\
     Reader_Read (scripted fault_step) buffer_source 3 (make 2) r1 st1 =
       Done (r1, st1, (0, make 2, Some io_EOF))).
Proof.
  assert (Hc : forall E S (z : Zstd E) (st : World E S),
             ended_for_cause z small_reader (calls st))
    by (intros E S z st Hended; discriminate Hended).
  split; [|split; [|split]].
  - do 3 eexists. run_and_keep H1.
    exact (proj1 (read_zero_bytes_and_eof _ _ toy idle_source _ _ _ _ _ _
                    _ _ _ (Hc _ _ _ _) H1) eq_refl eq_refl eq_refl).
  - do 5 eexists. run_and_keep H1.
    pose proof (read_zero_bytes_and_eof _ _ toy buffer_source _ _ _ _ _ _
                  _ _ _ (Hc _ _ _ _) H1) as (_ & Hempty & _).
    destruct (Hempty eq_refl) as [Hn _].
    split; [exact Hn|]. split; [reflexivity|]. vm_compute. reflexivity.
  - do 6 eexists. run_and_keep H1. run_and_keep H2.
    pose proof (read_zero_bytes_and_eof _ _ toy buffer_source _ _ _ _ _ _
                  _ _ _ (Hc _ _ _ _) H1) as (_ & _ & _ & _ & Hc1 & _).
    pose proof (read_zero_bytes_and_eof _ _ toy buffer_source _ _ _ _ _ _
                  _ _ _ Hc1 H2) as (_ & _ & _ & Heof & _).
    exact (proj2 (proj2 (Heof eq_refl))).
  - do 2 eexists. run_and_keep H1.
    pose proof (read_zero_bytes_and_eof _ _ (scripted fault_step)
                  buffer_source _ _ _ _ _ _ _ _ _ (Hc _ _ _ _) H1)
      as (_ & _ & _ & _ & _ & Hfault).
    destruct (Hfault fake_error_code 1 _ ltac:(discriminate)
                ltac:(discriminate) eq_refl) as (_ & _ & Hended & Hnext).
    split; [exact Hended|exact (Hnext 3%nat (make 2))].
Defined.

(** C6 as stated fails, twice.  With an empty destination [Read] returns
    zero bytes, no error and no end-of-stream although the source has just
    delivered three bytes.  And after a codec fault the next [Read]
    reports end-of-stream although no step ever returned the hint 0. *)
Lemma read_zero_without_idle_source_and_eof_after_fault :
  match
    Reader_Read toy buffer_source 3 [] small_reader
      (toy_world (toy_frame [x61]))
  with
  | Done (_, st1, (n, _, err)) =>
      n = 0 /\ err = None /\ no_empty_source_read (calls st1) = true /\
      In (source_Read 4 3 None) (calls st1)
  | _ => False
  end /\
  match
    Reader_Read (scripted fault_step) buffer_source 3 (make 2) small_reader
      (world0 [] [x61])
  with
  | Done (r1, st1, (_, _, err1)) =>
      err1 = Some (Errorf "zstd decompression error: fake") /\
      match Reader_Read (scripted fault_step) buffer_source 3 (make 2) r1 st1
      with
      | Done (_, st2, (n2, _, err2)) =>
          n2 = 0 /\ err2 = Some io_EOF /\
          no_frame_completion (calls st2) = true
      | _ => False
      end
  | _ => False
  end.
Proof. vm_compute. repeat split. auto 10. Qed.

(** * Round trips under the codec contracts *)

(** ** Lists and cursors *)

Lemma firstn_overwrite (dst src : list byte) :
  (List.length src <= List.length dst)%nat ->
  firstn (List.length src) (overwrite dst src) = src.
Proof.
  intros H. unfold overwrite. rewrite firstn_firstn, Nat.min_l by exact H.
  rewrite firstn_app, Nat.sub_diag, firstn_all. cbn. apply app_nil_r.
Qed.

Lemma slice_overwrite (dst src : list byte) :
  len src <= len dst -> slice (overwrite dst src) 0 (len src) = Some src.
Proof.
  intros H. unfold slice. rewrite len_overwrite.
  pose proof (len_nonneg _ src) as H0.
  destruct (Z.leb_spec 0 0); [|lia].
  destruct (Z.leb_spec 0 (len src)); [|lia].
  destruct (Z.leb_spec (len src) (len dst)); [|lia].
  cbn [andb]. f_equal. rewrite Z.sub_0_r. unfold len in *.
  rewrite Nat2Z.id. cbn [Z.to_nat skipn]. apply firstn_overwrite. lia.
Qed.

Lemma as_uint64_id (r : StepResult) :
  0 <= hint r < 2 ^ 64 -> 0 <= out_pos r < 2 ^ 64 ->
  0 <= in_pos r < 2 ^ 64 -> as_uint64 r = r.
Proof.
  intros Hh Ho Hi. destruct r as [h o i w]. unfold as_uint64. cbn in *.
  now rewrite !u64_small by assumption.
Qed.

Lemma firstn_plus (A : Type) (n m : nat) (l : list A) :
  firstn (n + m) l = firstn n l ++ firstn m (skipn n l).
Proof.
  revert l. induction n as [|n IH]; intros l; [reflexivity|].
  destruct l as [|x l]; cbn; [now rewrite firstn_nil|]. now rewrite IH.
Qed.

Lemma taken_by_slice (p : list byte) (size pos pos' : Z) :
  0 <= pos <= pos' -> pos' <= len p ->
  firstn (Z.to_nat pos) p ++ taken_by (mkIn (address_of p) size pos) pos' =
  firstn (Z.to_nat pos') p.
Proof.
  intros Hpos Hle. unfold taken_by. cbn [iPos Src region].
  replace (Z.to_nat pos') with (Z.to_nat pos + Z.to_nat (pos' - pos))%nat
    by lia.
  now rewrite firstn_plus.
Qed.

Lemma make_nonempty (n : Z) : 0 < n -> make n <> [].
Proof.
  intros H. unfold make. destruct (Z.to_nat n) eqn:Hn; [lia|discriminate].
Qed.

Lemma len_make (n : Z) : 0 <= n -> len (make n) = n.
Proof. intros H. unfold len, make. rewrite repeat_length. lia. Qed.

Lemma len_app (A : Type) (l1 l2 : list A) : len (l1 ++ l2) = len l1 + len l2.
Proof. unfold len. rewrite length_app. lia. Qed.

Lemma len_pos_nonempty (A : Type) (l : list A) : 0 < len l -> l <> [].
Proof. intros H ->. unfold len in H. cbn in H. lia. Qed.

(** ** The Writer over a buffer sink *)

Section WriterCodec.
Context {E : Type}.
Variable z : Zstd E.
Variable M : StreamModel E.
Hypothesis C : StreamCodec z M.

Lemma w_setup_out_ok (w : Writer) :
  0 < len (w_buffer w) ->
  w_setup_out w =
  Some (set_w_outBuffer
          (mkOut (address_of (w_buffer w)) (u64 (len (w_buffer w))) 0) w).
Proof.
  intros H. unfold w_setup_out.
  destruct (w_buffer w) eqn:Hb; [cbn in H; lia|reflexivity].
Qed.

Lemma w_drain_ok (r : StepResult) (w : Writer)
    (st : World E (list byte)) :
  out_pos r = len (written r) -> len (written r) <= len (w_buffer w) ->
  exists st',
    w_drain buffer_sink (w_after_step r w) st = Done (None, st') /\
    engine st' = engine st /\
    stream_io st' = stream_io st ++ written r.
Proof.
  intros Hout Hle. unfold w_drain. cbn [w_outBuffer w_after_step oPos w_buffer].
  rewrite Hout. destruct (Z.ltb_spec 0 (len (written r))).
  - rewrite slice_overwrite by exact Hle. unfold do_sink_Write, buffer_sink.
    eexists. split; [reflexivity|]. split; reflexivity.
  - exists st. split; [reflexivity|]. split; [reflexivity|].
    pose proof (len_nonneg _ (written r)).
    rewrite (len_zero_nil _ (written r)) by lia. now rewrite app_nil_r.
Qed.

(** One step of a Writer loop on an engine that keeps the contract: the
    step does not fault, its output reaches the sink, and the session
    goes on. *)
Lemma w_step_ok (w : Writer) (st : World E (list byte)) (op : Z)
    (ending : bool) (taken : list byte) :
  w_ready w -> in_cursor_ok (w_inBuffer w) ->
  cs M (engine st) (w_stream w) ending taken (stream_io st) ->
  (op = EndContinue /\ ending = false) \/
  (op = EndFlush /\ ending = false /\
   iPos (w_inBuffer w) = iSize (w_inBuffer w)) \/
  (op = EndEnd /\ iPos (w_inBuffer w) = iSize (w_inBuffer w)) ->
  exists w1 r st1 st2 st3,
    w_setup_out w = Some w1 /\
    do_compressStream2 z (w_stream w1) (w_outBuffer w1) (w_inBuffer w1) op st
      = (r, st1) /\
    do_isError z (hint r) st1 = (0, st2) /\
    w_drain buffer_sink (w_after_step r w1) st2 = Done (None, st3) /\
    w_ready (w_after_step r w1) /\
    w_same_session w (w_after_step r w1) /\
    w_inBuffer (w_after_step r w1) =
      mkIn (Src (w_inBuffer w)) (iSize (w_inBuffer w)) (in_pos r) /\
    iPos (w_inBuffer w) <= in_pos r <= iSize (w_inBuffer w) /\
    0 <= hint r < 2 ^ 64 /\
    (if (op =? EndEnd) && (hint r =? 0)
     then frame M (taken ++ taken_by (w_inBuffer w) (in_pos r))
            (stream_io st3)
     else cs M (engine st3) (w_stream w) (op =? EndEnd)
            (taken ++ taken_by (w_inBuffer w) (in_pos r)) (stream_io st3)) /\
    (op = EndContinue -> iPos (w_inBuffer w) < iSize (w_inBuffer w) ->
     iPos (w_inBuffer w) < in_pos r \/
     (backlog M (engine st3) (w_stream w) <
      backlog M (engine st) (w_stream w))%nat) /\
    (op <> EndContinue -> hint r <> 0 ->
     (backlog M (engine st3) (w_stream w) <
      backlog M (engine st) (w_stream w))%nat).
Proof.
  intros [Hbuf Hs] Hin Hcs Hop.
  rewrite (w_setup_out_ok w) by lia.
  set (o := mkOut (address_of (w_buffer w)) (u64 (len (w_buffer w))) 0).
  assert (Ho : out_cursor_ok o).
  { unfold out_cursor_ok, o. cbn. rewrite u64_small by lia. lia. }
  pose proof (@cs_step E z M C (engine st) (w_stream w) ending taken
                (stream_io st) o (w_inBuffer w) op Hcs Ho Hin Hop) as Hstep.
  cbv zeta in Hstep.
  destruct (compressStream2 z (w_stream w) o (w_inBuffer w) op (engine st))
    as [r e'] eqn:Hraw.
  cbn [fst snd] in Hstep.
  destruct Hstep as (Hh & Herr & Hpos & Hout & Hle & Hpost & Hprog & Hprog2).
  destruct Hin as (Hi0 & Hi1 & Hi2).
  assert (Hosz : oSize o = len (w_buffer w))
    by (unfold o; cbn; apply u64_small; lia).
  assert (Hid : as_uint64 r = r).
  { apply as_uint64_id; [assumption| |lia].
    rewrite Hout. pose proof (len_nonneg _ (written r)). lia. }
  set (st1 := log (call_compressStream2 (w_stream w) o (w_inBuffer w) op r)
                (with_engine e' st)).
  set (st2 := log (call_isError (hint r) 0) st1).
  destruct (w_drain_ok r (set_w_outBuffer o w) st2)
    as (st3 & Hdrain & Heng & Hio); [exact Hout|cbn; lia|].
  cbn in Heng, Hio.
  exists (set_w_outBuffer o w), r, st1, st2, st3.
  split; [reflexivity|].
  split.
  { unfold do_compressStream2.
    cbn [w_stream w_outBuffer w_inBuffer set_w_outBuffer].
    rewrite Hraw, Hid. reflexivity. }
  split; [unfold do_isError; rewrite Herr; reflexivity|].
  split; [exact Hdrain|].
  split.
  { split; cbn [w_buffer w_stream w_after_step set_w_outBuffer];
      [rewrite len_overwrite; lia|exact Hs]. }
  split.
  { unfold w_same_session.
    cbn [w_buffer w_stream w_ctx w_after_step set_w_outBuffer].
    rewrite len_overwrite. auto. }
  split; [reflexivity|].
  split; [exact Hpos|]. split; [exact Hh|].
  rewrite Heng, Hio. auto.
Qed.
(** The loop of [Write] hands the whole slice to the session. *)
Lemma Write_loop_ok (p pre : list byte) (lenp : Z) :
  len p < 2 ^ 63 ->
  forall n m w (st : World E (list byte)) pos,
    w_ready w ->
    w_inBuffer w = mkIn (address_of p) (len p) pos ->
    0 <= pos <= len p ->
    cs M (engine st) (w_stream w) false
      (pre ++ firstn (Z.to_nat pos) p) (stream_io st) ->
    Z.to_nat (len p - pos) = n ->
    backlog M (engine st) (w_stream w) = m ->
    exists fuel w' st',
      Write_loop z buffer_sink fuel lenp w st = Done (w', st', (lenp, None)) /\
      w_same_session w w' /\ w_ready w' /\
      cs M (engine st') (w_stream w) false (pre ++ p) (stream_io st').
Proof.
  intros Hp n. induction n as [n IHn] using lt_wf_ind.
  intros m. induction m as [m IHm] using lt_wf_ind.
  intros w st pos Hready Hin Hpos Hcs Hn Hm.
  destruct (Z.ltb_spec pos (len p)) as [Hlt|Hge].
  2:{ (* the slice is exhausted *)
      exists O, w, st. cbn [Write_loop]. rewrite Hin. cbn [iPos iSize].
      destruct (Z.ltb_spec pos (len p)); [lia|].
      split; [reflexivity|]. split; [apply w_same_session_refl|].
      split; [assumption|].
      assert (pos = len p) by lia. subst pos. unfold len in Hcs.
      now rewrite Nat2Z.id, firstn_all in Hcs. }
  assert (Hcur : in_cursor_ok (w_inBuffer w)).
  { rewrite Hin. unfold in_cursor_ok. cbn. lia. }
  destruct (w_step_ok w st EndContinue false _ Hready Hcur Hcs
              (or_introl (conj eq_refl eq_refl)))
    as (w1 & r & st1 & st2 & st3 & Hsetup & Hdo & Herr & Hdrain & Hready2 &
        Hsame2 & Hin2 & Hpos2 & Hh & Hpost & Hprog & _).
  rewrite Hin in Hpos2, Hin2, Hpost, Hprog. cbn [iPos iSize Src] in *.
  change (EndContinue =? EndEnd) with false in Hpost. cbn [andb] in Hpost.
  rewrite <- app_assoc, taken_by_slice in Hpost by lia.
  assert (Hs2 : w_stream (w_after_step r w1) = w_stream w) by apply Hsame2.
  assert (Hnext : exists fuel w' st',
    Write_loop z buffer_sink fuel lenp (w_after_step r w1) st3 =
      Done (w', st', (lenp, None)) /\
    w_same_session (w_after_step r w1) w' /\ w_ready w' /\
    cs M (engine st') (w_stream w) false (pre ++ p) (stream_io st')).
  { rewrite <- Hs2 in Hpost |- *.
    destruct (Z.eq_dec (in_pos r) pos) as [Heq|Hne].
    - (* nothing taken: the backlog has shrunk *)
      destruct (Hprog eq_refl Hlt) as [Hadv|Hless]; [lia|].
      rewrite Hm in Hless. rewrite <- Hs2 in Hless.
      apply (IHm _ Hless (w_after_step r w1) st3 (in_pos r));
        [assumption|assumption|lia|assumption|rewrite Heq; exact Hn|].
      reflexivity.
    - assert (Hlt2 : (Z.to_nat (len p - in_pos r) < n)%nat) by lia.
      apply (IHn _ Hlt2
               (backlog M (engine st3) (w_stream (w_after_step r w1)))
               (w_after_step r w1) st3 (in_pos r));
        [assumption|assumption|lia|assumption|reflexivity|reflexivity]. }
  destruct Hnext as (fuel & w' & st' & Hloop & Hsame' & Hready' & Hcs').
  exists (Datatypes.S fuel), w', st'.
  split; [|split; [eapply w_same_session_trans; eassumption|auto]].
  cbn [Write_loop]. rewrite Hin. cbn [iPos iSize].
  destruct (Z.ltb_spec pos (len p)); [|lia].
  rewrite Hsetup, Hdo, Herr. cbn [Z.eqb negb]. rewrite Hdrain. exact Hloop.
Qed.
Lemma taken_by_nothing (i : ZstdInBuffer) (pos' : Z) :
  pos' = iPos i -> taken_by i pos' = [].
Proof. intros ->. unfold taken_by. now rewrite Z.sub_diag. Qed.

(** The loop of [Flush] comes to its end and leaves the frame open. *)
Lemma Flush_loop_ok (taken : list byte) :
  forall m w (st : World E (list byte)),
    w_ready w ->
    w_inBuffer w = mkIn nil_pointer 0 0 ->
    cs M (engine st) (w_stream w) false taken (stream_io st) ->
    backlog M (engine st) (w_stream w) = m ->
    exists fuel w' st',
      Flush_loop z buffer_sink fuel w st = Done (w', st', None) /\
      w_same_session w w' /\ w_ready w' /\
      cs M (engine st') (w_stream w) false taken (stream_io st').
Proof.
  intros m. induction m as [m IHm] using lt_wf_ind.
  intros w st Hready Hin Hcs Hm.
  assert (Hcur : in_cursor_ok (w_inBuffer w)).
  { rewrite Hin. unfold in_cursor_ok. cbn. lia. }
  assert (Hop : (EndFlush = EndContinue /\ false = false) \/
                (EndFlush = EndFlush /\ false = false /\
                 iPos (w_inBuffer w) = iSize (w_inBuffer w)) \/
                (EndFlush = EndEnd /\
                 iPos (w_inBuffer w) = iSize (w_inBuffer w))).
  { right. left. rewrite Hin. auto. }
  destruct (w_step_ok w st EndFlush false _ Hready Hcur Hcs Hop)
    as (w1 & r & st1 & st2 & st3 & Hsetup & Hdo & Herr & Hdrain & Hready2 &
        Hsame2 & Hin2 & Hpos2 & Hh & Hpost & _ & Hprog).
  change (EndFlush =? EndEnd) with false in Hpost. cbn [andb] in Hpost.
  rewrite Hin in Hpos2, Hin2. cbn [iPos iSize Src] in Hpos2, Hin2.
  assert (Hr0 : in_pos r = 0) by lia. rewrite Hr0 in Hin2, Hpost.
  rewrite (taken_by_nothing (w_inBuffer w) 0) in Hpost by now rewrite Hin.
  rewrite app_nil_r in Hpost.
  assert (Hs2 : w_stream (w_after_step r w1) = w_stream w) by apply Hsame2.
  destruct (Z.eq_dec (hint r) 0) as [Hz|Hnz].
  - exists 1%nat, (w_after_step r w1), st3. cbn [Flush_loop].
    rewrite Hsetup, Hdo, Herr. cbn [Z.eqb negb]. rewrite Hdrain, Hz.
    cbn [Z.eqb]. auto.
  - specialize (Hprog ltac:(discriminate) Hnz).
    rewrite Hm in Hprog. rewrite <- Hs2 in Hprog, Hpost.
    destruct (IHm _ Hprog (w_after_step r w1) st3 Hready2 Hin2 Hpost eq_refl)
      as (fuel & w' & st' & Hloop & Hsame' & Hready' & Hcs').
    exists (Datatypes.S fuel), w', st'. cbn [Flush_loop].
    rewrite Hsetup, Hdo, Herr. cbn [Z.eqb negb]. rewrite Hdrain.
    apply Z.eqb_neq in Hnz. rewrite Hnz.
    split; [exact Hloop|].
    split; [eapply w_same_session_trans; eassumption|].
    split; [assumption|]. now rewrite <- Hs2.
Qed.

(** The loop of [Close] comes to its end with a complete frame in the
    sink, and releases the session. *)
Lemma Close_loop_ok (taken : list byte) :
  forall m ending w (st : World E (list byte)),
    w_ready w ->
    w_inBuffer w = mkIn nil_pointer 0 0 ->
    cs M (engine st) (w_stream w) ending taken (stream_io st) ->
    backlog M (engine st) (w_stream w) = m ->
    exists fuel w' st',
      Close_loop z buffer_sink fuel w st = Done (w', st', None) /\
      w_stream w' = 0 /\ w_ctx w' = w_ctx w /\
      frame M taken (stream_io st').
Proof.
  intros m. induction m as [m IHm] using lt_wf_ind.
  intros ending w st Hready Hin Hcs Hm.
  assert (Hcur : in_cursor_ok (w_inBuffer w)).
  { rewrite Hin. unfold in_cursor_ok. cbn. lia. }
  assert (Hop : (EndEnd = EndContinue /\ ending = false) \/
                (EndEnd = EndFlush /\ ending = false /\
                 iPos (w_inBuffer w) = iSize (w_inBuffer w)) \/
                (EndEnd = EndEnd /\
                 iPos (w_inBuffer w) = iSize (w_inBuffer w))).
  { right. right. rewrite Hin. auto. }
  destruct (w_step_ok w st EndEnd ending _ Hready Hcur Hcs Hop)
    as (w1 & r & st1 & st2 & st3 & Hsetup & Hdo & Herr & Hdrain & Hready2 &
        Hsame2 & Hin2 & Hpos2 & Hh & Hpost & _ & Hprog).
  change (EndEnd =? EndEnd) with true in Hpost. cbn [andb] in Hpost.
  rewrite Hin in Hpos2, Hin2. cbn [iPos iSize Src] in Hpos2, Hin2.
  assert (Hr0 : in_pos r = 0) by lia. rewrite Hr0 in Hin2, Hpost.
  rewrite (taken_by_nothing (w_inBuffer w) 0) in Hpost by now rewrite Hin.
  rewrite app_nil_r in Hpost.
  assert (Hs2 : w_stream (w_after_step r w1) = w_stream w) by apply Hsame2.
  destruct (Z.eq_dec (hint r) 0) as [Hz|Hnz].
  - rewrite Hz in Hpost. cbn [Z.eqb] in Hpost.
    exists 1%nat. do 2 eexists. cbn [Close_loop].
    rewrite Hsetup, Hdo, Herr. cbn [Z.eqb negb]. rewrite Hdrain, Hz.
    cbn [Z.eqb]. unfold w_free_stream.
    split; [reflexivity|]. split; [reflexivity|].
    split; [apply Hsame2|]. exact Hpost.
  - specialize (Hprog ltac:(discriminate) Hnz).
    rewrite Hm in Hprog. rewrite <- Hs2 in Hprog.
    apply Z.eqb_neq in Hnz. rewrite Hnz in Hpost. rewrite <- Hs2 in Hpost.
    destruct (IHm _ Hprog true (w_after_step r w1) st3 Hready2 Hin2 Hpost
                eq_refl)
      as (fuel & w' & st' & Hloop & Hs' & Hc' & Hframe).
    exists (Datatypes.S fuel), w', st'. cbn [Close_loop].
    rewrite Hsetup, Hdo, Herr. cbn [Z.eqb negb]. rewrite Hdrain, Hnz.
    split; [exact Hloop|]. split; [assumption|].
    split; [|assumption]. destruct Hsame2 as (_ & Hc2 & _). congruence.
Qed.
Lemma Writer_Write_open (p taken : list byte) (w : Writer)
    (st : World E (list byte)) :
  0 < len p < 2 ^ 63 -> w_ready w ->
  cs M (engine st) (w_stream w) false taken (stream_io st) ->
  exists fuel w' st',
    Writer_Write z buffer_sink fuel p w st = Done (w', st', (len p, None)) /\
    w_same_session w w' /\ w_ready w' /\
    cs M (engine st') (w_stream w') false (taken ++ p) (stream_io st').
Proof.
  intros Hp Hready Hcs.
  set (w2 := set_w_inBuffer (mkIn (address_of p) (u64 (len p)) 0) w).
  destruct (Write_loop_ok p taken (len p) ltac:(lia)
              (Z.to_nat (len p - 0)) (backlog M (engine st) (w_stream w2))
              w2 st 0 Hready)
    as (fuel & w' & st' & Hloop & Hsame & Hready' & Hcs');
    [unfold w2; cbn; now rewrite u64_small by lia|lia|
     cbn; now rewrite app_nil_r|reflexivity|reflexivity|].
  exists fuel, w', st'. unfold Writer_Write.
  destruct (Z.eqb_spec (len p) 0) as [H0|_]; [lia|].
  destruct Hready as [_ Hs]. rewrite Hs. rewrite Hs.
  split; [exact Hloop|]. split; [exact Hsame|]. split; [exact Hready'|].
  destruct Hsame as (Hs' & _). now rewrite Hs'.
Qed.

Lemma Writer_Write_first (p : list byte) (w : Writer)
    (st : World E (list byte)) :
  0 < len p < 2 ^ 63 -> 0 < len (w_buffer w) < 2 ^ 63 ->
  w_stream w = 0 -> stream_io st = [] ->
  exists fuel w' st',
    Writer_Write z buffer_sink fuel p w st = Done (w', st', (len p, None)) /\
    w_ready w' /\ w_ctx w' = w_ctx w /\
    cs M (engine st') (w_stream w') false p (stream_io st').
Proof.
  intros Hp Hbuf Hs Hio.
  destruct (cs_create C (engine st)) as [Hh Hcs].
  destruct (createCStream z (engine st)) as [h e] eqn:Hcreate.
  cbn [fst snd] in Hh, Hcs. apply Z.eqb_neq in Hh.
  set (st1 := log (call_createCStream h) (with_engine e st)).
  set (w1 := set_w_stream h w).
  set (w2 := set_w_inBuffer (mkIn (address_of p) (u64 (len p)) 0) w1).
  assert (Hready : w_ready w2) by (split; [exact Hbuf|exact Hh]).
  destruct (Write_loop_ok p [] (len p) ltac:(lia)
              (Z.to_nat (len p - 0)) (backlog M (engine st1) (w_stream w2))
              w2 st1 0 Hready)
    as (fuel & w' & st' & Hloop & Hsame & Hready' & Hcs');
    [unfold w2; cbn; now rewrite u64_small by lia|lia|
     cbn; now rewrite Hio|reflexivity|reflexivity|].
  exists fuel, w', st'. unfold Writer_Write.
  destruct (Z.eqb_spec (len p) 0) as [H0|_]; [lia|].
  rewrite Hs. change (0 =? 0) with true. cbv iota.
  unfold do_create. rewrite Hcreate. cbn [w_stream set_w_stream].
  rewrite Hh. split; [exact Hloop|]. split; [exact Hready'|].
  destruct Hsame as (Hs' & Hc' & _). split; [exact Hc'|].
  rewrite Hs'. exact Hcs'.
Qed.

Lemma Writer_Flush_ok (taken : list byte) (w : Writer)
    (st : World E (list byte)) :
  w_ready w ->
  cs M (engine st) (w_stream w) false taken (stream_io st) ->
  exists fuel w' st',
    Writer_Flush z buffer_sink fuel w st = Done (w', st', None) /\
    w_same_session w w' /\ w_ready w' /\
    cs M (engine st') (w_stream w') false taken (stream_io st').
Proof.
  intros Hready Hcs.
  destruct (Flush_loop_ok taken _ (set_w_inBuffer (mkIn nil_pointer 0 0) w)
              st Hready eq_refl Hcs eq_refl)
    as (fuel & w' & st' & Hloop & Hsame & Hready' & Hcs').
  exists fuel, w', st'. unfold Writer_Flush.
  destruct Hready as [_ Hs]. rewrite Hs.
  split; [exact Hloop|]. split; [exact Hsame|]. split; [exact Hready'|].
  destruct Hsame as (Hs' & _). now rewrite Hs'.
Qed.

Lemma Writer_Close_ok (taken : list byte) (ending : bool) (w : Writer)
    (st : World E (list byte)) :
  w_ready w ->
  cs M (engine st) (w_stream w) ending taken (stream_io st) ->
  exists fuel w' st',
    Writer_Close z buffer_sink fuel w st = Done (w', st', None) /\
    w_stream w' = 0 /\ w_ctx w' = 0 /\
    frame M taken (stream_io st').
Proof.
  intros Hready Hcs.
  destruct (Close_loop_ok taken _ ending
              (set_w_inBuffer (mkIn nil_pointer 0 0) w) st Hready eq_refl Hcs
              eq_refl)
    as (fuel & w1 & st1 & Hloop & Hs1 & Hc1 & Hframe).
  destruct (Close_deferred z w1 st1) as [w2 st2] eqn:Hdef.
  exists fuel, w2, st2. unfold Writer_Close, Close_body.
  destruct Hready as [_ Hs]. rewrite Hs, Hloop, Hdef.
  split; [reflexivity|].
  unfold Close_deferred, do_free in Hdef.
  destruct (negb (w_ctx w1 =? 0)) eqn:Hctx; injection Hdef as <- <-; cbn.
  - auto.
  - apply negb_false_iff, Z.eqb_eq in Hctx. auto.
Qed.
End WriterCodec.

(** ** The Reader over a buffer source *)

Lemma skipn_firstn_swap (A : Type) (k m : nat) (l : list A) :
  skipn k (firstn m l) = firstn (m - k) (skipn k l).
Proof.
  revert m l. induction k as [|k IH]; intros m l.
  - now rewrite Nat.sub_0_r.
  - destruct m as [|m]; [reflexivity|].
    destruct l as [|x l]; [cbn; now rewrite firstn_nil|]. cbn. apply IH.
Qed.

Lemma taken_by_length (i : ZstdInBuffer) (pos' : Z) :
  iPos i <= pos' -> 0 <= iPos i -> pos' <= len (region (Src i)) ->
  len (taken_by i pos') = pos' - iPos i.
Proof.
  intros H1 H0 H2. unfold taken_by, len in *.
  rewrite length_firstn, length_skipn. lia.
Qed.

(** What is left to feed after a step that moved the input cursor. *)
Lemma unread_after (i : ZstdInBuffer) (pos' : Z) (rest : list byte) :
  in_cursor_ok i -> iPos i <= pos' <= iSize i ->
  skipn (Z.to_nat (pos' - iPos i)) (taken_by i (iSize i) ++ rest) =
  taken_by (mkIn (Src i) (iSize i) pos') (iSize i) ++ rest.
Proof.
  intros (H0 & H1 & H2) Hpos. unfold taken_by. cbn [iPos iSize Src].
  rewrite skipn_app.
  assert (Hlen : List.length
            (firstn (Z.to_nat (iSize i - iPos i))
               (skipn (Z.to_nat (iPos i)) (region (Src i)))) =
          Z.to_nat (iSize i - iPos i)).
  { rewrite length_firstn, length_skipn. unfold len in H1. lia. }
  rewrite Hlen.
  replace (Z.to_nat (pos' - iPos i) - Z.to_nat (iSize i - iPos i))%nat
    with O by lia.
  cbn [skipn]. f_equal.
  rewrite skipn_firstn_swap, skipn_skipn. f_equal; [lia|].
  f_equal. lia.
Qed.

Section ReaderCodec.
Context {E : Type}.
Variable z : Zstd E.
Variable M : StreamModel E.
Hypothesis C : StreamCodec z M.

(** With a byte buffer as source the refill step always goes on to the
    engine: it brings compressed bytes when the input cursor is exhausted
    and the source has some, and it finds the source at its end only when
    the whole frame has been pulled. *)
Lemma r_refill_ok (r : Reader) (st : World E (list byte))
    (todo owed : list byte) :
  r_live M r st todo owed ->
  exists r2 st2,
    r_refill buffer_source r st = (refill_go r2, st2) /\
    r_live M r2 st2 todo owed /\
    (iPos (r_inBuffer r2) = iSize (r_inBuffer r2) -> todo = []) /\
    r_same_output r r2.
Proof.
  intros (Hs & Hbuf & Hmem & Hin & Htodo & Hds & Hun). unfold r_refill.
  destruct Hin as (Hi0 & Hi1 & Hi2).
  destruct (Z.leb_spec (iSize (r_inBuffer r)) (iPos (r_inBuffer r)))
    as [Hex|Hmore].
  2:{ exists r, st. split; [reflexivity|].
      split; [unfold r_live, in_cursor_ok; auto 10|].
      split; [intros Heq; lia|]. unfold r_same_output. auto 10. }
  assert (Hnone : taken_by (r_inBuffer r) (iSize (r_inBuffer r)) = [])
    by (apply taken_by_nothing; lia).
  rewrite Hnone in Htodo. cbn [app] in Htodo.
  unfold do_source_Read, buffer_source. rewrite <- Htodo.
  destruct todo as [|x s].
  - destruct (Z.eqb_spec (len (r_buffer r)) 0) as [H0|_]; [lia|].
    cbn [Z.ltb Z.compare]. cbv iota.
    eexists; eexists. split; [reflexivity|].
    split.
    { unfold r_live.
      cbn [r_stream r_buffer r_inBuffer set_r_inBuffer set_r_buffer
           readBuffer_mem r_readBuffer engine stream_io log with_io iSize
           iPos Src region].
      rewrite len_overwrite.
      split; [exact Hs|]. split; [exact Hbuf|]. split; [exact Hmem|].
      split; [unfold in_cursor_ok, len; cbn; lia|].
      split; [reflexivity|]. split; [exact Hds|exact Hun]. }
    split; [reflexivity|]. unfold r_same_output. cbn. auto 10.
  - cbv beta iota zeta.
    set (n := Z.to_nat (Z.min (len (r_buffer r)) (len (x :: s)))).
    assert (Hn : (1 <= n)%nat).
    { unfold n. assert (0 < len (x :: s)) by (unfold len; cbn; lia). lia. }
    assert (Hncap : Z.of_nat n <= len (r_buffer r)) by (unfold n; lia).
    assert (Hnlen : (n <= List.length (x :: s))%nat)
      by (unfold n, len; lia).
    destruct (Z.ltb_spec 0 (Z.of_nat n)) as [_|Hbad]; [|lia].
    set (data := firstn n (x :: s)).
    assert (Hdlen : List.length data = n)
      by (unfold data; rewrite length_firstn; lia).
    cbn [r_buffer set_r_buffer].
    destruct (overwrite (r_buffer r) data) as [|y buf'] eqn:Hov.
    { apply (f_equal (@List.length byte)) in Hov.
      rewrite overwrite_length in Hov. unfold len in Hbuf. cbn in Hov. lia. }
    rewrite <- Hov.
    eexists; eexists. split; [reflexivity|].
    split.
    { unfold r_live.
      cbn [r_stream r_buffer r_inBuffer set_r_inBuffer set_r_buffer
           readBuffer_mem r_readBuffer engine stream_io log with_io iSize
           iPos Src region].
      rewrite len_overwrite, u64_small by lia.
      split; [exact Hs|]. split; [exact Hbuf|]. split; [exact Hmem|].
      split; [unfold in_cursor_ok; cbn; rewrite len_overwrite; lia|].
      split; [|split; [exact Hds|exact Hun]].
      unfold taken_by. cbn [iPos iSize Src region Z.to_nat skipn].
      rewrite Z.sub_0_r, Nat2Z.id. rewrite <- Hdlen at 1.
      rewrite firstn_overwrite by (unfold len in Hncap; lia).
      unfold data. now rewrite firstn_skipn. }
    split.
    { cbn [r_inBuffer set_r_inBuffer iPos iSize].
      rewrite u64_small by lia. lia. }
    unfold r_same_output. cbn. auto 10.
Qed.
End ReaderCodec.

Section ReaderRoundTrip.
Context {E : Type}.
Variable z : Zstd E.
Variable M : StreamModel E.
Hypothesis C : StreamCodec z M.

Lemma Read_iter_ok (r : Reader) (st : World E (list byte))
    (todo owed : list byte) (fuel : nat) :
  r_live M r st todo owed ->
  r_pos r = 0 -> r_end r = 0 -> r_streamEnded r = false ->
  exists r' st',
    (exists g,
       Read_loop z buffer_source (Datatypes.S fuel) r st =
         Done (r', st', None) /\
       r_pos r' = 0 /\ r_end r' = len g /\ staged r' g /\
       ((r_streamEnded r' = true /\ owed = g) \/
        (r_streamEnded r' = false /\ g <> [] /\
         exists todo' owed',
           owed = g ++ owed' /\ r_live M r' st' todo' owed' /\
           (List.length todo' <= List.length todo)%nat))) \/
    (Read_loop z buffer_source (Datatypes.S fuel) r st =
       Read_loop z buffer_source fuel r' st' /\
     r_pos r' = 0 /\ r_end r' = 0 /\ r_streamEnded r' = false /\
     exists todo',
       r_live M r' st' todo' owed /\
       (List.length todo' < List.length todo)%nat).
Proof.
  intros Hlive Hpos Hend Hended.
  cbn [Read_loop]. rewrite Hend, Hended. cbn [Z.eqb andb negb].
  unfold r_init_stream.
  pose proof Hlive as (Hs & _). rewrite Hs.
  destruct (r_refill_ok M r st todo owed Hlive)
    as (r2 & st2 & Hrefill & Hlive2 & Hex & Hsame).
  rewrite Hrefill.
  destruct Hsame as (Hs2 & Hc2 & Hrb2 & Hp2 & He2 & Hse2).
  destruct Hlive2 as (Hs2' & Hbuf2 & Hmem2 & Hin2 & Htodo2 & Hds2 & Hun2).
  destruct (readBuffer_mem r2) as [|m0 mem'] eqn:Hm; [cbn in Hmem2; lia|].
  rewrite <- Hm in *.
  cbn [r_stream set_r_outBuffer r_outBuffer r_inBuffer].
  rewrite u64_small by lia.
  set (o := mkOut (address_of (readBuffer_mem r2)) (len (readBuffer_mem r2)) 0).
  assert (Hout : out_cursor_ok o) by (unfold out_cursor_ok, o; cbn; lia).
  pose proof (@ds_step E z M C (engine st2) (r_stream r2) todo owed o
                (r_inBuffer r2) (stream_io st2) Hds2 Hun2 Hout Hin2 Htodo2
                Hex)
    as Hstep.
  cbv zeta in Hstep. unfold do_decompressStream.
  destruct (decompressStream z (r_stream r2) o (r_inBuffer r2) (engine st2))
    as [res e'] eqn:Hd.
  cbn [fst snd] in Hstep.
  destruct Hstep as (Hh & Herr & Hip & Hop & Hw & owed' & Howed & Hafter).
  destruct Hin2 as (Hi0 & Hi1 & Hi2).
  pose proof (len_nonneg _ (written res)) as Hwn.
  assert (Hosz : oSize o = len (readBuffer_mem r2)) by reflexivity.
  rewrite as_uint64_id by lia.
  unfold do_isError. rewrite Herr. cbn [Z.eqb negb].
  cbn [r_after_step set_r_outBuffer r_outBuffer oPos set_r_end r_end].
  rewrite Hop, to_int_small by lia.
  set (st4 := log _ (log _ _)).
  set (r5 := set_r_end _ _).
  assert (Hstaged : staged r5 (written res)).
  { unfold staged, r5. cbn [r_pos r_end set_r_end readBuffer_mem r_readBuffer
                            r_after_step set_r_outBuffer].
    rewrite Hp2, Hpos. split; [lia|].
    destruct (Z.ltb_spec 0 (len (written res))) as [Hpos'|Hz'].
    - apply slice_overwrite. exact Hw.
    - apply len_zero_nil. lia. }
  assert (Hlive5 :
            ds M e' (r_stream r2)
              (skipn (Z.to_nat (in_pos res - iPos (r_inBuffer r2))) todo)
              owed' ->
            skipn (Z.to_nat (in_pos res - iPos (r_inBuffer r2))) todo <> [] \/
            owed' <> [] ->
            r_live M r5 st4
              (skipn (Z.to_nat (in_pos res - iPos (r_inBuffer r2))) todo)
              owed').
  { intros Hds' Hun'. unfold r_live, r5, st4.
    cbn [r_stream r_buffer r_inBuffer readBuffer_mem r_readBuffer set_r_end
         r_after_step set_r_outBuffer engine stream_io log with_engine].
    rewrite len_overwrite.
    split; [exact Hs2'|]. split; [exact Hbuf2|]. split; [exact Hmem2|].
    split; [unfold in_cursor_ok; cbn [iPos iSize Src]; lia|].
    split; [|split; [exact Hds'|exact Hun']].
    rewrite Htodo2 at 1.
    apply (unread_after (r_inBuffer r2) (in_pos res) (stream_io st2));
      [repeat split; lia|lia]. }
  assert (Hshorter : (List.length
            (skipn (Z.to_nat (in_pos res - iPos (r_inBuffer r2))) todo) <=
            List.length todo)%nat) by (rewrite length_skipn; lia).
  destruct (Z.eqb_spec (hint res) 0) as [Hh0|Hhn].
  - exists (set_r_streamEnded true r5), st4. left. exists (written res).
    split; [reflexivity|].
    split; [cbn; lia|]. split; [reflexivity|]. split; [exact Hstaged|].
    left. split; [reflexivity|]. rewrite Howed, Hafter. apply app_nil_r.
  - destruct Hafter as (Hds' & Hun' & Hprog).
    specialize (Hlive5 Hds' Hun').
    exists r5, st4. change (r_end r5) with (len (written res)).
    destruct (Z.ltb_spec 0 (len (written res))) as [Hsome|Hnone].
    + left. exists (written res). split; [reflexivity|].
      split; [cbn; lia|]. split; [reflexivity|]. split; [exact Hstaged|].
      right. split; [cbn; congruence|].
      split; [apply len_pos_nonempty; exact Hsome|].
      eexists; exists owed'. split; [exact Howed|].
      split; [exact Hlive5|exact Hshorter].
    + right. split; [reflexivity|]. split; [cbn; lia|].
      split; [cbn; lia|]. split; [cbn; congruence|].
      assert (Hw0 : written res = []) by (apply len_zero_nil; lia).
      assert (Hsame : owed = owed') by (rewrite Howed, Hw0; reflexivity).
      rewrite Hsame.
      eexists. split; [exact Hlive5|].
      specialize (Hprog Hw0).
      rewrite length_skipn.
      assert (Hlen : (Z.to_nat (iSize (r_inBuffer r2) - iPos (r_inBuffer r2))
                      <= List.length todo)%nat).
      { rewrite Htodo2, length_app.
        assert (Htl := taken_by_length (r_inBuffer r2)
                         (iSize (r_inBuffer r2)) (proj2 Hi0) (proj1 Hi0) Hi1).
        unfold len in Htl. lia. }
      lia.
Qed.

(** One call of the loop of [Read] on a live session, with one unit of
    fuel for each compressed byte still to be fed and one more: it leaves
    freshly decompressed bytes [g] staged at the start of [r.readBuffer],
    with the frame ended or with a non-empty [g]. *)
Lemma Read_loop_ok_live (F : nat) :
  forall (r : Reader) (st : World E (list byte)) (todo owed : list byte),
  r_live M r st todo owed -> (List.length todo <= F)%nat ->
  r_pos r = 0 -> r_end r = 0 -> r_streamEnded r = false ->
  exists r' st' g,
    Read_loop z buffer_source (Datatypes.S F) r st = Done (r', st', None) /\
    r_pos r' = 0 /\ r_end r' = len g /\ staged r' g /\
    ((r_streamEnded r' = true /\ owed = g) \/
     (r_streamEnded r' = false /\ g <> [] /\
      exists todo' owed',
        owed = g ++ owed' /\ r_live M r' st' todo' owed' /\
        (List.length todo' <= F)%nat)).
Proof.
  induction F as [|F IH]; intros r st todo owed Hlive Hlen Hpos Hend Hended.
  - destruct (Read_iter_ok r st todo owed O Hlive Hpos Hend Hended)
      as (r' & st' & [(g & Hrun & Hp & He & Hst & Hcase)|Hcont]).
    + exists r', st', g. repeat (split; [assumption|]).
      destruct Hcase as [Hdone|(Hgo & Hg & todo' & owed' & Ho & Hl & Hle)];
        [left; exact Hdone|right].
      split; [exact Hgo|]. split; [exact Hg|].
      exists todo', owed'. split; [exact Ho|]. split; [exact Hl|lia].
    + destruct Hcont as (_ & _ & _ & _ & todo' & _ & Hlt). lia.
  - destruct (Read_iter_ok r st todo owed (Datatypes.S F) Hlive Hpos Hend
                Hended)
      as (r' & st' & [(g & Hrun & Hp & He & Hst & Hcase)|Hcont]).
    + exists r', st', g. repeat (split; [assumption|]).
      destruct Hcase as [Hdone|(Hgo & Hg & todo' & owed' & Ho & Hl & Hle)];
        [left; exact Hdone|right].
      split; [exact Hgo|]. split; [exact Hg|].
      exists todo', owed'. split; [exact Ho|]. split; [exact Hl|lia].
    + destruct Hcont as (Hrun & Hp & He & Hse & todo' & Hl & Hlt).
      destruct (IH r' st' todo' owed Hl ltac:(lia) Hp He Hse)
        as (r'' & st'' & g & Hrun' & Hp' & He' & Hst & Hcase).
      exists r'', st'', g. rewrite Hrun. repeat (split; [assumption|]).
      destruct Hcase as [Hdone|(Hgo & Hg & todo'' & owed' & Ho & Hl' & Hle)];
        [left; exact Hdone|right].
      split; [exact Hgo|]. split; [exact Hg|].
      exists todo'', owed'. split; [exact Ho|]. split; [exact Hl'|lia].
Qed.

(** The first call of the loop: the session is created, and the read
    buffer allocated when the Reader has none. *)
Lemma Read_loop_ok_fresh (F : nat) (r : Reader) (st : World E (list byte))
    (b : list byte) :
  r_fresh M r st b -> (List.length (stream_io st) <= F)%nat ->
  exists r' st' g,
    Read_loop z buffer_source (Datatypes.S F) r st = Done (r', st', None) /\
    r_pos r' = 0 /\ r_end r' = len g /\ staged r' g /\
    ((r_streamEnded r' = true /\ b = g) \/
     (r_streamEnded r' = false /\ g <> [] /\
      exists todo' owed',
        b = g ++ owed' /\ r_live M r' st' todo' owed' /\
        (List.length todo' <= F)%nat)).
Proof.
  intros (Hs & Hpos & Hend & Hended & Hin & Hbuf & Hmem & Hframe) Hlen.
  destruct (ds_create C (engine st)) as [Hh Hds].
  destruct (createDStream z (engine st)) as [h e1] eqn:Hc.
  cbn [fst snd] in Hh, Hds.
  set (st1 := log (call_createDStream h) (with_engine e1 st)).
  set (r1 := match r_readBuffer r with
             | nil_bytes =>
                 set_r_readBuffer (some_bytes (make defaultReadBufferSize))
                   (set_r_stream h r)
             | some_bytes _ => set_r_stream h r
             end).
  assert (Hinit : r_init_stream z r st = (Some r1, st1)).
  { unfold r_init_stream, do_create. rewrite Hs, Hc. cbn [Z.eqb].
    destruct (Z.eqb_spec h 0) as [H0|_]; [contradiction|].
    unfold r1. cbn [r_readBuffer set_r_stream].
    destruct (r_readBuffer r); reflexivity. }
  assert (Hsame : r_stream r1 = h /\ r_pos r1 = 0 /\ r_end r1 = 0 /\
                  r_streamEnded r1 = false /\ r_buffer r1 = r_buffer r /\
                  r_inBuffer r1 = r_inBuffer r /\
                  0 < len (readBuffer_mem r1) < 2 ^ 63).
  { unfold r1. destruct (r_readBuffer r) as [|l] eqn:Hrb.
    - cbn. rewrite Hpos, Hend, Hended. repeat (split; [reflexivity|]).
      unfold len, make, defaultReadBufferSize. rewrite repeat_length. lia.
    - cbn. rewrite Hpos, Hend, Hended. repeat (split; [reflexivity|]).
      destruct Hmem as [Hnil|Hsz]; [discriminate|].
      unfold readBuffer_mem in *. cbn. rewrite Hrb in *. exact Hsz. }
  destruct Hsame as (Hs1 & Hp1 & He1 & Hse1 & Hb1 & Hi1 & Hm1).
  assert (Hnz : (r_stream r1 =? 0) = false)
    by (rewrite Hs1; apply Z.eqb_neq; exact Hh).
  assert (Hlive : r_live M r1 st1 (stream_io st) b).
  { unfold r_live. split; [exact Hnz|]. rewrite Hb1, Hi1, Hin, Hs1.
    split; [exact Hbuf|]. split; [exact Hm1|].
    split; [unfold in_cursor_ok, len; cbn; lia|].
    split; [reflexivity|]. split; [apply Hds; exact Hframe|].
    left. exact (@frame_not_empty E z M C b (stream_io st) Hframe). }
  destruct (Read_loop_ok_live F r1 st1 (stream_io st) b Hlive Hlen Hp1 He1
              Hse1) as (r' & st' & g & Hrun & Hrest).
  exists r', st', g. split; [|exact Hrest].
  rewrite <- Hrun. cbn [Read_loop].
  rewrite Hend, Hended, He1, Hse1, Hinit. cbn [Z.eqb andb negb].
  unfold r_init_stream. rewrite Hnz. reflexivity.
Qed.

(** Serving staged bytes: as many as the caller's buffer takes. *)
Lemma r_serve_ok (p g : list byte) (r : Reader) (st : World E (list byte)) :
  staged r g -> r_pos r < r_end r -> 0 < len p ->
  exists n p',
    r_serve p r st = Done (set_r_pos (r_pos r + n) r, st, (n, p', None)) /\
    0 < n <= len p /\ n <= len g /\
    firstn (Z.to_nat n) p' = firstn (Z.to_nat n) g /\
    staged (set_r_pos (r_pos r + n) r) (skipn (Z.to_nat n) g).
Proof.
  intros [Hp0 Hst] Hlt Hp.
  destruct (Z.ltb_spec (r_pos r) (r_end r)) as [_|Hge]; [|lia].
  unfold r_serve. rewrite Hst. unfold copy.
  pose proof Hst as Hslice. unfold slice in Hslice.
  destruct ((0 <=? r_pos r) && (r_pos r <=? r_end r) &&
            (r_end r <=? len (readBuffer_mem r))) eqn:Hc; [|discriminate].
  apply andb_prop in Hc as [Hc Hc3]. apply andb_prop in Hc as [Hc1 Hc2].
  apply Z.leb_le in Hc1, Hc2, Hc3. injection Hslice as Hg.
  assert (Hlg : len g = r_end r - r_pos r).
  { rewrite <- Hg. unfold len in *. rewrite length_firstn, length_skipn. lia. }
  set (n := Z.min (len p) (len g)).
  exists n, (overwrite p g). split; [reflexivity|].
  split; [unfold n; lia|]. split; [unfold n; lia|].
  split.
  { unfold overwrite. rewrite firstn_firstn.
    replace (Nat.min (Z.to_nat n) (List.length p)) with (Z.to_nat n)
      by (unfold n, len; lia).
    rewrite firstn_app.
    replace (Z.to_nat n - List.length g)%nat with O by (unfold n, len; lia).
    cbn [firstn]. apply app_nil_r. }
  unfold staged. cbn [r_pos r_end set_r_pos readBuffer_mem r_readBuffer].
  split; [unfold n; lia|].
  change (readBuffer_mem (set_r_pos (r_pos r + n) r))
    with (readBuffer_mem r).
  destruct (Z.ltb_spec (r_pos r + n) (r_end r)) as [Hmore|Hall].
  - unfold slice.
    destruct (Z.leb_spec 0 (r_pos r + n)); [|unfold n in *; lia].
    destruct (Z.leb_spec (r_pos r + n) (r_end r)); [|lia].
    destruct (Z.leb_spec (r_end r) (len (readBuffer_mem r))); [|lia].
    cbn [andb]. f_equal. rewrite <- Hg.
    rewrite skipn_firstn_swap, skipn_skipn.
    replace (Z.to_nat n + Z.to_nat (r_pos r))%nat
      with (Z.to_nat (r_pos r + n)) by (unfold n in *; lia).
    f_equal. unfold n in *. lia.
  - apply skipn_all2. unfold len in *. lia.
Qed.

(** What [Read] does once the loop has staged [g]. *)
Lemma Read_after_loop (F : nat) (p g owed b d : list byte) (r1 : Reader)
    (st1 : World E (list byte)) :
  0 < len p -> b = d ++ owed ->
  r_pos r1 = 0 -> r_end r1 = len g -> staged r1 g ->
  ((r_streamEnded r1 = true /\ owed = g) \/
   (r_streamEnded r1 = false /\ g <> [] /\
    exists todo' owed',
      owed = g ++ owed' /\ r_live M r1 st1 todo' owed' /\
      (List.length todo' <= F)%nat)) ->
  exists r' st' n p',
    ((if r_end r1 =? 0
      then if r_streamEnded r1
           then Done (r1, st1, (0, p, Some io_EOF))
           else Done (r1, st1, (0, p, None))
      else r_serve p r1 st1) = Done (r', st', (n, p', Some io_EOF)) /\
     n = 0 /\ d = b) \/
    ((if r_end r1 =? 0
      then if r_streamEnded r1
           then Done (r1, st1, (0, p, Some io_EOF))
           else Done (r1, st1, (0, p, None))
      else r_serve p r1 st1) = Done (r', st', (n, p', None)) /\
     0 < n <= len p /\ len (firstn (Z.to_nat n) p') = n /\
     r_reading M F r' st' b (d ++ firstn (Z.to_nat n) p')).
Proof.
  intros Hp Hb Hpos Hend Hst Hcase.
  destruct (Z.eqb_spec (r_end r1) 0) as [He0|Hen].
  - assert (Hg : g = []) by (apply len_zero_nil; lia).
    destruct Hcase as [(Hse & Ho)|(_ & Hne & _)]; [|contradiction].
    rewrite Hse. exists r1, st1, 0, p. left. split; [reflexivity|].
    split; [reflexivity|]. rewrite Hb, Ho, Hg. symmetry. apply app_nil_r.
  - pose proof (len_nonneg _ g) as Hg0.
    destruct (r_serve_ok p g r1 st1 Hst ltac:(lia) Hp)
      as (n & p' & Hserve & Hn & Hng & Hfirst & Hstaged).
    exists (set_r_pos (r_pos r1 + n) r1), st1, n, p'. right.
    split; [exact Hserve|]. split; [exact Hn|]. rewrite Hfirst.
    split; [unfold len in *; rewrite length_firstn; lia|].
    right. exists (skipn (Z.to_nat n) g). split; [exact Hstaged|].
    destruct Hcase as [(Hse & Ho)|(Hse & _ & todo' & owed' & Ho & Hl & Hle)].
    + left. split; [exact Hse|].
      rewrite Hb, Ho, <- app_assoc, firstn_skipn. reflexivity.
    + right. split; [exact Hse|]. exists todo', owed'.
      split; [|split; [exact Hl|exact Hle]].
      rewrite Hb, Ho, <- !app_assoc.
      rewrite (app_assoc (firstn _ g)), firstn_skipn. reflexivity.
Qed.

(** One call of [Read] over a byte buffer that holds a frame of the
    payload [b], with a non-empty [p]: it reports end-of-stream exactly
    when the whole of [b] has been delivered, and otherwise delivers the
    next bytes of [b], at least one. *)
Lemma Reader_Read_ok (F : nat) (p b d : list byte) (r : Reader)
    (st : World E (list byte)) :
  0 < len p -> r_reading M F r st b d ->
  exists r' st' n p',
    (Reader_Read z buffer_source (Datatypes.S F) p r st =
       Done (r', st', (n, p', Some io_EOF)) /\ n = 0 /\ d = b) \/
    (Reader_Read z buffer_source (Datatypes.S F) p r st =
       Done (r', st', (n, p', None)) /\
     0 < n <= len p /\ len (firstn (Z.to_nat n) p') = n /\
     r_reading M F r' st' b (d ++ firstn (Z.to_nat n) p')).
Proof.
  intros Hp [(Hfresh & Hd & Hlen)|(g & Hst & Hcase)].
  - pose proof Hfresh as (Hs & Hpos & Hend & Hended & _).
    unfold Reader_Read. rewrite Hpos, Hend, Hended. cbn [Z.ltb Z.compare].
    assert (Hfresh0 : r_fresh M (set_r_end 0 (set_r_pos 0 r)) st b).
    { destruct Hfresh as (H1 & H2 & H3 & H4 & H5 & H6 & H7 & H8).
      repeat split; try assumption; try reflexivity; apply H6. }
    destruct (Read_loop_ok_fresh F _ st b Hfresh0 Hlen)
      as (r1 & st1 & g & Hrun & Hp1 & He1 & Hst1 & Hcase).
    rewrite Hrun. subst d.
    apply (Read_after_loop F p g b b [] r1 st1 Hp eq_refl Hp1 He1 Hst1 Hcase).
  - unfold Reader_Read. destruct Hst as [Hp0 Hst].
    destruct (Z.ltb_spec (r_pos r) (r_end r)) as [Hlt|Hge].
    + destruct (r_serve_ok p g r st) as (n & p' & Hserve & Hn & Hng & Hfirst
                                         & Hstaged).
      { split; [exact Hp0|]. destruct (Z.ltb_spec (r_pos r) (r_end r));
          [exact Hst|lia]. }
      { exact Hlt. } { exact Hp. }
      exists (set_r_pos (r_pos r + n) r), st, n, p'. right.
      split; [exact Hserve|]. split; [exact Hn|]. rewrite Hfirst.
      split; [unfold len in *; rewrite length_firstn; lia|].
      right. exists (skipn (Z.to_nat n) g). split; [exact Hstaged|].
      destruct Hcase as [(Hse & Hb)|(Hse & todo & owed & Hb & Hl & Hle)].
      * left. split; [exact Hse|].
        rewrite Hb, <- app_assoc, firstn_skipn. reflexivity.
      * right. split; [exact Hse|]. exists todo, owed.
        split; [|split; [exact Hl|exact Hle]].
        rewrite Hb, <- !app_assoc.
        rewrite (app_assoc (firstn _ g)), firstn_skipn. reflexivity.
    + subst g.
      destruct Hcase as [(Hse & Hb)|(Hse & todo & owed & Hb & Hl & Hle)].
      * rewrite Hse. exists r, st, 0, p. left. split; [reflexivity|].
        split; [reflexivity|]. rewrite Hb. symmetry. apply app_nil_r.
      * rewrite Hse. cbn [app] in Hb.
        assert (Hl0 : r_live M (set_r_end 0 (set_r_pos 0 r)) st todo owed)
          by exact Hl.
        destruct (Read_loop_ok_live F _ st todo owed Hl0 Hle eq_refl eq_refl
                    Hse)
          as (r1 & st1 & g & Hrun & Hp1 & He1 & Hst1 & Hcase).
        rewrite Hrun.
        apply (Read_after_loop F p g owed b d r1 st1 Hp Hb Hp1 He1 Hst1 Hcase).
Qed.

(** What a Reader in the middle of a frame has delivered is the start of
    the payload. *)
Lemma r_reading_prefix (F : nat) (b d : list byte) (r : Reader)
    (st : World E (list byte)) :
  r_reading M F r st b d -> (List.length d <= List.length b)%nat.
Proof.
  intros [(_ & -> & _)|(g & _ & [(_ & ->)|(_ & todo & owed & -> & _)])].
  - cbn. lia.
  - rewrite length_app. lia.
  - rewrite length_app. lia.
Qed.

(** Reading to the end delivers the payload, within one call for each
    byte still to come and one more. *)
Lemma read_all_ok (F : nat) (k : Z) (b : list byte) (rounds : nat) :
  0 < k ->
  forall (d : list byte) (r : Reader) (st : World E (list byte)),
  r_reading M F r st b d ->
  (List.length b < List.length d + rounds)%nat ->
  exists r' st',
    read_all z buffer_source rounds (Datatypes.S F) k d r st =
    Done (r', st', (b, None)).
Proof.
  intros Hk. induction rounds as [|rounds IH]; intros d r st Hr Hlen.
  - apply r_reading_prefix in Hr. lia.
  - assert (Hp : 0 < len (make k)) by (rewrite len_make; lia).
    destruct (Reader_Read_ok F (make k) b d r st Hp Hr)
      as (r' & st' & n & p' & [(Hrun & Hn & Hd)|(Hrun & Hn & Hfl & Hr')]).
    + exists r', st'. cbn [read_all]. rewrite Hrun, Hn. cbn [Z.to_nat firstn].
      rewrite app_nil_r, Hd. reflexivity.
    + cbn [read_all]. rewrite Hrun.
      apply IH; [exact Hr'|].
      rewrite length_app. unfold len in Hfl. lia.
Qed.
End ReaderRoundTrip.

(** ** The reference engine keeps the contracts *)

Lemma tag_encode_app (l1 l2 : list byte) :
  tag_encode (l1 ++ l2) = tag_encode l1 ++ tag_encode l2.
Proof.
  induction l1 as [|x l1 IH]; [reflexivity|]. cbn. now rewrite IH.
Qed.

Lemma unread_taken_by (i : ZstdInBuffer) : unread i = taken_by i (iSize i).
Proof. reflexivity. Qed.

Lemma toy_rest_no_error (m : toy_mode) (todo out : list byte) :
  toy_rest m todo out -> m <> at_error.
Proof. intros H ->. exact H. Qed.

(** Decoding a part [u] of what is left of a frame. *)
Lemma toy_decode_ok (u : list byte) :
  forall (m : toy_mode) (rest out : list byte),
  toy_rest m (u ++ rest) out ->
  exists n out1 m' out2,
    toy_decode m u = (n, out1, m') /\ (n <= List.length u)%nat /\
    out = out1 ++ out2 /\ toy_rest m' (skipn n (u ++ rest)) out2 /\
    (u <> [] -> m' = at_end \/ (0 < n)%nat).
Proof.
  induction u as [|x u IH]; intros m rest out H.
  - exists O, [], m, out. cbn. repeat split; auto. intros Hne. congruence.
  - destruct m; cbn [toy_rest] in H.
    + destruct out as [|y out'].
      * cbn in H. injection H as -> Hnil.
        exists 1%nat, [], at_end, []. cbn [toy_decode].
        change (Byte.eqb x00 x00) with true. cbv iota.
        split; [reflexivity|]. split; [cbn; lia|]. split; [reflexivity|].
        split; [cbn; auto|]. intros _. now left.
      * cbn in H. injection H as -> Hrest.
        destruct (IH at_data rest (y :: out'))
          as (n & out1 & m' & out2 & Hdec & Hn & Hout & Hrest' & _).
        { cbn. exists y, out'. split; [reflexivity|exact Hrest]. }
        exists (Datatypes.S n), out1, m', out2. cbn [toy_decode].
        change (Byte.eqb x01 x00) with false.
        change (Byte.eqb x01 x01) with true. cbv iota. rewrite Hdec.
        split; [reflexivity|]. split; [cbn; lia|]. split; [exact Hout|].
        split; [exact Hrest'|]. intros _. right. lia.
    + destruct H as (x0 & out' & -> & Heq). cbn in Heq.
      injection Heq as -> Hrest.
      destruct (IH at_tag rest out' Hrest)
        as (n & out1 & m' & out2 & Hdec & Hn & Hout & Hrest' & _).
      exists (Datatypes.S n), (x0 :: out1), m', out2. cbn [toy_decode].
      rewrite Hdec. split; [reflexivity|]. split; [cbn; lia|].
      split; [cbn; now rewrite Hout|]. split; [exact Hrest'|].
      intros _. right. lia.
    + destruct H as [H _]. discriminate.
    + contradiction.
Qed.

Lemma toy_frame_nonempty (out : list byte) : toy_frame out <> [].
Proof. unfold toy_frame. destruct (tag_encode out); discriminate. Qed.

(** Fed all that is left, or some of it, the decoder moves on or is at
    the end of the frame. *)
Lemma toy_decode_progress (u rest out out1 : list byte) (m m' : toy_mode)
    (n : nat) :
  toy_rest m (u ++ rest) out -> (u = [] -> rest = []) ->
  toy_decode m u = (n, out1, m') -> m' = at_end \/ (0 < n)%nat.
Proof.
  intros Hrest Hall Hdec.
  destruct (toy_decode_ok u m rest out Hrest)
    as (n0 & o1 & m0 & o2 & Hdec0 & _ & _ & _ & Hprog).
  rewrite Hdec in Hdec0. injection Hdec0 as <- <- <-.
  destruct u as [|x u]; [|apply Hprog; discriminate].
  rewrite (Hall eq_refl) in Hrest. cbn in Hdec. injection Hdec as <- <- <-.
  destruct m; cbn in Hrest.
  - symmetry in Hrest. now apply toy_frame_nonempty in Hrest.
  - destruct Hrest as (x & out' & _ & Hnil). discriminate.
  - now left.
  - contradiction.
Qed.

Lemma unread_length (i : ZstdInBuffer) :
  in_cursor_ok i -> len (unread i) = iSize i - iPos i.
Proof.
  intros (H0 & H1 & H2). unfold unread, len in *.
  rewrite length_firstn, length_skipn. lia.
Qed.

Lemma len_firstn_min (k : nat) (q : list byte) :
  (k <= List.length q)%nat -> len (firstn k q) = Z.of_nat k.
Proof. intros H. unfold len. rewrite length_firstn. lia. Qed.

Lemma len_skipn_zero (k : nat) (q : list byte) :
  len (skipn k q) = 0 -> skipn k q = [].
Proof. intros H. apply len_zero_nil. lia. Qed.

Lemma toy_cs_create (e : Toy) :
  fst (createCStream toy e) <> 0 /\
  cs toy_model (snd (createCStream toy e)) (fst (createCStream toy e)) false
    [] [].
Proof. cbn. split; [discriminate|]. split; reflexivity. Qed.

Lemma toy_ds_create (e : Toy) :
  fst (createDStream toy e) <> 0 /\
  forall b f,
    frame toy_model b f ->
    ds toy_model (snd (createDStream toy e)) (fst (createDStream toy e)) f b.
Proof.
  cbn. split; [discriminate|]. intros b f ->. exists b. cbn.
  split; reflexivity.
Qed.

Lemma toy_ds_step (e : Toy) (h : handle) (todo owed : list byte)
    (o : ZstdOutBuffer) (i : ZstdInBuffer) (rest : list byte) :
  ds toy_model e h todo owed ->
  todo <> [] \/ owed <> [] ->
  out_cursor_ok o -> in_cursor_ok i ->
  todo = taken_by i (iSize i) ++ rest ->
  (iPos i = iSize i -> todo = []) ->
  let r := fst (decompressStream toy h o i e) in
  let e' := snd (decompressStream toy h o i e) in
  let todo' := skipn (Z.to_nat (in_pos r - iPos i)) todo in
  0 <= hint r < 2 ^ 64 /\ isError toy (hint r) = 0 /\
  iPos i <= in_pos r <= iSize i /\
  out_pos r = len (written r) /\ len (written r) <= oSize o /\
  exists owed',
    owed = written r ++ owed' /\
    if hint r =? 0 then owed' = []
    else
      ds toy_model e' h todo' owed' /\
      (todo' <> [] \/ owed' <> []) /\
      (written r = [] -> iPos i < in_pos r).
Proof.
  intros (out & Howed & Hrest) _ [Ho0 Hosz] Hin Htodo Hempty.
  pose proof (unread_length i Hin) as Hlen.
  destruct Hin as (Hi0 & Hi1 & Hi2).
  change (taken_by i (iSize i)) with (unread i) in Htodo.
  rewrite Htodo in Hrest.
  destruct (toy_decode_ok (unread i) (d_mode e) rest out Hrest)
    as (n & out1 & m' & out2 & Hdec & Hn & Hout & Hrest' & _).
  assert (Hprog : m' = at_end \/ (0 < n)%nat).
  { apply (toy_decode_progress (unread i) rest out out1 (d_mode e) m' n
             Hrest); [|exact Hdec].
    intros Hu. rewrite Hu in Hlen. unfold len in Hlen. cbn in Hlen.
    assert (Hnil : todo = []) by (apply Hempty; lia).
    rewrite Htodo, Hu in Hnil. exact Hnil. }
  pose proof (toy_rest_no_error _ _ _ Hrest') as Hne.
  cbn [decompressStream toy]. unfold toy_decompressStream. rewrite Hdec.
  set (queue := d_pending e ++ out1).
  set (k := Z.to_nat (Z.min (oSize o - oPos o) (len queue))).
  assert (Hk : (k <= List.length queue)%nat) by (unfold k, len; lia).
  assert (Hkcap : Z.of_nat k <= oSize o) by (unfold k; lia).
  assert (Howed' : owed = firstn k queue ++ skipn k queue ++ out2).
  { rewrite app_assoc, firstn_skipn. unfold queue.
    rewrite <- app_assoc, <- Hout. exact Howed. }
  assert (Hnat : Z.to_nat (iPos i + Z.of_nat n - iPos i) = n) by lia.
  assert (Hds : forall m, m = m' ->
            ds toy_model (mkToy (c_pending e) (c_ended e) (skipn k queue) m)
              h (skipn n todo) (skipn k queue ++ out2)).
  { intros m ->. exists out2. cbn. split; [reflexivity|].
    rewrite Htodo. exact Hrest'. }
  assert (Hwritten : firstn k queue = [] -> queue = []).
  { intros Hw. apply (f_equal (@List.length byte)) in Hw.
    rewrite length_firstn in Hw. cbn in Hw.
    destruct queue as [|q0 queue']; [reflexivity|].
    unfold k, len in *. cbn in *. lia. }
  assert (Hunfinished : forall out', toy_rest m' (skipn n (unread i ++ rest))
                                       out' ->
            m' = at_tag \/ m' = at_data -> skipn n todo <> []).
  { intros out' Hr Hmode. rewrite Htodo.
    destruct Hmode as [-> | ->]; cbn [toy_rest] in Hr.
    - rewrite Hr. apply toy_frame_nonempty.
    - destruct Hr as (x & o' & _ & ->). discriminate. }
  unfold len in Hlen.
  destruct m' eqn:Hm; [| | |congruence]; cbv zeta; cbn [fst snd hint in_pos
    out_pos written]; rewrite Hnat.
  - split; [lia|]. split; [reflexivity|]. split; [lia|].
    split; [rewrite len_firstn_min by exact Hk; lia|].
    split; [rewrite len_firstn_min by exact Hk; lia|].
    exists (skipn k queue ++ out2). split; [exact Howed'|].
    cbn [Z.eqb]. split; [apply Hds; reflexivity|].
    split; [left; apply (Hunfinished _ Hrest'); auto|].
    intros _. destruct Hprog as [Hp|Hp]; [discriminate|lia].
  - split; [lia|]. split; [reflexivity|]. split; [lia|].
    split; [rewrite len_firstn_min by exact Hk; lia|].
    split; [rewrite len_firstn_min by exact Hk; lia|].
    exists (skipn k queue ++ out2). split; [exact Howed'|].
    cbn [Z.eqb]. split; [apply Hds; reflexivity|].
    split; [left; apply (Hunfinished _ Hrest'); auto|].
    intros _. destruct Hprog as [Hp|Hp]; [discriminate|lia].
  - assert (Hout2 : out2 = []) by (destruct Hrest' as [_ H2]; exact H2).
    split; [destruct (len (skipn k queue) =? 0); lia|].
    split; [destruct (len (skipn k queue) =? 0); reflexivity|].
    split; [lia|].
    split; [rewrite len_firstn_min by exact Hk; lia|].
    split; [rewrite len_firstn_min by exact Hk; lia|].
    exists (skipn k queue ++ out2). split; [exact Howed'|].
    destruct (Z.eqb_spec (len (skipn k queue)) 0) as [Hz|Hnz].
    + cbn [Z.eqb]. rewrite Hout2, (len_skipn_zero _ _ Hz). reflexivity.
    + cbn [Z.eqb]. split; [apply Hds; reflexivity|]. split.
      * right. intros Hnil. apply app_eq_nil in Hnil as [Hq _].
        rewrite Hq in Hnz. now contradiction Hnz.
      * intros Hw. apply Hwritten in Hw. rewrite Hw in Hnz.
        rewrite skipn_nil in Hnz. now contradiction Hnz.
Qed.

Lemma toy_cs_step (e : Toy) (h : handle) (ending : bool)
    (taken sent : list byte) (o : ZstdOutBuffer) (i : ZstdInBuffer)
    (op : Z) :
  cs toy_model e h ending taken sent ->
  out_cursor_ok o -> in_cursor_ok i ->
  (op = EndContinue /\ ending = false) \/
  (op = EndFlush /\ ending = false /\ iPos i = iSize i) \/
  (op = EndEnd /\ iPos i = iSize i) ->
  let r := fst (compressStream2 toy h o i op e) in
  let e' := snd (compressStream2 toy h o i op e) in
  0 <= hint r < 2 ^ 64 /\ isError toy (hint r) = 0 /\
  iPos i <= in_pos r <= iSize i /\
  out_pos r = len (written r) /\ len (written r) <= oSize o /\
  (if (op =? EndEnd) && (hint r =? 0)
   then frame toy_model (taken ++ taken_by i (in_pos r)) (sent ++ written r)
   else cs toy_model e' h (op =? EndEnd) (taken ++ taken_by i (in_pos r))
          (sent ++ written r)) /\
  (op = EndContinue -> iPos i < iSize i ->
   iPos i < in_pos r \/
   (backlog toy_model e' h < backlog toy_model e h)%nat) /\
  (op <> EndContinue -> hint r <> 0 ->
   (backlog toy_model e' h < backlog toy_model e h)%nat).
Proof.
  intros [Hended Hinv] [Ho0 Hosz] Hin Hop.
  pose proof (unread_length i Hin) as Hlen.
  destruct Hin as (Hi0 & Hi1 & Hi2).
  cbn [compressStream2 toy]. unfold toy_compressStream2. cbv zeta.
  cbn [fst snd hint in_pos out_pos written].
  change (taken_by i (iSize i)) with (unread i).
  set (ending_now := (op =? EndEnd) && negb (c_ended e)).
  set (queue := c_pending e ++ tag_encode (unread i) ++
                (if ending_now then [x00] else [])).
  set (k := Z.to_nat (Z.min (oSize o - oPos o) (len queue))).
  assert (Hk : (k <= List.length queue)%nat) by (unfold k, len; lia).
  assert (Hkcap : Z.of_nat k <= oSize o) by (unfold k; lia).
  assert (Hsplit : sent ++ firstn k queue ++ skipn k queue =
                   tag_encode (taken ++ unread i) ++
                   (if ending || (op =? EndEnd) then [x00] else [])).
  { rewrite firstn_skipn. unfold queue. rewrite app_assoc, Hinv.
    rewrite tag_encode_app, <- !app_assoc. f_equal.
    unfold ending_now. rewrite Hended.
    destruct Hop as [[-> ->]|[(-> & -> & Hpos)|(-> & Hpos)]].
    - reflexivity.
    - reflexivity.
    - assert (Hu : unread i = []) by (apply len_zero_nil; lia).
      rewrite Hu. destruct ending; reflexivity. }
  assert (Hend' : c_ended e || (op =? EndEnd) = (op =? EndEnd)).
  { rewrite Hended.
    destruct Hop as [[-> ->]|[(-> & -> & Hpos)|(-> & Hpos)]];
      [reflexivity|reflexivity|apply orb_true_r]. }
  assert (Hflag : ending || (op =? EndEnd) = (op =? EndEnd))
    by (rewrite <- Hended; exact Hend').
  rewrite Hflag in Hsplit.
  split; [destruct (len (skipn k queue) =? 0); lia|].
  split; [destruct (len (skipn k queue) =? 0); reflexivity|].
  split; [lia|].
  split; [rewrite len_firstn_min by exact Hk; lia|].
  split; [rewrite len_firstn_min by exact Hk; lia|].
  split; [|split].
  - destruct (Z.eqb_spec (len (skipn k queue)) 0) as [Hz|Hnz].
    + rewrite (len_skipn_zero _ _ Hz), app_nil_r in Hsplit.
      destruct (op =? EndEnd) eqn:Hop'; cbn [Z.eqb andb].
      * cbn. exact Hsplit.
      * split; cbn [c_ended c_pending]; [rewrite Hend'; reflexivity|].
        rewrite (len_skipn_zero _ _ Hz), app_nil_r. exact Hsplit.
    + replace ((op =? EndEnd) && (1 =? 0)) with false
        by (now rewrite andb_false_r).
      split; cbn [c_ended c_pending]; [exact Hend'|].
      rewrite <- app_assoc. exact Hsplit.
  - intros _ Hmore. left. lia.
  - intros Hop' Hhint. unfold backlog, toy_model, toy_backlog.
    cbn [c_pending c_ended].
    destruct (Z.eqb_spec (len (skipn k queue)) 0) as [Hz|Hnz];
      [now contradiction Hhint|].
    assert (Hq : (k < List.length queue)%nat).
    { unfold len in Hnz. rewrite length_skipn in Hnz. lia. }
    assert (Hkpos : (0 < k)%nat) by (unfold k, len in *; lia).
    rewrite length_skipn.
    assert (Hu : unread i = []).
    { apply len_zero_nil.
      destruct Hop as [[-> _]|[(_ & _ & Hpos)|(_ & Hpos)]];
        [now contradiction Hop'|lia|lia]. }
    assert (Hqlen : List.length queue =
                    (List.length (c_pending e) +
                     (if ending_now then 1 else 0))%nat).
    { unfold queue. rewrite Hu. cbn [tag_encode app].
      rewrite length_app. destruct ending_now; reflexivity. }
    rewrite Hqlen. unfold ending_now.
    destruct Hop as [[-> _]|[(-> & -> & Hpos)|(-> & Hpos)]];
      [now contradiction Hop'| |].
    + unfold ending_now in Hqlen. rewrite Hended in *. cbn in *. lia.
    + unfold ending_now in Hqlen. destruct (c_ended e); cbn in *; lia.
Qed.

(** The reference engine is a streaming codec. *)
Lemma toy_stream_codec : StreamCodec toy toy_model.
Proof.
  constructor.
  - exact toy_cs_create.
  - exact toy_cs_step.
  - intros b f ->. apply toy_frame_nonempty.
  - exact toy_ds_create.
  - exact toy_ds_step.
Qed.

(** The streaming contract follows a decompression session up to the
    step that reports the end of its frame and says nothing of the steps
    after it: an engine that answers those with a positive hint, as the
    real library does, keeps the contract as well. *)
Lemma toy_expecting_stream_codec : StreamCodec toy_expecting toy_model.
Proof.
  constructor.
  - exact toy_cs_create.
  - exact toy_cs_step.
  - intros b f ->. apply toy_frame_nonempty.
  - exact toy_ds_create.
  - intros e h todo owed o i rest Hds Hunfinished.
    assert (Hsame : decompressStream toy_expecting h o i e =
                    decompressStream toy h o i e).
    { cbn [decompressStream toy_expecting toy].
      unfold toy_expecting_decompressStream.
      destruct Hds as (out & Howed & Hrest).
      destruct (d_mode e) eqn:Hm; try reflexivity.
      destruct (d_pending e) eqn:Hp; [|reflexivity].
      cbn [toy_rest] in Hrest. destruct Hrest as [-> ->].
      cbn [app] in Howed. subst owed. destruct Hunfinished; contradiction. }
    rewrite Hsame.
    exact (toy_ds_step e h todo owed o i rest Hds Hunfinished).
Qed.

Lemma toy_expecting_after_the_end (h : handle) (o : ZstdOutBuffer)
    (i : ZstdInBuffer) (e : Toy) :
  d_mode e = at_end -> d_pending e = [] ->
  ds toy_model e h [] [] /\
  hint (fst (decompressStream toy_expecting h o i e)) = 1.
Proof.
  intros Hm Hp. split.
  - exists []. rewrite Hm, Hp. cbn. auto.
  - cbn [decompressStream toy_expecting].
    unfold toy_expecting_decompressStream. now rewrite Hm, Hp.
Qed.

(** *** Run-length encoding *)

Lemma byte_succ_to_N (c : byte) :
  (Byte.to_N c < 255)%N -> Byte.to_N (byte_succ c) = (Byte.to_N c + 1)%N.
Proof.
  intros H. unfold byte_succ.
  destruct (Byte.of_N (Byte.to_N c + 1)) as [c'|] eqn:Hof.
  - now apply Byte.to_of_N in Hof.
  - apply Byte.of_N_None_iff in Hof. lia.
Qed.

(** The encoding is a sequence of pairs, never longer than twice its
    input, and decodes to its input. *)
Lemma rle_encode_ok (l : list byte) :
  (l = [] /\ rle_encode l = []) \/
  (l <> [] /\
   exists c y rest,
     rle_encode l = c :: y :: rest /\
     (List.length (rle_encode l) <= 2 * List.length l)%nat /\
     rle_decode (rle_encode l) = l).
Proof.
  induction l as [|x l IH]; [left; split; reflexivity|].
  right. split; [discriminate|]. cbn [rle_encode].
  destruct IH as [[-> ->]|(_ & c & y & rest & Henc & Hlen & Hdec)].
  - exists x01, x, []. split; [reflexivity|]. split; [cbn; lia|].
    reflexivity.
  - rewrite Henc in *.
    destruct (Byte.eqb x y && (Byte.to_N c <? 255)%N) eqn:Hc.
    + apply andb_prop in Hc as [Hxy Hlt].
      apply Byte.byte_dec_bl in Hxy. apply N.ltb_lt in Hlt. subst y.
      exists (byte_succ c), x, rest. split; [reflexivity|].
      split; [cbn in *; lia|].
      cbn [rle_decode] in *. rewrite byte_succ_to_N by exact Hlt.
      replace (N.to_nat (Byte.to_N c + 1))
        with (Datatypes.S (N.to_nat (Byte.to_N c))) by lia.
      cbn [repeat app]. now rewrite Hdec.
    + exists x01, x, (c :: y :: rest). split; [reflexivity|].
      split; [cbn in *; lia|].
      change (rle_decode (x01 :: x :: c :: y :: rest))
        with (x :: rle_decode (c :: y :: rest)).
      now rewrite Hdec.
Qed.

Lemma rle_round_trip (l : list byte) : rle_decode (rle_encode l) = l.
Proof.
  destruct (rle_encode_ok l) as [[-> _]|(_ & _ & _ & _ & _ & _ & H)];
    [reflexivity|exact H].
Qed.

Lemma rle_encode_len (l : list byte) :
  0 < len l -> 0 < len (rle_encode l) <= 2 * len l.
Proof.
  intros H.
  destruct (rle_encode_ok l) as [[-> _]|(_ & c & y & rest & He & Hl & _)];
    [cbn in H; lia|].
  unfold len in *. split; [rewrite He; cbn; lia|lia].
Qed.

(** The reference engine is a one-shot codec. *)
Lemma toy_one_shot_codec : OneShotCodec toy.
Proof.
  constructor.
  - intros n Hn. cbn [compressBound toy]. lia.
  - intros cap b level e Hb _ Hcap. cbn [compressBound toy] in Hcap.
    pose proof (rle_encode_len b ltac:(lia)) as Hc.
    exists (rle_encode b), e. cbn [compress toy].
    destruct (Z.leb_spec (len (rle_encode b)) cap) as [_|Hbig]; [|lia].
    split; [reflexivity|]. split; [lia|].
    assert (Hfine : forall n, 0 <= n < 2 ^ 63 -> isError toy n = 0).
    { intros n Hn. cbn [isError toy].
      destruct (Z.eqb_spec n fake_error_code) as [Heq|_]; [|reflexivity].
      unfold fake_error_code in Heq. lia. }
    split; [apply Hfine; lia|].
    intros cap' e' Hcap'. cbn [decompress toy]. rewrite rle_round_trip.
    destruct (Z.leb_spec (len b) cap') as [Hfit|Hover].
    + exists (len b), b, e'. split; [reflexivity|]. split; [lia|].
      split; [reflexivity|]. split; [reflexivity|]. apply Hfine. lia.
    + exists fake_error_code, [], e'. split; [reflexivity|].
      split; [unfold fake_error_code; lia|]. cbn. discriminate.
Qed.

(** ** The one-shot pair under its contract *)

Section OneShotRoundTrip.
Context {E S : Type}.
Variable z : Zstd E.
Hypothesis O : OneShotCodec z.

(** A length that [make] accepts. *)
Lemma makeslice_ok_in_range (n : Z) :
  0 <= n <= maxAlloc -> makeslice_ok n = true.
Proof.
  intros H. unfold makeslice_ok.
  destruct (Z.leb_spec 0 n); [|lia]. destruct (Z.leb_spec n maxAlloc); [|lia].
  reflexivity.
Qed.

(** [Compress] of a non-empty payload returns what the engine wrote, when
    the bound the engine gives can be allocated. *)
Lemma Zstd_Compress_ok (b : list byte) (level : Z) (st : World E S) :
  0 < len b < 2 ^ 62 -> level_in_range level ->
  compressBound z (len b) <= maxAlloc ->
  exists c st1,
    Zstd_Compress z b level st = Done (some_bytes c, None, st1) /\
    0 < len c <= compressBound z (len b) /\ decompresses_to z c b.
Proof.
  intros Hb Hlevel Halloc. unfold Zstd_Compress.
  destruct (Z.eqb_spec (len b) 0) as [H0|_]; [lia|].
  unfold Zstd_CompressBound, do_compressBound.
  rewrite (u64_small (len b)) by lia.
  pose proof (@bound_positive E z O (len b) Hb) as Hbound.
  set (cap := compressBound z (len b)) in *.
  rewrite (u64_small cap), (to_int_small cap) by lia.
  rewrite (makeslice_ok_in_range cap) by lia. cbn [negb].
  pose proof (make_nonempty cap ltac:(lia)) as Hmake.
  destruct (make cap) as [|m0 mk] eqn:Hmk; [congruence|]. rewrite <- Hmk.
  unfold do_compress. rewrite (u64_small cap), (u64_small (len b)) by lia.
  cbn [engine log].
  destruct (@compress_ok E z O cap b level (engine st) Hb Hlevel ltac:(lia))
    as (c & e' & Hc & Hlen & Herr & Hdec).
  rewrite Hc. rewrite (u64_small (len c)) by lia.
  unfold do_isError. rewrite Herr. cbn [Z.eqb negb].
  rewrite slice_overwrite by (rewrite len_make; lia).
  eexists; eexists. split; [reflexivity|]. split; [lia|exact Hdec].
Qed.

(** [Decompress] returns the payload when [maxSize], as the function
    settles it, has room for it. *)
Lemma Zstd_Decompress_ok (c b : list byte) (maxSize : Z) (st : World E S) :
  0 < len c < 2 ^ 63 -> 0 < len b -> decompresses_to z c b ->
  len b <= effective_maxSize (len c) maxSize <= maxAlloc ->
  exists st1, Zstd_Decompress z c maxSize st = Done (some_bytes b, None, st1).
Proof.
  intros Hc Hb Hdec Hmax. unfold Zstd_Decompress.
  destruct (Z.eqb_spec (len c) 0) as [H0|_]; [lia|].
  set (m := effective_maxSize (len c) maxSize) in *.
  assert (Hlim : maxAlloc < 2 ^ 63) by (unfold maxAlloc; lia).
  rewrite (makeslice_ok_in_range m) by lia. cbn [negb].
  pose proof (make_nonempty m ltac:(lia)) as Hmake.
  destruct (make m) as [|m0 mk] eqn:Hmk; [congruence|]. rewrite <- Hmk.
  unfold do_decompress. rewrite (u64_small m), (u64_small (len c)) by lia.
  destruct (Hdec m (engine st) ltac:(lia)) as (r & out & e' & Hrun & Hr & Hfit).
  rewrite Hrun. destruct (Z.leb_spec (len b) m) as [_|Hbad]; [|lia].
  destruct Hfit as (-> & -> & Herr).
  rewrite (u64_small (len b)) by lia.
  unfold do_isError. rewrite Herr. cbn [Z.eqb negb].
  rewrite slice_overwrite by (rewrite len_make; lia).
  eexists. reflexivity.
Qed.

(** A size above the limit of the allocator stops [Decompress] at its
    [make]. *)
Lemma Zstd_Decompress_oversized (c : list byte) (maxSize : Z)
    (st : World E S) :
  c <> [] -> maxAlloc < effective_maxSize (len c) maxSize ->
  Zstd_Decompress z c maxSize st = Panic "makeslice: len out of range".
Proof.
  intros Hc Hbig. unfold Zstd_Decompress.
  destruct (Z.eqb_spec (len c) 0) as [Hc0|_].
  { apply len_zero_nil in Hc0. contradiction. }
  unfold makeslice_ok.
  destruct (Z.leb_spec (effective_maxSize (len c) maxSize) maxAlloc);
    [lia|].
  rewrite andb_false_r. reflexivity.
Qed.
End OneShotRoundTrip.

(** ** A Writer followed by a Reader *)

Section StreamRoundTrip.
Context {E : Type}.
Variable z : Zstd E.
Variable M : StreamModel E.
Hypothesis C : StreamCodec z M.

(** [Write] takes the whole of [p]. *)
Lemma Writer_Write_writing (p taken : list byte) (w : Writer)
    (st : World E (list byte)) :
  w_writing M w st taken -> len p < 2 ^ 63 ->
  exists fuel w' st',
    Writer_Write z buffer_sink fuel p w st = Done (w', st', (len p, None)) /\
    w_writing M w' st' (taken ++ p).
Proof.
  intros [Hbuf Hw] Hp.
  destruct (Z.eqb_spec (len p) 0) as [H0|Hn0].
  - exists O, w, st. unfold Writer_Write. rewrite H0. cbn [Z.eqb].
    split; [reflexivity|]. apply len_zero_nil in H0. subst p.
    rewrite app_nil_r. split; assumption.
  - pose proof (len_nonneg _ p) as Hp0.
    destruct Hw as [(Hs & -> & Hio)|[Hs Hcs]].
    + destruct (Writer_Write_first z M C p w st ltac:(lia) Hbuf Hs Hio)
        as (fuel & w' & st' & Hrun & [Hb' Hs'] & _ & Hcs).
      exists fuel, w', st'. split; [exact Hrun|].
      split; [exact Hb'|]. right. split; [exact Hs'|exact Hcs].
    + destruct (Writer_Write_open z M C p taken w st ltac:(lia)
                  (conj Hbuf Hs) Hcs)
        as (fuel & w' & st' & Hrun & _ & [Hb' Hs'] & Hcs').
      exists fuel, w', st'. split; [exact Hrun|].
      split; [exact Hb'|]. right. split; [exact Hs'|exact Hcs'].
Qed.

(** [Flush] leaves the Writer where it was in its frame. *)
Lemma Writer_Flush_writing (taken : list byte) (w : Writer)
    (st : World E (list byte)) :
  w_writing M w st taken ->
  exists fuel w' st',
    Writer_Flush z buffer_sink fuel w st = Done (w', st', None) /\
    w_writing M w' st' taken.
Proof.
  intros [Hbuf [(Hs & Ht & Hio)|[Hs Hcs]]].
  - exists O, w, st. unfold Writer_Flush. rewrite Hs. cbn [Z.eqb].
    split; [reflexivity|]. split; [exact Hbuf|]. left. auto.
  - destruct (Writer_Flush_ok z M C taken w st (conj Hbuf Hs) Hcs)
      as (fuel & w' & st' & Hrun & _ & [Hb' Hs'] & Hcs').
    exists fuel, w', st'. split; [exact Hrun|].
    split; [exact Hb'|]. right. split; [exact Hs'|exact Hcs'].
Qed.

(** [Close] after at least one byte ends the frame. *)
Lemma Writer_Close_writing (taken : list byte) (w : Writer)
    (st : World E (list byte)) :
  w_writing M w st taken -> taken <> [] ->
  exists fuel w' st',
    Writer_Close z buffer_sink fuel w st = Done (w', st', None) /\
    w_stream w' = 0 /\ frame M taken (stream_io st').
Proof.
  intros [Hbuf [(_ & Ht & _)|[Hs Hcs]]] Hne; [contradiction|].
  destruct (Writer_Close_ok z M C taken false w st (conj Hbuf Hs) Hcs)
    as (fuel & w' & st' & Hrun & Hs' & _ & Hframe).
  exists fuel, w', st'. auto.
Qed.

(** Reading a frame to its end with an unused Reader. *)
Lemma read_back_ok (b : list byte) (r : Reader) (st : World E (list byte))
    (k : Z) :
  r_unused r -> frame M b (stream_io st) -> 0 < k ->
  exists r' st',
    read_all z buffer_source (Datatypes.S (List.length b))
      (Datatypes.S (List.length (stream_io st))) k [] r st =
    Done (r', st', (b, None)).
Proof.
  intros (H1 & H2 & H3 & H4 & H5 & H6 & H7) Hframe Hk.
  apply (read_all_ok z M C (List.length (stream_io st)) k b
           (Datatypes.S (List.length b)) Hk [] r st).
  - left. split; [|split; [reflexivity|lia]].
    repeat (split; [assumption|]). exact Hframe.
  - cbn. lia.
Qed.
End StreamRoundTrip.

(** ** Reading an empty source *)

(** A decoder that stands before a tag, stepped with no input: it asks
    for more and moves neither cursor. *)
Lemma toy_step_no_input (h : handle) (o : ZstdOutBuffer)
    (st : World Toy (list byte)) :
  oPos o = 0 -> 0 <= oSize o ->
  d_mode (engine st) = at_tag -> d_pending (engine st) = [] ->
  do_decompressStream toy h o (mkIn nil_pointer 0 0) st =
  (mkStep 1 0 0 [],
   log (call_decompressStream h o (mkIn nil_pointer 0 0) (mkStep 1 0 0 []))
     (with_engine
        (mkToy (c_pending (engine st)) (c_ended (engine st)) [] at_tag) st)).
Proof.
  intros Hpos Hsize Hmode Hpend. unfold do_decompressStream.
  cbn [decompressStream toy]. unfold toy_decompressStream.
  change (unread (mkIn nil_pointer 0 0)) with (@nil byte).
  rewrite Hmode, Hpend, Hpos. cbn [toy_decode app].
  change (len (@nil byte)) with 0.
  rewrite Z.sub_0_r, Z.min_r by exact Hsize.
  reflexivity.
Qed.

(** Against the reference engine, the loop of [Read] over an empty source
    is still running whatever the fuel: the source reports its end, the
    engine is stepped with no input, asks for more, and the loop goes
    round. *)
Lemma toy_Read_loop_empty (fuel : nat) :
  forall (r : Reader) (st : World Toy (list byte)),
  stream_io st = [] -> (r_stream r =? 0) = false ->
  d_mode (engine st) = at_tag -> d_pending (engine st) = [] ->
  readBuffer_mem r <> [] -> 0 < len (r_buffer r) ->
  r_inBuffer r = mkIn nil_pointer 0 0 ->
  r_end r = 0 -> r_streamEnded r = false ->
  Read_loop toy buffer_source fuel r st = OutOfFuel.
Proof.
  induction fuel as [|fuel IH];
    intros r st Hio Hs Hmode Hpend Hmem Hbuf Hin Hend Hended;
    cbn [Read_loop]; rewrite Hend, Hended; cbn [Z.eqb negb andb];
    [reflexivity|].
  unfold r_init_stream. rewrite Hs. unfold r_refill. rewrite Hin.
  cbn [iSize iPos Z.leb Z.compare]. cbv iota.
  unfold do_source_Read, buffer_source. rewrite Hio.
  destruct (Z.eqb_spec (len (r_buffer r)) 0) as [H0|_]; [lia|].
  cbn [Z.ltb Z.compare]. cbv iota beta.
  change (readBuffer_mem (set_r_inBuffer (mkIn nil_pointer 0 0)
            (set_r_buffer (overwrite (r_buffer r) []) r)))
    with (readBuffer_mem r).
  destruct (readBuffer_mem r) as [|m0 mem] eqn:Hm; [congruence|].
  rewrite <- Hm.
  cbn [r_stream r_outBuffer r_inBuffer set_r_outBuffer set_r_inBuffer
       set_r_buffer].
  rewrite toy_step_no_input;
    [|reflexivity|apply u64_range|exact Hmode|exact Hpend].
  unfold do_isError. cbn [hint]. change (isError toy 1) with 0.
  cbn [Z.eqb negb].
  cbn [r_after_step set_r_outBuffer r_outBuffer oPos out_pos set_r_end
       r_end].
  change (to_int 0) with 0. cbn [Z.ltb Z.compare]. cbv iota.
  apply IH.
  - reflexivity.
  - exact Hs.
  - reflexivity.
  - reflexivity.
  - apply stepped_mem_nonempty.
    change (readBuffer_mem r <> []). rewrite Hm. discriminate.
  - change (0 < len (overwrite (r_buffer r) [])).
    rewrite len_overwrite. exact Hbuf.
  - reflexivity.
  - reflexivity.
  - exact Hended.
Qed.

(** The same from a Reader that holds no session yet. *)
Lemma toy_Read_loop_empty_unused (fuel : nat) (r : Reader)
    (st : World Toy (list byte)) :
  stream_io st = [] -> r_stream r = 0 ->
  readBuffer_mem r <> [] -> 0 < len (r_buffer r) ->
  r_inBuffer r = mkIn nil_pointer 0 0 ->
  r_end r = 0 -> r_streamEnded r = false ->
  Read_loop toy buffer_source fuel r st = OutOfFuel.
Proof.
  intros Hio Hs Hmem Hbuf Hin Hend Hended.
  destruct (r_readBuffer r) as [|l] eqn:Hrb;
    [unfold readBuffer_mem in Hmem; rewrite Hrb in Hmem; congruence|].
  set (st1 := log (call_createDStream 2)
                (with_engine
                   (mkToy (c_pending (engine st)) (c_ended (engine st)) []
                      at_tag) st)).
  assert (Hinit : r_init_stream toy r st = (Some (set_r_stream 2 r), st1)).
  { unfold r_init_stream. rewrite Hs. cbn [Z.eqb]. unfold do_create.
    cbn [createDStream toy Z.eqb r_readBuffer set_r_stream].
    rewrite Hrb. reflexivity. }
  rewrite <- (toy_Read_loop_empty fuel (set_r_stream 2 r) st1);
    try reflexivity; try assumption.
  destruct fuel as [|fuel]; cbn [Read_loop r_end r_streamEnded
                                    set_r_stream];
    rewrite Hend, Hended; cbn [Z.eqb negb andb]; [reflexivity|].
  rewrite Hinit.
  unfold r_init_stream at 1. reflexivity.
Qed.

(** [Read] over an empty source, against the reference engine, does not
    return. *)
Lemma toy_Read_empty_never_returns (p : list byte) (r : Reader)
    (st : World Toy (list byte)) :
  stream_io st = [] -> r_stream r = 0 ->
  readBuffer_mem r <> [] -> 0 < len (r_buffer r) ->
  r_inBuffer r = mkIn nil_pointer 0 0 ->
  r_pos r = 0 -> r_end r = 0 -> r_streamEnded r = false ->
  never_returns (fun fuel => Reader_Read toy buffer_source fuel p r st).
Proof.
  intros Hio Hs Hmem Hbuf Hin Hpos Hend Hended fuel. unfold Reader_Read.
  rewrite Hpos, Hend, Hended. cbn [Z.ltb Z.compare].
  rewrite toy_Read_loop_empty_unused; try reflexivity; assumption.
Qed.

(** * Round trips *)

Lemma to_int_range (x : Z) : - 2 ^ 63 <= to_int x < 2 ^ 63.
Proof.
  unfold to_int. pose proof (Z.mod_pos_bound x (2 ^ 64) ltac:(lia)) as H.
  destruct (Z.ltb_spec (x mod 2 ^ 64) (2 ^ 63)); lia.
Qed.

(** What [Decompress] allocates: never less than 1024 bytes when the
    caller leaves the size to it, and always within [int]. *)
Lemma effective_maxSize_default (n maxSize : Z) :
  maxSize <= 0 -> 1024 <= effective_maxSize n maxSize.
Proof.
  intros H. unfold effective_maxSize.
  destruct (Z.leb_spec maxSize 0) as [_|Hpos]; [|lia].
  destruct (Z.ltb_spec (wrap_int (n * 5)) 1024); lia.
Qed.

Lemma effective_maxSize_int (n maxSize : Z) :
  maxSize < 2 ^ 63 -> effective_maxSize n maxSize < 2 ^ 63.
Proof.
  intros H. unfold effective_maxSize, wrap_int.
  pose proof (to_int_range (n * 5)) as Hr.
  destruct (Z.leb_spec maxSize 0); [|lia].
  destruct (Z.ltb_spec (to_int (n * 5)) 1024); lia.
Qed.

(** ** C8: Flush does not end the frame *)

(** X2.  C8, as the code has it.  Over an engine that keeps the streaming
    contract and a byte buffer as sink, take a Writer that has accepted
    the payload [taken] and has not been closed.  [Flush] returns without
    error and leaves the Writer in the same frame, still open.  A [Write]
    of [p] and a [Close] then return without error, and, provided at least
    one byte has been written in all, the byte buffer holds exactly one
    frame, which carries [taken ++ p]: an unused Reader reads it back as
    [taken ++ p] and then reports the end of the stream, whatever the size
    of the buffers of its caller. *)
Theorem flush_keeps_frame_open (E : Type) (z : Zstd E) (M : StreamModel E)
    (w : Writer) (st : World E (list byte)) (taken p : list byte)
    (r : Reader) (k : Z) :
  StreamCodec z M ->
  w_writing M w st taken -> len p < 2 ^ 63 -> taken ++ p <> [] ->
  r_unused r -> 0 < k <= maxAlloc ->
  exists f1 w1 st1,
    Writer_Flush z buffer_sink f1 w st = Done (w1, st1, None) /\
    w_writing M w1 st1 taken /\
    exists f2 w2 st2,
      Writer_Write z buffer_sink f2 p w1 st1 =
        Done (w2, st2, (len p, None)) /\
      exists f3 w3 st3,
        Writer_Close z buffer_sink f3 w2 st2 = Done (w3, st3, None) /\
        frame M (taken ++ p) (stream_io st3) /\
        exists rounds f4 r' st4,
          read_all z buffer_source rounds f4 k [] r st3 =
          Done (r', st4, (taken ++ p, None)).
Proof.
  intros C Hw Hp Hne Hr [Hk _].
  destruct (Writer_Flush_writing z M C taken w st Hw)
    as (f1 & w1 & st1 & Hflush & Hw1).
  exists f1, w1, st1. split; [exact Hflush|]. split; [exact Hw1|].
  destruct (Writer_Write_writing z M C p taken w1 st1 Hw1 Hp)
    as (f2 & w2 & st2 & Hwrite & Hw2).
  exists f2, w2, st2. split; [exact Hwrite|].
  destruct (Writer_Close_writing z M C (taken ++ p) w2 st2 Hw2 Hne)
    as (f3 & w3 & st3 & Hclose & _ & Hframe).
  exists f3, w3, st3. split; [exact Hclose|]. split; [exact Hframe|].
  destruct (read_back_ok z M C (taken ++ p) r st3 k Hr Hframe Hk)
    as (r' & st4 & Hread).
  exists (Datatypes.S (List.length (taken ++ p))),
    (Datatypes.S (List.length (stream_io st3))), r', st4.
  exact Hread.
Qed.

(** On the reference engine: a Writer that has accepted one byte, then
    flushed, then two more bytes, then closed. *)
Lemma flush_keeps_frame_open_witness :
  exists w st,
    Writer_Write toy buffer_sink 5 [x61] small_writer (toy_world []) =
      Done (w, st, (1, None)) /\
    exists f1 w1 st1,
      Writer_Flush toy buffer_sink f1 w st = Done (w1, st1, None) /\
      w_writing toy_model w1 st1 [x61] /\
      exists f2 w2 st2,
        Writer_Write toy buffer_sink f2 [x62; x63] w1 st1 =
          Done (w2, st2, (2, None)) /\
        exists f3 w3 st3,
          Writer_Close toy buffer_sink f3 w2 st2 = Done (w3, st3, None) /\
          frame toy_model [x61; x62; x63] (stream_io st3) /\
          exists rounds f4 r' st4,
            read_all toy buffer_source rounds f4 2 [] small_reader st3 =
            Done (r', st4, ([x61; x62; x63], None)).
Proof.
  do 2 eexists. run_and_keep Hrun.
  apply (flush_keeps_frame_open Toy toy toy_model _ _ [x61] [x62; x63]
           small_reader 2 toy_stream_codec).
  - split; [vm_compute; split; reflexivity|].
    right. split; [reflexivity|]. vm_compute. split; reflexivity.
  - vm_compute. reflexivity.
  - discriminate.
  - vm_compute. repeat split; try reflexivity. right. split; reflexivity.
  - unfold maxAlloc. lia.
Defined.

(** C8 as stated fails for a Writer that is given no byte: [Flush], an
    empty [Write] and [Close] all return without error, the byte buffer
    stays empty, which is not a frame, and a Reader over it does not
    return. *)
Lemma flush_then_nothing_written_leaves_no_frame :
  match Writer_Flush toy buffer_sink 5 small_writer (toy_world []) with
  | Done (w1, st1, None) =>
      match Writer_Write toy buffer_sink 5 [] w1 st1 with
      | Done (w2, st2, (n, None)) =>
          match Writer_Close toy buffer_sink 5 w2 st2 with
          | Done (w3, st3, None) =>
              n = 0 /\ stream_io st3 = [] /\
              ~ frame toy_model [] (stream_io st3) /\
              never_returns
                (fun fuel =>
                   Reader_Read toy buffer_source fuel (make 2) small_reader
                     st3)
          | _ => False
          end
      | _ => False
      end
  | _ => False
  end.
Proof.
  cbv beta iota delta [Writer_Flush Writer_Write Writer_Close Close_body
    Close_deferred small_writer w_stream w_ctx len List.length Z.of_nat
    Z.eqb negb set_w_ctx].
  split; [reflexivity|]. split; [reflexivity|].
  split; [discriminate|].
  apply toy_Read_empty_never_returns; try reflexivity.
  vm_compute. discriminate.
Qed.

(** ** C1: round trips *)

(** X1.  C1, as the code has it.  Over an engine that keeps the two codec
    contracts, for every payload [b] whose compression bound can be
    allocated and every level from 1 to 22: [Compress] returns a
    compressed form [c] of [b], the empty payload included, and
    [Decompress] returns [b] from it whenever [b] fits the size that
    [Decompress] settles from [maxSize] and that size can be allocated:
    [maxSize] itself when it is positive, and otherwise five times the
    length of [c], or 1024 if that is more.  A size above the limit of the
    allocator makes [Decompress] panic before it calls the engine.  When
    [b] is not empty, a Writer that has accepted nothing, given [b] and
    closed, leaves exactly one frame in the byte buffer, and an unused
    Reader reads [b] back from it and then reports the end of the
    stream. *)
Theorem round_trip (E S : Type) (z : Zstd E) (M : StreamModel E)
    (b : list byte) (level maxSize k : Z) (st0 st0' : World E S)
    (w : Writer) (r : Reader) (st : World E (list byte)) :
  OneShotCodec z -> StreamCodec z M ->
  len b < 2 ^ 62 -> level_in_range level ->
  compressBound z (len b) <= maxAlloc ->
  w_writing M w st [] -> r_unused r -> 0 < k <= maxAlloc ->
  (exists c st1,
     Zstd_Compress z b level st0 = Done (some_bytes c, None, st1) /\
     (len b <= effective_maxSize (len c) maxSize <= maxAlloc ->
      exists st2,
        Zstd_Decompress z c maxSize st0' = Done (some_bytes b, None, st2)) /\
     (b <> [] -> maxAlloc < effective_maxSize (len c) maxSize ->
      Zstd_Decompress z c maxSize st0' =
        Panic "makeslice: len out of range")) /\
  (b <> [] ->
   exists f1 w1 st1,
     Writer_Write z buffer_sink f1 b w st = Done (w1, st1, (len b, None)) /\
     exists f2 w2 st2,
       Writer_Close z buffer_sink f2 w1 st1 = Done (w2, st2, None) /\
       frame M b (stream_io st2) /\
       exists rounds f3 r' st3,
         read_all z buffer_source rounds f3 k [] r st2 =
         Done (r', st3, (b, None))).
Proof.
  intros O C Hb Hlevel Halloc Hw Hr [Hk _]. split.
  - destruct (Z.eqb_spec (len b) 0) as [H0|Hn0].
    + apply len_zero_nil in H0. subst b.
      exists [], st0. split; [reflexivity|].
      split; [intros _; exists st0'; reflexivity|].
      intros Hne. now contradiction Hne.
    + pose proof (len_nonneg _ b) as Hb0.
      destruct (Zstd_Compress_ok z O b level st0 ltac:(lia) Hlevel Halloc)
        as (c & st1 & Hrun & Hc & Hdec).
      assert (Hlim : maxAlloc < 2 ^ 63) by (unfold maxAlloc; lia).
      exists c, st1. split; [exact Hrun|]. split.
      * intros Hfit.
        apply (Zstd_Decompress_ok z c b maxSize st0' ltac:(lia) ltac:(lia)
                 Hdec Hfit).
      * intros _ Hbig. unfold Zstd_Decompress.
        destruct (Z.eqb_spec (len c) 0) as [Hc0|_]; [lia|].
        unfold makeslice_ok.
        destruct (Z.leb_spec (effective_maxSize (len c) maxSize) maxAlloc);
          [lia|].
        rewrite andb_false_r. reflexivity.
  - intros Hne.
    destruct (Writer_Write_writing z M C b [] w st Hw ltac:(lia))
      as (f1 & w1 & st1 & Hwrite & Hw1).
    exists f1, w1, st1. split; [exact Hwrite|].
    cbn [app] in Hw1.
    destruct (Writer_Close_writing z M C b w1 st1 Hw1 Hne)
      as (f2 & w2 & st2 & Hclose & _ & Hframe).
    exists f2, w2, st2. split; [exact Hclose|]. split; [exact Hframe|].
    destruct (read_back_ok z M C b r st2 k Hr Hframe Hk)
      as (r' & st3 & Hread).
    exists (Datatypes.S (List.length b)),
      (Datatypes.S (List.length (stream_io st2))), r', st3.
    exact Hread.
Qed.

(** On the reference engine, with the payload [aab], the default level
    and the size left to [Decompress]. *)
Lemma round_trip_witness :
  (exists c st1,
     Zstd_Compress toy [x61; x61; x62] DefaultCompression (toy_world []) =
       Done (some_bytes c, None, st1) /\
     (exists st2,
        Zstd_Decompress toy c 0 (toy_world []) =
        Done (some_bytes [x61; x61; x62], None, st2)) /\
     Zstd_Decompress toy c (2 ^ 48 + 1) (toy_world []) =
       Panic "makeslice: len out of range") /\
  (exists f1 w1 st1,
     Writer_Write toy buffer_sink f1 [x61; x61; x62] small_writer
       (toy_world []) = Done (w1, st1, (3, None)) /\
     exists f2 w2 st2,
       Writer_Close toy buffer_sink f2 w1 st1 = Done (w2, st2, None) /\
       frame toy_model [x61; x61; x62] (stream_io st2) /\
       exists rounds f3 r' st3,
         read_all toy buffer_source rounds f3 2 [] small_reader st2 =
         Done (r', st3, ([x61; x61; x62], None))).
Proof.
  destruct (round_trip Toy (list byte) toy toy_model [x61; x61; x62]
              DefaultCompression 0 2 (toy_world []) (toy_world [])
              small_writer small_reader (toy_world [])
              toy_one_shot_codec toy_stream_codec)
    as [(c & st1 & Hc & Hd & _) Hs].
  - vm_compute. reflexivity.
  - vm_compute. split; discriminate.
  - vm_compute. discriminate.
  - split; [vm_compute; split; reflexivity|].
    left. repeat split; reflexivity.
  - vm_compute. repeat split; try reflexivity. right. split; reflexivity.
  - unfold maxAlloc. lia.
  - assert (Hc' : Zstd_Compress toy [x61; x61; x62] DefaultCompression
                    (toy_world []) = Done (some_bytes c, None, st1))
      by exact Hc.
    vm_compute in Hc'. injection Hc' as <- <-.
    destruct (round_trip Toy (list byte) toy toy_model [x61; x61; x62]
                DefaultCompression (2 ^ 48 + 1) 2 (toy_world [])
                (toy_world []) small_writer small_reader (toy_world [])
                toy_one_shot_codec toy_stream_codec)
      as [(c2 & st2 & Hc2 & _ & Hpanic) _].
    + vm_compute. reflexivity.
    + vm_compute. split; discriminate.
    + vm_compute. discriminate.
    + split; [vm_compute; split; reflexivity|].
      left. repeat split; reflexivity.
    + vm_compute. repeat split; try reflexivity. right. split; reflexivity.
    + unfold maxAlloc. lia.
    + vm_compute in Hc2. injection Hc2 as <- <-.
      split.
      * eexists; eexists. split; [vm_compute; reflexivity|]. split.
        -- apply Hd. vm_compute. split; discriminate.
        -- apply Hpanic; [discriminate|]. vm_compute. reflexivity.
      * apply Hs. discriminate.
Defined.

(** C1 as stated fails on both paths.  One shot: 2000 equal bytes compress
    to 16 bytes, and [Decompress], left to settle the size, allocates 1024
    bytes and reports a fault.  Streaming: for the empty payload [Write]
    and [Close] return without error and without a byte in the buffer, and
    a Reader over it does not return. *)
Lemma round_trip_fails_oversized_and_empty :
  match
    Zstd_Compress toy (repeat x61 2000) DefaultCompression (toy_world [])
  with
  | Done (some_bytes c, None, st1) =>
      len c = 16 /\
      match Zstd_Decompress toy c 0 (toy_world []) with
      | Done (out, err, _) =>
          out = nil_bytes /\
          err = Some (Errorf "zstd decompression error: fake")
      | _ => False
      end
  | _ => False
  end /\
  match Writer_Write toy buffer_sink 5 [] small_writer (toy_world []) with
  | Done (w1, st1, (n, None)) =>
      match Writer_Close toy buffer_sink 5 w1 st1 with
      | Done (w2, st2, None) =>
          n = 0 /\ stream_io st2 = [] /\
          never_returns
            (fun fuel =>
               Reader_Read toy buffer_source fuel (make 2) small_reader st2)
      | _ => False
      end
  | _ => False
  end.
Proof.
  split.
  - vm_compute. repeat split.
  - cbv beta iota delta [Writer_Write Writer_Close Close_body
      Close_deferred small_writer w_stream w_ctx len List.length Z.of_nat
      Z.eqb negb set_w_ctx].
    split; [reflexivity|]. split; [reflexivity|].
    apply toy_Read_empty_never_returns; try reflexivity.
    vm_compute. discriminate.
Qed.

(** * Further properties of the adapters and of the one-shot functions *)

(** ** What [copy] leaves of its destination *)

Lemma overwrite_tail (dst src : list byte) :
  skipn (Z.to_nat (Z.min (len dst) (len src))) (overwrite dst src) =
  skipn (Z.to_nat (Z.min (len dst) (len src))) dst.
Proof.
  unfold overwrite, len.
  destruct (Nat.le_gt_cases (List.length src) (List.length dst)) as [Hle|Hgt].
  - replace (Z.to_nat (Z.min (Z.of_nat (List.length dst))
                         (Z.of_nat (List.length src))))
      with (List.length src) by lia.
    rewrite firstn_all2
      by (rewrite length_app, length_skipn; lia).
    rewrite skipn_app, Nat.sub_diag, skipn_all. reflexivity.
  - replace (Z.to_nat (Z.min (Z.of_nat (List.length dst))
                         (Z.of_nat (List.length src))))
      with (List.length dst) by lia.
    rewrite skipn_all. apply skipn_all2.
    rewrite length_firstn, length_app. lia.
Qed.

Lemma overwrite_head (dst src : list byte) :
  firstn (Z.to_nat (Z.min (len dst) (len src))) (overwrite dst src) =
  firstn (Z.to_nat (Z.min (len dst) (len src))) src.
Proof.
  unfold overwrite, len. rewrite firstn_firstn.
  replace (Nat.min (Z.to_nat (Z.min (Z.of_nat (List.length dst))
                                (Z.of_nat (List.length src))))
             (List.length dst))
    with (Z.to_nat (Z.min (Z.of_nat (List.length dst))
                      (Z.of_nat (List.length src)))) by lia.
  rewrite firstn_app.
  replace (Z.to_nat (Z.min (Z.of_nat (List.length dst))
                       (Z.of_nat (List.length src))) - List.length src)%nat
    with O by lia.
  cbn [firstn]. apply app_nil_r.
Qed.

Section ReadContract.
Context {E S : Type}.
Variable z : Zstd E.
Variable source : Source S.

(** X3.  [Read] keeps the contract of [io.Reader] on its count and on the
    caller's buffer, whatever the engine and the source do: the count is
    between 0 and [len(p)]; an error comes with the count 0 and an
    untouched buffer; the bytes stored are those of [r.readBuffer] between
    the position before the call and the position after it, and the rest
    of [p] is left as it was. *)
Theorem Read_count_and_buffer (fuel : nat) (p : list byte) (r r' : Reader)
    (st st' : World E S) (n : Z) (p' : list byte) (err : option error) :
  Reader_Read z source fuel p r st = Done (r', st', (n, p', err)) ->
  0 <= n <= len p /\ len p' = len p /\
  skipn (Z.to_nat n) p' = skipn (Z.to_nat n) p /\
  (err <> None -> n = 0 /\ p' = p) /\
  (0 < n ->
   err = None /\
   exists g,
     slice (readBuffer_mem r') (r_pos r' - n) (r_pos r') = Some g /\
     firstn (Z.to_nat n) p' = g).
Proof.
  assert (Hzero : forall q : list byte,
            0 <= 0 <= len q /\ len q = len q /\
            skipn (Z.to_nat 0) q = skipn (Z.to_nat 0) q /\
            (forall e : option error, e <> None -> 0 = 0 /\ q = q) /\
            (0 < 0 -> False)).
  { intros q. pose proof (len_nonneg _ q). repeat split; auto; lia. }
  assert (Hserve : forall (r1 : Reader) (st1 : World E S),
            r_serve p r1 st1 = Done (r', st', (n, p', err)) ->
            0 <= n <= len p /\ len p' = len p /\
            skipn (Z.to_nat n) p' = skipn (Z.to_nat n) p /\
            (err <> None -> n = 0 /\ p' = p) /\
            (0 < n ->
             err = None /\
             exists g,
               slice (readBuffer_mem r') (r_pos r' - n) (r_pos r') = Some g /\
               firstn (Z.to_nat n) p' = g)).
  { intros r1 st1 H. unfold r_serve in H.
    destruct (slice (readBuffer_mem r1) (r_pos r1) (r_end r1))
      as [staged|] eqn:Hslice; [|discriminate].
    unfold copy in H. injection H as <- <- <- <- <-.
    pose proof (slice_len _ _ _ _ Hslice) as [Hlen Hrange].
    pose proof (len_nonneg _ p) as Hp0.
    pose proof (len_nonneg _ staged) as Hs0.
    split; [lia|]. split; [apply len_overwrite|].
    split; [apply overwrite_tail|]. split; [congruence|].
    intros Hn. split; [reflexivity|].
    change (readBuffer_mem
              (set_r_pos (r_pos r1 + Z.min (len p) (len staged)) r1))
      with (readBuffer_mem r1).
    cbn [r_pos set_r_pos].
    replace (r_pos r1 + Z.min (len p) (len staged) -
             Z.min (len p) (len staged)) with (r_pos r1) by lia.
    eexists. split; [|reflexivity].
    rewrite overwrite_head.
    unfold slice in *.
    destruct (0 <=? r_pos r1) eqn:H0; [|discriminate].
    destruct (r_pos r1 <=? r_end r1) eqn:H1; [|discriminate].
    destruct (r_end r1 <=? len (readBuffer_mem r1)) eqn:H2; [|discriminate].
    cbn [andb] in *. injection Hslice as Hst.
    apply Z.leb_le in H0, H1, H2.
    assert (Hm : 0 < Z.min (len p) (len staged) <= r_end r1 - r_pos r1)
      by lia.
    generalize dependent (Z.min (len p) (len staged)). intros m Hn Hm.
    destruct (Z.leb_spec (r_pos r1) (r_pos r1 + m)); [|lia].
    destruct (Z.leb_spec (r_pos r1 + m) (len (readBuffer_mem r1))); [|lia].
    cbn [andb]. f_equal.
    rewrite <- Hst. rewrite firstn_firstn. f_equal. lia. }
  unfold Reader_Read. intros H.
  destruct (r_pos r <? r_end r); [exact (Hserve _ _ H)|].
  destruct (r_streamEnded r).
  { injection H as <- <- <- <- <-. destruct (Hzero p) as (A & B & C & D & F).
    repeat split; auto; try lia; contradiction. }
  destruct (Read_loop z source fuel _ st) as [[[r1 st1] res]| |] eqn:Hloop;
    try discriminate.
  destruct res as [[n0 err0]|].
  - apply Read_loop_any in Hloop as (_ & _ & _ & _ & Hret & _).
    destruct (Hret n0 err0 eq_refl) as (-> & _ & _).
    injection H as <- <- <- <- <-. destruct (Hzero p) as (A & B & C & D & F).
    repeat split; auto; try lia; contradiction.
  - destruct (r_end r1 =? 0); [|exact (Hserve _ _ H)].
    destruct (r_streamEnded r1); injection H as <- <- <- <- <-;
      destruct (Hzero p) as (A & B & C & D & F);
      repeat split; auto; try lia; contradiction.
Qed.
End ReadContract.

(** On the reference engine: the first [Read] of a frame of three bytes
    into a buffer of two. *)
Lemma Read_count_and_buffer_witness :
  exists r' st' n p' err,
    Reader_Read toy buffer_source 5 (make 2) small_reader
      (toy_world (toy_frame [x61; x62; x63])) = Done (r', st', (n, p', err)) /\
    0 <= n <= len (make 2) /\ len p' = len (make 2) /\
    skipn (Z.to_nat n) p' = skipn (Z.to_nat n) (make 2) /\
    (err <> None -> n = 0 /\ p' = make 2) /\
    (0 < n ->
     err = None /\
     exists g,
       slice (readBuffer_mem r') (r_pos r' - n) (r_pos r') = Some g /\
       firstn (Z.to_nat n) p' = g).
Proof.
  do 5 eexists. run_and_keep Hrun.
  exact (Read_count_and_buffer toy buffer_source _ _ _ _ _ _ _ _ _ Hrun).
Defined.

Section ReadErrors.
Context {E S : Type}.
Variable z : Zstd E.
Variable source : Source S.

(** X4.  Every error of [Read] other than the end of the stream has one of
    three origins, which the trace shows.  The session could not be
    created: the last call is a creation that returned [nil].  The engine
    reported a fault: the last two calls are the error test, positive, and
    the lookup of the error name that the message carries, and the Reader
    is marked as ended.  The source failed: the last call is the read that
    returned this very error, the Reader is not marked as ended, and the
    bytes that read delivered, if any, are kept as the input of the next
    step. *)
Theorem Read_error_origin (fuel : nat) (p : list byte) (r r' : Reader)
    (st st' : World E S) (n : Z) (p' : list byte) (e : error) :
  Reader_Read z source fuel p r st = Done (r', st', (n, p', Some e)) ->
  e <> io_EOF ->
  (e = Errorf "failed to create decompression stream" /\
   r_stream r' = 0 /\
   exists older, calls st' = call_createDStream 0 :: older) \/
  (exists code c older,
     e = Errorf ("zstd decompression error: " ++ getErrorName z code) /\
     c <> 0 /\ r_streamEnded r' = true /\
     calls st' = call_getErrorName code :: call_isError code c :: older) \/
  (exists cap k older,
     r_streamEnded r' = false /\
     calls st' = source_Read cap k (Some e) :: older /\
     (0 < k -> r_inBuffer r' = mkIn (address_of (r_buffer r')) (u64 k) 0)).
Proof.
  unfold Reader_Read. intros H Hne.
  destruct (r_pos r <? r_end r).
  { apply r_serve_spec in H as (_ & Herr & _). discriminate. }
  destruct (r_streamEnded r).
  { injection H as <- <- <- <- <-. contradiction. }
  destruct (Read_loop z source fuel _ st) as [[[r1 st1] res]| |] eqn:Hloop;
    try discriminate.
  destruct res as [[n0 [e0|]]|].
  - injection H as <- <- <- <- <-.
    apply Read_loop_error in Hloop
      as [Ha|[Hb|(cap & k & older & _ & Hc)]];
      [left; exact Ha|right; left; exact Hb|].
    right. right. exists cap, k, older. exact Hc.
  - discriminate.
  - destruct (r_end r1 =? 0).
    + destruct (r_streamEnded r1);
        [injection H as <- <- <- <- <-; contradiction|discriminate].
    + apply r_serve_spec in H as (_ & Herr & _). discriminate.
Qed.

(** X5.  The end of the stream is final: once [Read] has reported it,
    every later [Read], whatever its buffer, reports it again, with the
    count 0, an untouched buffer, no call to the engine or to the source
    and no change to the Reader. *)
Theorem Read_EOF_is_final (fuel fuel' : nat) (p q : list byte)
    (r r' : Reader) (st st' : World E S) (n : Z) (p' : list byte) :
  Reader_Read z source fuel p r st = Done (r', st', (n, p', Some io_EOF)) ->
  Reader_Read z source fuel' q r' st' = Done (r', st', (0, q, Some io_EOF)).
Proof.
  unfold Reader_Read at 1. intros H.
  destruct (r_pos r <? r_end r) eqn:Hlt.
  { apply r_serve_spec in H as (_ & Herr & _). discriminate. }
  destruct (r_streamEnded r) eqn:Hended.
  { injection H as <- <- <- <-. unfold Reader_Read.
    now rewrite Hlt, Hended. }
  destruct (Read_loop z source fuel _ st) as [[[r1 st1] res]| |] eqn:Hloop;
    try discriminate.
  destruct res as [[n0 err0]|].
  - apply Read_loop_any in Hloop as (_ & _ & _ & _ & Hret & _).
    destruct (Hret n0 err0 eq_refl) as (_ & _ & Hne).
    injection H as <- <- <- <- Herr. congruence.
  - apply Read_loop_any in Hloop as (_ & Hpos & _).
    cbn [r_pos set_r_end set_r_pos] in Hpos.
    destruct (Z.eqb_spec (r_end r1) 0) as [He|He].
    + destruct (r_streamEnded r1) eqn:Hended1; [|discriminate].
      injection H as <- <- <- <-. unfold Reader_Read.
      rewrite Hpos, He, Hended1. reflexivity.
    + apply r_serve_spec in H as (_ & Herr & _). discriminate.
Qed.
End ReadErrors.

(** A source that fails at once, in front of the reference engine. *)
Lemma Read_error_origin_witness :
  exists r' st' n p' e,
    Reader_Read toy (errorReader (io_error 5)) 5 (make 2) small_reader
      (world0 toy0 tt) = Done (r', st', (n, p', Some e)) /\
    e <> io_EOF /\
    ((e = Errorf "failed to create decompression stream" /\
      r_stream r' = 0 /\
      exists older, calls st' = call_createDStream 0 :: older) \/
     (exists code c older,
        e = Errorf ("zstd decompression error: " ++ getErrorName toy code) /\
        c <> 0 /\ r_streamEnded r' = true /\
        calls st' = call_getErrorName code :: call_isError code c :: older) \/
     (exists cap k older,
        r_streamEnded r' = false /\
        calls st' = source_Read cap k (Some e) :: older /\
        (0 < k -> r_inBuffer r' = mkIn (address_of (r_buffer r')) (u64 k) 0))).
Proof.
  do 5 eexists. run_and_keep Hrun.
  assert (Hne : io_error 5 <> io_EOF) by discriminate.
  split; [exact Hne|].
  exact (Read_error_origin toy (errorReader (io_error 5)) _ _ _ _ _ _ _ _ _
           Hrun Hne).
Defined.

(** The frame of the empty payload, read to its end and then once more. *)
Lemma Read_EOF_is_final_witness :
  exists r' st' n p',
    Reader_Read toy buffer_source 5 (make 2) small_reader (toy_world [x00]) =
      Done (r', st', (n, p', Some io_EOF)) /\
    Reader_Read toy buffer_source 0 (make 3) r' st' =
      Done (r', st', (0, make 3, Some io_EOF)).
Proof.
  do 4 eexists. run_and_keep Hrun.
  exact (Read_EOF_is_final toy buffer_source _ 0 _ (make 3) _ _ _ _ _ _ Hrun).
Defined.

(** ** One-shot results and the capacity allocated *)

Section OneShotBounds.
Context {E S : Type}.
Variable z : Zstd E.

(** X6.  The one-shot functions never return more bytes than they have
    allocated, whatever the engine reports.  What [Compress] returns
    without error is not longer than the bound it asked the engine for;
    what [Decompress] returns without error is not longer than the size it
    settled, which is [maxSize] when [maxSize] is positive: a result that
    the engine claims to be larger makes the function panic instead. *)
Theorem one_shot_within_capacity (src : list byte) (level maxSize : Z)
    (st : World E S) :
  (forall d st',
     Zstd_Compress z src level st = Done (some_bytes d, None, st') ->
     d = [] \/ len d <= to_int (u64 (compressBound z (u64 (len src))))) /\
  (forall d st',
     Zstd_Decompress z src maxSize st = Done (some_bytes d, None, st') ->
     d = [] \/
     (len d <= effective_maxSize (len src) maxSize /\
      (0 < maxSize -> len d <= maxSize))).
Proof.
  split; intros d st' H.
  - unfold Zstd_Compress in H.
    destruct (len src =? 0); [injection H as <- <-; now left|].
    unfold Zstd_CompressBound, do_compressBound in H.
    set (cap := to_int (u64 (compressBound z (u64 (len src))))) in *.
    destruct (makeslice_ok cap) eqn:Hok; cbn [negb] in H; [|discriminate].
    assert (Hcap : 0 <= cap).
    { unfold makeslice_ok in Hok. apply andb_prop in Hok as [Hok _].
      now apply Z.leb_le in Hok. }
    destruct (make cap) as [|m0 mk] eqn:Hmk; [discriminate|].
    rewrite <- Hmk in H.
    destruct (do_compress z (u64 cap) src level _) as [[result out] st2].
    unfold do_isError in H.
    destruct (negb (isError z result =? 0)); [discriminate|].
    destruct (slice (overwrite (make cap) out) 0 result) as [d'|] eqn:Hs;
      [|discriminate].
    injection H as <- <-. right.
    pose proof (slice_len _ _ _ _ Hs) as [Hlen _].
    unfold slice in Hs. rewrite len_overwrite, len_make in Hs by exact Hcap.
    destruct (0 <=? 0); [|discriminate].
    destruct (0 <=? result); [|discriminate].
    destruct (Z.leb_spec result cap); [|discriminate]. lia.
  - unfold Zstd_Decompress in H.
    destruct (len src =? 0); [injection H as <- <-; now left|].
    set (m := effective_maxSize (len src) maxSize) in *.
    destruct (makeslice_ok m); cbn [negb] in H; [|discriminate].
    destruct (make m) as [|m0 mk] eqn:Hmk; [discriminate|].
    assert (Hm : 0 < m).
    { destruct (Z.ltb_spec 0 m) as [Hpos|Hnp]; [exact Hpos|].
      unfold make in Hmk. replace (Z.to_nat m) with O in Hmk by lia.
      discriminate. }
    rewrite <- Hmk in H.
    destruct (do_decompress z (u64 m) src _) as [[result out] st2].
    unfold do_isError in H.
    destruct (negb (isError z result =? 0)); [discriminate|].
    destruct (slice (overwrite (make m) out) 0 result) as [d'|] eqn:Hs;
      [|discriminate].
    injection H as <- <-. right.
    pose proof (slice_len _ _ _ _ Hs) as [Hlen _].
    unfold slice in Hs. rewrite len_overwrite, len_make in Hs by lia.
    destruct (0 <=? 0); [|discriminate].
    destruct (0 <=? result); [|discriminate].
    destruct (Z.leb_spec result m); [|discriminate].
    split; [lia|]. intros Hpos. unfold m, effective_maxSize in *.
    destruct (Z.leb_spec maxSize 0); lia.
Qed.
End OneShotBounds.

(** On the reference engine: three bytes compressed and decompressed. *)
Lemma one_shot_within_capacity_witness :
  exists c st1 d st2,
    Zstd_Compress toy [x61; x61; x62] DefaultCompression (toy_world []) =
      Done (some_bytes c, None, st1) /\
    (c = [] \/
     len c <= to_int (u64 (compressBound toy (u64 (len [x61; x61; x62]))))) /\
    Zstd_Decompress toy c 2000 (toy_world []) =
      Done (some_bytes d, None, st2) /\
    (d = [] \/
     (len d <= effective_maxSize (len c) 2000 /\
      (0 < 2000 -> len d <= 2000))).
Proof.
  do 4 eexists. run_and_keep Hc.
  split; [exact (proj1 (one_shot_within_capacity toy _ DefaultCompression 0
                          _) _ _ Hc)|].
  run_and_keep Hd.
  exact (proj2 (one_shot_within_capacity toy _ 0 2000 _) _ _ Hd).
Defined.

(** ** From the constructors to the end of the stream *)

Section Constructors.
Context {E : Type}.
Variable z : Zstd E.
Variable M : StreamModel E.
Hypothesis C : StreamCodec z M.

Lemma NewWriter_writing (level : Z) (st : World E (list byte)) :
  stream_io st = [] ->
  w_writing M (fst (NewWriter z level st)) (snd (NewWriter z level st)) [].
Proof.
  intros Hio. unfold NewWriter, do_create.
  destruct (createCCtx z (engine st)) as [ctx e1]. cbn [fst snd].
  split.
  - cbn [w_buffer]. rewrite len_make by (unfold defaultWriteBufferSize; lia).
    unfold defaultWriteBufferSize. lia.
  - left. repeat split; try reflexivity. exact Hio.
Qed.

Lemma NewReader_unused (st : World E (list byte)) :
  r_unused (fst (NewReader z st)) /\
  stream_io (snd (NewReader z st)) = stream_io st.
Proof.
  unfold NewReader, do_create.
  destruct (createDCtx z (engine st)) as [ctx e1]. cbn [fst snd].
  split; [|reflexivity].
  repeat (split; [reflexivity|]). split; [|left; reflexivity].
  cbn [r_buffer]. rewrite len_make by (unfold defaultReadBufferSize; lia).
  unfold defaultReadBufferSize. lia.
Qed.
End Constructors.

(** X7.  A whole session from the constructors, over an engine that keeps
    the streaming contract (which follows a decompression session up to
    the step that reports the end of its frame, and no further) and a
    byte buffer that starts empty: the Writer that [NewWriter] builds,
    whatever its level, takes a non-empty payload [b] in one [Write] and
    is closed without error, holding neither session nor context
    afterwards; the Reader that [NewReader] then builds over the same
    buffer delivers [b] and the end of the stream to a caller that reads
    with a buffer of any positive size that can be allocated; and [Close]
    leaves that Reader with neither session nor context. *)
Theorem session_from_constructors (E : Type) (z : Zstd E)
    (M : StreamModel E) (b : list byte) (level k : Z)
    (st : World E (list byte)) :
  StreamCodec z M ->
  stream_io st = [] -> b <> [] -> len b < 2 ^ 63 -> 0 < k <= maxAlloc ->
  exists f1 w1 st1,
    Writer_Write z buffer_sink f1 b (fst (NewWriter z level st))
      (snd (NewWriter z level st)) = Done (w1, st1, (len b, None)) /\
    exists f2 w2 st2,
      Writer_Close z buffer_sink f2 w1 st1 = Done (w2, st2, None) /\
      w_stream w2 = 0 /\ w_ctx w2 = 0 /\
      exists rounds f3 r1 st3,
        read_all z buffer_source rounds f3 k [] (fst (NewReader z st2))
          (snd (NewReader z st2)) = Done (r1, st3, (b, None)) /\
        exists r2 st4,
          Reader_Close z r1 st3 = (r2, st4, None) /\
          r_stream r2 = 0 /\ r_ctx r2 = 0.
Proof.
  intros C Hio Hne Hb [Hk _].
  pose proof (NewWriter_writing z M level st Hio) as Hw.
  destruct (Writer_Write_writing z M C b [] _ _ Hw Hb)
    as (f1 & w1 & st1 & Hwrite & Hw1).
  exists f1, w1, st1. split; [exact Hwrite|]. cbn [app] in Hw1.
  destruct Hw1 as [Hbuf [(_ & Hnil & _)|[Hs Hcs]]]; [contradiction|].
  destruct (Writer_Close_ok z M C b false w1 st1 (conj Hbuf Hs) Hcs)
    as (f2 & w2 & st2 & Hclose & Hs2 & Hc2 & Hframe).
  exists f2, w2, st2. split; [exact Hclose|]. split; [exact Hs2|].
  split; [exact Hc2|].
  destruct (NewReader_unused z st2) as [Hr Hio2].
  rewrite <- Hio2 in Hframe.
  destruct (read_back_ok z M C b _ _ k Hr Hframe Hk) as (r1 & st3 & Hread).
  do 2 eexists. exists r1, st3. split; [exact Hread|].
  destruct (Reader_Close z r1 st3) as [[r2 st4] err] eqn:Hrc.
  exists r2, st4.
  destruct (Reader_Close_spec z r1 r2 st3 st4 err Hrc)
    as (-> & Hs4 & Hc4 & _).
  split; [reflexivity|]. split; [exact Hs4|exact Hc4].
Qed.

(** On the reference engine that answers a positive hint once a frame
    has ended, with the default level and a payload of two bytes read
    back two bytes at a time. *)
Lemma session_from_constructors_witness :
  exists f1 w1 st1,
    Writer_Write toy_expecting buffer_sink f1 [x61; x62]
      (fst (NewWriter toy_expecting DefaultCompression (toy_world [])))
      (snd (NewWriter toy_expecting DefaultCompression (toy_world []))) =
      Done (w1, st1, (len [x61; x62], None)) /\
    exists f2 w2 st2,
      Writer_Close toy_expecting buffer_sink f2 w1 st1 =
        Done (w2, st2, None) /\
      w_stream w2 = 0 /\ w_ctx w2 = 0 /\
      exists rounds f3 r1 st3,
        read_all toy_expecting buffer_source rounds f3 2 []
          (fst (NewReader toy_expecting st2))
          (snd (NewReader toy_expecting st2)) =
          Done (r1, st3, ([x61; x62], None)) /\
        exists r2 st4,
          Reader_Close toy_expecting r1 st3 = (r2, st4, None) /\
          r_stream r2 = 0 /\ r_ctx r2 = 0.
Proof.
  apply (session_from_constructors Toy toy_expecting toy_model [x61; x62]
           DefaultCompression 2 (toy_world []) toy_expecting_stream_codec).
  - reflexivity.
  - discriminate.
  - vm_compute. reflexivity.
  - unfold maxAlloc. lia.
Defined.

(** ** The compression level of a streaming Writer *)

Section WriterLevel.
Context {E S : Type}.
Variable z : Zstd E.
Variable sink : Sink S.
Variable l : Z.

Lemma w_setup_out_level (w : Writer) :
  w_setup_out (set_w_level l w) = option_map (set_w_level l) (w_setup_out w).
Proof. unfold w_setup_out. cbn. destruct (w_buffer w); reflexivity. Qed.

Lemma Write_loop_level (fuel : nat) :
  forall (lenp : Z) (w : Writer) (st : World E S),
  Write_loop z sink fuel lenp (set_w_level l w) st =
  with_level l (Write_loop z sink fuel lenp w st).
Proof.
  induction fuel as [|fuel IH]; intros lenp w st; cbn [Write_loop];
    change (w_inBuffer (set_w_level l w)) with (w_inBuffer w);
    destruct (iPos (w_inBuffer w) <? iSize (w_inBuffer w));
    try reflexivity.
  rewrite w_setup_out_level.
  destruct (w_setup_out w) as [w1|]; [|reflexivity]. cbn [option_map].
  change (w_stream (set_w_level l w1)) with (w_stream w1).
  change (w_outBuffer (set_w_level l w1)) with (w_outBuffer w1).
  change (w_inBuffer (set_w_level l w1)) with (w_inBuffer w1).
  destruct (do_compressStream2 z _ _ _ EndContinue st) as [r st1].
  change (w_after_step r (set_w_level l w1))
    with (set_w_level l (w_after_step r w1)).
  destruct (do_isError z (hint r) st1) as [e st2].
  destruct (negb (e =? 0)).
  - destruct (do_getErrorName z (hint r) st2). reflexivity.
  - change (w_drain sink (set_w_level l (w_after_step r w1)) st2)
      with (w_drain sink (w_after_step r w1) st2).
    destruct (w_drain sink (w_after_step r w1) st2) as [[[err|] st3]| |];
      try reflexivity.
    apply IH.
Qed.

Lemma Flush_loop_level (fuel : nat) :
  forall (w : Writer) (st : World E S),
  Flush_loop z sink fuel (set_w_level l w) st =
  with_level l (Flush_loop z sink fuel w st).
Proof.
  induction fuel as [|fuel IH]; intros w st; cbn [Flush_loop];
    [reflexivity|].
  rewrite w_setup_out_level.
  destruct (w_setup_out w) as [w1|]; [|reflexivity]. cbn [option_map].
  change (w_stream (set_w_level l w1)) with (w_stream w1).
  change (w_outBuffer (set_w_level l w1)) with (w_outBuffer w1).
  change (w_inBuffer (set_w_level l w1)) with (w_inBuffer w1).
  destruct (do_compressStream2 z _ _ _ EndFlush st) as [r st1].
  change (w_after_step r (set_w_level l w1))
    with (set_w_level l (w_after_step r w1)).
  destruct (do_isError z (hint r) st1) as [e st2].
  destruct (negb (e =? 0)).
  - destruct (do_getErrorName z (hint r) st2). reflexivity.
  - change (w_drain sink (set_w_level l (w_after_step r w1)) st2)
      with (w_drain sink (w_after_step r w1) st2).
    destruct (w_drain sink (w_after_step r w1) st2) as [[[err|] st3]| |];
      try reflexivity.
    destruct (hint r =? 0); [reflexivity|]. apply IH.
Qed.

Lemma Close_loop_level (fuel : nat) :
  forall (w : Writer) (st : World E S),
  Close_loop z sink fuel (set_w_level l w) st =
  with_level l (Close_loop z sink fuel w st).
Proof.
  induction fuel as [|fuel IH]; intros w st; cbn [Close_loop];
    [reflexivity|].
  rewrite w_setup_out_level.
  destruct (w_setup_out w) as [w1|]; [|reflexivity]. cbn [option_map].
  change (w_stream (set_w_level l w1)) with (w_stream w1).
  change (w_outBuffer (set_w_level l w1)) with (w_outBuffer w1).
  change (w_inBuffer (set_w_level l w1)) with (w_inBuffer w1).
  destruct (do_compressStream2 z _ _ _ EndEnd st) as [r st1].
  change (w_after_step r (set_w_level l w1))
    with (set_w_level l (w_after_step r w1)).
  destruct (do_isError z (hint r) st1) as [e st2].
  destruct (negb (e =? 0)).
  - unfold w_free_stream.
    destruct (do_getErrorName z (hint r) _). reflexivity.
  - change (w_drain sink (set_w_level l (w_after_step r w1)) st2)
      with (w_drain sink (w_after_step r w1) st2).
    destruct (w_drain sink (w_after_step r w1) st2) as [[[err|] st3]| |];
      try reflexivity.
    destruct (hint r =? 0); [reflexivity|]. apply IH.
Qed.

(** X8.  The compression level of a Writer plays no part in streaming:
    [Write], [Flush] and [Close] on a Writer whose level has been replaced
    make the same calls with the same arguments, return the same results
    and leave the same Writer, its level apart.  No call to the engine
    carries the level. *)
Theorem stream_ignores_level (fuel : nat) (p : list byte) (w : Writer)
    (st : World E S) :
  Writer_Write z sink fuel p (set_w_level l w) st =
    with_level l (Writer_Write z sink fuel p w st) /\
  Writer_Flush z sink fuel (set_w_level l w) st =
    with_level l (Writer_Flush z sink fuel w st) /\
  Writer_Close z sink fuel (set_w_level l w) st =
    with_level l (Writer_Close z sink fuel w st).
Proof.
  split; [|split].
  - unfold Writer_Write. destruct (len p =? 0); [reflexivity|].
    change (w_stream (set_w_level l w)) with (w_stream w).
    destruct (w_stream w =? 0) eqn:Hs.
    + destruct (do_create (createCStream z) call_createCStream st)
        as [h st1].
      change (w_stream (set_w_stream h (set_w_level l w)))
        with (w_stream (set_w_stream h w)).
      destruct (w_stream (set_w_stream h w) =? 0); [reflexivity|].
      apply (Write_loop_level fuel (len p)
               (set_w_inBuffer (mkIn (address_of p) (u64 (len p)) 0)
                  (set_w_stream h w))).
    + change (w_stream (set_w_level l w)) with (w_stream w). rewrite Hs.
      apply (Write_loop_level fuel (len p)
               (set_w_inBuffer (mkIn (address_of p) (u64 (len p)) 0) w)).
  - unfold Writer_Flush.
    change (w_stream (set_w_level l w)) with (w_stream w).
    destruct (w_stream w =? 0); [reflexivity|].
    apply (Flush_loop_level fuel
             (set_w_inBuffer (mkIn nil_pointer 0 0) w)).
  - unfold Writer_Close, Close_body.
    change (w_stream (set_w_level l w)) with (w_stream w).
    assert (Hd : forall w1 (st1 : World E S),
              Close_deferred z (set_w_level l w1) st1 =
              (set_w_level l (fst (Close_deferred z w1 st1)),
               snd (Close_deferred z w1 st1))).
    { intros w1 st1. unfold Close_deferred.
      change (w_ctx (set_w_level l w1)) with (w_ctx w1).
      destruct (negb (w_ctx w1 =? 0)); reflexivity. }
    destruct (w_stream w =? 0).
    + cbn [with_level]. rewrite Hd.
      destruct (Close_deferred z w st). reflexivity.
    + change (set_w_inBuffer (mkIn nil_pointer 0 0) (set_w_level l w))
        with (set_w_level l (set_w_inBuffer (mkIn nil_pointer 0 0) w)).
      rewrite Close_loop_level.
      destruct (Close_loop z sink fuel _ st) as [[[w1 st1] err]| |];
        try reflexivity.
      cbn [with_level]. rewrite Hd.
      destruct (Close_deferred z w1 st1). reflexivity.
Qed.
End WriterLevel.

(** ** The sink receives the output of the engine *)

Section SinkOutput.
Context {E : Type}.
Variable z : Zstd E.
Variable base : list byte.
Hypothesis Hcount : counts_its_output z.

(** One compression step and the drain that follows it. *)
Lemma step_then_drain (w w1 : Writer) (st : World E (list byte)) (op : Z) :
  sink_is_output z base st ->
  w_setup_out w = Some w1 ->
  let '(r, st1) :=
    do_compressStream2 z (w_stream w1) (w_outBuffer w1) (w_inBuffer w1) op
      st in
  let '(e, st2) := do_isError z (hint r) st1 in
  if negb (e =? 0) then sink_is_output z base st2
  else
    exists st3,
      w_drain buffer_sink (w_after_step r w1) st2 = Done (None, st3) /\
      sink_is_output z base st3.
Proof.
  intros HP Hsetup. unfold w_setup_out in Hsetup.
  destruct (w_buffer w) as [|b0 buf] eqn:Hbuf; [discriminate|].
  injection Hsetup as <-. rewrite <- Hbuf.
  cbn [w_stream w_outBuffer w_inBuffer set_w_outBuffer].
  unfold do_compressStream2.
  set (o := mkOut (address_of (w_buffer w)) (u64 (len (w_buffer w))) 0).
  pose proof (Hcount (w_stream w) o (w_inBuffer w) op (engine st) eq_refl
                (proj1 (u64_range _))) as Hc.
  destruct (compressStream2 z (w_stream w) o (w_inBuffer w) op (engine st))
    as [r e1]. cbn [fst] in Hc. cbv zeta in Hc.
  unfold do_isError. cbn [hint as_uint64].
  unfold sink_is_output in *.
  destruct (Z.eqb_spec (isError z (u64 (hint r))) 0) as [Hok|Herr];
    cbn [negb].
  - destruct (Hc Hok) as [Hpos Hfit].
    pose proof (len_nonneg _ (written r)) as Hw0.
    pose proof (len_nonneg _ (w_buffer w)) as Hb0.
    pose proof (u64_le _ Hb0) as Hcap. cbn [oSize o] in Hfit.
    unfold w_drain.
    cbn [w_outBuffer w_after_step oPos out_pos as_uint64 w_buffer written
         set_w_outBuffer].
    rewrite Hpos, u64_small
      by (pose proof (u64_range (len (w_buffer w))); lia).
    destruct (Z.ltb_spec 0 (len (written r))) as [Hsome|Hnone].
    + rewrite slice_overwrite by lia.
      unfold do_sink_Write, buffer_sink.
      cbn [stream_io log with_io with_engine calls].
      eexists. split; [reflexivity|].
      cbn [stream_io log with_io with_engine calls emitted hint as_uint64
           written].
      rewrite Hok. cbn [Z.eqb]. rewrite HP, app_assoc. reflexivity.
    + eexists. split; [reflexivity|].
      cbn [stream_io log with_io with_engine calls emitted hint as_uint64
           written].
      rewrite Hok. cbn [Z.eqb].
      assert (Hnil : written r = []) by (apply len_zero_nil; lia).
      rewrite Hnil, app_nil_r. exact HP.
  - cbn [stream_io log with_io with_engine calls emitted hint as_uint64
         written].
    apply Z.eqb_neq in Herr. rewrite Herr, app_nil_r. exact HP.
Qed.

Lemma sink_is_output_log (c : Call) (st : World E (list byte)) :
  match c with call_compressStream2 _ _ _ _ _ => False | _ => True end ->
  sink_is_output z base st -> sink_is_output z base (log c st).
Proof.
  unfold sink_is_output. intros Hc HP. destruct c; try contradiction;
    exact HP.
Qed.

Lemma sink_is_output_engine (e : E) (st : World E (list byte)) :
  sink_is_output z base st -> sink_is_output z base (with_engine e st).
Proof. intros H. exact H. Qed.

Lemma Write_loop_output (fuel : nat) :
  forall (lenp : Z) (w w' : Writer) (st st' : World E (list byte))
         (res : Z * option error),
  sink_is_output z base st ->
  Write_loop z buffer_sink fuel lenp w st = Done (w', st', res) ->
  sink_is_output z base st'.
Proof.
  induction fuel as [|fuel IH]; intros lenp w w' st st' res HP H;
    cbn [Write_loop] in H;
    destruct (iPos (w_inBuffer w) <? iSize (w_inBuffer w));
    try discriminate; try (injection H as <- <- <-; exact HP).
  destruct (w_setup_out w) as [w1|] eqn:Hsetup; [|discriminate].
  pose proof (step_then_drain w w1 st EndContinue HP Hsetup) as Hstep.
  destruct (do_compressStream2 z _ _ _ EndContinue st) as [r st1].
  destruct (do_isError z (hint r) st1) as [e st2].
  destruct (negb (e =? 0)).
  - unfold do_getErrorName in H. injection H as <- <- <-.
    apply sink_is_output_log; [exact I|exact Hstep].
  - destruct Hstep as (st3 & Hdrain & HP3). rewrite Hdrain in H.
    exact (IH _ _ _ _ _ _ HP3 H).
Qed.

Lemma Flush_loop_output (fuel : nat) :
  forall (w w' : Writer) (st st' : World E (list byte))
         (res : option error),
  sink_is_output z base st ->
  Flush_loop z buffer_sink fuel w st = Done (w', st', res) ->
  sink_is_output z base st'.
Proof.
  induction fuel as [|fuel IH]; intros w w' st st' res HP H;
    cbn [Flush_loop] in H; [discriminate|].
  destruct (w_setup_out w) as [w1|] eqn:Hsetup; [|discriminate].
  pose proof (step_then_drain w w1 st EndFlush HP Hsetup) as Hstep.
  destruct (do_compressStream2 z _ _ _ EndFlush st) as [r st1].
  destruct (do_isError z (hint r) st1) as [e st2].
  destruct (negb (e =? 0)).
  - unfold do_getErrorName in H. injection H as <- <- <-.
    apply sink_is_output_log; [exact I|exact Hstep].
  - destruct Hstep as (st3 & Hdrain & HP3). rewrite Hdrain in H.
    destruct (hint r =? 0); [injection H as <- <- <-; exact HP3|].
    exact (IH _ _ _ _ _ HP3 H).
Qed.

Lemma Close_loop_output (fuel : nat) :
  forall (w w' : Writer) (st st' : World E (list byte))
         (res : option error),
  sink_is_output z base st ->
  Close_loop z buffer_sink fuel w st = Done (w', st', res) ->
  sink_is_output z base st'.
Proof.
  induction fuel as [|fuel IH]; intros w w' st st' res HP H;
    cbn [Close_loop] in H; [discriminate|].
  destruct (w_setup_out w) as [w1|] eqn:Hsetup; [|discriminate].
  pose proof (step_then_drain w w1 st EndEnd HP Hsetup) as Hstep.
  destruct (do_compressStream2 z _ _ _ EndEnd st) as [r st1].
  destruct (do_isError z (hint r) st1) as [e st2].
  destruct (negb (e =? 0)).
  - unfold w_free_stream, do_free, do_getErrorName in H.
    injection H as <- <- <-.
    apply sink_is_output_log; [exact I|].
    apply sink_is_output_log; [exact I|exact Hstep].
  - destruct Hstep as (st3 & Hdrain & HP3). rewrite Hdrain in H.
    destruct (hint r =? 0).
    + unfold w_free_stream, do_free in H. injection H as <- <- <-.
      apply sink_is_output_log; [exact I|exact HP3].
    + exact (IH _ _ _ _ _ HP3 H).
Qed.

Lemma writer_step_output (fuel : nat) (op : writer_op) (w w' : Writer)
    (st st' : World E (list byte)) :
  sink_is_output z base st ->
  writer_step z buffer_sink fuel op w st = Done (w', st') ->
  sink_is_output z base st'.
Proof.
  intros HP H. destruct op as [p| |]; cbn [writer_step] in H.
  - destruct (Writer_Write z buffer_sink fuel p w st)
      as [[[w1 st1] res]| |] eqn:Hrun; try discriminate.
    injection H as <- <-. unfold Writer_Write in Hrun.
    destruct (len p =? 0); [injection Hrun as <- <- <-; exact HP|].
    destruct (w_stream w =? 0).
    + unfold do_create in Hrun.
      destruct (createCStream z (engine st)) as [h e1].
      destruct (w_stream (set_w_stream h w) =? 0).
      * injection Hrun as <- <- <-.
        apply sink_is_output_log; [exact I|exact HP].
      * apply Write_loop_output in Hrun; [exact Hrun|].
        apply sink_is_output_log; [exact I|exact HP].
    + destruct (w_stream w =? 0);
        [injection Hrun as <- <- <-; exact HP|].
      exact (Write_loop_output _ _ _ _ _ _ _ HP Hrun).
  - destruct (Writer_Flush z buffer_sink fuel w st)
      as [[[w1 st1] res]| |] eqn:Hrun; try discriminate.
    injection H as <- <-. unfold Writer_Flush in Hrun.
    destruct (w_stream w =? 0); [injection Hrun as <- <- <-; exact HP|].
    exact (Flush_loop_output _ _ _ _ _ _ HP Hrun).
  - destruct (Writer_Close z buffer_sink fuel w st)
      as [[[w1 st1] res]| |] eqn:Hrun; try discriminate.
    injection H as <- <-. unfold Writer_Close, Close_body in Hrun.
    assert (Hd : forall w0 (st0 : World E (list byte)),
              sink_is_output z base st0 ->
              sink_is_output z base (snd (Close_deferred z w0 st0))).
    { intros w0 st0 HP0. unfold Close_deferred, do_free.
      destruct (negb (w_ctx w0 =? 0)); [|exact HP0].
      apply sink_is_output_log; [exact I|exact HP0]. }
    destruct (w_stream w =? 0).
    + specialize (Hd w st HP). destruct (Close_deferred z w st).
      injection Hrun as <- <- <-. exact Hd.
    + destruct (Close_loop z buffer_sink fuel _ st)
        as [[[w2 st2] err]| |] eqn:Hloop; try discriminate.
      apply Close_loop_output in Hloop; [|exact HP].
      specialize (Hd w2 st2 Hloop). destruct (Close_deferred z w2 st2).
      injection Hrun as <- <- <-. exact Hd.
Qed.
End SinkOutput.

(** X9.  Over an engine that counts its output, a byte buffer behind a
    Writer holds exactly what the compression steps have written, in
    their order: whatever sequence of [Write], [Flush] and [Close] is run,
    and whatever each of them returns, nothing is added to the output of
    the engine, nothing of it is dropped and nothing is reordered.  The
    output of a step that reports a fault is not written. *)
Theorem sink_receives_engine_output (E : Type) (z : Zstd E)
    (base : list byte) (fuel : nat) (ops : list writer_op) (w w' : Writer)
    (st st' : World E (list byte)) :
  counts_its_output z ->
  sink_is_output z base st ->
  run_writer z buffer_sink fuel ops w st = Done (w', st') ->
  sink_is_output z base st'.
Proof.
  intros Hcount. revert w st.
  induction ops as [|op ops IH]; intros w st HP H; cbn [run_writer] in H.
  - injection H as <- <-. exact HP.
  - destruct (writer_step z buffer_sink fuel op w st) as [[w1 st1]| |]
      eqn:Hstep; try discriminate.
    apply (IH w1 st1); [|exact H].
    exact (writer_step_output z base Hcount fuel op w w1 st st1 HP Hstep).
Qed.

(** The reference engine counts its output. *)
Lemma toy_counts_its_output : counts_its_output toy.
Proof.
  intros h o i op e Hpos Hsize. cbn [compressStream2 toy].
  unfold toy_compressStream2. cbv zeta. cbn [fst out_pos written hint].
  intros _. rewrite Hpos, Z.sub_0_r.
  match goal with |- context [Z.min _ (len ?q)] =>
    pose proof (len_nonneg _ q); generalize dependent q
  end.
  intros q Hq. unfold len in *. rewrite length_firstn. lia.
Qed.

(** On the reference engine: two writes around a flush, then a close. *)
Lemma sink_receives_engine_output_witness :
  exists w' st',
    run_writer toy buffer_sink 9
      [op_Write [x61; x62; x63]; op_Flush; op_Write [x64]; op_Close]
      small_writer (toy_world []) = Done (w', st') /\
    sink_is_output toy [] st'.
Proof.
  do 2 eexists. run_and_keep Hrun.
  assert (Hinit : sink_is_output toy [] (toy_world [])) by reflexivity.
  exact (sink_receives_engine_output Toy toy [] _ _ _ _ _ _
           toy_counts_its_output Hinit Hrun).
Defined.

(** ** Dictionaries *)

Lemma held_quiet (new older : list DictCall) :
  Forall (fun c => object_event_of c = no_object) new ->
  held (new ++ older) = held older.
Proof.
  induction 1 as [|c new Hc _ IH]; [reflexivity|].
  cbn [app held]. rewrite IH, Hc. destruct (held older); reflexivity.
Qed.

Lemma object_kind_eqb_refl (k : object_kind) : object_kind_eqb k k = true.
Proof. destruct k; reflexivity. Qed.

(** An object created and then freed, with quiet calls in between. *)
Lemma held_bracket (k : object_kind) (h : handle) (c_new c_free : DictCall)
    (mid older : list DictCall) (live : list (object_kind * handle)) :
  object_event_of c_new = creates k h ->
  object_event_of c_free = frees k h ->
  held (mid ++ c_new :: older) = Some ((k, h) :: live) ->
  held (c_free :: mid ++ c_new :: older) = Some live.
Proof.
  intros Hn Hf Hmid. cbn [held]. rewrite Hmid, Hf.
  now rewrite object_kind_eqb_refl, Z.eqb_refl.
Qed.

(** Splits a trace in cons form into the calls added to [old] and [old]. *)
Ltac new_calls :=
  cbn [calls log with_engine with_io];
  match goal with
  | |- exists new, ?l = new ++ ?old /\ _ =>
      let rec go t :=
        match t with
        | old => constr:(@nil Call)
        | ?c :: ?t' => let r := go t' in constr:(c :: r)
        end in
      let n := go l in exists n
  end.

Section OneShotCalls.
Context {E S : Type}.
Variable z : Zstd E.

(** The one-shot functions create and free nothing. *)
Lemma Zstd_Compress_quiet (src : list byte) (level : Z) (st st' : World E S)
    (res : bytes * option error) :
  Zstd_Compress z src level st = Done (res, st') ->
  exists new,
    calls st' = new ++ calls st /\
    Forall (fun c => object_event_of (base_call c) = no_object) new.
Proof.
  unfold Zstd_Compress, Zstd_CompressBound, do_compressBound, do_compress,
    do_isError, do_getErrorName. intros H.
  destruct (len src =? 0).
  { injection H as <- <-. exists []. split; [reflexivity|constructor]. }
  destruct (negb (makeslice_ok _)); [discriminate|].
  destruct (make _); [discriminate|].
  destruct (compress z _ src _ level _) as [[r out] e].
  destruct (negb (isError z (u64 r) =? 0)).
  - injection H as <- <-. new_calls. split; [reflexivity|].
    repeat constructor.
  - destruct (slice _ 0 (u64 r)); [|discriminate].
    injection H as <- <-. new_calls. split; [reflexivity|].
    repeat constructor.
Qed.

Lemma Zstd_Decompress_quiet (src : list byte) (maxSize : Z)
    (st st' : World E S) (res : bytes * option error) :
  Zstd_Decompress z src maxSize st = Done (res, st') ->
  exists new,
    calls st' = new ++ calls st /\
    Forall (fun c => object_event_of (base_call c) = no_object) new.
Proof.
  unfold Zstd_Decompress, do_decompress, do_isError, do_getErrorName.
  intros H.
  destruct (len src =? 0).
  { injection H as <- <-. exists []. split; [reflexivity|constructor]. }
  destruct (negb (makeslice_ok _)); [discriminate|].
  destruct (make _); [discriminate|].
  destruct (decompress z _ src _ _) as [[r out] e].
  destruct (negb (isError z (u64 r) =? 0)).
  - injection H as <- <-. new_calls. split; [reflexivity|].
    repeat constructor.
  - destruct (slice _ 0 (u64 r)); [|discriminate].
    injection H as <- <-. new_calls. split; [reflexivity|].
    repeat constructor.
Qed.
End OneShotCalls.

Section DictionaryObjects.
Context {E : Type}.
Variable z : Zstd E.
Variable zd : ZstdDict E.

Lemma run_base_held (A : Type)
    (f : World E unit -> outcome (A * World E unit)) (st st' : DWorld E)
    (a : A) (live : list (object_kind * handle)) :
  (forall w w' a',
     f w = Done (a', w') ->
     exists new,
       calls w' = new ++ calls w /\
       Forall (fun c => object_event_of (base_call c) = no_object) new) ->
  held (d_calls st) = Some live ->
  run_base f st = Done (a, st') ->
  held (d_calls st') = Some live.
Proof.
  intros Hquiet Hheld H. unfold run_base in H.
  destruct (f (mkWorld (d_engine st) tt [])) as [[a' w]| |] eqn:Hf;
    try discriminate.
  injection H as <- <-. cbn [d_calls].
  destruct (Hquiet _ _ _ Hf) as (new & Hcalls & Hnew).
  cbn [calls] in Hcalls. rewrite app_nil_r in Hcalls. subst new.
  rewrite held_quiet; [exact Hheld|].
  apply Forall_map. exact Hnew.
Qed.

(** X10.  The dictionary functions release what they create.  Whenever
    [CompressUsingDict] or [DecompressUsingDict] returns, with data or
    with an error, the contexts and dictionaries alive are those that were
    alive before the call: the context and the dictionary the call has
    created are freed, the dictionary first, a creation that failed is not
    freed, and nothing else is. *)
Theorem dictionary_objects_released (op : dict_op) (st st' : DWorld E)
    (res : bytes * option error) (live : list (object_kind * handle)) :
  held (d_calls st) = Some live ->
  run_dict_op z zd op st = Done (res, st') ->
  held (d_calls st') = Some live.
Proof.
  intros Hheld H. destruct op as [src dict level|src dict maxSize];
    cbn [run_dict_op] in H.
  - unfold Zstd_CompressUsingDict in H.
    destruct (len src =? 0); [injection H as <- <-; exact Hheld|].
    destruct (no_dictionary dict).
    { destruct res as [out err].
      apply (run_base_held _ (Zstd_Compress z src level) st st'
               (out, err) live); [|exact Hheld|exact H].
      intros w w' a' Hf. destruct a' as [out' err'].
      exact (Zstd_Compress_quiet z src level w w' (out', err') Hf). }
    unfold d_create, d_free, d_isError, d_getErrorName in H.
    destruct (createCCtx z (d_engine st)) as [cctx e1].
    destruct (cctx =? 0) eqn:Hc.
    { injection H as <- <-.
      cbn [d_calls dlog d_with_engine held object_event_of].
      now rewrite Hheld, Hc. }
    destruct (negb (d_registered _)); [discriminate|].
    cbn [d_engine dlog d_with_engine] in H.
    destruct (createCDict zd _ _ level e1) as [cdict e2].
    destruct (cdict =? 0) eqn:Hd.
    { injection H as <- <-.
      cbn [d_calls dlog d_with_engine held object_event_of].
      rewrite Hheld, Hc, Hd. cbn [object_kind_eqb andb].
      now rewrite Z.eqb_refl. }
    destruct (negb (makeslice_ok _)); [discriminate|].
    destruct (make _); [discriminate|].
    cbn [d_engine dlog d_with_engine] in H.
    destruct (compressUsingCDict zd cctx _ src _ cdict e2) as [[r out] e3].
    destruct (negb (isError z (u64 r) =? 0)).
    + injection H as <- <-.
      cbn [d_calls dlog d_with_engine held object_event_of].
      rewrite Hheld, Hc, Hd. cbn [object_kind_eqb andb].
      now rewrite !Z.eqb_refl.
    + destruct (slice _ 0 (u64 r)); [|discriminate].
      injection H as <- <-.
      cbn [d_calls dlog d_with_engine held object_event_of].
      rewrite Hheld, Hc, Hd. cbn [object_kind_eqb andb].
      now rewrite !Z.eqb_refl.
  - unfold Zstd_DecompressUsingDict in H.
    destruct (len src =? 0); [injection H as <- <-; exact Hheld|].
    destruct (no_dictionary dict).
    { destruct res as [out err].
      apply (run_base_held _ (Zstd_Decompress z src maxSize) st st'
               (out, err) live); [|exact Hheld|exact H].
      intros w w' a' Hf. destruct a' as [out' err'].
      exact (Zstd_Decompress_quiet z src maxSize w w' (out', err') Hf). }
    unfold d_create, d_free, d_isError, d_getErrorName in H.
    destruct (createDCtx z (d_engine st)) as [dctx e1].
    destruct (dctx =? 0) eqn:Hc.
    { injection H as <- <-.
      cbn [d_calls dlog d_with_engine held object_event_of].
      now rewrite Hheld, Hc. }
    destruct (negb (d_registered _)); [discriminate|].
    cbn [d_engine dlog d_with_engine] in H.
    destruct (createDDict zd _ _ e1) as [ddict e2].
    destruct (ddict =? 0) eqn:Hd.
    { injection H as <- <-.
      cbn [d_calls dlog d_with_engine held object_event_of].
      rewrite Hheld, Hc, Hd. cbn [object_kind_eqb andb].
      now rewrite Z.eqb_refl. }
    destruct (negb (makeslice_ok _)); [discriminate|].
    destruct (make _); [discriminate|].
    cbn [d_engine dlog d_with_engine] in H.
    destruct (decompressUsingDDict zd dctx _ src _ ddict e2)
      as [[r out] e3].
    destruct (negb (isError z (u64 r) =? 0)).
    + injection H as <- <-.
      cbn [d_calls dlog d_with_engine held object_event_of].
      rewrite Hheld, Hc, Hd. cbn [object_kind_eqb andb].
      now rewrite !Z.eqb_refl.
    + destruct (slice _ 0 (u64 r)); [|discriminate].
      injection H as <- <-.
      cbn [d_calls dlog d_with_engine held object_event_of].
      rewrite Hheld, Hc, Hd. cbn [object_kind_eqb andb].
      now rewrite !Z.eqb_refl.
Qed.
End DictionaryObjects.

(** A compression and a decompression with a dictionary on the small
    engine, from an instance that holds nothing. *)
Lemma dictionary_objects_released_witness :
  exists res st' res2 st'',
    run_dict_op tagging tagging_dict
      (op_CompressUsingDict [x61; x62] (Some (mkDictionary [x7a] 122)) 3)
      (dworld0 []) = Done (res, st') /\
    held (d_calls st') = Some [] /\
    run_dict_op tagging tagging_dict
      (op_DecompressUsingDict [x7a; x61; x62]
         (Some (mkDictionary [x7a] 122)) 0) st' = Done (res2, st'') /\
    held (d_calls st'') = Some [].
Proof.
  do 4 eexists. run_and_keep Hrun.
  assert (H0 : held (d_calls (dworld0 (@nil byte))) = Some []) by reflexivity.
  pose proof (dictionary_objects_released tagging tagging_dict _ _ _ _ _
                H0 Hrun) as H1.
  split; [exact H1|]. run_and_keep Hrun2.
  exact (dictionary_objects_released tagging tagging_dict _ _ _ _ _
           H1 Hrun2).
Defined.

Section DictionaryRoundTrip.
Context {E : Type}.
Variable z : Zstd E.
Variable zd : ZstdDict E.
Variable DM : DictModel E.
Hypothesis DC : DictCodec z zd DM.

Lemma Zstd_CompressUsingDict_ok (b : list byte) (d : Dictionary) (level : Z)
    (st : DWorld E) :
  d_registered st = true ->
  0 < len b < 2 ^ 62 -> 0 < len (dictData d) < 2 ^ 63 ->
  level_in_range level -> compressBound z (len b) <= maxAlloc ->
  exists c st1,
    Zstd_CompressUsingDict z zd b (Some d) level st =
      Done (some_bytes c, None, st1) /\
    d_registered st1 = true /\
    0 < len c <= compressBound z (len b) /\
    dict_decompresses_to z zd DM (dictData d) c b.
Proof.
  intros Hreg Hb Hd Hlevel Halloc. unfold Zstd_CompressUsingDict.
  destruct (Z.eqb_spec (len b) 0) as [H0|_]; [lia|].
  cbn [no_dictionary dictionary_data].
  destruct (Z.eqb_spec (len (dictData d)) 0) as [H0|_]; [lia|].
  unfold d_create, d_free, d_isError.
  pose proof (@dc_cctx E z zd DM DC (d_engine st)) as Hctx.
  destruct (createCCtx z (d_engine st)) as [cctx e1]. cbn [fst] in Hctx.
  destruct (Z.eqb_spec cctx 0) as [Hc0|_]; [contradiction|].
  cbn [d_registered dlog d_with_engine d_engine]. rewrite Hreg.
  cbn [negb]. rewrite (u64_small (len (dictData d))) by lia.
  pose proof (@dc_cdict E z zd DM DC (dictData d) level e1 Hd Hlevel)
    as [Hdict Hfor].
  destruct (createCDict zd (dictData d) (len (dictData d)) level e1)
    as [cdict e2]. cbn [fst snd] in Hdict, Hfor.
  destruct (Z.eqb_spec cdict 0) as [Hd0|_]; [contradiction|].
  rewrite (u64_small (len b)) by lia.
  pose proof (@dc_bound E z zd DM DC (len b) Hb) as Hbound.
  set (cap := compressBound z (len b)) in *.
  rewrite (u64_small cap) by lia.
  rewrite (makeslice_ok_in_range cap) by lia. cbn [negb].
  pose proof (make_nonempty cap ltac:(lia)) as Hmake.
  destruct (make cap) as [|m0 mk] eqn:Hmk; [congruence|]. rewrite <- Hmk.
  destruct (@dc_compress E z zd DM DC cctx cap b cdict (dictData d) e2 Hfor
              Hctx Hb ltac:(lia)) as (c & e3 & Hrun & Hc & Herr & Hdec).
  change (d_engine (dlog _ (d_with_engine e2 _))) with e2.
  rewrite Hrun. rewrite (u64_small (len c)) by lia. rewrite Herr.
  cbn [Z.eqb negb].
  rewrite slice_overwrite by (rewrite len_make; lia).
  eexists; eexists. split; [reflexivity|]. split; [exact Hreg|].
  split; [lia|exact Hdec].
Qed.

Lemma Zstd_DecompressUsingDict_ok (c b : list byte) (d : Dictionary)
    (maxSize : Z) (st : DWorld E) :
  d_registered st = true ->
  0 < len c < 2 ^ 63 -> 0 < len b -> 0 < len (dictData d) < 2 ^ 63 ->
  dict_decompresses_to z zd DM (dictData d) c b ->
  len b <= effective_maxSize (len c) maxSize <= maxAlloc ->
  exists st1,
    Zstd_DecompressUsingDict z zd c (Some d) maxSize st =
    Done (some_bytes b, None, st1).
Proof.
  intros Hreg Hc Hb Hd Hdec Hmax. unfold Zstd_DecompressUsingDict.
  destruct (Z.eqb_spec (len c) 0) as [H0|_]; [lia|].
  cbn [no_dictionary dictionary_data].
  destruct (Z.eqb_spec (len (dictData d)) 0) as [H0|_]; [lia|].
  unfold d_create, d_free, d_isError.
  pose proof (@dc_dctx E z zd DM DC (d_engine st)) as Hctx.
  destruct (createDCtx z (d_engine st)) as [dctx e1]. cbn [fst] in Hctx.
  destruct (Z.eqb_spec dctx 0) as [Hc0|_]; [contradiction|].
  cbn [d_registered dlog d_with_engine d_engine]. rewrite Hreg.
  cbn [negb]. rewrite (u64_small (len (dictData d))) by lia.
  pose proof (@dc_ddict E z zd DM DC (dictData d) e1 Hd) as [Hdict Hfor].
  destruct (createDDict zd (dictData d) (len (dictData d)) e1)
    as [ddict e2]. cbn [fst snd] in Hdict, Hfor.
  destruct (Z.eqb_spec ddict 0) as [Hd0|_]; [contradiction|].
  set (m := effective_maxSize (len c) maxSize) in *.
  assert (Hm63 : maxAlloc < 2 ^ 63) by (unfold maxAlloc; lia).
  rewrite (makeslice_ok_in_range m) by lia. cbn [negb].
  pose proof (make_nonempty m ltac:(lia)) as Hmake.
  destruct (make m) as [|m0 mk] eqn:Hmk; [congruence|]. rewrite <- Hmk.
  rewrite (u64_small m), (u64_small (len c)) by lia.
  destruct (Hdec dctx m ddict e2 Hfor Hctx ltac:(lia))
    as (r & out & e3 & Hrun & Hr & Hfit).
  change (d_engine (dlog _ (d_with_engine e2 _))) with e2.
  rewrite Hrun. destruct (Z.leb_spec (len b) m) as [_|Hbad]; [|lia].
  destruct Hfit as (-> & -> & Herr).
  rewrite (u64_small (len b)) by lia. rewrite Herr. cbn [Z.eqb negb].
  rewrite slice_overwrite by (rewrite len_make; lia).
  eexists. reflexivity.
Qed.
End DictionaryRoundTrip.

(** X11.  The round trip with a dictionary.  Over an engine that keeps the
    contract of a codec with dictionaries, on an instance that has
    registered the dictionary functions, for every non-empty payload [b]
    whose compression bound can be allocated, every dictionary with data
    and every level from 1 to 22: [CompressUsingDict] returns a compressed
    form [c] of [b], and [DecompressUsingDict] with the same dictionary
    returns [b] from it whenever [b] fits the size settled from [maxSize]
    and that size can be allocated: [maxSize] itself when it is positive,
    and otherwise five times the length of [c], or 1024 if that is more.
    A size above the limit of the allocator makes [DecompressUsingDict]
    panic once its context and its dictionary exist, before it calls the
    engine on the data. *)
Theorem dictionary_round_trip (E : Type) (z : Zstd E) (zd : ZstdDict E)
    (DM : DictModel E) (b : list byte) (d : Dictionary)
    (level maxSize : Z) (st st' : DWorld E) :
  DictCodec z zd DM ->
  d_registered st = true -> d_registered st' = true ->
  0 < len b < 2 ^ 62 -> 0 < len (dictData d) < 2 ^ 63 ->
  level_in_range level -> compressBound z (len b) <= maxAlloc ->
  exists c st1,
    Zstd_CompressUsingDict z zd b (Some d) level st =
      Done (some_bytes c, None, st1) /\
    (len b <= effective_maxSize (len c) maxSize <= maxAlloc ->
     exists st2,
       Zstd_DecompressUsingDict z zd c (Some d) maxSize st' =
       Done (some_bytes b, None, st2)) /\
    (maxAlloc < effective_maxSize (len c) maxSize ->
     Zstd_DecompressUsingDict z zd c (Some d) maxSize st' =
       Panic "makeslice: len out of range").
Proof.
  intros DC Hreg Hreg' Hb Hd Hlevel Halloc.
  destruct (Zstd_CompressUsingDict_ok z zd DM DC b d level st Hreg Hb Hd
              Hlevel Halloc) as (c & st1 & Hrun & _ & Hc & Hdec).
  assert (Hlim : maxAlloc < 2 ^ 63) by (unfold maxAlloc; lia).
  exists c, st1. split; [exact Hrun|]. split.
  - intros Hfit.
    apply (Zstd_DecompressUsingDict_ok z zd DM DC c b d maxSize st' Hreg'
             ltac:(lia) ltac:(lia) Hd Hdec Hfit).
  - intros Hbig. unfold Zstd_DecompressUsingDict.
    destruct (Z.eqb_spec (len c) 0) as [H0|_]; [lia|].
    cbn [no_dictionary dictionary_data].
    destruct (Z.eqb_spec (len (dictData d)) 0) as [H0|_]; [lia|].
    unfold d_create.
    pose proof (@dc_dctx E z zd DM DC (d_engine st')) as Hctx.
    destruct (createDCtx z (d_engine st')) as [dctx e1]. cbn [fst] in Hctx.
    destruct (Z.eqb_spec dctx 0) as [Hc0|_]; [contradiction|].
    cbn [d_registered dlog d_with_engine d_engine]. rewrite Hreg'.
    cbn [negb]. rewrite (u64_small (len (dictData d))) by lia.
    pose proof (@dc_ddict E z zd DM DC (dictData d) e1 Hd) as [Hdict _].
    destruct (createDDict zd (dictData d) (len (dictData d)) e1)
      as [ddict e2]. cbn [fst] in Hdict.
    destruct (Z.eqb_spec ddict 0) as [Hd0|_]; [contradiction|].
    unfold makeslice_ok.
    destruct (Z.leb_spec (effective_maxSize (len c) maxSize) maxAlloc);
      [lia|].
    rewrite andb_false_r. reflexivity.
Qed.

(** The small engine is a codec with dictionaries. *)
Lemma tagging_dict_codec : DictCodec tagging tagging_dict tagging_model.
Proof.
  assert (Hfine : forall n, 0 <= n < 2 ^ 63 -> isError tagging n = 0).
  { intros n Hn. cbn [isError tagging].
    destruct (Z.eqb_spec n fake_error_code) as [Heq|_]; [|reflexivity].
    unfold fake_error_code in Heq. lia. }
  constructor.
  - intros n Hn. cbn [compressBound tagging]. lia.
  - intros e. cbn. discriminate.
  - intros e. cbn. discriminate.
  - intros data level e _ _. cbn. split; [discriminate|reflexivity].
  - intros data e _. cbn. split; [discriminate|reflexivity].
  - intros ctx cap b h data e Hfor _ Hb Hcap.
    cbn [cdict_for tagging_model] in Hfor. subst e.
    cbn [compressBound tagging] in Hcap.
    cbn [compressUsingCDict tagging_dict]. cbv zeta.
    assert (Hlen : len (dict_head data :: b) = len b + 1)
      by (unfold len; cbn [List.length]; lia).
    rewrite Hlen.
    destruct (Z.leb_spec (len b + 1) cap) as [_|Hbig]; [|lia].
    exists (dict_head data :: b), data. rewrite Hlen.
    split; [reflexivity|]. split; [lia|]. split; [apply Hfine; lia|].
    intros ctx' cap' h' e' Hfor' _ Hcap'.
    cbn [ddict_for tagging_model] in Hfor'. subst e'.
    cbn [decompressUsingDDict tagging_dict].
    rewrite (Byte.byte_dec_lb eq_refl). cbn [andb].
    destruct (Z.leb_spec (len b) cap') as [Hfit|Hover].
    + exists (len b), b, data. split; [reflexivity|]. split; [lia|].
      split; [reflexivity|]. split; [reflexivity|]. apply Hfine. lia.
    + exists fake_error_code, [], data. split; [reflexivity|].
      split; [unfold fake_error_code; lia|]. cbn. discriminate.
Qed.

(** On the small engine, with the dictionary [z], the default level and
    the size left to [DecompressUsingDict]. *)
Lemma dictionary_round_trip_witness :
  exists c st1,
    Zstd_CompressUsingDict tagging tagging_dict [x61; x62]
      (Some (mkDictionary [x7a] 122)) DefaultCompression (dworld0 []) =
      Done (some_bytes c, None, st1) /\
    exists st2,
      Zstd_DecompressUsingDict tagging tagging_dict c
        (Some (mkDictionary [x7a] 122)) 0 (dworld0 []) =
      Done (some_bytes [x61; x62], None, st2).
Proof.
  destruct (dictionary_round_trip (list byte) tagging tagging_dict
              tagging_model [x61; x62] (mkDictionary [x7a] 122)
              DefaultCompression 0 (dworld0 []) (dworld0 [])
              tagging_dict_codec)
    as (c & st1 & Hc & Hd & _).
  - reflexivity.
  - reflexivity.
  - vm_compute. split; reflexivity.
  - vm_compute. split; reflexivity.
  - vm_compute. split; discriminate.
  - vm_compute. discriminate.
  - exists c, st1. split; [exact Hc|]. apply Hd.
    assert (Hcc : c = [x7a; x61; x62]).
    { vm_compute in Hc. injection Hc as Hc _. now symmetry. }
    rewrite Hcc. vm_compute. split; discriminate.
Defined.

(** X12.  The dictionary functions exist on an instance only once
    [LoadDictionary] has run on it.  [LoadDictionary] refuses empty data
    with an error and touches nothing; given data, it registers the
    functions and returns a dictionary that carries the data and the ID
    the library reports for it, as a [uint32].  On an instance where it
    has never run, [CompressUsingDict] and [DecompressUsingDict], given
    input and a dictionary with data, panic on a [nil] function as soon as
    their context has been created: a dictionary loaded through another
    instance cannot be used. *)
Theorem dictionary_use_requires_load (E : Type) (z : Zstd E)
    (zd : ZstdDict E) (src data : list byte) (d : Dictionary)
    (level maxSize : Z) (st : DWorld E) :
  len src <> 0 -> len (dictData d) <> 0 -> len data <> 0 ->
  fst (createCCtx z (d_engine st)) <> 0 ->
  fst (createDCtx z (d_engine st)) <> 0 ->
  Zstd_LoadDictionary zd [] st =
    (None, Some (Errorf "empty dictionary data"), st) /\
  (exists id st1,
     Zstd_LoadDictionary zd data st =
       (Some (mkDictionary data id), None, st1) /\
     id = u32 (getDictID zd data (u64 (len data))) /\
     d_registered st1 = true /\ d_engine st1 = d_engine st) /\
  (d_registered st = false ->
   Zstd_CompressUsingDict z zd src (Some d) level st =
     Panic "invalid memory address or nil pointer dereference" /\
   Zstd_DecompressUsingDict z zd src (Some d) maxSize st =
     Panic "invalid memory address or nil pointer dereference").
Proof.
  intros Hsrc Hd Hdata Hc Hdc. split; [reflexivity|]. split.
  - unfold Zstd_LoadDictionary.
    destruct (Z.eqb_spec (len data) 0) as [H0|_]; [contradiction|].
    do 2 eexists. split; [reflexivity|]. split; [reflexivity|].
    unfold registerDictionaryFunctions.
    destruct (d_registered st) eqn:Hreg; cbn; auto.
  - intros Hreg.
    unfold Zstd_CompressUsingDict, Zstd_DecompressUsingDict, d_create.
    destruct (Z.eqb_spec (len src) 0) as [H0|_]; [contradiction|].
    cbn [no_dictionary].
    destruct (Z.eqb_spec (len (dictData d)) 0) as [H0|_]; [contradiction|].
    destruct (createCCtx z (d_engine st)) as [cctx e1].
    destruct (createDCtx z (d_engine st)) as [dctx e2].
    cbn [fst] in Hc, Hdc.
    destruct (Z.eqb_spec cctx 0) as [H0|_]; [contradiction|].
    destruct (Z.eqb_spec dctx 0) as [H0|_]; [contradiction|].
    cbn [d_registered dlog d_with_engine]. rewrite Hreg. split; reflexivity.
Qed.

(** On the small engine, from an instance that has loaded nothing. *)
Lemma dictionary_use_requires_load_witness :
  Zstd_LoadDictionary tagging_dict [] (mkDWorld [] false []) =
    (None, Some (Errorf "empty dictionary data"), mkDWorld [] false []) /\
  (exists id st1,
     Zstd_LoadDictionary tagging_dict [x7a] (mkDWorld [] false []) =
       (Some (mkDictionary [x7a] id), None, st1) /\
     id = u32 (getDictID tagging_dict [x7a] (u64 (len [x7a]))) /\
     d_registered st1 = true /\ d_engine st1 = []) /\
  Zstd_CompressUsingDict tagging tagging_dict [x61]
    (Some (mkDictionary [x7a] 122)) 3 (mkDWorld [] false []) =
    Panic "invalid memory address or nil pointer dereference" /\
  Zstd_DecompressUsingDict tagging tagging_dict [x61]
    (Some (mkDictionary [x7a] 122)) 0 (mkDWorld [] false []) =
    Panic "invalid memory address or nil pointer dereference".
Proof.
  destruct (dictionary_use_requires_load (list byte) tagging tagging_dict
              [x61] [x7a] (mkDictionary [x7a] 122) 3 0
              (mkDWorld [] false [])) as (H1 & H2 & H3);
    try (vm_compute; discriminate).
  split; [exact H1|]. split; [exact H2|]. exact (H3 eq_refl).
Defined.

(** ** The library, the wrappers and the functions of the package *)

Section LibraryFacts.
Variable Dlclose : Z -> option error.

(** [Close] on an instance unloads its library once. *)
Lemma Zstd_Close_spec (lib lib1 : Library) (os os1 : list OsCall)
    (err : option error) :
  Zstd_Close Dlclose lib os = (lib1, os1, err) ->
  lib_handle lib1 = 0 /\
  (lib_handle lib = 0 -> os1 = os /\ err = None) /\
  (lib_handle lib <> 0 ->
   err = Dlclose (lib_handle lib) /\
   In (os_Dlclose (lib_handle lib) (Dlclose (lib_handle lib))) os1) /\
  Zstd_Close Dlclose lib1 os1 = (lib1, os1, None).
Proof.
  unfold Zstd_Close, closeLibrary. intros H.
  destruct (Z.eqb_spec (lib_handle lib) 0) as [H0|Hn].
  - injection H as <- <- <-. split; [exact H0|]. split; [auto|].
    split; [contradiction|]. apply Z.eqb_eq in H0. now rewrite H0.
  - cbn [negb] in H. injection H as <- <- <-.
    split; [reflexivity|]. split; [contradiction|].
    split; [|reflexivity]. intros _. split; [reflexivity|].
    destruct (negb (tempLibPath lib =? "")%string); cbn; auto.
Qed.

Section WrapperFacts.
Context {E S : Type}.
Variable z : Zstd E.

(** X13.  [Close] on the Writer that the package-level [NewWriter]
    returns closes the Writer and then the instance, whatever the first
    returns: afterwards the Writer holds neither session nor context and
    the instance no library, a library that was loaded has been unloaded,
    and the error returned is that of the Writer if it has one and that
    of unloading otherwise.  A second [Close] returns no error and makes
    no call, neither to the engine nor to the operating system.  The
    same holds of the Reader that the package-level [NewReader] returns,
    whose own [Close] never fails. *)
Theorem wrapper_Close_closes_both (sink : Sink S) (fuel : nat) (w w1 : Writer)
    (st st1 : World E S) (lib lib1 : Library) (os os1 : list OsCall)
    (err : option error) (r : Reader) :
  writeCloserWrapper_Close Dlclose z sink fuel w st lib os =
    Done (w1, st1, lib1, os1, err) ->
  (w_stream w1 = 0 /\ w_ctx w1 = 0 /\ lib_handle lib1 = 0 /\
   (lib_handle lib <> 0 ->
    In (os_Dlclose (lib_handle lib) (Dlclose (lib_handle lib))) os1) /\
   (exists err1,
      Writer_Close z sink fuel w st = Done (w1, st1, err1) /\
      err = first_error err1
              (if lib_handle lib =? 0 then None
               else Dlclose (lib_handle lib))) /\
   forall fuel',
     writeCloserWrapper_Close Dlclose z sink fuel' w1 st1 lib1 os1 =
     Done (w1, st1, lib1, os1, None)) /\
  (exists r2 st2 lib2 os2,
     readCloserWrapper_Close Dlclose z r st lib os =
       (r2, st2, lib2, os2,
        if lib_handle lib =? 0 then None else Dlclose (lib_handle lib)) /\
     r_stream r2 = 0 /\ r_ctx r2 = 0 /\ lib_handle lib2 = 0 /\
     readCloserWrapper_Close Dlclose z r2 st2 lib2 os2 =
       (r2, st2, lib2, os2, None)).
Proof.
  intros H. split.
  - unfold writeCloserWrapper_Close in H.
    destruct (Writer_Close z sink fuel w st) as [[[w' st'] err1]| |]
      eqn:Hclose; try discriminate.
    destruct (Zstd_Close Dlclose lib os) as [[lib' os'] err2] eqn:Hlib.
    injection H as <- <- <- <- <-.
    destruct (Writer_Close_releases E S z sink fuel w w' st st' err1 Hclose)
      as [Hs Hc].
    destruct (Zstd_Close_spec lib lib' os os' err2 Hlib)
      as (Hh & Hzero & Hloaded & Hagain).
    split; [exact Hs|]. split; [exact Hc|]. split; [exact Hh|].
    split; [intros Hn; apply (Hloaded Hn)|].
    split.
    + exists err1. split; [reflexivity|]. f_equal.
      destruct (Z.eqb_spec (lib_handle lib) 0) as [H0|Hn].
      * apply (Hzero H0).
      * apply (Hloaded Hn).
    + intros fuel'. unfold writeCloserWrapper_Close.
      rewrite (Writer_Close_released E S z sink fuel' w' st' Hs Hc).
      rewrite Hagain. reflexivity.
  - unfold readCloserWrapper_Close.
    destruct (Reader_Close z r st) as [[r2 st2] err1] eqn:Hclose.
    destruct (Zstd_Close Dlclose lib os) as [[lib2 os2] err2] eqn:Hlib.
    destruct (Reader_Close_spec z r r2 st st2 err1 Hclose)
      as (-> & Hs & Hc & _).
    destruct (Zstd_Close_spec lib lib2 os os2 err2 Hlib)
      as (Hh & Hzero & Hloaded & Hagain).
    exists r2, st2, lib2, os2. cbn [first_error].
    split.
    { f_equal. destruct (Z.eqb_spec (lib_handle lib) 0) as [H0|Hn].
      - apply (Hzero H0).
      - apply (Hloaded Hn). }
    split; [exact Hs|]. split; [exact Hc|]. split; [exact Hh|].
    assert (Hrc : Reader_Close z r2 st2 = (r2, st2, None)).
    { unfold Reader_Close. rewrite Hs. cbn [Z.eqb negb]. rewrite Hc.
      reflexivity. }
    rewrite Hrc, Hagain. reflexivity.
Qed.
End WrapperFacts.
End LibraryFacts.

(** On the reference engine: a Writer that has taken one byte, closed
    through its wrapper, with a library loaded under the handle 7. *)
Lemma wrapper_Close_closes_both_witness :
  exists w st w1 st1 lib1 os1 err,
    Writer_Write toy buffer_sink 5 [x61] small_writer (toy_world []) =
      Done (w, st, (1, None)) /\
    writeCloserWrapper_Close (fun _ => None) toy buffer_sink 5 w st
      (mkLibrary 7 "/tmp/zstd") [] = Done (w1, st1, lib1, os1, err) /\
    w_stream w1 = 0 /\ w_ctx w1 = 0 /\ lib_handle lib1 = 0 /\
    In (os_Dlclose 7 None) os1 /\
    forall fuel',
      writeCloserWrapper_Close (fun _ => None) toy buffer_sink fuel' w1 st1
        lib1 os1 = Done (w1, st1, lib1, os1, None).
Proof.
  do 7 eexists. run_and_keep Hwrite. run_and_keep Hclose.
  destruct (wrapper_Close_closes_both (fun _ => None) toy buffer_sink _ _ _
              _ _ _ _ _ _ _ small_reader Hclose)
    as [(Hs & Hc & Hh & Hin & _ & Hagain) _].
  split; [exact Hs|]. split; [exact Hc|]. split; [exact Hh|].
  split; [apply Hin; discriminate|exact Hagain].
Defined.

Section PackageFunctions.
Variable Dlclose : Z -> option error.
Context {E : Type}.
Variable z : Zstd E.
Hypothesis O : OneShotCodec z.

Lemma with_instance_ok (lib : Library) (e0 : E)
    (run : World E unit -> outcome (bytes * option error * World E unit))
    (os : list OsCall) (out : bytes) (err : option error)
    (st : World E unit) :
  run (mkWorld e0 tt []) = Done (out, err, st) ->
  with_instance Dlclose (load_ok lib e0) run os =
  Done (out, err, calls st, snd (fst (Zstd_Close Dlclose lib os))).
Proof.
  intros H. unfold with_instance. rewrite H.
  destruct (Zstd_Close Dlclose lib os) as [[lib1 os1] err1]. reflexivity.
Qed.
End PackageFunctions.

(** X14.  The one-shot functions of the package.  Each of them makes an
    instance of its own and closes it before it returns.  When the
    library cannot be loaded they return the error of the loading and
    nothing else happens.  Otherwise, over an engine that keeps the
    one-shot contract, [CompressLevel] at any level from 1 to 22, hence
    [Compress], [CompressFast] and [CompressBest], returns a compressed
    form [c] of a payload whose compression bound can be allocated and
    has unloaded its library, and [Decompress] returns the payload from
    [c] whenever it fits the size settled from [maxSize] and that size can
    be allocated, and has unloaded its library too.  A size above the
    limit of the allocator makes [Decompress] panic. *)
Theorem package_one_shot_round_trip (Dlclose : Z -> option error)
    (E : Type) (z : Zstd E) (b : list byte) (level maxSize : Z)
    (lib lib' : Library) (e0 e0' : E) (os os' : list OsCall)
    (failure : error) :
  OneShotCodec z ->
  len b < 2 ^ 62 -> level_in_range level ->
  compressBound z (len b) <= maxAlloc ->
  lib_handle lib <> 0 -> lib_handle lib' <> 0 ->
  CompressLevel Dlclose z (load_error failure) b level os =
    Done (nil_bytes, Some failure, [], os) /\
  Decompress Dlclose z (load_error failure) b maxSize os =
    Done (nil_bytes, Some failure, [], os) /\
  exists c tr os1,
    CompressLevel Dlclose z (load_ok lib e0) b level os =
      Done (some_bytes c, None, tr, os1) /\
    In (os_Dlclose (lib_handle lib) (Dlclose (lib_handle lib))) os1 /\
    (len b <= effective_maxSize (len c) maxSize <= maxAlloc ->
     exists tr' os2,
       Decompress Dlclose z (load_ok lib' e0') c maxSize os' =
         Done (some_bytes b, None, tr', os2) /\
       In (os_Dlclose (lib_handle lib') (Dlclose (lib_handle lib'))) os2) /\
    (b <> [] -> maxAlloc < effective_maxSize (len c) maxSize ->
     Decompress Dlclose z (load_ok lib' e0') c maxSize os' =
       Panic "makeslice: len out of range").
Proof.
  intros O Hb Hlevel Halloc Hlib Hlib'.
  split; [reflexivity|]. split; [reflexivity|].
  assert (Hclosed : forall l o,
            lib_handle l <> 0 ->
            In (os_Dlclose (lib_handle l) (Dlclose (lib_handle l)))
              (snd (fst (Zstd_Close Dlclose l o)))).
  { intros l o Hl.
    destruct (Zstd_Close Dlclose l o) as [[l1 o1] e1] eqn:Hc.
    apply Zstd_Close_spec in Hc as (_ & _ & Hloaded & _).
    apply (Hloaded Hl). }
  destruct (Z.eqb_spec (len b) 0) as [H0|Hn0].
  - apply len_zero_nil in H0. subst b.
    exists [], [], (snd (fst (Zstd_Close Dlclose lib os))).
    split; [exact (with_instance_ok Dlclose lib e0 _ os _ _
                     (mkWorld e0 tt []) eq_refl)|].
    split; [apply Hclosed; exact Hlib|]. split.
    + intros _.
      exists [], (snd (fst (Zstd_Close Dlclose lib' os'))).
      split; [exact (with_instance_ok Dlclose lib' e0' _ os' _ _
                       (mkWorld e0' tt []) eq_refl)|].
      apply Hclosed; exact Hlib'.
    + intros Hne. now contradiction Hne.
  - pose proof (len_nonneg _ b) as Hb0.
    destruct (Zstd_Compress_ok z O b level (mkWorld e0 tt [])
                ltac:(lia) Hlevel Halloc) as (c & st1 & Hrun & Hc & Hdec).
    assert (Hlim : maxAlloc < 2 ^ 63) by (unfold maxAlloc; lia).
    exists c, (calls st1), (snd (fst (Zstd_Close Dlclose lib os))).
    split; [exact (with_instance_ok Dlclose lib e0 _ os _ _ st1 Hrun)|].
    split; [apply Hclosed; exact Hlib|]. split.
    + intros Hfit.
      destruct (Zstd_Decompress_ok z c b maxSize (mkWorld e0' tt [])
                  ltac:(lia) ltac:(lia) Hdec Hfit) as (st2 & Hrun2).
      exists (calls st2), (snd (fst (Zstd_Close Dlclose lib' os'))).
      split; [exact (with_instance_ok Dlclose lib' e0' _ os' _ _ st2
                       Hrun2)|].
      apply Hclosed; exact Hlib'.
    + intros _ Hbig. unfold Decompress, with_instance.
      rewrite (Zstd_Decompress_oversized z c maxSize (mkWorld e0' tt []));
        [reflexivity| |exact Hbig].
      intros ->. change (len []) with 0 in Hc. lia.
Qed.

(** On the reference engine, with [CompressBest] and the size left to
    [Decompress]; the libraries are loaded under the handles 7 and 8. *)
Lemma package_one_shot_round_trip_witness :
  exists c tr os1,
    CompressBest (fun _ => None) toy (load_ok (mkLibrary 7 "") toy0)
      [x61; x61; x62] [] = Done (some_bytes c, None, tr, os1) /\
    In (os_Dlclose 7 None) os1 /\
    exists tr' os2,
      Decompress (fun _ => None) toy (load_ok (mkLibrary 8 "") toy0) c 0 [] =
        Done (some_bytes [x61; x61; x62], None, tr', os2) /\
      In (os_Dlclose 8 None) os2.
Proof.
  destruct (package_one_shot_round_trip (fun _ => None) Toy toy
              [x61; x61; x62] BestCompression 0 (mkLibrary 7 "")
              (mkLibrary 8 "") toy0 toy0 [] [] io_EOF toy_one_shot_codec)
    as (_ & _ & c & tr & os1 & Hc & Hin & Hd & _).
  - vm_compute. reflexivity.
  - vm_compute. split; discriminate.
  - vm_compute. discriminate.
  - discriminate.
  - discriminate.
  - exists c, tr, os1. split; [exact Hc|]. split; [exact Hin|].
    apply Hd.
    assert (Hcc : len c = 4).
    { vm_compute in Hc. injection Hc as Hc _ _. now rewrite <- Hc. }
    rewrite Hcc. vm_compute. split; discriminate.
Defined.

(** ** Adapters that do not panic *)

Lemma overwrite_nonempty (dst src : list byte) :
  dst <> [] -> overwrite dst src <> [].
Proof.
  intros H Hnil. apply H. apply (f_equal (@List.length byte)) in Hnil.
  rewrite overwrite_length in Hnil. destruct dst; [reflexivity|discriminate].
Qed.

Section WriterSafety.
Context {E S : Type}.
Variable z : Zstd E.
Variable sink : Sink S.
Hypothesis Hcap : respects_capacity z.

(** After a step the drain finds its slice. *)
Lemma w_drain_safe (w w1 : Writer) (st : World E S) (op : Z) :
  w_setup_out w = Some w1 ->
  let r :=
    fst (do_compressStream2 z (w_stream w1) (w_outBuffer w1)
           (w_inBuffer w1) op st) in
  w_buffer (w_after_step r w1) <> [] /\
  forall st2 : World E S,
    exists err st3, w_drain sink (w_after_step r w1) st2 = Done (err, st3).
Proof.
  intros Hsetup. unfold w_setup_out in Hsetup.
  destruct (w_buffer w) as [|b0 buf] eqn:Hbuf; [discriminate|].
  injection Hsetup as <-. rewrite <- Hbuf. cbv zeta.
  cbn [w_stream w_outBuffer w_inBuffer set_w_outBuffer].
  unfold do_compressStream2.
  set (o := mkOut (address_of (w_buffer w)) (u64 (len (w_buffer w))) 0).
  destruct Hcap as [Hc _].
  pose proof (u64_range (len (w_buffer w))) as Hsz.
  pose proof (Hc (w_stream w) o (w_inBuffer w) op (engine st)
                ltac:(cbn; lia) ltac:(cbn; lia)) as Hout.
  destruct (compressStream2 z (w_stream w) o (w_inBuffer w) op (engine st))
    as [r e1]. cbn [fst] in *. cbn [oSize o] in Hout.
  split.
  { cbn [w_buffer w_after_step set_w_outBuffer written as_uint64].
    apply overwrite_nonempty. rewrite Hbuf. discriminate. }
  intros st2. unfold w_drain.
  cbn [w_outBuffer w_after_step oPos out_pos as_uint64 w_buffer written
       set_w_outBuffer].
  rewrite (u64_small (out_pos r)) by lia.
  destruct (0 <? out_pos r); [|do 2 eexists; reflexivity].
  pose proof (u64_le (len (w_buffer w)) (len_nonneg _ _)) as Hle.
  unfold slice. rewrite len_overwrite.
  destruct (Z.leb_spec 0 0); [|lia].
  destruct (Z.leb_spec 0 (out_pos r)); [|lia].
  destruct (Z.leb_spec (out_pos r) (len (w_buffer w))); [|lia].
  cbn [andb]. destruct (do_sink_Write sink _ st2) as [[n err] st3].
  do 2 eexists. reflexivity.
Qed.

Lemma Write_loop_safe (fuel : nat) :
  forall (lenp : Z) (w : Writer) (st : World E S),
  w_buffer w <> [] -> w_safe (Write_loop z sink fuel lenp w st).
Proof.
  induction fuel as [|fuel IH]; intros lenp w st Hbuf; cbn [Write_loop];
    destruct (iPos (w_inBuffer w) <? iSize (w_inBuffer w));
    try exact Hbuf; try exact I.
  destruct (w_setup_out w) as [w1|] eqn:Hsetup.
  2:{ unfold w_setup_out in Hsetup. destruct (w_buffer w);
        [contradiction|discriminate]. }
  pose proof (w_drain_safe w w1 st EndContinue Hsetup) as Hdrain.
  destruct (do_compressStream2 z _ _ _ EndContinue st) as [r st1].
  cbn [fst] in Hdrain. destruct Hdrain as [Hbuf2 Hdrain].
  destruct (do_isError z (hint r) st1) as [e st2].
  destruct (Hdrain st2) as (err & st3 & Hd).
  destruct (negb (e =? 0)).
  - destruct (do_getErrorName z (hint r) st2). exact Hbuf2.
  - rewrite Hd. destruct err; [exact Hbuf2|]. apply IH. exact Hbuf2.
Qed.

Lemma Flush_loop_safe (fuel : nat) :
  forall (w : Writer) (st : World E S),
  w_buffer w <> [] -> w_safe (Flush_loop z sink fuel w st).
Proof.
  induction fuel as [|fuel IH]; intros w st Hbuf; cbn [Flush_loop];
    [exact I|].
  destruct (w_setup_out w) as [w1|] eqn:Hsetup.
  2:{ unfold w_setup_out in Hsetup. destruct (w_buffer w);
        [contradiction|discriminate]. }
  pose proof (w_drain_safe w w1 st EndFlush Hsetup) as Hdrain.
  destruct (do_compressStream2 z _ _ _ EndFlush st) as [r st1].
  cbn [fst] in Hdrain. destruct Hdrain as [Hbuf2 Hdrain].
  destruct (do_isError z (hint r) st1) as [e st2].
  destruct (Hdrain st2) as (err & st3 & Hd).
  destruct (negb (e =? 0)).
  - destruct (do_getErrorName z (hint r) st2). exact Hbuf2.
  - rewrite Hd. destruct err; [exact Hbuf2|].
    destruct (hint r =? 0); [exact Hbuf2|]. apply IH. exact Hbuf2.
Qed.

Lemma Close_loop_safe (fuel : nat) :
  forall (w : Writer) (st : World E S),
  w_buffer w <> [] -> w_safe (Close_loop z sink fuel w st).
Proof.
  induction fuel as [|fuel IH]; intros w st Hbuf; cbn [Close_loop];
    [exact I|].
  destruct (w_setup_out w) as [w1|] eqn:Hsetup.
  2:{ unfold w_setup_out in Hsetup. destruct (w_buffer w);
        [contradiction|discriminate]. }
  pose proof (w_drain_safe w w1 st EndEnd Hsetup) as Hdrain.
  destruct (do_compressStream2 z _ _ _ EndEnd st) as [r st1].
  cbn [fst] in Hdrain. destruct Hdrain as [Hbuf2 Hdrain].
  destruct (do_isError z (hint r) st1) as [e st2].
  destruct (Hdrain st2) as (err & st3 & Hd).
  destruct (negb (e =? 0)).
  - unfold w_free_stream. destruct (do_getErrorName z (hint r) _).
    exact Hbuf2.
  - rewrite Hd. unfold w_free_stream. destruct err; [exact Hbuf2|].
    destruct (hint r =? 0); [exact Hbuf2|]. apply IH. exact Hbuf2.
Qed.

Lemma writer_step_safe (fuel : nat) (op : writer_op) (w : Writer)
    (st : World E S) :
  w_buffer w <> [] ->
  match writer_step z sink fuel op w st with
  | Done (w', _) => w_buffer w' <> []
  | Panic _ => False
  | OutOfFuel => True
  end.
Proof.
  intros Hbuf. destruct op as [p| |]; cbn [writer_step].
  - assert (Hsafe : w_safe (Writer_Write z sink fuel p w st)).
    { unfold Writer_Write. destruct (len p =? 0); [exact Hbuf|].
      destruct (w_stream w =? 0).
      - destruct (do_create (createCStream z) call_createCStream st)
          as [h st1].
        destruct (w_stream (set_w_stream h w) =? 0); [exact Hbuf|].
        apply Write_loop_safe. exact Hbuf.
      - destruct (w_stream w =? 0); [exact Hbuf|].
        apply Write_loop_safe. exact Hbuf. }
    destruct (Writer_Write z sink fuel p w st) as [[[w1 st1] res]| |];
      exact Hsafe.
  - assert (Hsafe : w_safe (Writer_Flush z sink fuel w st)).
    { unfold Writer_Flush. destruct (w_stream w =? 0); [exact Hbuf|].
      apply Flush_loop_safe. exact Hbuf. }
    destruct (Writer_Flush z sink fuel w st) as [[[w1 st1] res]| |];
      exact Hsafe.
  - assert (Hsafe : w_safe (Writer_Close z sink fuel w st)).
    { unfold Writer_Close, Close_body, Close_deferred.
      destruct (w_stream w =? 0).
      - destruct (negb (w_ctx w =? 0)); exact Hbuf.
      - pose proof (Close_loop_safe fuel
                      (set_w_inBuffer (mkIn nil_pointer 0 0) w) st Hbuf)
          as Hloop.
        destruct (Close_loop z sink fuel _ st) as [[[w1 st1] err]| |];
          [|exact Hloop|exact I].
        destruct (negb (w_ctx w1 =? 0)); exact Hloop. }
    destruct (Writer_Close z sink fuel w st) as [[[w1 st1] res]| |];
      exact Hsafe.
Qed.

Lemma run_writer_safe (fuel : nat) (ops : list writer_op) :
  forall (w : Writer) (st : World E S),
  w_buffer w <> [] -> no_panic (run_writer z sink fuel ops w st).
Proof.
  induction ops as [|op ops IH]; intros w st Hbuf; cbn [run_writer];
    [exact I|].
  pose proof (writer_step_safe fuel op w st Hbuf) as Hstep.
  destruct (writer_step z sink fuel op w st) as [[w1 st1]| |];
    [|contradiction|exact I].
  apply IH. exact Hstep.
Qed.
End WriterSafety.

Section ReaderSafety.
Context {E S : Type}.
Variable z : Zstd E.
Variable source : Source S.
Hypothesis Hcap : respects_capacity z.

Lemma Read_loop_safe (fuel : nat) :
  forall (r : Reader) (st : World E S),
  r_buffer r <> [] -> read_buffer_ok r ->
  len (readBuffer_mem r) < 2 ^ 63 ->
  0 <= r_end r <= len (readBuffer_mem r) ->
  r_loop_safe (r_pos r) (Read_loop z source fuel r st).
Proof.
  induction fuel as [|fuel IH]; intros r st Hbuf Hrb Hlen Hend;
    cbn [Read_loop];
    destruct ((r_end r =? 0) && negb (r_streamEnded r)) eqn:Hc;
    try exact I; try (cbn; auto; fail).
  apply andb_prop in Hc. destruct Hc as [Hend0 _]. apply Z.eqb_eq in Hend0.
  pose proof (len_nonneg _ (readBuffer_mem r)) as Hl0'.
  (* the session and the read buffer *)
  assert (Hinit : match r_init_stream z r st with
                  | (None, _) => True
                  | (Some r1, _) =>
                      r_buffer r1 = r_buffer r /\ readBuffer_mem r1 <> [] /\
                      len (readBuffer_mem r1) < 2 ^ 63 /\
                      r_pos r1 = r_pos r /\ r_end r1 = r_end r \/
                      False
                  end).
  { unfold r_init_stream. destruct (Z.eqb_spec (r_stream r) 0) as [Hs|Hs].
    - destruct (do_create (createDStream z) call_createDStream st)
        as [h st1].
      destruct (h =? 0); [exact I|].
      cbn [r_readBuffer set_r_stream].
      destruct (r_readBuffer r) as [|l] eqn:Hl.
      + left. unfold readBuffer_mem.
        cbn [r_buffer r_readBuffer r_pos r_end set_r_readBuffer
             set_r_stream].
        split; [reflexivity|].
        split; [apply make_nonempty; unfold defaultReadBufferSize; lia|].
        split; [|auto].
        rewrite len_make by (unfold defaultReadBufferSize; lia).
        unfold defaultReadBufferSize. lia.
      + left. unfold read_buffer_ok, readBuffer_mem in *.
        cbn [r_buffer r_readBuffer r_pos r_end set_r_stream].
        rewrite Hl in *. split; [reflexivity|].
        split; [|auto].
        destruct Hrb as [[Hnil _]|Hne]; [discriminate Hnil|exact Hne].
    - left. split; [reflexivity|].
      split; [|auto].
      destruct Hrb as [[_ Hz0]|Hne]; [contradiction|exact Hne]. }
  destruct (r_init_stream z r st) as [[r1|] st1].
  2:{ cbn. unfold readBuffer_mem in *.
      cbn [r_buffer r_readBuffer r_stream r_end r_pos set_r_stream].
      repeat split; auto; try lia.
      destruct Hrb as [[Hnil _]|Hne]; [left; auto|right; exact Hne]. }
  destruct Hinit as [(Hb1 & Hm1 & Hl1 & Hp1 & He1)|[]].
  (* the refill *)
  assert (Hrefill : match r_refill source r1 st1 with
                    | (refill_panic, _) => False
                    | (refill_go r2, _) | (refill_break r2, _)
                    | (refill_return r2 _, _) =>
                        r_buffer r2 <> [] /\
                        r_readBuffer r2 = r_readBuffer r1 /\
                        r_pos r2 = r_pos r1 /\ r_end r2 = r_end r1
                    end).
  { unfold r_refill.
    destruct (iSize (r_inBuffer r1) <=? iPos (r_inBuffer r1));
      [|rewrite Hb1; auto].
    destruct (do_source_Read source (len (r_buffer r1)) st1)
      as [[[n data] err] st2].
    assert (Hov : overwrite (r_buffer r1) data <> [])
      by (apply overwrite_nonempty; rewrite Hb1; exact Hbuf).
    cbn [r_buffer set_r_buffer].
    destruct (0 <? n).
    - destruct (overwrite (r_buffer r1) data) as [|b0 l0] eqn:Ho;
        [contradiction|].
      destruct err as [[| |]|]; cbn; (split; [discriminate|auto]).
    - destruct err as [[| |]|]; try destruct (n =? 0); cbn; auto. }
  destruct (r_refill source r1 st1) as [[r2|r2|r2 e2|] st2];
    [| | |contradiction].
  2:{ destruct Hrefill as (Hb2 & Hrb2 & Hp2 & He2).
      unfold r_loop_safe, read_buffer_ok, readBuffer_mem.
      rewrite Hrb2. fold (readBuffer_mem r1).
      pose proof (len_nonneg _ (readBuffer_mem r1)).
      repeat split; auto; try lia; try congruence. }
  2:{ destruct Hrefill as (Hb2 & Hrb2 & Hp2 & He2).
      unfold r_loop_safe, read_buffer_ok, readBuffer_mem.
      rewrite Hrb2. fold (readBuffer_mem r1).
      pose proof (len_nonneg _ (readBuffer_mem r1)).
      repeat split; auto; try lia; try congruence. }
  destruct Hrefill as (Hb2 & Hrb2 & Hp2 & He2).
  assert (Hm2 : readBuffer_mem r2 = readBuffer_mem r1)
    by (unfold readBuffer_mem; now rewrite Hrb2).
  rewrite Hm2.
  destruct (readBuffer_mem r1) as [|m0 mem] eqn:Hm; [contradiction|].
  rewrite <- Hm in *.
  (* the step *)
  cbn [r_stream r_outBuffer r_inBuffer set_r_outBuffer].
  unfold do_decompressStream.
  set (o := mkOut (address_of (readBuffer_mem r1))
              (u64 (len (readBuffer_mem r1))) 0).
  destruct Hcap as [_ Hd].
  pose proof (len_nonneg _ (readBuffer_mem r1)) as Hl0.
  assert (Hsz : u64 (len (readBuffer_mem r1)) = len (readBuffer_mem r1))
    by (apply u64_small; lia).
  pose proof (Hd (r_stream r2) o (r_inBuffer r2) (engine st2)
                ltac:(cbn; lia) ltac:(cbn; lia)) as Hout.
  destruct (decompressStream z (r_stream r2) o (r_inBuffer r2) (engine st2))
    as [res e']. cbn [fst] in Hout. cbn [oSize o] in Hout.
  unfold do_isError.
  set (r4 := r_after_step (as_uint64 res) (set_r_outBuffer o r2)).
  assert (Hstep : r_buffer r4 <> [] /\ readBuffer_mem r4 <> [] /\
            len (readBuffer_mem r4) = len (readBuffer_mem r1) /\
            r_pos r4 = r_pos r /\ r_end r4 = 0 /\
            0 <= to_int (oPos (r_outBuffer r4)) <= len (readBuffer_mem r1)).
  { change (readBuffer_mem r4)
      with (overwrite (readBuffer_mem r2) (written (as_uint64 res))).
    cbn [r4 r_buffer r_end r_pos r_after_step set_r_outBuffer r_outBuffer
         oPos out_pos as_uint64 written].
    rewrite Hm2, len_overwrite.
    rewrite (u64_small (out_pos res)), to_int_small by lia.
    split; [exact Hb2|].
    split; [apply overwrite_nonempty; rewrite Hm; discriminate|].
    split; [reflexivity|]. split; [congruence|]. split; [congruence|lia]. }
  clearbody r4.
  destruct Hstep as (A1 & A2 & A3 & A4 & A5 & A6).
  destruct (negb (isError z (hint (as_uint64 res)) =? 0)).
  - unfold do_getErrorName, r_loop_safe, read_buffer_ok.
    change (readBuffer_mem (set_r_streamEnded true r4))
      with (readBuffer_mem r4).
    cbn [r_buffer r_end r_pos set_r_streamEnded].
    rewrite A3, A5. split; [exact A1|]. split; [right; exact A2|].
    split; [exact Hl1|]. split; [lia|exact A4].
  - set (r5 := set_r_end (to_int (oPos (r_outBuffer r4))) r4).
    assert (B : r_buffer r5 <> [] /\ read_buffer_ok r5 /\
              len (readBuffer_mem r5) < 2 ^ 63 /\
              0 <= r_end r5 <= len (readBuffer_mem r5) /\
              r_pos r5 = r_pos r).
    { unfold read_buffer_ok.
      change (readBuffer_mem r5) with (readBuffer_mem r4).
      cbn [r5 r_buffer r_end r_pos set_r_end]. rewrite A3.
      split; [exact A1|]. split; [right; exact A2|].
      split; [exact Hl1|]. split; [exact A6|exact A4]. }
    clearbody r5. destruct B as (B1 & B2 & B3 & B4 & B5).
    destruct (hint (as_uint64 res) =? 0).
    + unfold r_loop_safe, read_buffer_ok in *.
      change (readBuffer_mem (set_r_streamEnded true r5))
        with (readBuffer_mem r5).
      cbn [r_buffer r_end r_pos r_stream r_readBuffer set_r_streamEnded].
      auto.
    + destruct (0 <? r_end r5).
      * unfold r_loop_safe. auto.
      * rewrite <- B5. apply IH; assumption.
Qed.
Lemma r_serve_safe (p : list byte) (r : Reader) (st : World E S) :
  r_buffer r <> [] -> read_buffer_ok r ->
  len (readBuffer_mem r) < 2 ^ 63 ->
  0 <= r_pos r <= r_end r -> r_end r <= len (readBuffer_mem r) ->
  r_safe (r_serve p r st).
Proof.
  intros Hbuf Hrb Hlen Hpos Hend. unfold r_serve, slice.
  destruct (Z.leb_spec 0 (r_pos r)); [|lia].
  destruct (Z.leb_spec (r_pos r) (r_end r)); [|lia].
  destruct (Z.leb_spec (r_end r) (len (readBuffer_mem r))); [|lia].
  cbn [andb copy]. unfold r_safe, r_sound, read_buffer_ok.
  change (readBuffer_mem (set_r_pos _ r)) with (readBuffer_mem r).
  cbn [r_buffer r_pos r_end r_readBuffer r_stream set_r_pos].
  match goal with |- context [Z.min (len ?a) (len ?b)] =>
    pose proof (len_nonneg _ a); pose proof (len_nonneg _ b)
  end.
  repeat split; auto; lia.
Qed.

Lemma Reader_Read_safe (fuel : nat) (p : list byte) (r : Reader)
    (st : World E S) :
  r_sound r -> r_safe (Reader_Read z source fuel p r st).
Proof.
  intros (Hbuf & Hrb & Hlen & Hpos & Hend). unfold Reader_Read.
  destruct (Z.ltb_spec (r_pos r) (r_end r)) as [Hlt|Hge].
  { apply r_serve_safe; auto; lia. }
  destruct (r_streamEnded r).
  { unfold r_safe, r_sound. auto. }
  pose proof (len_nonneg _ (readBuffer_mem r)) as Hl0.
  pose proof (Read_loop_safe fuel (set_r_end 0 (set_r_pos 0 r)) st
                Hbuf Hrb Hlen ltac:(cbn [r_end set_r_end]; exact (conj (Z.le_refl 0) Hl0)))
    as Hloop.
  cbn [r_pos set_r_end set_r_pos] in Hloop.
  destruct (Read_loop z source fuel (set_r_end 0 (set_r_pos 0 r)) st)
    as [[[r1 st1] [[n err]|]]| |]; [| |contradiction|exact I].
  - destruct Hloop as (B1 & B2 & B3 & B4 & B5).
    unfold r_safe, r_sound. rewrite B5. repeat split; auto; lia.
  - destruct Hloop as (B1 & B2 & B3 & B4 & B5).
    destruct (r_end r1 =? 0).
    + destruct (r_streamEnded r1); unfold r_safe, r_sound; rewrite B5;
        repeat split; auto; lia.
    + apply r_serve_safe; auto; lia.
Qed.

Lemma Reader_Close_sound (r : Reader) (st : World E S) :
  r_sound r -> r_sound (fst (fst (Reader_Close z r st))).
Proof.
  intros (Hbuf & Hrb & Hlen & Hpos & Hend). unfold Reader_Close.
  destruct (negb (r_stream r =? 0)) eqn:Hs;
    match goal with
    | |- context [negb (r_ctx ?x =? 0)] => destruct (negb (r_ctx x =? 0))
    end; cbn [fst]; unfold r_sound, read_buffer_ok in *;
    try change (readBuffer_mem (set_r_ctx 0 (set_r_stream 0 r)))
      with (readBuffer_mem r);
    try change (readBuffer_mem (set_r_stream 0 r)) with (readBuffer_mem r);
    try change (readBuffer_mem (set_r_ctx 0 r)) with (readBuffer_mem r);
    cbn [r_buffer r_pos r_end r_readBuffer r_stream set_r_ctx set_r_stream];
    repeat split; auto;
    destruct Hrb as [[Hn Hz]|Hne]; auto.
Qed.

Lemma run_reader_safe (fuel : nat) (ops : list reader_op) :
  forall (r : Reader) (st : World E S),
  r_sound r -> no_panic (run_reader z source fuel ops r st).
Proof.
  induction ops as [|[p|] ops IH]; intros r st Hr; cbn [run_reader];
    [exact I| |].
  - pose proof (Reader_Read_safe fuel p r st Hr) as Hstep.
    destruct (Reader_Read z source fuel p r st) as [[[r1 st1] res]| |];
      [|contradiction|exact I].
    apply IH. exact Hstep.
  - pose proof (Reader_Close_sound r st Hr) as Hstep.
    destruct (Reader_Close z r st) as [[r1 st1] res]. apply IH. exact Hstep.
Qed.
End ReaderSafety.

Lemma NewWriter_buffer {E S : Type} (z : Zstd E) (level : Z)
    (st : World E S) :
  w_buffer (fst (NewWriter z level st)) <> [].
Proof.
  unfold NewWriter, do_create. destruct (createCCtx z (engine st)).
  cbn [fst w_buffer]. apply make_nonempty. unfold defaultWriteBufferSize. lia.
Qed.

Lemma NewReader_sound {E S : Type} (z : Zstd E) (st : World E S) :
  r_sound (fst (NewReader z st)).
Proof.
  unfold NewReader, do_create. destruct (createDCtx z (engine st)).
  cbn [fst]. unfold r_sound, read_buffer_ok, readBuffer_mem.
  cbn [r_buffer r_readBuffer r_stream r_pos r_end].
  split; [apply make_nonempty; unfold defaultReadBufferSize; lia|].
  split; [left; split; reflexivity|]. cbn. repeat split; lia.
Qed.

(** X15.  Index and slice expressions of the streaming adapters stay in
    range.  With an engine that leaves its output cursor inside the region
    it is given, no sequence of [Write], [Flush] and [Close] calls on a
    Writer made by [NewWriter], and no sequence of [Read] and [Close]
    calls on a Reader made by [NewReader], panics: whatever the sink and
    the source answer, and also after a call has failed or the adapter has
    been closed. *)
Theorem adapters_never_panic {E S : Type} (z : Zstd E) (sink : Sink S)
    (source : Source S) (fuel : nat) (level : Z)
    (wops : list writer_op) (rops : list reader_op) (st : World E S) :
  respects_capacity z ->
  no_panic (run_writer z sink fuel wops
              (fst (NewWriter z level st)) (snd (NewWriter z level st))) /\
  no_panic (run_reader z source fuel rops
              (fst (NewReader z st)) (snd (NewReader z st))).
Proof.
  intros Hcap. split.
  - apply run_writer_safe; [exact Hcap|apply NewWriter_buffer].
  - apply run_reader_safe; [exact Hcap|apply NewReader_sound].
Qed.

(** On the reference engine: a Writer used again after [Close], and a
    Reader used again after [Close], over an empty stream. *)
Lemma adapters_never_panic_witness :
  no_panic (run_writer toy buffer_sink 8
              [op_Write [x61]; op_Close; op_Write [x62]; op_Flush]
              (fst (NewWriter toy DefaultCompression (toy_world [])))
              (snd (NewWriter toy DefaultCompression (toy_world [])))) /\
  no_panic (run_reader toy buffer_source 8
              [op_Read (make 4); op_rClose; op_Read (make 4)]
              (fst (NewReader toy (toy_world [])))
              (snd (NewReader toy (toy_world [])))).
Proof.
  exact (adapters_never_panic toy buffer_sink buffer_source 8
           DefaultCompression
           [op_Write [x61]; op_Close; op_Write [x62]; op_Flush]
           [op_Read (make 4); op_rClose; op_Read (make 4)]
           (toy_world []) toy_respects_capacity).
Defined.

(** ** Loading and unloading the library *)

Lemma os_resource_eqb_refl (r : os_resource) : os_resource_eqb r r = true.
Proof.
  destruct r as [p|[p|p]|h]; cbn; try apply String.eqb_refl.
  apply Z.eqb_refl.
Qed.

Lemma release_head (r : os_resource) (live : list os_resource) :
  release r (r :: live) = Some live.
Proof. cbn [release]. now rewrite os_resource_eqb_refl. Qed.

(** A call that releases the most recent resource of the trace. *)
Lemma os_held_release (c : OsCall) (r : os_resource) (tr : list OsCall)
    (live : list os_resource) :
  os_event_of c = releases r -> os_held tr = Some (r :: live) ->
  os_held (c :: tr) = Some live.
Proof.
  intros Hc Htr. cbn [os_held]. rewrite Htr, Hc. apply release_head.
Qed.

Section LoadingProofs.
Variable P : Platform.

Lemma extract_opened_held (libPath tempDir : string) (os : list OsCall)
    (dir : string) (handle : Z) (err : option error) (os' : list OsCall) :
  extract_opened P libPath tempDir os = (dir, handle, err, os') ->
  exists new, os' = new ++ os /\
    forall live,
      os_held os = Some (an_open_file (embedded_file libPath) ::
                         a_directory tempDir :: live) ->
      match err with
      | Some _ =>
          dir = ""%string /\ handle = 0 /\
          os_held os' = Some (an_open_file (embedded_file libPath) :: live)
      | None =>
          dir = tempDir /\
          os_held os' = Some (a_library handle ::
                              an_open_file (embedded_file libPath) ::
                              a_directory tempDir :: live)
      end.
Proof.
  unfold extract_opened.
  destruct (filepath_Split P libPath) as [d0 libFilename].
  set (f := filepath_Join P tempDir libFilename).
  assert (Hrel : forall live,
            release (a_directory tempDir)
              (an_open_file (embedded_file libPath) ::
               a_directory tempDir :: live) =
            Some (an_open_file (embedded_file libPath) :: live)).
  { intros live. cbn [release os_resource_eqb].
    now rewrite String.eqb_refl. }
  destruct (Create P f) as [e1|] eqn:Hcreate.
  { intros H. injection H as <- <- <- <-.
    exists [os_RemoveAll tempDir; os_Create f (Some e1)].
    split; [reflexivity|]. intros live Hos.
    split; [reflexivity|]. split; [reflexivity|].
    cbn [os_held os_event_of]. rewrite Hos. apply Hrel. }
  assert (Hcopy : forall live copied,
            os_held os = Some (an_open_file (embedded_file libPath) ::
                               a_directory tempDir :: live) ->
            os_held (os_Close (temp_file f) :: os_Copy f libPath copied ::
                     os_Create f None :: os) =
            Some (an_open_file (embedded_file libPath) ::
                  a_directory tempDir :: live)).
  { intros live copied Hos. cbn [os_held os_event_of]. rewrite Hos.
    apply release_head. }
  destruct (Copy P f libPath) as [e2|] eqn:Hcp.
  { intros H. injection H as <- <- <- <-.
    eexists [_; _; _; _]. split; [reflexivity|]. intros live Hos.
    split; [reflexivity|]. split; [reflexivity|].
    cbn [app os_held] in *. cbn [os_held] in Hcopy.
    rewrite (Hcopy live (Some e2) Hos). cbn [os_event_of]. apply Hrel. }
  destruct (negb (GOOS P =? "windows")%string).
  - destruct (Chmod P f 493) as [e3|] eqn:Hch.
    { intros H. injection H as <- <- <- <-.
      eexists [_; _; _; _; _]. split; [reflexivity|]. intros live Hos.
      split; [reflexivity|]. split; [reflexivity|].
      cbn [app os_held] in *. cbn [os_held] in Hcopy.
      rewrite (Hcopy live None Hos). cbn [os_event_of]. apply Hrel. }
    destruct (Dlopen P f _) as [h|e4] eqn:Hdl; intros H;
      injection H as <- <- <- <-.
    + eexists [_; _; _; _; _]. split; [reflexivity|]. intros live Hos.
      split; [reflexivity|].
      cbn [app os_held] in *. cbn [os_held] in Hcopy.
      rewrite (Hcopy live None Hos). reflexivity.
    + eexists [_; _; _; _; _; _]. split; [reflexivity|]. intros live Hos.
      split; [reflexivity|]. split; [reflexivity|].
      cbn [app os_held] in *. cbn [os_held] in Hcopy.
      rewrite (Hcopy live None Hos). cbn [os_event_of]. apply Hrel.
  - destruct (Dlopen P f _) as [h|e4] eqn:Hdl; intros H;
      injection H as <- <- <- <-.
    + eexists [_; _; _; _]. split; [reflexivity|]. intros live Hos.
      split; [reflexivity|].
      cbn [app os_held] in *. cbn [os_held] in Hcopy.
      rewrite (Hcopy live None Hos). reflexivity.
    + eexists [_; _; _; _; _]. split; [reflexivity|]. intros live Hos.
      split; [reflexivity|]. split; [reflexivity|].
      cbn [app os_held] in *. cbn [os_held] in Hcopy.
      rewrite (Hcopy live None Hos). cbn [os_event_of]. apply Hrel.
Qed.

Lemma extractAndLoadLibrary_held (os : list OsCall) (dir : string)
    (handle : Z) (err : option error) (os' : list OsCall) :
  extractAndLoadLibrary P os = (dir, handle, err, os') ->
  (exists new, os' = new ++ os) /\
  forall live,
    os_held os = Some live ->
    match err with
    | Some e =>
        dir = ""%string /\ handle = 0 /\ os_held os' = Some live /\
        (forall e', platform_libPath P = inr e' -> os' = os /\ e = e')
    | None =>
        MkdirTemp P "" "zstd-lib" = inl dir /\
        os_held os' = Some (a_library handle :: a_directory dir :: live)
    end.
Proof.
  unfold extractAndLoadLibrary.
  destruct (platform_libPath P) as [libPath|e0].
  2:{ intros H. injection H as <- <- <- <-. split; [now exists []|].
      intros live Hos. split; [reflexivity|]. split; [reflexivity|].
      split; [exact Hos|]. intros e' He'. split; congruence. }
  destruct (MkdirTemp P "" "zstd-lib") as [tempDir|e1] eqn:Hmk.
  2:{ intros H. injection H as <- <- <- <-. split; [now eexists [_]|].
      intros live Hos. cbn [os_held os_event_of]. rewrite Hos.
      split; [reflexivity|]. split; [reflexivity|].
      split; [reflexivity|]. intros e' He'. discriminate He'. }
  destruct (embeddedLibs_Open P libPath) as [e2|] eqn:Hop.
  { intros H. injection H as <- <- <- <-. split; [now eexists [_; _; _]|].
    intros live Hos. cbn [os_held os_event_of]. rewrite Hos.
    rewrite release_head.
    split; [reflexivity|]. split; [reflexivity|].
    split; [reflexivity|]. intros e' He'. discriminate He'. }
  destruct (extract_opened P libPath tempDir _) as [[[d h] e] os3] eqn:Hex.
  intros H. injection H as <- <- <- <-.
  destruct (extract_opened_held _ _ _ _ _ _ _ Hex) as (new & -> & Hheld).
  split.
  { exists (os_Close (embedded_file libPath) :: new ++
            [os_Open libPath None; os_MkdirTemp "" "zstd-lib" (inl tempDir)]).
    cbn [app]. rewrite <- app_assoc. reflexivity. }
  intros live Hos.
  assert (Hos2 : os_held (os_Open libPath None ::
                          os_MkdirTemp "" "zstd-lib" (inl tempDir) :: os) =
                 Some (an_open_file (embedded_file libPath) ::
                       a_directory tempDir :: live)).
  { cbn [os_held os_event_of]. now rewrite Hos. }
  specialize (Hheld live Hos2). destruct e as [e|].
  - destruct Hheld as (-> & -> & Hh).
    split; [reflexivity|]. split; [reflexivity|]. split.
    + exact (os_held_release (os_Close (embedded_file libPath)) _ _ _
               eq_refl Hh).
    + intros e' He'. discriminate He'.
  - destruct Hheld as (-> & Hh). split; [reflexivity|].
    cbn [os_held os_event_of]. rewrite Hh.
    cbn [release os_resource_eqb OsFile_eqb]. now rewrite String.eqb_refl.
Qed.
End LoadingProofs.

(** X16.  A load that fails leaves nothing behind.  Whenever
    [extractAndLoadLibrary] returns an error, whichever of its calls
    failed, it returns no directory and no handle, and the directories,
    open files and libraries of the process are those it started with:
    the temporary directory it made has been removed, the embedded file
    and the copy it opened have been closed, and the library is not
    loaded.  On a platform without an embedded library the error is the
    one of the platform switch and no call is made at all. *)
Theorem failed_load_releases_everything (P : Platform) (os : list OsCall)
    (live : list os_resource) (dir : string) (handle : Z) (err : error)
    (os' : list OsCall) :
  os_held os = Some live ->
  extractAndLoadLibrary P os = (dir, handle, Some err, os') ->
  dir = ""%string /\ handle = 0 /\
  (exists new, os' = new ++ os) /\
  os_held os' = Some live /\
  (forall e, platform_libPath P = inr e -> os' = os /\ err = e).
Proof.
  intros Hos Hrun.
  destruct (extractAndLoadLibrary_held P os dir handle (Some err) os' Hrun)
    as (Hnew & Hheld).
  destruct (Hheld live Hos) as (Hd & Hh & Hl & He). auto.
Qed.

(** With a copy that fails for lack of space: seven calls, nothing
    left. *)
Lemma failed_load_releases_everything_witness :
  exists err os',
    extractAndLoadLibrary linux_amd64_full_disk [] =
      (""%string, 0, Some err, os') /\
    List.length os' = 7%nat /\
    os_held os' = Some [].
Proof.
  do 2 eexists.
  assert (H : extractAndLoadLibrary linux_amd64_full_disk [] =
              (""%string, 0,
               Some (Errorf
                 "failed to write temp library file: no space left on device"),
               [os_Close
                  (embedded_file "libs/linux_amd64_glibc2.17/libzstd.so.1");
                os_RemoveAll "/tmp/zstd-lib1";
                os_Close (temp_file "/tmp/zstd-lib1/libzstd.so.1");
                os_Copy "/tmp/zstd-lib1/libzstd.so.1"
                  "libs/linux_amd64_glibc2.17/libzstd.so.1"
                  (Some (io_error 28));
                os_Create "/tmp/zstd-lib1/libzstd.so.1" None;
                os_Open "libs/linux_amd64_glibc2.17/libzstd.so.1" None;
                os_MkdirTemp "" "zstd-lib" (inl "/tmp/zstd-lib1"%string)]))
    by reflexivity.
  split; [exact H|]. split.
  2:{ exact (proj1 (proj2 (proj2 (proj2
        (failed_load_releases_everything linux_amd64_full_disk [] []
           _ _ _ _ eq_refl H))))). }
  reflexivity.
Defined.

(** A load that succeeds: what the process holds afterwards. *)
Lemma New_held (P : Platform) (E : Type) (e0 e1 : E) (os os1 : list OsCall)
    (live : list os_resource) (lib : Library) :
  os_held os = Some live ->
  New P e0 os = (load_ok lib e1, os1) ->
  e1 = e0 /\
  MkdirTemp P "" "zstd-lib" = inl (tempLibPath lib) /\
  os_held os1 = Some (a_library (lib_handle lib) ::
                      a_directory (tempLibPath lib) :: live).
Proof.
  intros Hos Hnew. unfold New, loadLibrary in Hnew.
  destruct (extractAndLoadLibrary P os) as [[[dir handle] err] os'] eqn:Hrun.
  destruct (extractAndLoadLibrary_held P os dir handle err os' Hrun)
    as (_ & Hheld).
  specialize (Hheld live Hos).
  destruct err as [e|]; [discriminate Hnew|].
  injection Hnew as <- <- <-. cbn [lib_handle tempLibPath].
  destruct Hheld as (Hmk & Hheld). auto.
Qed.

(** [Close] on an instance that holds its library and its directory. *)
Lemma Zstd_Close_held (Dlclose : Z -> option error) (lib : Library)
    (os1 : list OsCall) (live : list os_resource) :
  os_held os1 = Some (a_library (lib_handle lib) ::
                      a_directory (tempLibPath lib) :: live) ->
  lib_handle lib <> 0 -> tempLibPath lib <> ""%string ->
  exists lib2 os2,
    Zstd_Close Dlclose lib os1 = (lib2, os2, Dlclose (lib_handle lib)) /\
    lib_handle lib2 = 0 /\
    os2 = os_RemoveAll (tempLibPath lib) ::
          os_Dlclose (lib_handle lib) (Dlclose (lib_handle lib)) :: os1 /\
    os_held os2 =
      Some (match Dlclose (lib_handle lib) with
            | None => live
            | Some _ => a_library (lib_handle lib) :: live
            end).
Proof.
  intros Hheld Hh Hd. unfold Zstd_Close, closeLibrary.
  destruct (Z.eqb_spec (lib_handle lib) 0) as [|_]; [contradiction|].
  destruct (String.eqb_spec (tempLibPath lib) "") as [|_]; [contradiction|].
  cbn [negb]. do 2 eexists. split; [reflexivity|].
  split; [reflexivity|]. split; [reflexivity|].
  cbn [os_held]. rewrite Hheld.
  destruct (Dlclose (lib_handle lib)) as [e|]; cbn [os_event_of].
  - cbn [release os_resource_eqb]. now rewrite String.eqb_refl.
  - rewrite release_head. apply release_head.
Qed.

(** X17.  What [New] acquires, [Close] releases.  When [New] succeeds,
    no file is left open, and the process holds one library and one
    directory more than before: the handle and the temporary directory
    recorded in the instance, the directory being the one [MkdirTemp]
    made.  [Close] on an instance whose handle is not 0 and whose
    directory has a name then unloads that library and removes that
    directory, returns what [Dlclose] returned, and sets the handle to 0;
    the directory is removed also when unloading fails. *)
Theorem load_then_Close_releases_everything (P : Platform)
    (Dlclose : Z -> option error) (E : Type) (e0 e1 : E)
    (os os1 : list OsCall) (live : list os_resource) (lib : Library) :
  os_held os = Some live ->
  New P e0 os = (load_ok lib e1, os1) ->
  lib_handle lib <> 0 -> tempLibPath lib <> ""%string ->
  e1 = e0 /\
  MkdirTemp P "" "zstd-lib" = inl (tempLibPath lib) /\
  os_held os1 = Some (a_library (lib_handle lib) ::
                      a_directory (tempLibPath lib) :: live) /\
  exists lib2 os2,
    Zstd_Close Dlclose lib os1 = (lib2, os2, Dlclose (lib_handle lib)) /\
    lib_handle lib2 = 0 /\
    os2 = os_RemoveAll (tempLibPath lib) ::
          os_Dlclose (lib_handle lib) (Dlclose (lib_handle lib)) :: os1 /\
    os_held os2 =
      Some (match Dlclose (lib_handle lib) with
            | None => live
            | Some _ => a_library (lib_handle lib) :: live
            end).
Proof.
  intros Hos Hnew Hh Hd.
  destruct (New_held P E e0 e1 os os1 live lib Hos Hnew)
    as (He & Hmk & Hheld).
  split; [exact He|]. split; [exact Hmk|]. split; [exact Hheld|].
  exact (Zstd_Close_held Dlclose lib os1 live Hheld Hh Hd).
Qed.

(** On a platform where every call succeeds: ten calls in all, nothing
    left. *)
Lemma load_then_Close_releases_everything_witness :
  exists lib os1 lib2 os2,
    New linux_amd64 tt [] = (load_ok lib tt, os1) /\
    lib = mkLibrary 7 "/tmp/zstd-lib1" /\
    Zstd_Close (fun _ => None) lib os1 = (lib2, os2, None) /\
    lib_handle lib2 = 0 /\ List.length os2 = 10%nat /\
    os_held os2 = Some [].
Proof.
  eexists (mkLibrary 7 "/tmp/zstd-lib1"), _.
  assert (H : New linux_amd64 tt [] =
              (load_ok (mkLibrary 7 "/tmp/zstd-lib1") tt,
               [os_Close
                  (embedded_file "libs/linux_amd64_glibc2.17/libzstd.so.1");
                os_Dlopen "/tmp/zstd-lib1/libzstd.so.1" 258 (inl 7);
                os_Chmod "/tmp/zstd-lib1/libzstd.so.1" 493 None;
                os_Close (temp_file "/tmp/zstd-lib1/libzstd.so.1");
                os_Copy "/tmp/zstd-lib1/libzstd.so.1"
                  "libs/linux_amd64_glibc2.17/libzstd.so.1" None;
                os_Create "/tmp/zstd-lib1/libzstd.so.1" None;
                os_Open "libs/linux_amd64_glibc2.17/libzstd.so.1" None;
                os_MkdirTemp "" "zstd-lib" (inl "/tmp/zstd-lib1"%string)]))
    by reflexivity.
  destruct (load_then_Close_releases_everything linux_amd64 (fun _ => None)
              unit tt tt [] _ [] _ eq_refl H
              ltac:(cbn; lia) ltac:(cbn; discriminate))
    as (_ & _ & _ & lib2 & os2 & Hclose & Hz & Hos2 & Hheld).
  exists lib2, os2. split; [exact H|]. split; [reflexivity|].
  split; [exact Hclose|]. split; [exact Hz|].
  split; [rewrite Hos2; reflexivity|exact Hheld].
Defined.

(** ** What the Reader hands to the engine *)

Lemma taken_by_split (i : ZstdInBuffer) (pos' : Z) :
  0 <= iPos i <= pos' -> pos' <= iSize i ->
  taken_by i pos' ++ taken_by (mkIn (Src i) (iSize i) pos') (iSize i) =
  taken_by i (iSize i).
Proof.
  intros H1 H2. unfold taken_by. cbn [iPos Src].
  set (mem := region (Src i)).
  replace (Z.to_nat (iSize i - iPos i))
    with (Z.to_nat (pos' - iPos i) + Z.to_nat (iSize i - pos'))%nat by lia.
  rewrite firstn_plus. f_equal. rewrite skipn_skipn.
  f_equal. f_equal. lia.
Qed.

Section ReaderInput.
Context {E : Type}.
Variable z : Zstd E.
Hypothesis Hin : keeps_input_cursor z.
Variable s0 : list byte.

Lemma r_refill_input (r : Reader) (st : World E (list byte)) :
  source_is_input s0 r st ->
  match r_refill buffer_source r st with
  | (refill_go r2, st2) | (refill_break r2, st2)
  | (refill_return r2 _, st2) =>
      source_is_input s0 r2 st2 /\ r_stream r2 = r_stream r /\
      r_readBuffer r2 = r_readBuffer r
  | (refill_panic, _) => True
  end.
Proof.
  intros ((Hi0 & Hi1 & Hi2) & Hbuf & Heq). unfold r_refill.
  destruct (Z.leb_spec (iSize (r_inBuffer r)) (iPos (r_inBuffer r)))
    as [Hex|Hmore].
  2:{ split; [|split; reflexivity].
      exact (conj (conj Hi0 (conj Hi1 Hi2)) (conj Hbuf Heq)). }
  assert (Hnone : pending r = [])
    by (apply taken_by_nothing; lia).
  rewrite Hnone in Heq. cbn [app] in Heq.
  pose proof (len_nonneg _ (r_buffer r)) as Hb0.
  assert (Hempty : forall r2 (st2 : World E (list byte)),
            r_inBuffer r2 = mkIn nil_pointer 0 0 ->
            len (r_buffer r2) = len (r_buffer r) ->
            consumed (calls st2) = consumed (calls st) ->
            stream_io st2 = stream_io st ->
            source_is_input s0 r2 st2).
  { intros r2 st2 Hi Hl Hc Hio. unfold source_is_input, pending.
    rewrite Hi, Hl, Hc, Hio. split; [|split; [exact Hbuf|exact Heq]].
    unfold in_cursor_ok. cbn. lia. }
  unfold do_source_Read, buffer_source.
  destruct (stream_io st) as [|x s] eqn:Hio.
  - destruct (len (r_buffer r) =? 0); cbn [Z.ltb Z.compare Z.eqb];
      cbv iota beta zeta; (split; [|split; reflexivity]);
      apply Hempty; try reflexivity; cbn [r_buffer set_r_inBuffer set_r_buffer];
      try apply len_overwrite; cbn; now rewrite app_nil_r.
  - cbv beta iota zeta.
    set (n := Z.to_nat (Z.min (len (r_buffer r)) (len (x :: s)))).
    assert (Hnlen : (n <= List.length (x :: s))%nat)
      by (unfold n, len; lia).
    assert (Hncap : Z.of_nat n <= len (r_buffer r)) by (unfold n; lia).
    assert (Hdata : List.length (firstn n (x :: s)) = n)
      by (apply firstn_length_le; exact Hnlen).
    destruct (Z.ltb_spec 0 (Z.of_nat n)) as [Hpos|Hzero].
    + cbn [r_buffer set_r_buffer].
      destruct (overwrite (r_buffer r) (firstn n (x :: s))) as [|b0 l0] eqn:Ho;
        [exact I|].
      rewrite <- Ho. split; [|split; reflexivity].
      unfold source_is_input, pending, taken_by, in_cursor_ok.
      cbn [r_inBuffer r_buffer set_r_inBuffer set_r_buffer iPos iSize Src
           region calls stream_io log with_io consumed].
      rewrite app_nil_r, len_overwrite, u64_small by lia.
      split; [lia|]. split; [exact Hbuf|].
      rewrite Z.sub_0_r, Nat2Z.id. cbn [Z.to_nat skipn].
      rewrite <- Hdata at 1. rewrite firstn_overwrite.
      * rewrite firstn_skipn. exact Heq.
      * rewrite Hdata. unfold len in Hncap. lia.
    + assert (Hn0 : n = 0%nat) by lia. rewrite Hn0.
      cbn [Z.of_nat Z.eqb firstn skipn]. split; [|split; reflexivity].
      apply Hempty; try reflexivity.
      * cbn [r_buffer set_r_inBuffer set_r_buffer]. apply len_overwrite.
      * cbn. now rewrite app_nil_r.
Qed.

(** Changes of the Reader and of the trace that leave the input alone. *)
Lemma source_is_input_same (r r2 : Reader) (st st2 : World E (list byte)) :
  r_inBuffer r2 = r_inBuffer r -> r_buffer r2 = r_buffer r ->
  consumed (calls st2) = consumed (calls st) ->
  stream_io st2 = stream_io st ->
  source_is_input s0 r st -> source_is_input s0 r2 st2.
Proof.
  unfold source_is_input, pending. intros -> -> -> ->. auto.
Qed.

Lemma Read_loop_input (fuel : nat) :
  forall (r : Reader) (st : World E (list byte)),
  source_is_input s0 r st ->
  match Read_loop z buffer_source fuel r st with
  | Done (r', st', _) => source_is_input s0 r' st'
  | _ => True
  end.
Proof.
  induction fuel as [|fuel IH]; intros r st Hinv; cbn [Read_loop];
    destruct ((r_end r =? 0) && negb (r_streamEnded r));
    try exact I; try exact Hinv.
  assert (Hinit : match r_init_stream z r st with
                  | (None, st1) =>
                      source_is_input s0 (set_r_stream 0 r) st1
                  | (Some r1, st1) => source_is_input s0 r1 st1
                  end).
  { unfold r_init_stream. destruct (r_stream r =? 0); [|exact Hinv].
    unfold do_create. destruct (createDStream z (engine st)) as [h e1].
    destruct (h =? 0).
    - revert Hinv. apply source_is_input_same; cbn; auto using app_nil_r.
    - cbn [r_readBuffer set_r_stream].
      destruct (r_readBuffer r); revert Hinv;
        apply source_is_input_same; cbn; auto using app_nil_r. }
  destruct (r_init_stream z r st) as [[r1|] st1]; [|exact Hinit].
  pose proof (r_refill_input r1 st1 Hinit) as Hrefill.
  destruct (r_refill buffer_source r1 st1) as [[r2|r2|r2 e2|] st2];
    [|apply Hrefill|apply Hrefill|exact I].
  destruct Hrefill as (Hinv2 & _ & _).
  destruct (readBuffer_mem r2) as [|m0 mem] eqn:Hm; [exact I|].
  rewrite <- Hm.
  cbn [r_stream r_outBuffer r_inBuffer set_r_outBuffer].
  set (o := mkOut (address_of (readBuffer_mem r2))
              (u64 (len (readBuffer_mem r2))) 0).
  unfold do_decompressStream.
  destruct Hinv2 as ((Hi0 & Hi1 & Hi2) & Hbuf2 & Heq2).
  pose proof (Hin (r_stream r2) o (r_inBuffer r2) (engine st2) Hi0) as Hpos.
  destruct (decompressStream z (r_stream r2) o (r_inBuffer r2) (engine st2))
    as [res e']. cbn [fst] in Hpos.
  set (r4 := r_after_step (as_uint64 res) (set_r_outBuffer o r2)).
  unfold do_isError.
  assert (Hstep : forall (st4 : World E (list byte)) r5,
            r_inBuffer r5 = r_inBuffer r4 -> r_buffer r5 = r_buffer r4 ->
            consumed (calls st4) =
              consumed (calls st2) ++
              taken_by (r_inBuffer r2) (in_pos (as_uint64 res)) ->
            stream_io st4 = stream_io st2 ->
            source_is_input s0 r5 st4).
  { intros st4 r5 Hi Hb Hc Hio. unfold source_is_input, pending.
    rewrite Hi, Hb, Hc, Hio.
    cbn [r4 r_inBuffer r_buffer r_after_step set_r_outBuffer iPos iSize Src
         as_uint64 in_pos].
    rewrite u64_small by lia.
    split; [unfold in_cursor_ok; cbn [iPos iSize Src]; lia|].
    split; [exact Hbuf2|].
    rewrite <- Heq2. unfold pending. rewrite <- app_assoc. f_equal.
    rewrite app_assoc. f_equal.
    apply taken_by_split; lia. }
  clearbody r4.
  destruct (negb (isError z (hint (as_uint64 res)) =? 0)).
  - unfold do_getErrorName. apply Hstep; try reflexivity.
    cbn. now rewrite !app_nil_r.
  - set (r5 := set_r_end (to_int (oPos (r_outBuffer r4))) r4).
    set (st4 := log (call_isError (hint (as_uint64 res))
                       (isError z (hint (as_uint64 res)))) _).
    assert (H5 : source_is_input s0 r5 st4).
    { apply Hstep; try reflexivity. cbn. now rewrite !app_nil_r. }
    clearbody r5 st4.
    destruct (hint (as_uint64 res) =? 0).
    + revert H5. apply source_is_input_same; reflexivity.
    + destruct (0 <? r_end r5); [exact H5|]. apply IH. exact H5.
Qed.

Lemma r_serve_input (p : list byte) (r : Reader) (st : World E (list byte)) :
  source_is_input s0 r st ->
  match r_serve p r st with
  | Done (r', st', _) => source_is_input s0 r' st'
  | _ => True
  end.
Proof.
  intros Hinv. unfold r_serve.
  destruct (slice (readBuffer_mem r) (r_pos r) (r_end r)); [|exact I].
  cbn [copy]. revert Hinv. apply source_is_input_same; reflexivity.
Qed.

Lemma Reader_Read_input (fuel : nat) (p : list byte) (r : Reader)
    (st : World E (list byte)) :
  source_is_input s0 r st ->
  match Reader_Read z buffer_source fuel p r st with
  | Done (r', st', _) => source_is_input s0 r' st'
  | _ => True
  end.
Proof.
  intros Hinv. unfold Reader_Read.
  destruct (r_pos r <? r_end r); [now apply r_serve_input|].
  destruct (r_streamEnded r); [exact Hinv|].
  assert (H0 : source_is_input s0 (set_r_end 0 (set_r_pos 0 r)) st)
    by (revert Hinv; apply source_is_input_same; reflexivity).
  pose proof (Read_loop_input fuel _ st H0) as Hloop.
  destruct (Read_loop z buffer_source fuel _ st)
    as [[[r1 st1] [[n err]|]]| |]; try exact I; [exact Hloop|].
  destruct (r_end r1 =? 0); [destruct (r_streamEnded r1); exact Hloop|].
  now apply r_serve_input.
Qed.

Lemma Reader_Close_input (r : Reader) (st : World E (list byte)) :
  source_is_input s0 r st ->
  source_is_input s0 (fst (fst (Reader_Close z r st)))
    (snd (fst (Reader_Close z r st))).
Proof.
  unfold Reader_Close, do_free.
  destruct (negb (r_stream r =? 0));
    match goal with
    | |- context [negb (r_ctx ?x =? 0)] => destruct (negb (r_ctx x =? 0))
    end; cbn [fst snd]; apply source_is_input_same; cbn;
    auto using app_nil_r; now rewrite !app_nil_r.
Qed.
End ReaderInput.

(** X18.  Over an engine that moves its input cursor forwards inside the
    input it is given, a Reader over a byte buffer hands the engine
    exactly the bytes of that buffer, in their order: along any sequence
    of [Read] and [Close] calls, and whatever each returns, the bytes the
    decompression steps have taken, followed by those the Reader has
    pulled and still holds, followed by those left in the source, are the
    stream as it was.  No compressed byte is dropped, repeated or
    reordered on its way to the engine, also when the source delivers the
    stream in pieces or a step leaves input unread. *)
Theorem engine_receives_source_bytes (E : Type) (z : Zstd E)
    (s0 : list byte) (fuel : nat) (ops : list reader_op) (r r' : Reader)
    (st st' : World E (list byte)) :
  keeps_input_cursor z ->
  source_is_input s0 r st ->
  run_reader z buffer_source fuel ops r st = Done (r', st') ->
  source_is_input s0 r' st'.
Proof.
  intros Hin. revert r st.
  induction ops as [|[p|] ops IH]; intros r st Hinv H; cbn [run_reader] in H.
  - injection H as <- <-. exact Hinv.
  - pose proof (Reader_Read_input z Hin s0 fuel p r st Hinv) as Hstep.
    destruct (Reader_Read z buffer_source fuel p r st)
      as [[[r1 st1] res]| |]; try discriminate.
    exact (IH r1 st1 Hstep H).
  - pose proof (Reader_Close_input z s0 r st Hinv) as Hstep.
    destruct (Reader_Close z r st) as [[r1 st1] res].
    exact (IH r1 st1 Hstep H).
Qed.

Lemma toy_decode_length (u : list byte) :
  forall m : toy_mode, (fst (fst (toy_decode m u)) <= List.length u)%nat.
Proof.
  induction u as [|x u IH]; intros m; [cbn; lia|]. cbn [toy_decode].
  destruct m.
  - destruct (Byte.eqb x x00); [cbn; lia|].
    destruct (Byte.eqb x x01); [|cbn; lia].
    specialize (IH at_data). destruct (toy_decode at_data u) as [[n out] m'].
    cbn in *. lia.
  - specialize (IH at_tag). destruct (toy_decode at_tag u) as [[n out] m'].
    cbn in *. lia.
  - cbn; lia.
  - cbn; lia.
Qed.

(** The reference engine takes its input from where it was left. *)
Lemma toy_keeps_input_cursor : keeps_input_cursor toy.
Proof.
  intros h o i e Hpos. cbn [decompressStream toy].
  unfold toy_decompressStream.
  pose proof (toy_decode_length (unread i) (d_mode e)) as Hn.
  destruct (toy_decode (d_mode e) (unread i)) as [[n out] m].
  cbn [fst] in Hn.
  assert (Hu : (List.length (unread i) <= Z.to_nat (iSize i - iPos i))%nat)
    by (unfold unread; rewrite length_firstn; lia).
  destruct m; cbn [fst in_pos]; lia.
Qed.

(** On the reference engine, a frame of seven bytes pulled four bytes at
    a time: once the payload has been read and the end reported, every
    byte of the frame has gone to the engine. *)
Lemma engine_receives_source_bytes_witness :
  exists r' st',
    run_reader toy buffer_source 9
      [op_Read (make 2); op_Read (make 2); op_Read (make 2); op_rClose]
      small_reader (toy_world [x01; x61; x01; x62; x01; x63; x00]) =
      Done (r', st') /\
    stream_io st' = [] /\
    source_is_input [x01; x61; x01; x62; x01; x63; x00] r' st'.
Proof.
  do 2 eexists. run_and_keep Hrun. split; [reflexivity|].
  refine (engine_receives_source_bytes Toy toy _ 9
            [op_Read (make 2); op_Read (make 2); op_Read (make 2); op_rClose]
            small_reader _
            (toy_world [x01; x61; x01; x62; x01; x63; x00]) _
            toy_keeps_input_cursor _ Hrun).
  split; [unfold in_cursor_ok; cbn; lia|].
  split; [change (4 < 2 ^ 63); lia|reflexivity].
Defined.

(** ** Where the errors of the Writer come from *)

Section WriterErrors.
Context {E S : Type}.
Variable z : Zstd E.
Variable sink : Sink S.

(** X19.  Every error of the Writer has one of three origins, which the
    trace shows.  The session could not be created, in [Write] only: the
    last call is the creation that returned [nil], and the count is 0.
    The engine reported a fault: the error test was positive and the
    message is that of the method followed by the name looked up for the
    code.  The sink failed: the error is the very one the sink returned
    for a non-empty slice, and no step follows it.  [Write] and [Flush]
    stop there and keep the session; [Close] releases the session, before
    it looks up the name of a fault, and then the context it holds. *)
Theorem Writer_error_origin (fuel : nat) (p : list byte) (w w' : Writer)
    (st st' : World E S) (n : Z) (e : error) :
  (Writer_Write z sink fuel p w st = Done (w', st', (n, Some e)) ->
   (e = Errorf "failed to create compression stream" /\ n = 0 /\
    w_stream w' = 0 /\ calls st' = call_createCStream 0 :: calls st) \/
   ((w_stream w' =? 0) = false /\
    ((exists code c older,
        e = Errorf ("compression error: " ++ getErrorName z code) /\
        c <> 0 /\
        calls st' = call_getErrorName code :: call_isError code c :: older) \/
     (exists out k older,
        out <> [] /\ calls st' = sink_Write out k (Some e) :: older)))) /\
  (Writer_Flush z sink fuel w st = Done (w', st', Some e) ->
   (exists code c older,
      e = Errorf ("flush error: " ++ getErrorName z code) /\
      c <> 0 /\
      calls st' = call_getErrorName code :: call_isError code c :: older) \/
   (exists out k older,
      out <> [] /\ calls st' = sink_Write out k (Some e) :: older)) /\
  (Writer_Close z sink fuel w st = Done (w', st', Some e) ->
   w_stream w' = 0 /\ w_ctx w' = 0 /\
   exists ctx_freed,
     (ctx_freed = [] \/ ctx_freed = [call_freeCCtx (w_ctx w)]) /\
     ((exists code c older,
         e = Errorf ("close error: " ++ getErrorName z code) /\
         c <> 0 /\
         calls st' = ctx_freed ++ call_getErrorName code ::
                     call_freeCStream (w_stream w) ::
                     call_isError code c :: older) \/
      (exists out k older,
         out <> [] /\
         calls st' = ctx_freed ++ call_freeCStream (w_stream w) ::
                     sink_Write out k (Some e) :: older))).
Proof.
  split; [|split].
  - unfold Writer_Write. intros H.
    destruct (len p =? 0); [discriminate|].
    destruct (Z.eqb_spec (w_stream w) 0) as [Hs|Hs].
    + unfold do_create in H.
      destruct (createCStream z (engine st)) as [h e1].
      cbn [w_stream set_w_stream] in H.
      destruct (Z.eqb_spec h 0) as [->|Hh].
      * injection H as <- <- <- <-. left. auto.
      * apply Write_loop_error_origin in H as (Hs' & Horigin). right.
        split; [|exact Horigin].
        cbn [w_stream set_w_inBuffer set_w_stream] in Hs'. rewrite Hs'.
        now apply Z.eqb_neq.
    + destruct (Z.eqb_spec (w_stream w) 0) as [|_]; [contradiction|].
      apply Write_loop_error_origin in H as (Hs' & Horigin). right.
      split; [|exact Horigin].
      cbn [w_stream set_w_inBuffer] in Hs'. rewrite Hs'.
      now apply Z.eqb_neq.
  - unfold Writer_Flush. intros H.
    destruct (w_stream w =? 0); [discriminate|].
    now apply Flush_loop_error_origin in H.
  - unfold Writer_Close, Close_body. intros H.
    destruct (w_stream w =? 0).
    { destruct (Close_deferred z w st). discriminate. }
    destruct (Close_loop z sink fuel _ st) as [[[w1 st1] err]| |] eqn:Hloop;
      try discriminate.
    destruct (Close_deferred z w1 st1) as [w2 st2] eqn:Hdef.
    injection H as <- <- ->.
    apply Close_loop_error_origin in Hloop as (Hs1 & Hc1 & Horigin).
    cbn [w_stream w_ctx set_w_inBuffer] in Hc1, Horigin.
    apply Close_deferred_spec in Hdef as (Hc2 & Hs2 & Hcalls).
    split; [congruence|]. split; [exact Hc2|].
    destruct Hcalls as [Hcalls|Hcalls]; rewrite Hcalls.
    + exists []. split; [left; reflexivity|exact Horigin].
    + exists [call_freeCCtx (w_ctx w)]. rewrite Hc1.
      split; [right; reflexivity|].
      destruct Horigin as [(code & c & older & He & Hc & Ht)|
                           (out & k & older & Hne & Ht)]; rewrite Ht.
      * left. exists code, c, older. auto.
      * right. exists out, k, older. auto.
Qed.
End WriterErrors.

(** A sink that fails on the first byte the engine emits: the error of
    [Write] is the one of the sink, and the session stays. *)
Lemma Writer_error_origin_witness :
  exists w1 st1 n,
    Writer_Write (scripted (mkStep 1 1 1 [x61])) (errorWriter (io_error 5)) 3
      [x61] small_writer (world0 [] tt) =
      Done (w1, st1, (n, Some (io_error 5))) /\
    (w_stream w1 =? 0) = false /\
    exists out k older,
      out <> [] /\ calls st1 = sink_Write out k (Some (io_error 5)) :: older.
Proof.
  do 3 eexists. run_and_keep Hrun.
  destruct (proj1 (Writer_error_origin (scripted (mkStep 1 1 1 [x61]))
                     (errorWriter (io_error 5)) 3 [x61] small_writer _
                     (world0 [] tt) _ _ (io_error 5)) Hrun)
    as [(He & _)|(Hs & [(code & c & older & He & _)|Hsink])];
    try discriminate He.
  split; [exact Hs|exact Hsink].
Defined.

(** ** A session through the constructors of the package *)

(** X20.  The streaming example of the package, end to end.  Over an
    engine that keeps the streaming contract (which follows a
    decompression session up to the step that reports the end of its
    frame, and no further), and on platforms where the library loads:
    [NewWriterLevel] over an empty byte buffer, at any level, gives a
    wrapper whose Writer takes a non-empty payload [b] in one [Write];
    [Close] on the wrapper returns no error and leaves the Writer without
    session and context and the instance unloaded; [NewReader] over the
    buffer, on an instance of its own, then delivers [b] and the end of
    the stream to a caller reading with a buffer of any positive size
    that can be allocated; and [Close] on that wrapper leaves the Reader
    without session and context and its instance unloaded.  After each
    [Close] the process holds the directories, files and libraries it held
    before the constructor was called. *)
Theorem package_stream_round_trip (Dlclose : Z -> option error) (E : Type)
    (z : Zstd E) (M : StreamModel E) (P P' : Platform) (b : list byte)
    (level k : Z) (e0 e1 e0' e1' : E) (os os1 os' os1' : list OsCall)
    (live live' : list os_resource) (lib lib' : Library) :
  StreamCodec z M ->
  b <> [] -> len b < 2 ^ 63 -> 0 < k <= maxAlloc ->
  os_held os = Some live ->
  New P e0 os = (load_ok lib e1, os1) ->
  lib_handle lib <> 0 -> tempLibPath lib <> ""%string ->
  Dlclose (lib_handle lib) = None ->
  os_held os' = Some live' ->
  New P' e0' os' = (load_ok lib' e1', os1') ->
  lib_handle lib' <> 0 -> tempLibPath lib' <> ""%string ->
  Dlclose (lib_handle lib') = None ->
  exists w st,
    package_NewWriterLevel z P e0 [] level os = (Some (w, st, lib), None, os1) /\
    exists f1 w1 st1,
      Writer_Write z buffer_sink f1 b w st = Done (w1, st1, (len b, None)) /\
      exists f2 w2 st2 lib2 os2,
        writeCloserWrapper_Close Dlclose z buffer_sink f2 w1 st1 lib os1 =
          Done (w2, st2, lib2, os2, None) /\
        w_stream w2 = 0 /\ w_ctx w2 = 0 /\ lib_handle lib2 = 0 /\
        os_held os2 = Some live /\
        exists r st3,
          package_NewReader z P' e0' (stream_io st2) os' =
            (Some (r, st3, lib'), None, os1') /\
          exists rounds f3 r1 st4,
            read_all z buffer_source rounds f3 k [] r st3 =
              Done (r1, st4, (b, None)) /\
            exists r2 st5 lib2' os2',
              readCloserWrapper_Close Dlclose z r1 st4 lib' os1' =
                (r2, st5, lib2', os2', None) /\
              r_stream r2 = 0 /\ r_ctx r2 = 0 /\ lib_handle lib2' = 0 /\
              os_held os2' = Some live'.
Proof.
  intros C Hne Hb [Hk _] Hos Hnew Hh Hd Hdl Hos' Hnew' Hh' Hd' Hdl'.
  destruct (New_held P E e0 e1 os os1 live lib Hos Hnew)
    as (-> & _ & Hheld).
  destruct (New_held P' E e0' e1' os' os1' live' lib' Hos' Hnew')
    as (-> & _ & Hheld').
  unfold package_NewWriterLevel, package_NewReader. rewrite Hnew, Hnew'.
  set (st0 := mkWorld e0 ([] : list byte) []).
  destruct (NewWriter z level st0) as [w st] eqn:HW.
  exists w, st. split; [reflexivity|].
  pose proof (NewWriter_writing z M level st0 eq_refl) as Hw.
  rewrite HW in Hw. cbn [fst snd] in Hw.
  destruct (Writer_Write_writing z M C b [] _ _ Hw Hb)
    as (f1 & w1 & st1 & Hwrite & Hw1).
  exists f1, w1, st1. split; [exact Hwrite|]. cbn [app] in Hw1.
  destruct Hw1 as [Hbuf [(_ & Hnil & _)|[Hs Hcs]]]; [contradiction|].
  destruct (Writer_Close_ok z M C b false w1 st1 (conj Hbuf Hs) Hcs)
    as (f2 & w2 & st2 & Hclose & Hs2 & Hc2 & Hframe).
  destruct (Zstd_Close_held Dlclose lib os1 live Hheld Hh Hd)
    as (lib2 & os2 & Hzc & Hl2 & _ & Hheld2).
  rewrite Hdl in Hzc, Hheld2.
  exists f2, w2, st2, lib2, os2. split.
  { unfold writeCloserWrapper_Close. rewrite Hclose, Hzc. reflexivity. }
  split; [exact Hs2|]. split; [exact Hc2|]. split; [exact Hl2|].
  split; [exact Hheld2|].
  set (st0' := mkWorld e0' (stream_io st2) []).
  destruct (NewReader z st0') as [r st3] eqn:HR.
  exists r, st3. split; [reflexivity|].
  destruct (NewReader_unused z st0') as [Hr Hio]. rewrite HR in Hr, Hio.
  cbn [fst snd] in Hr, Hio. cbn [st0' stream_io] in Hio.
  rewrite <- Hio in Hframe.
  destruct (read_back_ok z M C b r st3 k Hr Hframe Hk) as (r1 & st4 & Hread).
  do 2 eexists. exists r1, st4. split; [exact Hread|].
  destruct (Reader_Close z r1 st4) as [[r2 st5] err] eqn:Hrc.
  destruct (Reader_Close_spec z r1 r2 st4 st5 err Hrc) as (-> & Hs5 & Hc5 & _).
  destruct (Zstd_Close_held Dlclose lib' os1' live' Hheld' Hh' Hd')
    as (lib2' & os2' & Hzc' & Hl2' & _ & Hheld2').
  rewrite Hdl' in Hzc', Hheld2'.
  exists r2, st5, lib2', os2'. split.
  { unfold readCloserWrapper_Close. rewrite Hrc, Hzc'. reflexivity. }
  auto.
Qed.

(** On the reference engine and a platform where every call succeeds,
    with [NewWriter], which is [NewWriterLevel] at the default level, and
    a payload of two bytes read back two bytes at a time. *)
Lemma package_stream_round_trip_witness :
  exists w st,
    package_NewWriter toy linux_amd64 toy0 [] [] =
      (Some (w, st, mkLibrary 7 "/tmp/zstd-lib1"), None,
       snd (New linux_amd64 toy0 [])) /\
    exists f1 w1 st1,
      Writer_Write toy buffer_sink f1 [x61; x62] w st =
        Done (w1, st1, (len [x61; x62], None)) /\
      exists f2 w2 st2 lib2 os2,
        writeCloserWrapper_Close (fun _ => None) toy buffer_sink f2 w1 st1
          (mkLibrary 7 "/tmp/zstd-lib1") (snd (New linux_amd64 toy0 [])) =
          Done (w2, st2, lib2, os2, None) /\
        w_stream w2 = 0 /\ w_ctx w2 = 0 /\ lib_handle lib2 = 0 /\
        os_held os2 = Some [] /\
        exists r st3,
          package_NewReader toy linux_amd64 toy0 (stream_io st2) [] =
            (Some (r, st3, mkLibrary 7 "/tmp/zstd-lib1"), None,
             snd (New linux_amd64 toy0 [])) /\
          exists rounds f3 r1 st4,
            read_all toy buffer_source rounds f3 2 [] r st3 =
              Done (r1, st4, ([x61; x62], None)) /\
            exists r2 st5 lib2' os2',
              readCloserWrapper_Close (fun _ => None) toy r1 st4
                (mkLibrary 7 "/tmp/zstd-lib1")
                (snd (New linux_amd64 toy0 [])) =
                (r2, st5, lib2', os2', None) /\
              r_stream r2 = 0 /\ r_ctx r2 = 0 /\ lib_handle lib2' = 0 /\
              os_held os2' = Some [].
Proof.
  apply (package_stream_round_trip (fun _ => None) Toy toy toy_model
           linux_amd64 linux_amd64 [x61; x62] DefaultCompression 2
           toy0 toy0 toy0 toy0 [] (snd (New linux_amd64 toy0 []))
           [] (snd (New linux_amd64 toy0 [])) [] []
           (mkLibrary 7 "/tmp/zstd-lib1") (mkLibrary 7 "/tmp/zstd-lib1")
           toy_stream_codec).
  - discriminate.
  - vm_compute. reflexivity.
  - unfold maxAlloc. lia.
  - reflexivity.
  - reflexivity.
  - cbn; lia.
  - cbn; discriminate.
  - reflexivity.
  - reflexivity.
  - reflexivity.
  - cbn; lia.
  - cbn; discriminate.
  - reflexivity.
Defined.

(** ** What the Reader hands to its caller *)

Section ReaderOutput.
Context {E S : Type}.
Variable z : Zstd E.
Variable source : Source S.
Hypothesis Hcount : counts_its_decoded_output z.
Variable base : list byte.

(** Nothing is staged in a Reader whose positions are both 0. *)
Lemma staged_none (r : Reader) (g : list byte) :
  r_pos r = 0 -> r_end r = 0 -> staged r g -> g = [].
Proof.
  intros Hp He [_ H]. rewrite Hp, He in H. exact H.
Qed.

Lemma Read_loop_decoded (fuel : nat) :
  forall (r : Reader) (st : World E S) (acc : list byte),
  r_pos r = 0 -> r_end r = 0 ->
  delivered_is_decoded z base acc r st ->
  match Read_loop z source fuel r st with
  | Done (r', st', res) =>
      r_pos r' = 0 /\ delivered_is_decoded z base acc r' st' /\
      0 <= r_end r' /\
      (forall n e, res = Some (n, e) -> n = 0 /\ r_end r' = 0)
  | _ => True
  end.
Proof.
  induction fuel as [|fuel IH]; intros r st acc Hp He Hinv;
    cbn [Read_loop]; rewrite He; cbn [Z.eqb andb];
    destruct (r_streamEnded r); cbn [negb];
    try exact I;
    try (split; [exact Hp|split; [exact Hinv|split; [lia|discriminate]]]).
  destruct Hinv as (Hlen & g & Hst & Hacc).
  assert (Hg : g = []) by (apply (staged_none r); assumption). subst g.
  rewrite app_nil_r in Hacc.
  (* the session and the read buffer *)
  assert (Hinit : match r_init_stream z r st with
                  | (None, st1) => decoded z (calls st1) = decoded z (calls st)
                  | (Some r1, st1) =>
                      decoded z (calls st1) = decoded z (calls st) /\
                      len (readBuffer_mem r1) < 2 ^ 63 /\
                      r_pos r1 = 0 /\ r_end r1 = 0
                  end).
  { unfold r_init_stream. destruct (r_stream r =? 0); [|auto].
    unfold do_create. destruct (createDStream z (engine st)) as [h e1].
    destruct (h =? 0); [reflexivity|].
    cbn [r_readBuffer set_r_stream].
    destruct (r_readBuffer r) as [|l] eqn:Hl.
    - unfold readBuffer_mem.
      cbn [r_readBuffer r_pos r_end set_r_readBuffer set_r_stream calls log
           with_engine decoded].
      rewrite len_make by (unfold defaultReadBufferSize; lia).
      unfold defaultReadBufferSize. repeat split; auto; lia.
    - unfold readBuffer_mem in *.
      cbn [r_readBuffer r_pos r_end set_r_stream calls log with_engine
           decoded]. rewrite Hl in *. auto. }
  destruct (r_init_stream z r st) as [[r1|] st1].
  2:{ split; [exact Hp|].
      split; [|split; [cbn [r_end set_r_stream]; lia|
                       intros n e Hr; injection Hr as <- _; auto]].
      split; [exact Hlen|]. exists []. split.
      - split; [cbn; lia|]. cbn [r_pos r_end set_r_stream].
        rewrite Hp, He. reflexivity.
      - rewrite app_nil_r, Hinit. exact Hacc. }
  destruct Hinit as (Hd1 & Hl1 & Hp1 & He1).
  (* the refill *)
  assert (Hrefill : match r_refill source r1 st1 with
                    | (refill_panic, _) => True
                    | (refill_go r2, st2) | (refill_break r2, st2)
                    | (refill_return r2 _, st2) =>
                        decoded z (calls st2) = decoded z (calls st1) /\
                        r_readBuffer r2 = r_readBuffer r1 /\
                        r_pos r2 = 0 /\ r_end r2 = 0
                    end).
  { unfold r_refill.
    destruct (iSize (r_inBuffer r1) <=? iPos (r_inBuffer r1)); [|auto].
    unfold do_source_Read.
    destruct (source (len (r_buffer r1)) (stream_io st1))
      as [[[n data] err] s2].
    cbn [r_buffer set_r_buffer].
    destruct (0 <? n).
    - destruct (overwrite (r_buffer r1) data) as [|b0 l0]; [exact I|].
      destruct err as [[| |]|]; cbn; auto.
    - destruct err as [[| |]|]; try destruct (n =? 0); cbn; auto. }
  assert (Hquiet : forall (r2 : Reader) (st2 : World E S),
            decoded z (calls st2) = decoded z (calls st1) ->
            r_readBuffer r2 = r_readBuffer r1 ->
            r_pos r2 = 0 -> r_end r2 = 0 ->
            delivered_is_decoded z base acc r2 st2).
  { intros r2 st2 Hd2 Hrb2 Hp2 He2. split.
    - unfold readBuffer_mem in *. rewrite Hrb2. exact Hl1.
    - exists []. split; [split; [lia|rewrite Hp2, He2; reflexivity]|].
      rewrite app_nil_r, Hd2, Hd1. exact Hacc. }
  destruct (r_refill source r1 st1) as [[r2|r2|r2 e2|] st2];
    [| | |exact I].
  2:{ destruct Hrefill as (Hd2 & Hrb2 & Hp2 & He2).
      split; [exact Hp2|]. split; [now apply Hquiet|].
      split; [lia|discriminate]. }
  2:{ destruct Hrefill as (Hd2 & Hrb2 & Hp2 & He2).
      split; [exact Hp2|]. split; [now apply Hquiet|].
      split; [lia|]. intros n e Hr. injection Hr as <- _. auto. }
  destruct Hrefill as (Hd2 & Hrb2 & Hp2 & He2).
  assert (Hm2 : readBuffer_mem r2 = readBuffer_mem r1)
    by (unfold readBuffer_mem; now rewrite Hrb2).
  rewrite Hm2.
  destruct (readBuffer_mem r1) as [|m0 mem] eqn:Hm; [exact I|].
  rewrite <- Hm in *.
  (* the step *)
  cbn [r_stream r_outBuffer r_inBuffer set_r_outBuffer].
  unfold do_decompressStream.
  set (o := mkOut (address_of (readBuffer_mem r1))
              (u64 (len (readBuffer_mem r1))) 0).
  pose proof (len_nonneg _ (readBuffer_mem r1)) as Hl0.
  assert (Hsz : u64 (len (readBuffer_mem r1)) = len (readBuffer_mem r1))
    by (apply u64_small; lia).
  pose proof (Hcount (r_stream r2) o (r_inBuffer r2) (engine st2)
                eq_refl ltac:(cbn [oSize o]; lia)) as Hout.
  destruct (decompressStream z (r_stream r2) o (r_inBuffer r2) (engine st2))
    as [res e']. cbn [fst] in Hout. cbn [oSize o] in Hout.
  rewrite Hsz in Hout.
  unfold do_isError.
  set (r4 := r_after_step (as_uint64 res) (set_r_outBuffer o r2)).
  assert (H4 : readBuffer_mem r4 =
               overwrite (readBuffer_mem r1) (written res) /\
               r_pos r4 = 0 /\ r_end r4 = 0 /\
               oPos (r_outBuffer r4) = u64 (out_pos res)).
  { unfold r4. change (readBuffer_mem (r_after_step _ (set_r_outBuffer o r2)))
      with (overwrite (readBuffer_mem r2) (written (as_uint64 res))).
    rewrite Hm2. cbn. auto. }
  clearbody r4. destruct H4 as (Hm4 & Hp4 & He4 & Ho4).
  destruct (Z.eqb_spec (isError z (hint (as_uint64 res))) 0) as [Hok|Hfault];
    cbn [negb].
  - (* no fault *)
    destruct (Hout Hok) as (Hpos & Hfit).
    pose proof (len_nonneg _ (written res)) as Hw0.
    set (r5 := set_r_end (to_int (oPos (r_outBuffer r4))) r4).
    set (st4 := log (call_isError (hint (as_uint64 res))
                       (isError z (hint (as_uint64 res)))) _).
    assert (H5 : r_pos r5 = 0 /\ r_end r5 = len (written res) /\
                 delivered_is_decoded z base (acc ++ []) r5 st4 /\
                 delivered_is_decoded z base acc r5 st4).
    { assert (Hend : r_end r5 = len (written res)).
      { unfold r5. cbn [r_end set_r_end]. rewrite Ho4, Hpos.
        rewrite u64_small, to_int_small by lia. reflexivity. }
      assert (Hmem5 : readBuffer_mem r5 =
                      overwrite (readBuffer_mem r1) (written res))
        by exact Hm4.
      assert (Hinv5 : delivered_is_decoded z base acc r5 st4).
      { split; [rewrite Hmem5, len_overwrite; exact Hl1|].
        exists (written res). split.
        - split; [unfold r5; cbn [r_pos set_r_end]; lia|].
          replace (r_pos r5) with 0 by (symmetry; exact Hp4).
          rewrite Hend, Hmem5.
          destruct (Z.ltb_spec 0 (len (written res))) as [Hlt|Hge].
          + apply slice_overwrite. exact Hfit.
          + apply len_zero_nil. lia.
        - unfold st4.
          cbn [calls log with_engine decoded as_uint64 hint written].
          cbn [as_uint64 hint] in Hok. rewrite Hok. cbn [Z.eqb].
          rewrite Hd2, Hd1, app_assoc, <- Hacc. reflexivity. }
      split; [exact Hp4|]. split; [exact Hend|].
      split; [rewrite app_nil_r|]; exact Hinv5. }
    clearbody r5 st4. destruct H5 as (Hp5 & He5 & _ & Hinv5).
    destruct (hint (as_uint64 res) =? 0).
    + split; [exact Hp5|]. split; [|split; [cbn; lia|discriminate]].
      destruct Hinv5 as (Hl5 & g & Hst5 & Hacc5).
      split; [exact Hl5|]. exists g. split; [exact Hst5|exact Hacc5].
    + destruct (Z.ltb_spec 0 (r_end r5)) as [Hlt|Hge].
      * split; [exact Hp5|]. split; [exact Hinv5|].
        split; [lia|discriminate].
      * apply IH; [exact Hp5|lia|exact Hinv5].
  - (* a fault *)
    unfold do_getErrorName. split; [exact Hp4|].
    split; [|split; [cbn [r_end set_r_streamEnded]; lia|
                     intros n e Hr; injection Hr as <- _; auto]].
    split.
    + change (readBuffer_mem (set_r_streamEnded true r4))
        with (readBuffer_mem r4). rewrite Hm4, len_overwrite. exact Hl1.
    + exists []. split.
      * split; [cbn [r_pos set_r_streamEnded]; lia|].
        cbn [r_pos r_end set_r_streamEnded]. rewrite Hp4, He4. reflexivity.
      * cbn [calls log with_engine decoded as_uint64 hint written].
        cbn [as_uint64 hint] in Hfault.
        destruct (Z.eqb_spec (isError z (u64 (hint res))) 0) as [|_];
          [contradiction|].
        rewrite !app_nil_r, Hd2, Hd1. exact Hacc.
Qed.

(** Serving staged bytes: what the caller gets is the head of what was
    staged, and the rest stays staged. *)
Lemma r_serve_delivers (p g : list byte) (r : Reader) (st : World E S) :
  staged r g -> r_pos r < r_end r ->
  exists n p',
    r_serve p r st = Done (set_r_pos (r_pos r + n) r, st, (n, p', None)) /\
    0 <= n /\
    firstn (Z.to_nat n) p' = firstn (Z.to_nat n) g /\
    staged (set_r_pos (r_pos r + n) r) (skipn (Z.to_nat n) g).
Proof.
  intros [Hp0 Hst] Hlt.
  destruct (Z.ltb_spec (r_pos r) (r_end r)) as [_|Hge]; [|lia].
  unfold r_serve. rewrite Hst. unfold copy.
  pose proof Hst as Hslice. unfold slice in Hslice.
  destruct ((0 <=? r_pos r) && (r_pos r <=? r_end r) &&
            (r_end r <=? len (readBuffer_mem r))) eqn:Hc; [|discriminate].
  apply andb_prop in Hc as [Hc Hc3]. apply andb_prop in Hc as [Hc1 Hc2].
  apply Z.leb_le in Hc1, Hc2, Hc3. injection Hslice as Hg.
  assert (Hlg : len g = r_end r - r_pos r).
  { rewrite <- Hg. unfold len in *. rewrite length_firstn, length_skipn. lia. }
  pose proof (len_nonneg _ p) as Hlp.
  set (n := Z.min (len p) (len g)).
  exists n, (overwrite p g). split; [reflexivity|].
  split; [unfold n; lia|].
  split.
  { unfold overwrite. rewrite firstn_firstn.
    replace (Nat.min (Z.to_nat n) (List.length p)) with (Z.to_nat n)
      by (unfold n, len; lia).
    rewrite firstn_app.
    replace (Z.to_nat n - List.length g)%nat with O by (unfold n, len; lia).
    cbn [firstn]. apply app_nil_r. }
  unfold staged. cbn [r_pos r_end set_r_pos].
  split; [unfold n; lia|].
  change (readBuffer_mem (set_r_pos (r_pos r + n) r))
    with (readBuffer_mem r).
  destruct (Z.ltb_spec (r_pos r + n) (r_end r)) as [Hmore|Hall].
  - unfold slice.
    destruct (Z.leb_spec 0 (r_pos r + n)); [|unfold n in *; lia].
    destruct (Z.leb_spec (r_pos r + n) (r_end r)); [|lia].
    destruct (Z.leb_spec (r_end r) (len (readBuffer_mem r))); [|lia].
    cbn [andb]. f_equal. rewrite <- Hg.
    rewrite skipn_firstn_swap, skipn_skipn.
    replace (Z.to_nat n + Z.to_nat (r_pos r))%nat
      with (Z.to_nat (r_pos r + n)) by (unfold n in *; lia).
    f_equal. unfold n in *. lia.
  - apply skipn_all2. unfold len in *. unfold n in *. lia.
Qed.

Lemma r_serve_decoded (p : list byte) (r r' : Reader) (st st' : World E S)
    (acc : list byte) (n : Z) (p' : list byte) (err : option error) :
  r_pos r < r_end r ->
  delivered_is_decoded z base acc r st ->
  r_serve p r st = Done (r', st', (n, p', err)) ->
  err = None /\
  delivered_is_decoded z base (acc ++ firstn (Z.to_nat n) p') r' st'.
Proof.
  intros Hlt (Hlen & g & Hst & Hacc) Hrun.
  destruct (r_serve_delivers p g r st Hst Hlt)
    as (n0 & p0 & Hserve & Hn & Hfirst & Hrest).
  rewrite Hserve in Hrun. injection Hrun as <- <- <- <- <-.
  split; [reflexivity|]. split; [exact Hlen|].
  exists (skipn (Z.to_nat n0) g). split; [exact Hrest|].
  rewrite Hfirst, <- app_assoc, firstn_skipn. exact Hacc.
Qed.

(** One call of [Read]; when it returns an error nothing is left
    staged. *)
Lemma Reader_Read_decoded (fuel : nat) (p : list byte) (r r' : Reader)
    (st st' : World E S) (acc : list byte) (n : Z) (p' : list byte)
    (err : option error) :
  delivered_is_decoded z base acc r st ->
  Reader_Read z source fuel p r st = Done (r', st', (n, p', err)) ->
  delivered_is_decoded z base (acc ++ firstn (Z.to_nat n) p') r' st' /\
  (err <> None ->
   acc ++ firstn (Z.to_nat n) p' = base ++ decoded z (calls st')).
Proof.
  intros Hinv Hrun. unfold Reader_Read in Hrun.
  destruct (Z.ltb_spec (r_pos r) (r_end r)) as [Hlt|Hge].
  { destruct (r_serve_decoded p r r' st st' acc n p' err Hlt Hinv Hrun)
      as (-> & Hinv'). split; [exact Hinv'|congruence]. }
  assert (Hnone : forall g, staged r g -> g = []).
  { intros g [_ Hg]. destruct (Z.ltb_spec (r_pos r) (r_end r)); [lia|].
    exact Hg. }
  destruct (r_streamEnded r).
  { injection Hrun as <- <- <- <- <-. cbn [firstn Z.to_nat].
    rewrite app_nil_r. split; [exact Hinv|]. intros _.
    destruct Hinv as (_ & g & Hst & Hacc).
    rewrite (Hnone g Hst), app_nil_r in Hacc. exact Hacc. }
  assert (H0 : delivered_is_decoded z base acc (set_r_end 0 (set_r_pos 0 r))
                 st).
  { destruct Hinv as (Hlen & g & Hst & Hacc). split; [exact Hlen|].
    exists []. split; [split; [cbn; lia|reflexivity]|].
    rewrite (Hnone g Hst) in Hacc. exact Hacc. }
  pose proof (Read_loop_decoded fuel (set_r_end 0 (set_r_pos 0 r)) st acc
                eq_refl eq_refl H0) as Hloop.
  destruct (Read_loop z source fuel _ st) as [[[r1 st1] res]| |];
    try discriminate.
  destruct Hloop as (Hp1 & Hinv1 & He1pos & Hres).
  assert (Hdone : r_end r1 = 0 ->
            acc = base ++ decoded z (calls st1)).
  { intros He1. destruct Hinv1 as (_ & g & Hst & Hacc).
    rewrite (staged_none r1 g Hp1 He1 Hst), app_nil_r in Hacc. exact Hacc. }
  destruct res as [[n0 err0]|].
  - injection Hrun as <- <- <- <- <-.
    destruct (Hres n0 err0 eq_refl) as (-> & He1).
    cbn [firstn Z.to_nat]. rewrite app_nil_r.
    split; [exact Hinv1|]. intros _. now apply Hdone.
  - destruct (Z.eqb_spec (r_end r1) 0) as [He1|Hne].
    + assert (Hrun' : (r', st', (n, p', err)) =
                      (r1, st1, (0, p, if r_streamEnded r1
                                       then Some io_EOF else None))).
      { destruct (r_streamEnded r1); injection Hrun as <- <- <- <- <-;
          reflexivity. }
      injection Hrun' as -> -> -> -> ->. cbn [firstn Z.to_nat].
      rewrite app_nil_r. split; [exact Hinv1|]. intros _. now apply Hdone.
    + assert (Hlt : r_pos r1 < r_end r1) by lia.
      destruct (r_serve_decoded p r1 r' st1 st' acc n p' err Hlt Hinv1 Hrun)
        as (-> & Hinv'). split; [exact Hinv'|congruence].
Qed.

End ReaderOutput.

(** X21.  Over an engine whose decompression steps count their output,
    the caller of [Read] receives exactly what the engine has produced.
    Reading a Reader to its end with buffers of any size, over any source,
    collects the bytes that the decompression steps have written without a
    fault, in their order, whether the reading stops at the end of the
    stream or at an error: the Reader adds nothing to the output of the
    engine, and drops, repeats and reorders nothing.  The output of a step
    that reports a fault is not delivered. *)
Theorem caller_receives_engine_output (E S : Type) (z : Zstd E)
    (source : Source S) (base acc : list byte) (rounds fuel : nat) (k : Z)
    (r r' : Reader) (st st' : World E S) (out : list byte)
    (err : option error) :
  counts_its_decoded_output z ->
  delivered_is_decoded z base acc r st ->
  read_all z source rounds fuel k acc r st = Done (r', st', (out, err)) ->
  out = base ++ decoded z (calls st').
Proof.
  intros Hcount. revert acc r st.
  induction rounds as [|rounds IH]; intros acc r st Hinv Hrun;
    cbn [read_all] in Hrun; [discriminate|].
  destruct (Reader_Read z source fuel (make k) r st)
    as [[[r1 st1] [[n p'] e]]| |] eqn:Hread; try discriminate.
  destruct (Reader_Read_decoded z source Hcount base fuel (make k) r r1 st
              st1 acc n p' e Hinv Hread) as (Hinv1 & Herr).
  destruct e as [[| |]|].
  - injection Hrun as <- <- <- <-. apply Herr. discriminate.
  - injection Hrun as <- <- <- <-. apply Herr. discriminate.
  - injection Hrun as <- <- <- <-. apply Herr. discriminate.
  - exact (IH _ _ _ Hinv1 Hrun).
Qed.

(** The reference engine counts what it decodes. *)
Lemma toy_counts_its_decoded_output : counts_its_decoded_output toy.
Proof.
  intros h o i e Hpos Hsize. cbn [decompressStream toy].
  unfold toy_decompressStream.
  destruct (toy_decode (d_mode e) (unread i)) as [[n out] m].
  destruct m; cbv zeta; cbn [fst out_pos written hint isError toy];
    try (intros _; rewrite Hpos, Z.sub_0_r;
         match goal with |- context [Z.min _ (len ?q)] =>
           pose proof (len_nonneg _ q); generalize dependent q
         end;
         intros q Hq; unfold len in *; rewrite length_firstn; lia).
  intros H. exfalso. revert H. vm_compute. discriminate.
Qed.

(** On the reference engine, a frame of seven bytes read two bytes at a
    time through four-byte buffers. *)
Lemma caller_receives_engine_output_witness :
  exists r' st',
    read_all toy buffer_source 4 4 2 [] small_reader
      (toy_world [x01; x61; x01; x62; x01; x63; x00]) =
      Done (r', st', ([x61; x62; x63], None)) /\
    [x61; x62; x63] = [] ++ decoded toy (calls st').
Proof.
  do 2 eexists. run_and_keep Hrun.
  refine (caller_receives_engine_output Toy (list byte) toy buffer_source
            [] [] 4 4 2 small_reader _
            (toy_world [x01; x61; x01; x62; x01; x63; x00]) _ _ None
            toy_counts_its_decoded_output _ Hrun).
  split; [change (4 < 2 ^ 63); lia|].
  exists []. split; [split; [cbn; lia|reflexivity]|reflexivity].
Defined.
